(* ===== verification/_CoqProject ===== *)
-Q . S2P
Prelude.v
Bytes.v
GoIO.v
Pcapio.v
Crc.v
Proto.v
Os.v
Keeps.v
Durable.v
Dir.v
Runs.v
Json.v
Manifest.v
Recover.v
Spool.v
Janitor.v
Reader.v
SpoolSpec.v
SpoolProof.v
RecoverProof.v
RestartProof.v
SpoolProps.v
Blind.v
Retention.v
ReapProof.v
RetentionProps.v
ReaderProof.v
TailProof.v
TailProps.v
Lag.v
LagProps.v
Keylog.v
Conn.v
Noise.v
Keys.v
NoiseProps.v
Streamer.v
StreamerProof.v
KeylogProps.v
Mirror.v
MirrorSpec.v
MirrorProof.v
MirrorProps.v
FanOut.v
FanOutProps.v
Limits.v
Metrics.v
Net.v
Excluder.v
ExcluderProof.v
Systemd.v
Demux.v
DemuxProof.v
DemuxProps.v
EpochProof.v
EpochProps.v
Capture.v
CaptureProof.v
CaptureProps.v
Serve.v
ServeProof.v
ServeOpen.v
ServeSystem.v
ServeProps.v
EndToEnd.v
Config.v
Session.v
SessionProps.v
CollectorProps.v
GoPath.v
Tls.v
TlsProps.v
Reconcile.v
ReconcileProps.v
Merge.v
MergeProps.v
Cli.v
