(* ===== verification/Prelude.v ===== *)
(** * ipcap: durable, resumable PCAP-over-IP transport

    ** The program

    An agent on a vulnbox captures packets into a spool on disk and serves the
    spool to collectors over an authenticated link; a collector keeps a mirror of
    the spool on its own disk and fans it out to local clients as a libpcap stream.
    Every packet has a number, its gpidx.  A collector that reconnects asks for the
    gpidx behind its last durable packet, so that over crashes of either host no
    packet that the agent's disk kept is lost or delivered twice.  A third process
    hooks the TLS libraries of containers and collects session keys, which travel
    over the same link.

    The directory holds a shallow embedding of the Go code under src/internal, of
    keygen and of the flags in src/cmd/ipcap/main.go: Go structs are records,
    functions and methods are functions with the names they have in the source,
    integers are [Z] with the wrap-around of their width written out, byte slices
    and strings are [list byte], maps are [gmap], loops are structural or have
    fuel.  Code that calls the operating system is written in the monad of Os,
    which passes the object, a directory and scripts for faults, clock and random
    source; an error is the outcome [Fail], the death of the process [Crashed].

    ** Files

    Shared: Prelude (errors, results, machine integers, automation), Bytes, GoIO,
    Net, Json, GoPath (what the code uses of the standard library), Crc, Os (files,
    faults, crashes, the logic [wp]), Keeps, Durable, Dir, Runs (runs, simulations,
    executions), Conn (the writing side of a connection).

    Formats: Pcapio (pcapio/pcapio.go), Durable (pcapio/durable.go), Proto
    (proto/*.go), Manifest (spool/manifest.go), Keylog (keylog/keylog.go and the
    collector's keylog file), Metrics (metrics/metrics.go, collector/metrics.go).

    Spool: Recover, Spool, Janitor (janitor.go, epoch.go), Reader are the code;
    SpoolSpec says what a directory holds, SpoolProof, RecoverProof, RestartProof,
    ReaderProof, TailProof, EpochProof go through the operations, and SpoolProps,
    TailProps, EpochProps have the theorems.  Retention: Blind (what the writer does
    not look at), Retention (a directory whose oldest segments are gone), ReapProof
    (the operation) and RetentionProps; Lag and LagProps for a reader beside it.

    Agent: Excluder (capture/bpf.go) with ExcluderProof; Capture
    (agent/capture_cmd.go, recover_cmd.go, capture/source.go, pcapfile.go,
    afpacket_linux.go) with CaptureProof and CaptureProps; Systemd
    (systemd/notify.go); Streamer (the framing of serve_cmd.go, keylog.go,
    stats.go) with StreamerProof and KeylogProps; Serve (the loop of serve_cmd.go)
    with ServeProof, ServeOpen, ServeSystem and ServeProps.

    Link: Noise (transport/noise.go) with NoiseProps, Keys (transport/keys.go and
    keygen), Session (agent/listen_cmd.go, collector/collector.go) with
    SessionProps, Config (config/config.go), Cli (cmd/ipcap/main.go).

    Collector: Mirror (collector/mirror.go) with MirrorSpec, MirrorProof and
    MirrorProps; Demux (collector/demux.go) with DemuxProof and DemuxProps;
    CollectorProps for the process; FanOut (pcapoverip/server.go) with FanOutProps.

    TLS keys: Tls (tls/config.go, discover.go, hooker.go) with TlsProps, Reconcile
    and Merge (tls/reconcile.go) with ReconcileProps and MergeProps.

    EndToEnd composes the agent's side with the collector's.  Limits executes what
    the conditions of the runs leave out.

    ** How the parts interact

    RunCapture writes the directory of the spool through [Spool.WritePacket],
    [Tick] and [Janitor.Reap]; RunServe reads the same directory through
    [Reader.Next] in another process.  They share nothing but the files: the
    systems of TailProps, LagProps and ServeSystem run them on one directory, one
    operation at a time.  What RunServe writes is a stream of bytes; [Demux.Run] reads such a
    stream, cut anywhere, and calls the operations of [Mirror].  A client of the
    fan-out sees the published [Mirror.Snapshot] and the session file.

    ** What the theorems show

    - Spool: runs of the writer refine an abstract log ([spool_refines_log]); what
      was advertised stays ([spool_advertised_forever]); operations without faults
      succeed ([spool_makes_progress]).  A reader beside it returns that log
      ([reader_follows_log]) and does not get stuck ([reader_makes_progress]).  The
      instance id survives ([epoch_survives]).
    - Retention: with [Reap] the log loses packets at its old end only, as long as
      the deletions leave one of the sealed segments ([RetentionProps.spared],
      [retention_refines_log]).  When they leave none, a restart numbers packets
      from 0 again ([reap_all_reissues_gpidx]).  A reader beside it returns the
      packets that are left, in order, fails only when retention has gone past its
      position ([reader_beside_retention]) and can then start at the oldest packet
      ([lagging_reader_resumes]).
    - Capture: the process refines a log of what the filter keeps
      ([capture_refines_log]), a replay ends ([replay_terminates]); the filter
      never panics and decides its rules, but for later IPv4 fragments, which it
      takes for the first ([Exclude_iff], [Exclude_later_fragment],
      [NewExcluder_wf]).
    - Serve: a connection sends the log ([serve_sends_log]) and catches up
      ([serve_catches_up]).
    - Mirror: runs refine a list of sessions ([mirror_refines_sessions],
      [mirror_keeps_packets], [mirror_makes_progress]).  A connection is the
      handling of its frames in order, wherever its bytes end
      ([Run_refines_frames], [commit_appends_suffix]); truthful connections leave
      slices of the agent's history ([mirror_holds_history]); so does the whole
      collector process ([collector_keeps_mirror]).
    - End to end: the mirror follows the spool ([mirror_follows_spool]).
    - Link: handshake, delivery and authenticity ([handshake_connects],
      [secure_stream_delivers], [secure_stream_authentic]), resuming
      ([session_resumes]), from keygen to the first session ([keygen_roundtrip],
      [deployment_serves]).
    - Fan-out: a client gets its session ([fan_out_streams]).
    - Formats: round trips, detection of corruption, scanning of torn files
      (Pcapio, Proto), atomic replacement ([WriteFileAtomic_atomic]).
    - Keys: validated, once, in order, from a growing file to the collector's file
      ([KeylogSink_keys], [keylog_relay_complete]); discovery, hooks and their
      merging ([Discover_first], [reconcile_follows_plan], [runHook_retries],
      [merge_relays_once]).

    ** Conditions of the runs

    The theorems about runs hold under conditions that the step relations state, and
    that the code does not enforce:

    - A writer is not started on a manifest whose last line a crash has cut
      ([SpoolProps.startable]); this is in every system with a writer, that is in
      the theorems on the spool, retention, readers, capture, serving and end to
      end.  NewWriter is meant to handle such a manifest, but appends to the partial
      line: readers then miss sealed segments, and with retention gpidx are given
      again ([torn_manifest_hides_packets], [torn_manifest_reissues_gpidx]).
    - Packets given to the writer fit its snap length ([SpoolProps.room]); recovery
      drops a longer one ([long_packet_dropped]).
    - Packets appended to a mirror fit the snap length it is opened with
      ([MirrorProps.op_ok], [MirrorSpec.mst_ok]); after reopening a longer one is
      gone ([mirror_lowers_commit]).  Headers it adopts declare at least that length
      ([FanOutProps.event_ok]); otherwise a client that is already connected stops
      ([fan_out_stuck]).  So the collector's snap length has to be at least the
      agent's, as it is with the defaults.
    - Readers and connections are opened while the capture process runs, and end
      with it when the host crashes.  A failing call of the writer ends in a restart
      of the host.
    - Retention leaves one of the sealed segments ([RetentionProps.spared]); in the
      systems without [Reap] nothing is deleted.
    - An agent that a collector believes has an instance id that is not blank
      ([DemuxProps.honest], [EndToEnd.from_connection]); a crash can leave a blank one
      ([epoch_blank_forever]).
    - Static keypairs are genuine, that is the public key is the one of the private
      key, and the random reader delivers 32 bytes for an ephemeral key
      ([NoiseProps.genuine], [NoiseProps.enough]).

    Examples that end a file are executions; those named in the manifest's findings
    show behaviour that a comment or the code's intention excludes.

    ** Bounds and fuel

    Loops that consume bytes or records have as much fuel as there are bytes
    ([Proto] and [Demux] frames, [Streamer] and [Keylog] lines, [Noise.write_loop],
    [Session.plain], [FanOut.send_records], [Merge.merge_chunk]).  [Reader.Next]
    has no bound in the code: running out is the result [None], and
    [reader_makes_progress] and [serve_catches_up] show that two rounds are enough.
    [Merge.merge_reads] returns [None] out of fuel; [merge_relays_once] shows that
    more than the length of the file is enough.  Counters are assumed not to reach
    2^64 where the code lets them wrap, and files are shorter than 2^63 bytes.

    ** Assumptions

    - A crash keeps of a file what was synced and any prefix of what was appended
      since; a rename is durable after the sync of the directory; a call fails
      without effect, or a write stores a part.  In the systems in which calls may
      fail, a failing call of the writer ends its process: the code only logs a
      failing [Tick] and goes on.
    - CBOR, zstd, YAML, Noise, Curve25519, pcapgo, AF_PACKET, the link types of
      gopacket, running eCapture and procfs are parameters (type classes or
      arguments); their laws are those of round trips, of the sizes of ciphertexts and
      of a handshake between genuine keypairs, and each has an instance in the file
      that uses it.
    - A goroutine that shares nothing but an atomic snapshot or a lock is a step of
      its own; timeouts and deadlines are errors of a stream; a poll interval is
      the time between two rounds.
    - The order of [range] over a map is any ([GoPath.MapRange]).
    - The truthfulness of connections ([DemuxProps.honest]) is an assumption of the
      collector's theorems alone; [mirror_follows_spool] proves it for the
      connections of a modelled agent.
    - [fan_out_streams] bounds the committed length by 2^62.

    ** Not modelled

    The HTTP server of the metrics and their mutexes; log lines; the wiring of the
    flag library, signals and the version command (main.go); the stub
    capture/afpacket_other.go for other systems; the bodies of parameters named
    above.  The statistics file is part of [Capture.maintain], but the runs of
    [capture_refines_log] have its ticks only.  [Reap] runs beside the writer in
    RetentionProps and beside a reader in LagProps; in the runs with a server or the
    capture process nothing is deleted.  Two readings of one [Snapshot] while the writer publishes
    (its fields are loaded one by one) are taken as one.
*)

From stdpp Require Export prelude gmap list numbers sorting.
From Stdlib Require Export Strings.Byte.
From Stdlib Require Export Lia ZArith.

#[global] Open Scope Z_scope.
#[global] Set Default Goal Selector "!".

(** ** Scope, tactics and hint databases of the development *)

Declare Scope ipcap_scope.
Delimit Scope ipcap_scope with ipcap.
#[global] Open Scope ipcap_scope.

Create HintDb ipcap.
Create Rewrite HintDb ipcap_len.

(** [destruct_match]: case on the innermost scrutinee of a [match] in the goal. *)
Ltac destruct_match :=
  match goal with
  | |- context [match ?x with _ => _ end] =>
      lazymatch x with
      | context [match _ with _ => _ end] => fail
      | _ => let E := fresh "E" in destruct x eqn:E
      end
  end.

(** [len_simpl]: push [length] through the list operations of the development. *)
Ltac len_simpl := autorewrite with ipcap_len in *.

(** [len_lia]: arithmetic about lengths. *)
Ltac len_lia := len_simpl; cbn [length] in *; lia.

(** [pair_lia]: equality of tuples, component by component. *)
Ltac pair_lia :=
  repeat (apply pair_equal_spec; split); first [reflexivity | assumption | lia].

(** ** Errors

    The sentinel error values of the packages and of the Go standard library
    that the code compares with [errors.Is]; [os_err] is any other error the
    operating system returned and [fmt_err] one made by [fmt.Errorf] that wraps
    nothing the code inspects. *)

Inductive goerror : Type :=
  | io_EOF
  | io_ErrUnexpectedEOF
  | bufio_ErrBufferFull
  | os_ErrNotExist
  | os_ErrExist
  | os_err
  | fmt_err
  | json_err
  | cbor_err
  | zstd_err
  | yaml_err
  | pcapio_ErrBadGlobalHeader
  | pcapio_ErrBadRecord
  | proto_errTruncated
  | proto_ErrBadMagic
  | proto_ErrBadVersion
  | proto_ErrHdrCRC
  | proto_ErrPayCRC
  | proto_ErrPayloadHuge
  | proto_ErrBadPreamble
  | spool_ErrNoData
  | spool_ErrReaped
  | collector_forward_jump
  | collector_errUnknownFrame
  | capture_ErrTimeout
  | transport_ErrUnauthorized
  | transport_err
  | listen_errNoPeers.

#[export] Instance goerror_eq_dec : EqDecision goerror.
Proof. solve_decision. Defined.

(** Results of fallible code: a value or an error. *)
Inductive res (A : Type) : Type :=
  | Ok (a : A)
  | Err (e : goerror).
Arguments Ok {A} a.
Arguments Err {A} e.

#[export] Instance res_ret : MRet res := fun A a => Ok a.
#[export] Instance res_bind : MBind res :=
  fun A B f m => match m with Ok a => f a | Err e => Err e end.

Definition res_of_option {A} (e : goerror) (o : option A) : res A :=
  match o with Some a => Ok a | None => Err e end.

(** ** Machine integers

    A Go integer of width [w] is the [Z] it denotes; arithmetic that can leave
    the range is written with the wrap-around of its type. *)

Definition u8 (z : Z) : Z := z mod 2 ^ 8.
Definition u16 (z : Z) : Z := z mod 2 ^ 16.
Definition u32 (z : Z) : Z := z mod 2 ^ 32.
Definition u64 (z : Z) : Z := z mod 2 ^ 64.
Definition i64 (z : Z) : Z := (z + 2 ^ 63) mod 2 ^ 64 - 2 ^ 63.

(** [is_uint w z]: [z] is a value of the unsigned type of width [w]. *)
Definition is_uint (w : Z) (z : Z) : Prop := 0 <= z < 2 ^ w.

#[export] Instance is_uint_dec w z : Decision (is_uint w z).
Proof. unfold is_uint; apply _. Defined.

(** Length of a slice, as the [int] the code computes with. *)
Definition len {A} (l : list A) : Z := Z.of_nat (length l).

(** [b[off:off+n]], on a slice long enough for it. *)
Definition slice {A} (off n : nat) (l : list A) : list A := take n (drop off l).

(** ** Generic lemmas *)

Lemma u16_small z : is_uint 16 z -> u16 z = z.
Proof. unfold is_uint, u16; intros; by apply Z.mod_small. Qed.

Lemma u32_small z : is_uint 32 z -> u32 z = z.
Proof. unfold is_uint, u32; intros; by apply Z.mod_small. Qed.

Lemma u64_small z : is_uint 64 z -> u64 z = z.
Proof. unfold is_uint, u64; intros; by apply Z.mod_small. Qed.

Lemma i64_small z : - 2 ^ 63 <= z < 2 ^ 63 -> i64 z = z.
Proof. unfold i64; intros; rewrite Z.mod_small; lia. Qed.

Lemma len_nonneg {A} (l : list A) : 0 <= len l.
Proof. unfold len; lia. Qed.

Lemma len_app {A} (l k : list A) : len (l ++ k) = len l + len k.
Proof. unfold len; rewrite length_app; lia. Qed.

Lemma len_nil {A} : len (@nil A) = 0.
Proof. done. Qed.

Lemma len_cons {A} (x : A) l : len (x :: l) = 1 + len l.
Proof. unfold len; cbn [length]; lia. Qed.

Lemma slice_app_exact {A} (n : nat) (p l k : list A) :
  length l = n -> slice (length p) n (p ++ l ++ k) = l.
Proof. intros <-; unfold slice; by rewrite drop_app_length, take_app_length. Qed.

Lemma slice_0_app {A} (n : nat) (l k : list A) :
  length l = n -> slice 0 n (l ++ k) = l.
Proof. intros <-; unfold slice; rewrite drop_0; apply take_app_length. Qed.

Lemma length_slice {A} off n (l : list A) :
  (off + n <= length l)%nat -> length (slice off n l) = n.
Proof. intros; unfold slice; rewrite length_take, length_drop; lia. Qed.

Lemma slice_snoc_slice {A} i n m (l : list A) : slice i n l ++ slice (i + n) m l = slice i (n + m) l.
Proof.
  unfold slice. rewrite <-(take_drop n (drop i l)) at 2. rewrite drop_drop.
  destruct (Nat.le_gt_cases n (length (drop i l))) as [Hn|Hn].
  - replace (n + m)%nat with (length (take n (drop i l)) + m)%nat by (rewrite length_take; lia).
    by rewrite take_app_add.
  - rewrite length_drop in Hn. rewrite (drop_ge l (i + n)) by lia.
    rewrite !take_nil, !app_nil_r. rewrite (take_ge (take _ _)); [done|]. rewrite length_take, length_drop. lia.
Qed.

Lemma drop_slice {A} i n k (l : list A) : drop k (slice i n l) = slice (i + k) (n - k) l.
Proof. unfold slice. by rewrite skipn_firstn_comm, drop_drop. Qed.

Lemma prefix_snoc_inv {A} (p l : list A) x : p `prefix_of` l ++ [x] -> p = l ++ [x] \/ p `prefix_of` l.
Proof.
  intros [k Hk]. destruct k as [|y k] using rev_ind; [left; by rewrite app_nil_r in Hk|right]. clear IHk.
  rewrite app_assoc in Hk. apply app_inj_tail in Hk as [-> _]. by apply prefix_app_r.
Qed.

Lemma suffix_snoc_inv {A} (e s : list A) x :
  e `suffix_of` s ++ [x] -> e = [] \/ exists e', e = e' ++ [x] /\ e' `suffix_of` s.
Proof.
  intros [k Hk]. destruct e as [|y e' _] using rev_ind; [by left|right].
  rewrite app_assoc in Hk. apply app_inj_tail in Hk as [-> <-].
  exists e'. split; [done|by exists k].
Qed.

#[export] Hint Rewrite @length_app @length_take @length_drop @length_reverse
  @length_replicate @length_fmap @length_insert @len_app @len_nil @len_cons : ipcap_len.
#[export] Hint Resolve len_nonneg : ipcap.
