(* ===== verification/Bytes.v ===== *)
(** * Bytes and strings of the Go standard library

    What the code uses of [encoding/binary], [bytes], [strings], [strconv] and
    [fmt]: fixed-width integers in both byte orders, white space trimming and
    splitting, prefixes and suffixes, and decimal numbers.  A Go string or byte
    slice is a [list byte]. *)

From Stdlib Require Strings.String.
From S2P Require Import Prelude.

Export Strings.String.StringSyntax.

#[export] Instance byte_eq_dec : EqDecision byte := Byte.byte_eq_dec.

#[export] Program Instance byte_countable : Countable byte :=
  inj_countable Byte.to_N Byte.of_N _.
Next Obligation. intros b; apply Byte.of_to_N. Qed.

(** ** Bytes as numbers *)

Definition Z_of_byte (b : byte) : Z := Z.of_N (Byte.to_N b).

(** [byte(z)]: the conversion of an integer to [byte] keeps the low 8 bits. *)
Definition byte_of_Z (z : Z) : byte :=
  match Byte.of_N (Z.to_N (z mod 256)) with Some b => b | None => x00 end.

(** ** encoding/binary *)

Fixpoint le_enc (n : nat) (z : Z) : list byte :=
  match n with
  | O => []
  | S n => byte_of_Z z :: le_enc n (z / 256)
  end.

Fixpoint le_dec (l : list byte) : Z :=
  match l with
  | [] => 0
  | b :: t => Z_of_byte b + 256 * le_dec t
  end.

Definition be_enc (n : nat) (z : Z) : list byte := reverse (le_enc n z).
Definition be_dec (l : list byte) : Z := le_dec (reverse l).

(** [binary.LittleEndian.Uint32(b[off:])] and its big-endian siblings. *)
Definition le_u32 (off : nat) (b : list byte) : Z := le_dec (slice off 4 b).
Definition be_u16 (off : nat) (b : list byte) : Z := be_dec (slice off 2 b).
Definition be_u32 (off : nat) (b : list byte) : Z := be_dec (slice off 4 b).
Definition be_u64 (off : nat) (b : list byte) : Z := be_dec (slice off 8 b).

(** ** strings and bytes *)

(** A Go string literal. *)
Definition str (s : String.string) : list byte := String.list_byte_of_string s.
Arguments str s%_string_scope.

Definition HasPrefix (s p : list byte) : bool := bool_decide (take (length p) s = p).

Definition HasSuffix (s p : list byte) : bool :=
  bool_decide ((length p <= length s)%nat /\ drop (length s - length p) s = p).

Definition TrimSuffix (s p : list byte) : list byte :=
  if HasSuffix s p then take (length s - length p) s else s.

(** [bytes.IndexByte]: the position of the first [c], if any. *)
Fixpoint IndexByte (s : list byte) (c : byte) : option nat :=
  match s with
  | [] => None
  | b :: t => if decide (b = c) then Some O else S <$> IndexByte t c
  end.

(** [strings.LastIndex(s, sep)] for a one-byte [sep]. *)
Definition LastIndexByte (s : list byte) (c : byte) : option nat :=
  (fun i => (length s - 1 - i)%nat) <$> IndexByte (reverse s) c.

(** [strings.Contains]: whether [p] occurs in [s]. *)
Fixpoint Contains (s p : list byte) : bool :=
  HasPrefix s p || match s with [] => false | _ :: t => Contains t p end.

(** [sort.Strings]: bytewise order. *)
Fixpoint str_le (a b : list byte) : bool :=
  match a, b with
  | [], _ => true
  | _, [] => false
  | x :: a, y :: b =>
      (Z_of_byte x <? Z_of_byte y) || ((Z_of_byte x =? Z_of_byte y) && str_le a b)
  end.
Definition le_str (a b : list byte) : Prop := Is_true (str_le a b).
#[export] Instance le_str_dec a b : Decision (le_str a b).
Proof. unfold le_str; apply _. Defined.

Definition sort_Strings (l : list (list byte)) : list (list byte) := merge_sort le_str l.

(** The UTF-8 encodings of the runes of [unicode.IsSpace]. *)
Definition space_encodings : list (list byte) :=
  [ [x09]; [x0a]; [x0b]; [x0c]; [x0d]; [x20]; [xc2; x85]; [xc2; xa0];
    [xe1; x9a; x80];
    [xe2; x80; x80]; [xe2; x80; x81]; [xe2; x80; x82]; [xe2; x80; x83];
    [xe2; x80; x84]; [xe2; x80; x85]; [xe2; x80; x86]; [xe2; x80; x87];
    [xe2; x80; x88]; [xe2; x80; x89]; [xe2; x80; x8a];
    [xe2; x80; xa8]; [xe2; x80; xa9]; [xe2; x80; xaf]; [xe2; x81; x9f];
    [xe3; x80; x80] ].

(** Number of bytes of the white space rune [s] begins with, 0 for none.  No
    encoding begins with a UTF-8 continuation byte, so a scan byte by byte
    finds the same runes as Go's scan rune by rune. *)
Definition space_prefix (s : list byte) : nat :=
  match List.find (HasPrefix s) space_encodings with Some e => length e | None => O end.

Definition space_suffix (s : list byte) : nat :=
  match List.find (HasSuffix s) space_encodings with Some e => length e | None => O end.

Fixpoint trim_left_fuel (fuel : nat) (s : list byte) : list byte :=
  match fuel with
  | O => s
  | S fuel => match space_prefix s with O => s | n => trim_left_fuel fuel (drop n s) end
  end.

Fixpoint trim_right_fuel (fuel : nat) (s : list byte) : list byte :=
  match fuel with
  | O => s
  | S fuel =>
      match space_suffix s with
      | O => s
      | n => trim_right_fuel fuel (take (length s - n) s)
      end
  end.

(** [bytes.TrimSpace] and [strings.TrimSpace]; every round removes at least a
    byte, so the length of the string is fuel enough. *)
Definition TrimSpace (s : list byte) : list byte :=
  let l := trim_left_fuel (length s) s in trim_right_fuel (length l) l.

(** [bytes.Fields]: [cur] is the field being read, in reverse. *)
Fixpoint fields_fuel (fuel : nat) (s cur : list byte) : list (list byte) :=
  let close := match cur with [] => [] | _ => [reverse cur] end in
  match fuel, s with
  | O, _ | _, [] => close
  | S fuel, b :: t =>
      match space_prefix s with
      | O => fields_fuel fuel t (b :: cur)
      | n => close ++ fields_fuel fuel (drop n s) []
      end
  end.

Definition Fields (s : list byte) : list (list byte) := fields_fuel (length s) s [].

(** ** strconv and fmt *)

Definition digit (z : Z) : byte := byte_of_Z (48 + z).
Definition is_digit (b : byte) : bool := (48 <=? Z_of_byte b) && (Z_of_byte b <=? 57).

(** [fmt.Sprintf("%0nd", z)] for [z] of at most [n] digits. *)
Fixpoint pad_dec (n : nat) (z : Z) : list byte :=
  match n with
  | O => []
  | S n => pad_dec n (z / 10) ++ [digit (z mod 10)]
  end.

(** [fmt.Sprintf("%d", z)] for a value of an unsigned type: at most 20 digits,
    without leading zeros. *)
Fixpoint drop_zeros (l : list byte) : list byte :=
  match l with
  | b :: t => if decide (b = x30 /\ t <> []) then drop_zeros t else l
  | [] => []
  end.

Definition dec (z : Z) : list byte := drop_zeros (pad_dec 20 z).

Fixpoint parse_digits (acc : Z) (s : list byte) : option Z :=
  match s with
  | [] => Some acc
  | b :: t => if is_digit b then parse_digits (10 * acc + (Z_of_byte b - 48)) t else None
  end.

(** [strconv.ParseUint(s, 10, 64)]: digits only, at least one, in range. *)
Definition ParseUint (s : list byte) : option Z :=
  match s with
  | [] => None
  | _ => v ← parse_digits 0 s; if v <? 2 ^ 64 then Some v else None
  end.

(** ** Lemmas: bytes and fixed-width integers *)

Lemma Z_of_byte_range b : 0 <= Z_of_byte b < 256.
Proof. unfold Z_of_byte; pose proof (Byte.to_N_bounded b); lia. Qed.

Lemma byte_of_Z_of_byte b : byte_of_Z (Z_of_byte b) = b.
Proof.
  unfold byte_of_Z. rewrite Z.mod_small by apply Z_of_byte_range.
  unfold Z_of_byte. by rewrite N2Z.id, Byte.of_to_N.
Qed.

Lemma Z_of_byte_of_Z z : Z_of_byte (byte_of_Z z) = z mod 256.
Proof.
  unfold byte_of_Z. pose proof (Z.mod_pos_bound z 256 ltac:(lia)) as Hb.
  destruct (Byte.of_N _) as [b|] eqn:E.
  - apply Byte.to_of_N in E. unfold Z_of_byte. rewrite E. lia.
  - apply Byte.of_N_None_iff in E. lia.
Qed.

Lemma Z_of_byte_inj b c : Z_of_byte b = Z_of_byte c -> b = c.
Proof. intros H. by rewrite <-(byte_of_Z_of_byte b), <-(byte_of_Z_of_byte c), H. Qed.

Lemma length_le_enc n z : length (le_enc n z) = n.
Proof. revert z; induction n as [|n IH]; intros; cbn; [done|by rewrite IH]. Qed.

Lemma length_be_enc n z : length (be_enc n z) = n.
Proof. unfold be_enc; by rewrite length_reverse, length_le_enc. Qed.

#[export] Hint Rewrite length_le_enc length_be_enc : ipcap_len.

Lemma le_dec_enc n z : le_dec (le_enc n z) = z mod 256 ^ Z.of_nat n.
Proof.
  revert z; induction n as [|n IH]; intros z; cbn [le_enc le_dec].
  { by rewrite Z.mod_1_r. }
  rewrite IH, Z_of_byte_of_Z, Nat2Z.inj_succ, Z.pow_succ_r by lia.
  by rewrite Z.rem_mul_r by lia.
Qed.

Lemma le_enc_dec l : le_enc (length l) (le_dec l) = l.
Proof.
  induction l as [|b l IH]; cbn [length le_enc le_dec]; [done|].
  pose proof (Z_of_byte_range b).
  f_equal.
  - apply Z_of_byte_inj. rewrite Z_of_byte_of_Z. by rewrite Z.mul_comm, Z_mod_plus_full, Z.mod_small.
  - rewrite Z.mul_comm, Z.div_add by lia. by rewrite Z.div_small.
Qed.

Lemma le_dec_bound l : 0 <= le_dec l < 256 ^ Z.of_nat (length l).
Proof. rewrite <-(le_enc_dec l) at 1 2. rewrite le_dec_enc. apply Z.mod_pos_bound; lia. Qed.

Lemma le_dec_enc_small n z : 0 <= z < 256 ^ Z.of_nat n -> le_dec (le_enc n z) = z.
Proof. intros; by rewrite le_dec_enc, Z.mod_small. Qed.

Lemma be_dec_enc_small n z : 0 <= z < 256 ^ Z.of_nat n -> be_dec (be_enc n z) = z.
Proof. intros; unfold be_dec, be_enc. rewrite reverse_involutive. by apply le_dec_enc_small. Qed.

Lemma be_enc_dec l : be_enc (length l) (be_dec l) = l.
Proof.
  unfold be_dec, be_enc. rewrite <-(length_reverse l), le_enc_dec. apply reverse_involutive.
Qed.

Lemma be_dec_bound l : 0 <= be_dec l < 256 ^ Z.of_nat (length l).
Proof. unfold be_dec. rewrite <-(length_reverse l). apply le_dec_bound. Qed.

(** Reading back a field written between [p] and [k]. *)
Lemma le_u32_app p k z : is_uint 32 z -> le_u32 (length p) (p ++ le_enc 4 z ++ k) = z.
Proof.
  intros [? ?]. unfold le_u32. rewrite slice_app_exact by apply length_le_enc.
  apply le_dec_enc_small; cbn; lia.
Qed.

Lemma be_u16_app p k z : is_uint 16 z -> be_u16 (length p) (p ++ be_enc 2 z ++ k) = z.
Proof.
  intros [? ?]. unfold be_u16. rewrite slice_app_exact by apply length_be_enc.
  apply be_dec_enc_small; cbn; lia.
Qed.

Lemma be_u32_app p k z : is_uint 32 z -> be_u32 (length p) (p ++ be_enc 4 z ++ k) = z.
Proof.
  intros [? ?]. unfold be_u32. rewrite slice_app_exact by apply length_be_enc.
  apply be_dec_enc_small; cbn; lia.
Qed.

Lemma be_u64_app p k z : is_uint 64 z -> be_u64 (length p) (p ++ be_enc 8 z ++ k) = z.
Proof.
  intros [? ?]. unfold be_u64. rewrite slice_app_exact by apply length_be_enc.
  apply be_dec_enc_small; cbn; lia.
Qed.

(** The same with the whole buffer named, for use by computation: [b] is the
    field behind [p] and in front of [k]. *)
Lemma le_u32_at off p k z b :
  length p = off -> b = p ++ le_enc 4 z ++ k -> is_uint 32 z -> le_u32 off b = z.
Proof. intros <- -> Hz. by apply le_u32_app. Qed.

Lemma be_u16_at off p k z b :
  length p = off -> b = p ++ be_enc 2 z ++ k -> is_uint 16 z -> be_u16 off b = z.
Proof. intros <- -> Hz. by apply be_u16_app. Qed.

Lemma be_u32_at off p k z b :
  length p = off -> b = p ++ be_enc 4 z ++ k -> is_uint 32 z -> be_u32 off b = z.
Proof. intros <- -> Hz. by apply be_u32_app. Qed.

Lemma be_u64_at off p k z b :
  length p = off -> b = p ++ be_enc 8 z ++ k -> is_uint 64 z -> be_u64 off b = z.
Proof. intros <- -> Hz. by apply be_u64_app. Qed.

(** Two fields that differ read differently. *)
Lemma be_dec_inj l k : length l = length k -> be_dec l = be_dec k -> l = k.
Proof. intros Hl H. by rewrite <-(be_enc_dec l), <-(be_enc_dec k), H, Hl. Qed.

Lemma be_enc_slice n off b :
  (off + n <= length b)%nat -> be_enc n (be_dec (slice off n b)) = slice off n b.
Proof. intros Hl. rewrite <-(length_slice off n b) at 1 by done. apply be_enc_dec. Qed.

Lemma le_u32_range off b : is_uint 32 (le_u32 off b).
Proof.
  unfold is_uint, le_u32. pose proof (le_dec_bound (slice off 4 b)) as H.
  assert (length (slice off 4 b) <= 4)%nat by (unfold slice; rewrite length_take; lia).
  assert (256 ^ Z.of_nat (length (slice off 4 b)) <= 256 ^ 4) by (apply Z.pow_le_mono_r; lia).
  lia.
Qed.

Lemma be_range off n b :
  is_uint (8 * Z.of_nat n) (be_dec (slice off n b)).
Proof.
  unfold is_uint. pose proof (be_dec_bound (slice off n b)) as H.
  assert (length (slice off n b) <= n)%nat by (unfold slice; rewrite length_take; lia).
  assert (256 ^ Z.of_nat (length (slice off n b)) <= 256 ^ Z.of_nat n)
    by (apply Z.pow_le_mono_r; lia).
  replace (2 ^ (8 * Z.of_nat n)) with (256 ^ Z.of_nat n); [lia|].
  rewrite Z.pow_mul_r by lia. done.
Qed.

(** ** Lemmas: decimal numbers *)

Lemma Z_of_digit z : 0 <= z < 10 -> Z_of_byte (digit z) = 48 + z.
Proof. intros; unfold digit; rewrite Z_of_byte_of_Z, Z.mod_small; lia. Qed.

Lemma is_digit_digit z : 0 <= z < 10 -> is_digit (digit z) = true.
Proof. intros; unfold is_digit; rewrite Z_of_digit by done. lia. Qed.

Lemma length_pad_dec n z : length (pad_dec n z) = n.
Proof. revert z; induction n as [|n IH]; intros; cbn; len_simpl; [done|rewrite IH; cbn; lia]. Qed.

#[export] Hint Rewrite length_pad_dec : ipcap_len.

Lemma length_dec z : (length (dec z) <= 20)%nat.
Proof.
  assert (forall l, length (drop_zeros l) <= length l)%nat as H.
  { intros l. induction l as [|b l IH]; cbn; [done|]. case_decide; cbn; lia. }
  unfold dec. etrans; [apply H|]. by rewrite length_pad_dec.
Qed.

Lemma pad_dec_digits n z : Forall (fun b => is_digit b = true) (pad_dec n z).
Proof.
  revert z; induction n as [|n IH]; intros z; cbn; [constructor|].
  apply Forall_app; split; [apply IH|]. constructor; [|constructor].
  apply is_digit_digit, Z.mod_pos_bound; lia.
Qed.

Lemma parse_digits_app acc s t :
  parse_digits acc (s ++ t) = v ← parse_digits acc s; parse_digits v t.
Proof.
  revert acc; induction s as [|b s IH]; intros acc; cbn; [done|].
  destruct (is_digit b); [apply IH|done].
Qed.

Lemma parse_pad_dec n z acc :
  0 <= z < 10 ^ Z.of_nat n ->
  parse_digits acc (pad_dec n z) = Some (acc * 10 ^ Z.of_nat n + z).
Proof.
  revert z acc; induction n as [|n IH]; intros z acc Hz.
  { cbn in *. f_equal; lia. }
  rewrite Nat2Z.inj_succ, Z.pow_succ_r in * by lia. cbn [pad_dec].
  pose proof (Z.mod_pos_bound z 10 ltac:(lia)) as Hm.
  pose proof (Z.div_mod z 10 ltac:(lia)) as Hdm.
  assert (0 <= z / 10 < 10 ^ Z.of_nat n).
  { split; [apply Z.div_pos; lia|apply Z.div_lt_upper_bound; lia]. }
  rewrite parse_digits_app, IH by done. cbn.
  rewrite is_digit_digit, Z_of_digit by done. f_equal.
  rewrite Z.mul_add_distr_l. lia.
Qed.

Lemma ParseUint_pad_dec z : is_uint 64 z -> ParseUint (pad_dec 20 z) = Some z.
Proof.
  intros [H0 H1]. unfold ParseUint.
  pose proof (length_pad_dec 20 z) as Hl.
  destruct (pad_dec 20 z) eqn:E; [discriminate|]. rewrite <-E, parse_pad_dec.
  - change (0 * 10 ^ Z.of_nat 20) with 0. rewrite Z.add_0_l. cbn [mbind option_bind].
    destruct (Z.ltb_spec z (2 ^ 64)); [done|lia].
  - split; [lia|]. change (10 ^ Z.of_nat 20) with 100000000000000000000. lia.
Qed.

(** [be_field p k]: the big-endian field of the goal that lies between [p] and
    [k] has the value it was written with. *)
Ltac be_field p k :=
  first [ erewrite (be_u16_at _ p k); [|reflexivity|reflexivity|]
        | erewrite (be_u32_at _ p k); [|reflexivity|reflexivity|]
        | erewrite (be_u64_at _ p k); [|reflexivity|reflexivity|] ].
