(* ===== verification/GoIO.v ===== *)
(** * Readers of the Go standard library

    [io.Reader] as the bytes it still has to deliver and the error it delivers
    after them, [io.ReadFull] on it, and [io.ReaderAt] with its file instance. *)

From S2P Require Import Prelude Bytes.

(** ** io.Reader *)

Record stream : Type := Stream {
  st_data : list byte;  (** bytes the reader will still return *)
  st_end : goerror      (** what [Read] returns once they are gone: [io.EOF], or a failure *)
}.

(** [io.ReadFull(r, buf)] with [len(buf) = n]: the bytes, or [io.EOF] when none
    could be read, [io.ErrUnexpectedEOF] when some could, or the reader's own
    error.  The bytes read are consumed in every case. *)
Definition ReadFull (r : stream) (n : nat) : res (list byte) * stream :=
  if decide (n <= length (st_data r))%nat then
    (Ok (take n (st_data r)), Stream (drop n (st_data r)) (st_end r))
  else
    (Err (if decide (st_end r = io_EOF)
          then match st_data r with [] => io_EOF | _ => io_ErrUnexpectedEOF end
          else st_end r),
     Stream [] (st_end r)).

(** [bufio.Reader.ReadSlice(c)] on a reader with the default buffer: up to and
    including the first [c]; without one in a full buffer, the buffer and
    [bufio.ErrBufferFull]; else what is left and the reader's error. *)
Definition bufio_size : nat := 4096.

Definition ReadSlice (r : stream) (c : byte) : list byte * option goerror * stream :=
  match IndexByte (take bufio_size (st_data r)) c with
  | Some i => (take (S i) (st_data r), None, Stream (drop (S i) (st_data r)) (st_end r))
  | None =>
      if decide (bufio_size <= length (st_data r))%nat
      then (take bufio_size (st_data r), Some bufio_ErrBufferFull,
            Stream (drop bufio_size (st_data r)) (st_end r))
      else (st_data r, Some (st_end r), Stream [] (st_end r))
  end.

(** ** io.ReaderAt *)

(** [ReadAt(buf, off)] with [len(buf) = n]. *)
Definition ReaderAt : Type := Z -> nat -> res (list byte).

(** [os.File.ReadAt]: a negative offset is an error, a short read is [io.EOF],
    and an empty buffer is always filled. *)
Definition file_ReaderAt (data : list byte) : ReaderAt := fun off n =>
  if off <? 0 then Err os_err
  else if decide (n = O) then Ok []
  else if off + Z.of_nat n <=? len data then Ok (slice (Z.to_nat off) n data)
  else Err io_EOF.

(** ** Lemmas *)

Lemma ReadFull_app p k e n :
  length p = n -> ReadFull (Stream (p ++ k) e) n = (Ok p, Stream k e).
Proof.
  intros <-. unfold ReadFull. cbn. rewrite decide_True by len_lia.
  by rewrite take_app_length, drop_app_length.
Qed.

Lemma ReadFull_Ok r n b r' :
  ReadFull r n = (Ok b, r') ->
  length b = n /\ st_data r = b ++ st_data r' /\ st_end r' = st_end r.
Proof.
  unfold ReadFull. case_decide; [|by destruct r]. intros [= <- <-]. cbn.
  rewrite length_take, take_drop. split; [lia|done].
Qed.

Lemma ReadFull_short_EOF k n :
  (0 < length k < n)%nat -> ReadFull (Stream k io_EOF) n = (Err io_ErrUnexpectedEOF, Stream [] io_EOF).
Proof.
  intros. unfold ReadFull. cbn. rewrite decide_False by lia.
  destruct k; cbn in *; [lia|done].
Qed.

Lemma ReadFull_nil_EOF n :
  (0 < n)%nat -> ReadFull (Stream [] io_EOF) n = (Err io_EOF, Stream [] io_EOF).
Proof. intros. unfold ReadFull. cbn. by rewrite decide_False by lia. Qed.

Lemma ReadFull_Err r n e r' :
  ReadFull r n = (Err e, r') -> (length (st_data r) < n)%nat.
Proof. unfold ReadFull. case_decide; [done|]. lia. Qed.

Lemma file_ReaderAt_app p b k n :
  length b = n -> file_ReaderAt (p ++ b ++ k) (len p) n = Ok b.
Proof.
  intros <-. unfold file_ReaderAt. pose proof (len_nonneg p).
  destruct (Z.ltb_spec (len p) 0); [lia|].
  case_decide as Hn; [by rewrite (nil_length_inv b)|].
  rewrite (proj2 (Z.leb_le _ _)).
  - f_equal. unfold len. rewrite Nat2Z.id. by apply slice_app_exact.
  - len_simpl. unfold len. lia.
Qed.

(** A read that succeeds depends only on the bytes it returns. *)
Lemma file_ReaderAt_prefix data data' off n b :
  data `prefix_of` data' -> file_ReaderAt data off n = Ok b -> file_ReaderAt data' off n = Ok b.
Proof.
  intros [k ->]. unfold file_ReaderAt.
  destruct (Z.ltb_spec off 0); [done|]. case_decide; [done|].
  destruct (Z.leb_spec (off + Z.of_nat n) (len data)) as [Hle|]; [|done].
  intros [= <-]. rewrite (proj2 (Z.leb_le _ _)) by (len_simpl; pose proof (len_nonneg k); lia).
  f_equal. unfold slice, len in *. rewrite drop_app_le by lia.
  by rewrite take_app_le by (rewrite length_drop; lia).
Qed.
