(* ===== verification/Pcapio.v ===== *)
(** * The libpcap byte format (internal/pcapio/pcapio.go)

    Global header, records, the forward record scanner of crash recovery and the
    bounded random-access record reader. *)

From S2P Require Import Prelude Bytes GoIO.

Definition MagicMicros : Z := 0xa1b2c3d4.
Definition GlobalHeaderLen : Z := 24.
Definition RecordHeaderLen : Z := 16.
Definition versionMajor : Z := 2.
Definition versionMinor : Z := 4.

Record GlobalHeader : Type := mkGlobalHeader {
  gh_Snaplen : Z;
  gh_LinkType : Z
}.

#[export] Instance GlobalHeader_eq_dec : EqDecision GlobalHeader.
Proof. solve_decision. Defined.

Definition GlobalHeader_bytes (g : GlobalHeader) : list byte :=
  le_enc 4 MagicMicros ++ le_enc 2 versionMajor ++ le_enc 2 versionMinor ++
  le_enc 4 0 ++ le_enc 4 0 ++ le_enc 4 (gh_Snaplen g) ++ le_enc 4 (gh_LinkType g).

(** [GlobalHeader.AppendTo]. *)
Definition GlobalHeader_AppendTo (g : GlobalHeader) (dst : list byte) : list byte :=
  dst ++ GlobalHeader_bytes g.

Definition ParseGlobalHeader (b : list byte) : res GlobalHeader :=
  if len b <? GlobalHeaderLen then Err pcapio_ErrBadGlobalHeader
  else if negb (le_u32 0 b =? MagicMicros) then Err pcapio_ErrBadGlobalHeader
  else Ok (mkGlobalHeader (le_u32 16 b) (le_u32 20 b)).

(** One packet; [CapLen] is the length of [Data]. *)
Record PcapRecord : Type := mkPcapRecord {
  TsSec : Z;
  TsUsec : Z;
  OrigLen : Z;
  Data : list byte
}.

#[export] Instance PcapRecord_eq_dec : EqDecision PcapRecord.
Proof. solve_decision. Defined.

Definition PcapRecord_Size (r : PcapRecord) : Z := RecordHeaderLen + len (Data r).

Definition PcapRecord_header (r : PcapRecord) : list byte :=
  le_enc 4 (TsSec r) ++ le_enc 4 (TsUsec r) ++ le_enc 4 (u32 (len (Data r))) ++
  le_enc 4 (OrigLen r).

Definition PcapRecord_bytes (r : PcapRecord) : list byte := PcapRecord_header r ++ Data r.

(** [Record.AppendTo]. *)
Definition PcapRecord_AppendTo (r : PcapRecord) (dst : list byte) : list byte :=
  dst ++ PcapRecord_bytes r.

(** The captured length and the record without its data. *)
Definition ParseRecordHeader (hdr : list byte) : Z * PcapRecord :=
  (le_u32 8 hdr, mkPcapRecord (le_u32 0 hdr) (le_u32 4 hdr) (le_u32 12 hdr) []).

(** The four results of [ReadRecordAt]: record, next offset, ok, error. *)
Definition ReadRecordAt (r : ReaderAt) (off limit snaplen : Z)
    : PcapRecord * Z * bool * option goerror :=
  let none := mkPcapRecord 0 0 0 [] in
  if limit <? i64 (off + RecordHeaderLen) then (none, off, false, None)
  else match r off 16%nat with
  | Err e => (none, off, false, Some e)
  | Ok hdr =>
      let '(capLen, rec) := ParseRecordHeader hdr in
      if snaplen <? capLen then (none, off, false, Some pcapio_ErrBadRecord)
      else
        let end_ := i64 (i64 (off + RecordHeaderLen) + capLen) in
        if limit <? end_ then (none, off, false, None)
        else match r (i64 (off + RecordHeaderLen)) (Z.to_nat capLen) with
        | Err e => (none, off, false, Some e)
        | Ok data => (mkPcapRecord (TsSec rec) (TsUsec rec) (OrigLen rec) data, end_, true, None)
        end
  end.

(** One round of [ScanRecords]: the record read, or how the scan ends. *)
Inductive scan_step : Type :=
  | ScanRec (rec : PcapRecord) (capLen : Z) (r : stream)
  | ScanStop (err : option goerror).

Definition scan_one (snaplen : Z) (r : stream) : scan_step :=
  match ReadFull r 16 with
  | (Err e, _) =>
      if decide (e = io_EOF \/ e = io_ErrUnexpectedEOF) then ScanStop None
      else ScanStop (Some e)
  | (Ok hdr, r1) =>
      let capLen := le_u32 8 hdr in
      if snaplen <? capLen then ScanStop None
      else match ReadFull r1 (Z.to_nat capLen) with
      | (Err _, _) => ScanStop None
      | (Ok data, r2) =>
          ScanRec (mkPcapRecord (le_u32 0 hdr) (le_u32 4 hdr) (le_u32 12 hdr) data) capLen r2
      end
  end.

(** [ScanRecords].  [cb] is the callback with the state it closes over; a round
    consumes at least 16 bytes, so one more round than there are bytes is fuel
    enough ([scan_records_fuel]). *)
Fixpoint scan_records {S} (fuel : nat) (snaplen : Z)
    (cb : option (PcapRecord -> S -> S * option goerror))
    (r : stream) (s : S) (validBytes count : Z) : S * Z * Z * option goerror :=
  match fuel with
  | O => (s, validBytes, count, None)
  | Datatypes.S fuel =>
      match scan_one snaplen r with
      | ScanStop err => (s, validBytes, count, err)
      | ScanRec rec capLen r' =>
          let '(s', cerr) := match cb with None => (s, None) | Some f => f rec s end in
          match cerr with
          | Some e => (s', validBytes, count, Some e)
          | None =>
              scan_records fuel snaplen cb r' s'
                (i64 (validBytes + (RecordHeaderLen + capLen))) (u64 (count + 1))
          end
      end
  end.

Definition ScanRecords {S} (r : stream) (snaplen : Z)
    (cb : option (PcapRecord -> S -> S * option goerror)) (s : S) : S * Z * Z * option goerror :=
  scan_records (Datatypes.S (length (st_data r))) snaplen cb r s 0 0.

Definition ReadRecord (r : stream) (snaplen : Z) : res PcapRecord * stream :=
  match ReadFull r 16 with
  | (Err e, r1) => (Err e, r1)
  | (Ok hdr, r1) =>
      let capLen := le_u32 8 hdr in
      if snaplen <? capLen then (Err pcapio_ErrBadRecord, r1)
      else match ReadFull r1 (Z.to_nat capLen) with
      | (Err e, r2) => (Err (if decide (e = io_EOF) then io_ErrUnexpectedEOF else e), r2)
      | (Ok data, r2) =>
          (Ok (mkPcapRecord (le_u32 0 hdr) (le_u32 4 hdr) (le_u32 12 hdr) data), r2)
      end
  end.

(** ** Specification vocabulary *)

(** A record the format can carry under [snaplen]: fields of 32 bits and no
    more data than [snaplen]. *)
Definition wf_record (snaplen : Z) (r : PcapRecord) : Prop :=
  is_uint 32 (TsSec r) /\ is_uint 32 (TsUsec r) /\ is_uint 32 (OrigLen r) /\
  len (Data r) <= snaplen.

Definition wf_header (g : GlobalHeader) : Prop :=
  is_uint 32 (gh_Snaplen g) /\ is_uint 32 (gh_LinkType g).

(** The bytes of a run of records. *)
Definition enc_records (recs : list PcapRecord) : list byte := concat (PcapRecord_bytes <$> recs).

(** How many whole records of [recs] lie in the first [n] of their bytes. *)
Fixpoint whole_records (recs : list PcapRecord) (n : nat) : nat :=
  match recs with
  | [] => O
  | r :: t =>
      let k := length (PcapRecord_bytes r) in
      if (n <? k)%nat then O else Datatypes.S (whole_records t (n - k))
  end.

(** ** Lemmas: encodings *)

Lemma length_GlobalHeader_bytes g : length (GlobalHeader_bytes g) = 24%nat.
Proof. done. Qed.

Lemma length_PcapRecord_header r : length (PcapRecord_header r) = 16%nat.
Proof. done. Qed.

#[export] Hint Rewrite length_GlobalHeader_bytes length_PcapRecord_header : ipcap_len.

Lemma length_PcapRecord_bytes r :
  length (PcapRecord_bytes r) = (16 + length (Data r))%nat.
Proof. unfold PcapRecord_bytes. by len_simpl. Qed.

#[export] Hint Rewrite length_PcapRecord_bytes : ipcap_len.

Lemma len_PcapRecord_bytes r : len (PcapRecord_bytes r) = PcapRecord_Size r.
Proof. unfold len, PcapRecord_Size, RecordHeaderLen, len. len_simpl. lia. Qed.

Lemma enc_records_nil : enc_records [] = [].
Proof. done. Qed.

Lemma enc_records_cons r recs : enc_records (r :: recs) = PcapRecord_bytes r ++ enc_records recs.
Proof. done. Qed.

Lemma enc_records_app l k : enc_records (l ++ k) = enc_records l ++ enc_records k.
Proof. unfold enc_records. by rewrite fmap_app, concat_app. Qed.

Lemma enc_records_snoc l r : enc_records (l ++ [r]) = enc_records l ++ PcapRecord_bytes r.
Proof. rewrite enc_records_app, enc_records_cons, enc_records_nil. by rewrite app_nil_r. Qed.

Lemma enc_records_take_drop n recs :
  enc_records recs = enc_records (take n recs) ++ enc_records (drop n recs).
Proof. by rewrite <-enc_records_app, take_drop. Qed.

(** A slice of records holds at most a sixteenth as many records as bytes. *)
Lemma length_enc_records recs : (16 * length recs <= length (enc_records recs))%nat.
Proof.
  induction recs as [|r recs IH]; [cbn; lia|].
  rewrite enc_records_cons. len_simpl. cbn [length]. lia.
Qed.

(** [binary.LittleEndian] fields of a record's own header. *)
Lemma record_header_fields snaplen r :
  is_uint 32 snaplen -> wf_record snaplen r ->
  ParseRecordHeader (PcapRecord_header r) =
    (len (Data r), mkPcapRecord (TsSec r) (TsUsec r) (OrigLen r) []).
Proof.
  intros Hs (H1 & H2 & H3 & H4). pose proof (len_nonneg (Data r)).
  assert (is_uint 32 (len (Data r))) as Hd by (unfold is_uint in *; lia).
  unfold ParseRecordHeader, PcapRecord_header. rewrite (u32_small (len (Data r))) by done.
  f_equal; [|f_equal].
  - apply (le_u32_at 8 (le_enc 4 (TsSec r) ++ le_enc 4 (TsUsec r)) (le_enc 4 (OrigLen r)));
      [done|by rewrite <-!app_assoc|done].
  - eapply (le_u32_at 0 []); [done|reflexivity|done].
  - eapply (le_u32_at 4 (le_enc 4 (TsSec r))); [done|reflexivity|done].
  - apply (le_u32_at 12 (le_enc 4 (TsSec r) ++ le_enc 4 (TsUsec r) ++ le_enc 4 (len (Data r))) []);
      [done|by rewrite <-!app_assoc|done].
Qed.

Lemma parse_header_split hdr cap ts us ol :
  ParseRecordHeader hdr = (cap, mkPcapRecord ts us ol []) ->
  le_u32 8 hdr = cap /\ le_u32 0 hdr = ts /\ le_u32 4 hdr = us /\ le_u32 12 hdr = ol.
Proof. unfold ParseRecordHeader. by intros [= -> -> -> ->]. Qed.

(** ** Lemmas: the record scanner *)

(** [torn snaplen k]: the scanner stops cleanly in front of [k], as it does at
    the end of the file and before a record that was only partly written. *)
Definition torn (snaplen : Z) (k : list byte) : Prop :=
  scan_one snaplen (Stream k io_EOF) = ScanStop None.

Lemma scan_one_record snaplen r k e :
  is_uint 32 snaplen -> wf_record snaplen r ->
  scan_one snaplen (Stream (PcapRecord_bytes r ++ k) e) = ScanRec r (len (Data r)) (Stream k e).
Proof.
  intros Hs Hr. unfold scan_one, PcapRecord_bytes.
  rewrite <-app_assoc, (ReadFull_app (PcapRecord_header r)) by done.
  pose proof (record_header_fields snaplen r Hs Hr) as Hf.
  apply parse_header_split in Hf as (-> & -> & -> & ->).
  destruct (Z.ltb_spec snaplen (len (Data r))); [by destruct Hr as (?&?&?&?); lia|].
  unfold len. rewrite Nat2Z.id, ReadFull_app by done. by destruct r.
Qed.

Lemma torn_nil snaplen : torn snaplen [].
Proof. done. Qed.

(** A record cut anywhere before its last byte is a torn tail. *)
Lemma torn_record snaplen r n :
  is_uint 32 snaplen -> wf_record snaplen r -> (n < length (PcapRecord_bytes r))%nat ->
  torn snaplen (take n (PcapRecord_bytes r)).
Proof.
  intros Hs Hr Hn. unfold torn, scan_one. rewrite length_PcapRecord_bytes in Hn.
  destruct (decide (n < 16)%nat) as [Hlt|Hge].
  - destruct (decide (n = O)) as [->|]; [done|].
    rewrite ReadFull_short_EOF by (rewrite length_take, length_PcapRecord_bytes; cbn; lia).
    rewrite decide_True by auto. done.
  - unfold PcapRecord_bytes. rewrite take_app_ge by len_lia.
    rewrite (ReadFull_app (PcapRecord_header r)) by done.
    pose proof (record_header_fields snaplen r Hs Hr) as Hf.
    apply parse_header_split in Hf as (-> & _ & _ & _).
    destruct (Z.ltb_spec snaplen (len (Data r))); [done|].
    destruct (ReadFull _ _) as [[b|?] ?] eqn:E; [|done].
    apply ReadFull_Ok in E as (Hl & Hd & _). cbn in Hd.
    apply (f_equal length) in Hd. len_simpl. unfold len in Hl. lia.
Qed.

Lemma whole_records_le recs n : (whole_records recs n <= length recs)%nat.
Proof.
  revert n; induction recs as [|r recs IH]; intros n; cbn [whole_records length]; [lia|].
  destruct (Nat.ltb_spec n (length (PcapRecord_bytes r))); [lia|].
  specialize (IH (n - length (PcapRecord_bytes r))%nat). lia.
Qed.

(** What is left of a cut encoding behind its whole records is a torn tail. *)
Lemma whole_records_spec snaplen recs n :
  is_uint 32 snaplen -> Forall (wf_record snaplen) recs ->
  exists k,
    take n (enc_records recs) = enc_records (take (whole_records recs n) recs) ++ k /\
    torn snaplen k.
Proof.
  intros Hs Hrecs. revert n. induction Hrecs as [|r recs Hr Hrecs IH]; intros n.
  { exists []. rewrite enc_records_nil, take_nil. cbn. split; [done|apply torn_nil]. }
  cbn [whole_records]. rewrite enc_records_cons.
  destruct (Nat.ltb_spec n (length (PcapRecord_bytes r))) as [Hlt|Hge].
  - exists (take n (PcapRecord_bytes r)). rewrite take_app_le by lia.
    split; [done|by apply torn_record].
  - destruct (IH (n - length (PcapRecord_bytes r))%nat) as (k & Hk & Ht).
    exists k. rewrite take_app_ge, Hk by lia. cbn [take].
    by rewrite enc_records_cons, <-app_assoc.
Qed.

Lemma enc_records_prefix_mono recs n m :
  (n <= m)%nat -> enc_records (take n recs) `prefix_of` enc_records (take m recs).
Proof.
  intros Hle. exists (enc_records (drop n (take m recs))).
  rewrite (enc_records_take_drop n (take m recs)), take_take. by rewrite Nat.min_l.
Qed.

(** The count is the largest whose bytes fit. *)
Lemma whole_records_lower recs n m :
  (length (enc_records (take m recs)) <= n)%nat -> (m <= length recs)%nat ->
  (m <= whole_records recs n)%nat.
Proof.
  revert n m; induction recs as [|r recs IH]; intros n m Hn Hm; cbn [length] in Hm; [lia|].
  destruct m as [|m]; [lia|]. cbn [take] in Hn. rewrite enc_records_cons in Hn.
  rewrite length_app in Hn. cbn [whole_records].
  destruct (Nat.ltb_spec n (length (PcapRecord_bytes r))); [lia|].
  apply le_n_S, IH; lia.
Qed.

Lemma whole_records_all recs n :
  (length (enc_records recs) <= n)%nat -> whole_records recs n = length recs.
Proof.
  intros Hn. pose proof (whole_records_le recs n).
  assert (length recs <= whole_records recs n)%nat; [|lia].
  apply whole_records_lower; [by rewrite firstn_all|lia].
Qed.

(** The rounds of the scanner over whole records, without a callback. *)
Lemma scan_records_run {S} snaplen recs k fuel (s : S) v c :
  is_uint 32 snaplen -> Forall (wf_record snaplen) recs ->
  (length recs < fuel)%nat ->
  0 <= v -> 0 <= c -> v + len (enc_records recs) < 2 ^ 63 -> c + len recs < 2 ^ 64 ->
  torn snaplen k ->
  scan_records fuel snaplen None (Stream (enc_records recs ++ k) io_EOF) s v c =
    (s, v + len (enc_records recs), c + len recs, None).
Proof.
  intros Hs Hrecs. revert fuel v c.
  induction Hrecs as [|r recs Hr Hrecs IH]; intros fuel v c Hf Hv Hc Hvb Hcb Ht;
    (destruct fuel as [|fuel]; [cbn in Hf; lia|]); cbn [scan_records].
  { rewrite enc_records_nil. cbn [app]. rewrite Ht. unfold len. cbn [length]. pair_lia. }
  rewrite enc_records_cons, <-app_assoc, scan_one_record by done.
  rewrite enc_records_cons in Hvb. len_simpl. rewrite len_PcapRecord_bytes in *.
  unfold PcapRecord_Size in *. cbn [length] in Hf.
  pose proof (len_nonneg (Data r)). pose proof (len_nonneg recs).
  pose proof (len_nonneg (enc_records recs)). unfold RecordHeaderLen in *.
  rewrite i64_small, u64_small by (unfold is_uint; lia).
  rewrite IH by first [done | lia]. pair_lia.
Qed.

Lemma le_enc_slice off b :
  (off + 4 <= length b)%nat -> le_enc 4 (le_u32 off b) = slice off 4 b.
Proof.
  intros Hl. unfold le_u32. rewrite <-(length_slice off 4 b) at 1 by done. apply le_enc_dec.
Qed.

(** A record the scanner delivers is exactly the bytes it consumed. *)
Lemma scan_one_ScanRec snaplen r rec capLen r' :
  scan_one snaplen r = ScanRec rec capLen r' ->
  st_data r = PcapRecord_bytes rec ++ st_data r' /\ st_end r' = st_end r /\
  capLen = len (Data rec) /\ wf_record snaplen rec.
Proof.
  unfold scan_one. destruct (ReadFull r 16) as [[hdr|e] r1] eqn:E1; [|by case_decide].
  apply ReadFull_Ok in E1 as (Hl & Hd & He).
  pose proof (le_u32_range 8 hdr) as [Hc0 Hc1].
  destruct (Z.ltb_spec snaplen (le_u32 8 hdr)) as [|Hcap]; [done|].
  destruct (ReadFull r1 _) as [[data|e] r2] eqn:E2; [|done].
  apply ReadFull_Ok in E2 as (Hl2 & Hd2 & He2). intros [= <- <- <-].
  assert (le_u32 8 hdr = len data) as Hcl by (unfold len; lia).
  split_and!; cbn [Data]; [|congruence|done|].
  - rewrite Hd, Hd2. unfold PcapRecord_bytes, PcapRecord_header. cbn [TsSec TsUsec OrigLen Data].
    rewrite <-Hcl, (u32_small (le_u32 8 hdr)) by done.
    rewrite !le_enc_slice by lia. rewrite !app_assoc. do 2 f_equal.
    rewrite <-(take_drop 4 hdr) at 1. rewrite <-(take_drop 4 (drop 4 hdr)) at 1.
    rewrite <-(take_drop 4 (drop 4 (drop 4 hdr))) at 1. rewrite !drop_drop.
    unfold slice. rewrite drop_0, <-!app_assoc. do 3 f_equal.
    symmetry; apply firstn_all2. rewrite length_drop; lia.
  - unfold wf_record; cbn [TsSec TsUsec OrigLen Data].
    split_and!; [apply le_u32_range..|lia].
Qed.

(** The rounds of the scanner over arbitrary bytes. *)
Lemma scan_records_decompose {S} snaplen fuel data (s : S) v c :
  (length data < 16 * fuel)%nat -> 0 <= v -> 0 <= c ->
  v + len data < 2 ^ 63 -> c + len data < 2 ^ 64 ->
  exists recs k,
    data = enc_records recs ++ k /\ Forall (wf_record snaplen) recs /\ torn snaplen k /\
    scan_records fuel snaplen None (Stream data io_EOF) s v c =
      (s, v + len (enc_records recs), c + len recs, None).
Proof.
  revert data v c; induction fuel as [|fuel IH]; intros data v c Hf Hv Hc Hvb Hcb; [lia|].
  cbn [scan_records]. destruct (scan_one _ _) as [rec capLen r'|err] eqn:E.
  - apply scan_one_ScanRec in E as (Hd & He & -> & Hr). cbn [st_data st_end] in *.
    destruct r' as [data' e]. cbn [st_data st_end] in *. subst data e.
    rewrite len_app, len_PcapRecord_bytes in *. unfold PcapRecord_Size, RecordHeaderLen in *.
    pose proof (len_nonneg (Data rec)). pose proof (len_nonneg data').
    rewrite i64_small, u64_small by (unfold is_uint; lia).
    destruct (IH data' (v + (16 + len (Data rec))) (c + 1)) as (recs & k & -> & Hrecs & Ht & Hscan);
      [rewrite length_app, length_PcapRecord_bytes in Hf; lia|lia..|].
    exists (rec :: recs), k. rewrite enc_records_cons, <-app_assoc, Hscan.
    split_and!; [done|by constructor|done|].
    rewrite len_app, len_PcapRecord_bytes, len_cons. unfold PcapRecord_Size, RecordHeaderLen.
    pair_lia.
  - assert (err = None) as ->.
    { revert E. unfold scan_one.
      destruct (ReadFull (Stream data io_EOF) 16) as [[hdr|e] r1] eqn:E1.
      - destruct (_ <? _); [congruence|]. destruct (ReadFull r1 _) as [[?|?] ?]; congruence.
      - case_decide as Hn; [congruence|]. exfalso; apply Hn.
        revert E1. unfold ReadFull. cbn [st_data st_end]. case_decide; [done|].
        rewrite decide_True by done. destruct data; intros [= <- _]; auto. }
    exists [], data. rewrite enc_records_nil. cbn [app].
    split_and!; [done|constructor|done|]. unfold len; cbn [length]. pair_lia.
Qed.

(** The scanner over a cut encoding. *)
Lemma ScanRecords_prefix {S} snaplen recs n (s : S) :
  is_uint 32 snaplen -> Forall (wf_record snaplen) recs ->
  len (enc_records recs) < 2 ^ 63 ->
  ScanRecords (Stream (take n (enc_records recs)) io_EOF) snaplen None s =
    (s, len (enc_records (take (whole_records recs n) recs)),
     Z.of_nat (whole_records recs n), None).
Proof.
  intros Hs Hrecs Hl.
  destruct (whole_records_spec snaplen recs n Hs Hrecs) as (k & Hk & Ht).
  set (l := take (whole_records recs n) recs) in *.
  assert (length l = whole_records recs n) as Hlen.
  { subst l. rewrite length_take. pose proof (whole_records_le recs n). lia. }
  pose proof (length_enc_records l) as Hl16.
  assert (length (enc_records l ++ k) <= length (enc_records recs))%nat as Hle.
  { rewrite <-Hk, length_take. lia. }
  rewrite length_app in Hle. unfold ScanRecords. cbn [st_data]. rewrite Hk. unfold len in *.
  rewrite scan_records_run; [|done|by apply Forall_take|rewrite length_app; lia|
    lia|lia|unfold len; lia|unfold len; lia|done].
  unfold len. rewrite Hlen. pair_lia.
Qed.

(** A header in front of anything is accepted. *)
Lemma ParseGlobalHeader_app g k : wf_header g -> ParseGlobalHeader (GlobalHeader_bytes g ++ k) = Ok g.
Proof.
  intros [Hs Ht]. unfold ParseGlobalHeader.
  destruct (Z.ltb_spec (len (GlobalHeader_bytes g ++ k)) GlobalHeaderLen) as [Hlt|_].
  { revert Hlt. unfold GlobalHeaderLen. rewrite len_app. unfold len at 1.
    rewrite length_GlobalHeader_bytes. pose proof (len_nonneg k). lia. }
  rewrite (le_u32_at 0 [] (drop 4 (GlobalHeader_bytes g) ++ k) MagicMicros) by done.
  cbn [Z.eqb Pos.eqb negb]. unfold GlobalHeader_bytes.
  rewrite (le_u32_at 16 (take 16 (GlobalHeader_bytes g)) (le_enc 4 (gh_LinkType g) ++ k)
    (gh_Snaplen g)) by done.
  rewrite (le_u32_at 20 (take 20 (GlobalHeader_bytes g)) k (gh_LinkType g)) by done.
  by destruct g.
Qed.

(** At the offset of a record. *)
Lemma ReadRecordAt_at p r k limit snaplen :
  is_uint 32 snaplen -> wf_record snaplen r ->
  len p + PcapRecord_Size r < 2 ^ 63 ->
  ReadRecordAt (file_ReaderAt (p ++ PcapRecord_bytes r ++ k)) (len p) limit snaplen =
    if len p + PcapRecord_Size r <=? limit
    then (r, len p + PcapRecord_Size r, true, None)
    else (mkPcapRecord 0 0 0 [], len p, false, None).
Proof.
  intros Hs Hr Hb. pose proof Hr as (_ & _ & _ & Hcap). pose proof (len_nonneg p).
  pose proof (len_nonneg (Data r)). unfold ReadRecordAt, PcapRecord_Size, RecordHeaderLen in *.
  rewrite (i64_small (len p + 16)) by lia.
  destruct (Z.ltb_spec limit (len p + 16)).
  { by rewrite (proj2 (Z.leb_gt _ _)) by lia. }
  unfold PcapRecord_bytes. rewrite <-app_assoc, (file_ReaderAt_app p (PcapRecord_header r)) by done.
  rewrite (record_header_fields snaplen) by done. cbn [TsSec TsUsec OrigLen].
  rewrite (proj2 (Z.ltb_ge _ _)) by lia. rewrite i64_small by lia.
  destruct (Z.ltb_spec limit (len p + 16 + len (Data r))).
  { by rewrite (proj2 (Z.leb_gt _ _)) by lia. }
  replace (len p + 16) with (len (p ++ PcapRecord_header r)) at 1
    by (rewrite len_app; unfold len; rewrite length_PcapRecord_header; lia).
  rewrite app_assoc, file_ReaderAt_app by (unfold len; lia).
  rewrite (proj2 (Z.leb_le _ _)) by lia. destruct r. cbn [TsSec TsUsec OrigLen Data]. pair_lia.
Qed.

(** ** Properties *)

(** scanning any file contents after the global header splits them into
    whole, plausible records and a tail in front of which the scanner stops
    cleanly; [validBytes] and [count] are the bytes and the number of exactly
    those records, and no error is returned. *)
Theorem ScanRecords_decomposes {S} snaplen data (s : S) :
  len data < 2 ^ 63 ->
  exists recs k,
    data = enc_records recs ++ k /\ Forall (wf_record snaplen) recs /\ torn snaplen k /\
    ScanRecords (Stream data io_EOF) snaplen None s =
      (s, len (enc_records recs), len recs, None).
Proof.
  intros Hl. unfold ScanRecords. cbn [st_data]. unfold len in Hl.
  apply scan_records_decompose; unfold len; lia.
Qed.

Lemma ScanRecords_decomposes_witness :
  len (enc_records [mkPcapRecord 1 2 3 [x61]] ++ [x00]) < 2 ^ 63 /\
  exists recs k,
    enc_records [mkPcapRecord 1 2 3 [x61]] ++ [x00] = enc_records recs ++ k /\
    Forall (wf_record 65536) recs /\ torn 65536 k /\
    ScanRecords (Stream (enc_records [mkPcapRecord 1 2 3 [x61]] ++ [x00]) io_EOF) 65536 None () =
      ((), len (enc_records recs), len recs, None).
Proof. split; [vm_compute; reflexivity|]. apply ScanRecords_decomposes. vm_compute; reflexivity. Defined.

(** C25: after a crash that cut a run of records anywhere, the scanner reports
    exactly the records that survived whole, however the last one was torn. *)
Theorem ScanRecords_crash_prefix {S} snaplen recs n (s : S) :
  is_uint 32 snaplen -> Forall (wf_record snaplen) recs ->
  len (enc_records recs) < 2 ^ 63 ->
  ScanRecords (Stream (take n (enc_records recs)) io_EOF) snaplen None s =
    (s, len (enc_records (take (whole_records recs n) recs)),
     Z.of_nat (whole_records recs n), None).
Proof.
  exact (ScanRecords_prefix snaplen recs n s).
Qed.

Lemma ScanRecords_crash_prefix_witness :
  let recs := [mkPcapRecord 1 2 3 [x61; x62]; mkPcapRecord 4 5 6 [x63]] in
  ScanRecords (Stream (take 20 (enc_records recs)) io_EOF) 65536 None () = ((), 18, 1, None).
Proof.
  intros recs. etransitivity.
  - apply (ScanRecords_crash_prefix 65536 recs 20 ()); apply (bool_decide_unpack _); vm_compute; exact I.
  - vm_compute. reflexivity.
Defined.

(** the header of every file the code writes is read back as it was written. *)
Theorem ParseGlobalHeader_AppendTo g k :
  wf_header g -> ParseGlobalHeader (GlobalHeader_AppendTo g [] ++ k) = Ok g.
Proof.
  exact (ParseGlobalHeader_app g k).
Qed.

Lemma ParseGlobalHeader_AppendTo_witness :
  wf_header (mkGlobalHeader 65536 1) /\
  ParseGlobalHeader (GlobalHeader_AppendTo (mkGlobalHeader 65536 1) [] ++ [x01]) =
    Ok (mkGlobalHeader 65536 1).
Proof.
  assert (wf_header (mkGlobalHeader 65536 1)) as H
    by (apply (bool_decide_unpack _); vm_compute; exact I).
  split; [exact H|]. apply (ParseGlobalHeader_AppendTo (mkGlobalHeader 65536 1) [x01] H).
Defined.

(** [ReadRecordAt] never reads past [limit]: two files that agree on their
    first [limit] bytes give the same result, whatever lies behind. *)
Theorem ReadRecordAt_limit data data' off limit snaplen :
  0 <= off < 2 ^ 62 -> 0 <= limit < 2 ^ 62 -> is_uint 32 snaplen ->
  limit <= len data -> limit <= len data' ->
  take (Z.to_nat limit) data = take (Z.to_nat limit) data' ->
  ReadRecordAt (file_ReaderAt data) off limit snaplen =
  ReadRecordAt (file_ReaderAt data') off limit snaplen.
Proof.
  intros Ho Hlim Hs Hd Hd' Heq.
  assert (forall o n, 0 <= o -> o + Z.of_nat n <= limit ->
    file_ReaderAt data o n = file_ReaderAt data' o n) as Hread.
  { intros o n Ho' Hn. unfold file_ReaderAt. destruct (Z.ltb_spec o 0); [done|].
    case_decide; [done|]. rewrite !(proj2 (Z.leb_le _ _)) by lia. f_equal.
    unfold slice. apply (f_equal (fun l => take n (drop (Z.to_nat o) l))) in Heq.
    rewrite !take_drop_commute, !take_take in Heq. rewrite !take_drop_commute.
    by rewrite !Nat.min_l in Heq by lia. }
  unfold ReadRecordAt, RecordHeaderLen. rewrite !(i64_small (off + 16)) by lia.
  destruct (Z.ltb_spec limit (off + 16)); [done|]. rewrite (Hread off 16%nat) by lia.
  destruct (file_ReaderAt data' off 16%nat) as [hdr|]; [|done].
  unfold ParseRecordHeader. cbn beta iota zeta. pose proof (le_u32_range 8 hdr) as [H0 H1].
  destruct (Z.ltb_spec snaplen (le_u32 8 hdr)); [done|].
  destruct (Z.ltb_spec limit (i64 (off + 16 + le_u32 8 hdr))) as [|Hend]; [done|].
  rewrite i64_small in * by lia. rewrite (Hread (off + 16)) by lia. done.
Qed.

Lemma ReadRecordAt_limit_witness :
  let r := PcapRecord_bytes (mkPcapRecord 1 2 3 [x61]) in
  ReadRecordAt (file_ReaderAt (r ++ [x00])) 0 17 65536 =
  ReadRecordAt (file_ReaderAt (r ++ [x01; x02])) 0 17 65536.
Proof.
  intros r. apply (ReadRecordAt_limit (r ++ [x00]) (r ++ [x01; x02]) 0 17 65536);
    apply (bool_decide_unpack _); vm_compute; exact I.
Defined.

(** at the offset of a record that lies below [limit], [ReadRecordAt]
    returns that record and the offset just behind it; when the record crosses
    [limit] it returns [ok=false] and no error. *)
Theorem ReadRecordAt_record p r k limit snaplen :
  is_uint 32 snaplen -> wf_record snaplen r ->
  len p + PcapRecord_Size r < 2 ^ 63 ->
  ReadRecordAt (file_ReaderAt (p ++ PcapRecord_bytes r ++ k)) (len p) limit snaplen =
    if len p + PcapRecord_Size r <=? limit
    then (r, len p + PcapRecord_Size r, true, None)
    else (mkPcapRecord 0 0 0 [], len p, false, None).
Proof. exact (ReadRecordAt_at p r k limit snaplen). Qed.

Lemma ReadRecordAt_record_witness :
  let r := mkPcapRecord 1 2 3 [x61; x62] in
  ReadRecordAt (file_ReaderAt ([x00] ++ PcapRecord_bytes r ++ [x05])) 1 19 65536 =
    (r, 19, true, None).
Proof.
  intros r. etransitivity.
  - apply (ReadRecordAt_record [x00] r [x05] 19 65536);
      apply (bool_decide_unpack _); vm_compute; exact I.
  - vm_compute. reflexivity.
Defined.
