(* ===== verification/Crc.v ===== *)
(** * CRC-32C (hash/crc32 with the Castagnoli polynomial)

    The checksum of frame headers, frame payloads and the preamble, as its
    bitwise definition, and the fact the frame layer rests on: a changed byte
    always changes the checksum. *)

From S2P Require Import Prelude Bytes.

(** The reflected Castagnoli polynomial. *)
Definition castagnoli : Z := 0x82f63b78.

Definition crc_bit (c : Z) : Z :=
  if Z.odd c then Z.lxor (Z.shiftr c 1) castagnoli else Z.shiftr c 1.

(** One byte: eight bits of the state xored with the byte. *)
Definition crc_byte (c : Z) (b : byte) : Z := Nat.iter 8 crc_bit (Z.lxor c (Z_of_byte b)).

Definition crc_mask (c : Z) : Z := Z.lxor c 0xffffffff.

(** [crc32.Checksum(b, castagnoli)]. *)
Definition CRC32C (b : list byte) : Z := crc_mask (foldl crc_byte (crc_mask 0) b).

Example CRC32C_check : CRC32C (str "123456789") = 0xe3069283.
Proof. vm_compute. reflexivity. Qed.

(** ** Lemmas *)

Lemma lxor_range w a b : 0 <= w -> is_uint w a -> is_uint w b -> is_uint w (Z.lxor a b).
Proof.
  intros Hw [Ha0 Ha1] [Hb0 Hb1].
  assert (0 <= Z.lxor a b) by (apply Z.lxor_nonneg; lia). split; [done|].
  destruct (decide (Z.lxor a b = 0)) as [->|]; [by apply Z.pow_pos_nonneg; lia|].
  apply Z.log2_lt_pow2; [lia|]. pose proof (Z.log2_lxor a b Ha0 Hb0).
  assert (forall z, 0 <= z < 2 ^ w -> Z.log2 z < w \/ z = 0) as Hlog.
  { intros z Hz. destruct (decide (z = 0)); [by right|left]. apply Z.log2_lt_pow2; lia. }
  destruct (decide (w = 0)) as [->|].
  { rewrite Z.pow_0_r in *. assert (a = 0) by lia. assert (b = 0) by lia. subst. done. }
  destruct (Hlog a), (Hlog b); subst; cbn in *; lia.
Qed.

Lemma crc_bit_range c : is_uint 32 c -> is_uint 32 (crc_bit c).
Proof.
  intros [H0 H1]. unfold crc_bit.
  assert (is_uint 32 (Z.shiftr c 1)) as Hs.
  { rewrite Z.shiftr_div_pow2 by lia. unfold is_uint. split; [apply Z.div_pos; lia|].
    apply Z.div_lt_upper_bound; lia. }
  destruct (Z.odd c); [|done]. apply lxor_range; [lia|done|]. unfold is_uint, castagnoli; lia.
Qed.

(** The bit step can be undone: its top bit tells whether the polynomial was
    added. *)
Definition crc_unbit (d : Z) : Z :=
  if Z.testbit d 31 then 2 * Z.lxor d castagnoli + 1 else 2 * d.

Lemma testbit_high c i w : is_uint w c -> 0 <= w <= i -> Z.testbit c i = false.
Proof.
  intros [H0 H1] Hi. destruct (decide (c = 0)) as [->|]; [apply Z.bits_0|].
  apply Z.bits_above_log2; [done|]. apply Z.lt_le_trans with w; [|lia].
  apply Z.log2_lt_pow2; lia.
Qed.

Lemma crc_unbit_bit c : is_uint 32 c -> crc_unbit (crc_bit c) = c.
Proof.
  intros [H0 H1]. unfold crc_bit, crc_unbit.
  assert (Z.testbit (Z.shiftr c 1) 31 = false) as Hb.
  { rewrite Z.shiftr_spec by lia. by apply (testbit_high c _ 32). }
  assert (Z.shiftr c 1 = c / 2) as Hs by (rewrite Z.shiftr_div_pow2 by lia; done).
  pose proof (Zmod_odd c) as Hodd. pose proof (Z.div_mod c 2 ltac:(lia)).
  destruct (Z.odd c).
  - rewrite Z.lxor_spec, Hb. change (Z.testbit castagnoli 31) with true. cbn [xorb].
    rewrite Z.lxor_assoc, Z.lxor_nilpotent, Z.lxor_0_r. lia.
  - rewrite Hb. lia.
Qed.

Lemma iter_crc_bit_range n c : is_uint 32 c -> is_uint 32 (Nat.iter n crc_bit c).
Proof. induction n; cbn; auto using crc_bit_range. Qed.

Lemma iter_crc_bit_inj n c d :
  is_uint 32 c -> is_uint 32 d -> Nat.iter n crc_bit c = Nat.iter n crc_bit d -> c = d.
Proof.
  intros Hc Hd. induction n as [|n IH]; cbn; [done|]. intros H. apply IH.
  rewrite <-(crc_unbit_bit (Nat.iter n crc_bit c)), <-(crc_unbit_bit (Nat.iter n crc_bit d));
    auto using iter_crc_bit_range. by f_equal.
Qed.

Lemma Z_of_byte_u32 b : is_uint 32 (Z_of_byte b).
Proof. pose proof (Z_of_byte_range b). unfold is_uint. lia. Qed.

Lemma crc_byte_range c b : is_uint 32 c -> is_uint 32 (crc_byte c b).
Proof. intros. apply iter_crc_bit_range, lxor_range; auto using Z_of_byte_u32 with lia. Qed.

Lemma lxor_inj_r a b c : Z.lxor a c = Z.lxor b c -> a = b.
Proof.
  intros H%(f_equal (fun z => Z.lxor z c)).
  by rewrite !Z.lxor_assoc, !Z.lxor_nilpotent, !Z.lxor_0_r in H.
Qed.

Lemma crc_byte_inj_state c d b :
  is_uint 32 c -> is_uint 32 d -> crc_byte c b = crc_byte d b -> c = d.
Proof.
  intros Hc Hd H. apply iter_crc_bit_inj in H;
    [|apply lxor_range; auto using Z_of_byte_u32 with lia..]. by eapply lxor_inj_r.
Qed.

Lemma crc_byte_inj_byte c b b' : is_uint 32 c -> crc_byte c b = crc_byte c b' -> b = b'.
Proof.
  intros Hc H. apply iter_crc_bit_inj in H;
    [|apply lxor_range; auto using Z_of_byte_u32 with lia..].
  rewrite !(Z.lxor_comm c) in H. apply lxor_inj_r in H. by apply Z_of_byte_inj.
Qed.

Lemma foldl_crc_range l c : is_uint 32 c -> is_uint 32 (foldl crc_byte c l).
Proof.
  revert c; induction l as [|b l IH]; cbn; intros c Hc; [done|].
  apply IH, crc_byte_range, Hc.
Qed.

Lemma foldl_crc_inj l c d :
  is_uint 32 c -> is_uint 32 d -> foldl crc_byte c l = foldl crc_byte d l -> c = d.
Proof.
  revert c d; induction l as [|b l IH]; cbn; intros c d Hc Hd H; [done|].
  apply (crc_byte_inj_state c d b); [done..|]. apply IH; [by apply crc_byte_range..|done].
Qed.

Lemma crc_mask_range c : is_uint 32 c -> is_uint 32 (crc_mask c).
Proof. intros. apply lxor_range; [lia|done|]. unfold is_uint; lia. Qed.

Lemma CRC32C_range b : is_uint 32 (CRC32C b).
Proof. apply crc_mask_range, foldl_crc_range. vm_compute. split; congruence. Qed.

(** Two inputs that differ in one byte have different checksums. *)
Lemma CRC32C_one_byte p b b' k : b <> b' -> CRC32C (p ++ b :: k) <> CRC32C (p ++ b' :: k).
Proof.
  intros Hne H. apply Hne. unfold CRC32C in H. apply lxor_inj_r in H.
  rewrite !foldl_app in H. cbn in H.
  assert (is_uint 32 (foldl crc_byte (crc_mask 0) p)) as Hp.
  { apply foldl_crc_range. vm_compute. split; congruence. }
  apply foldl_crc_inj in H; [|by apply crc_byte_range..]. by eapply crc_byte_inj_byte.
Qed.
