(* ===== verification/Proto.v ===== *)
(** * The wire protocol (internal/proto: types.go, frame.go, preamble.go, zstd.go)

    Frame types and payload bodies, the framed transport with its two
    checksums, and the stream preamble.  All integers are big-endian. *)

From S2P Require Import Prelude Bytes GoIO Crc.

(** ** Constants and types (types.go) *)

Definition PreambleMagic : list byte := str "PMX1".
Definition ProtocolVersion : Z := 1.
Definition FrameMagic : Z := 0xD0CA.
Definition FrameHeaderLen : Z := 32.
Definition FrameCRCLen : Z := 4.
Definition FrameOverhead : Z := FrameHeaderLen + FrameCRCLen.
Definition MaxPayloadLen : Z := 8 * 2 ^ 20.

(** A frame type is a [uint8]. *)
Definition FramePkt : Z := 0x01.
Definition FramePktBatch : Z := 0x02.
Definition FrameAck : Z := 0x03.
Definition FrameSrcInfo : Z := 0x10.
Definition FrameHeartbeat : Z := 0x11.
Definition FrameStats : Z := 0x12.
Definition FrameGap : Z := 0x13.
Definition FrameTLSKeylog : Z := 0xA0.
Definition FrameTLSPlaintext : Z := 0xA1.
Definition FrameTLSMeta : Z := 0xA2.

Definition Skippable (t : Z) : bool := negb (Z.land t 0x80 =? 0).

Definition FrameType_String (t : Z) : list byte :=
  if t =? FramePkt then str "PKT"
  else if t =? FramePktBatch then str "PKT_BATCH"
  else if t =? FrameAck then str "ACK"
  else if t =? FrameSrcInfo then str "SRCINFO"
  else if t =? FrameHeartbeat then str "HEARTBEAT"
  else if t =? FrameStats then str "STATS"
  else if t =? FrameGap then str "GAP"
  else if t =? FrameTLSKeylog then str "TLS_KEYLOG"
  else if t =? FrameTLSPlaintext then str "TLS_PLAINTEXT"
  else if t =? FrameTLSMeta then str "TLS_META"
  else str "UNKNOWN".

Definition FlagCompressed : Z := 1.
Definition FlagKeyframe : Z := 2.
Definition FlagGap : Z := 4.

(** One packet on the wire. *)
Record PktRecord : Type := mkPktRecord {
  pk_TsSec : Z;
  pk_TsNsec : Z;
  pk_OrigLen : Z;
  pk_CapLen : Z;
  pk_Data : list byte
}.

Definition pktFixedLen : Z := 8 + 4 + 4 + 4.

Definition PktRecord_header (p : PktRecord) : list byte :=
  be_enc 8 (pk_TsSec p) ++ be_enc 4 (pk_TsNsec p) ++ be_enc 4 (pk_OrigLen p) ++
  be_enc 4 (pk_CapLen p).

Definition PktRecord_bytes (p : PktRecord) : list byte := PktRecord_header p ++ pk_Data p.

Definition PktRecord_AppendTo (p : PktRecord) (dst : list byte) : list byte :=
  dst ++ PktRecord_bytes p.

(** The record at the front of [b] and the bytes it takes; [None] is [ok=false]. *)
Definition parsePktRecord (b : list byte) : option (PktRecord * Z) :=
  if len b <? pktFixedLen then None
  else
    let CapLen := be_u32 16 b in
    if MaxPayloadLen <? CapLen then None
    else
      let end_ := pktFixedLen + CapLen in
      if len b <? end_ then None
      else Some (mkPktRecord (be_u64 0 b) (be_u32 8 b) (be_u32 12 b) CapLen
                   (slice (Z.to_nat pktFixedLen) (Z.to_nat CapLen) b), end_).

Definition EncodePktBatch (recs : list PktRecord) : list byte :=
  foldl (fun out r => PktRecord_AppendTo r out) (be_enc 2 (u16 (len recs))) recs.

Fixpoint decode_pkts (count : nat) (b : list byte) : res (list PktRecord) :=
  match count with
  | O => Ok []
  | S count =>
      match parsePktRecord b with
      | None => Err proto_errTruncated
      | Some (rec, n) => recs ← decode_pkts count (drop (Z.to_nat n) b); Ok (rec :: recs)
      end
  end.

Definition DecodePktBatch (payload : list byte) : res (list PktRecord) :=
  if len payload <? 2 then Err proto_errTruncated
  else decode_pkts (Z.to_nat (be_u16 0 payload)) (drop 2 payload).

Record Ack : Type := mkAck { ack_SrcID : Z; AckedGpidx : Z; ack_LastSeq : Z }.

Definition Ack_Encode (a : Ack) : list byte :=
  be_enc 2 (ack_SrcID a) ++ be_enc 8 (AckedGpidx a) ++ be_enc 8 (ack_LastSeq a).

Definition DecodeAck (b : list byte) : res Ack :=
  if len b <? 18 then Err proto_errTruncated
  else Ok (mkAck (be_u16 0 b) (be_u64 2 b) (be_u64 10 b)).

Record Gap : Type := mkGap { gap_SrcID : Z; FromGpidx : Z; ToGpidx : Z }.

Definition Gap_Encode (g : Gap) : list byte :=
  be_enc 2 (gap_SrcID g) ++ be_enc 8 (FromGpidx g) ++ be_enc 8 (ToGpidx g).

Definition DecodeGap (b : list byte) : res Gap :=
  if len b <? 18 then Err proto_errTruncated
  else Ok (mkGap (be_u16 0 b) (be_u64 2 b) (be_u64 10 b)).

Record Heartbeat : Type := mkHeartbeat { hb_TsNsec : Z; HeadGpidx : Z }.

Definition Heartbeat_Encode (h : Heartbeat) : list byte :=
  be_enc 8 (hb_TsNsec h) ++ be_enc 8 (HeadGpidx h).

Definition DecodeHeartbeat (b : list byte) : res Heartbeat :=
  if len b <? 16 then Err proto_errTruncated
  else Ok (mkHeartbeat (be_u64 0 b) (be_u64 8 b)).

Record SrcInfo : Type := mkSrcInfo {
  si_ID : Z;
  si_Name : list byte;
  si_Linktype : Z;
  si_Snaplen : Z;
  si_Kind : list byte;
  si_Epoch : list byte
}.

Record Stats : Type := mkStats {
  Captured : Z;
  DroppedKern : Z;
  IfDrop : Z;
  SpoolBytes : Z;
  stats_OldestGpidx : Z;
  stats_HeadGpidx : Z
}.

(** ** Frames (frame.go) *)

Record Frame : Type := mkFrame {
  f_Type : Z;
  f_Flags : Z;
  f_SourceID : Z;
  f_BaseGpidx : Z;
  f_Seq : Z;
  f_Payload : list byte
}.

#[export] Instance Frame_eq_dec : EqDecision Frame.
Proof. solve_decision. Defined.

(** The 28 header bytes the header checksum covers. *)
Definition header_body (f : Frame) (payloadLen : Z) : list byte :=
  be_enc 2 FrameMagic ++ [byte_of_Z ProtocolVersion; byte_of_Z (f_Type f)] ++
  be_enc 2 (f_Flags f) ++ be_enc 2 (f_SourceID f) ++ be_enc 8 (f_BaseGpidx f) ++
  be_enc 8 (f_Seq f) ++ be_enc 4 (u32 payloadLen).

Definition marshalHeader (f : Frame) (payloadLen : Z) : list byte :=
  header_body f payloadLen ++ be_enc 4 (CRC32C (header_body f payloadLen)).

Definition Frame_bytes (f : Frame) : list byte :=
  marshalHeader f (len (f_Payload f)) ++ f_Payload f ++ be_enc 4 (CRC32C (f_Payload f)).

(** [Frame.AppendTo]; [WriteTo] hands these bytes to one [Write]. *)
Definition Frame_AppendTo (f : Frame) (dst : list byte) : list byte := dst ++ Frame_bytes f.

(** [hdr[i]]. *)
Definition byte_at (i : nat) (b : list byte) : Z := Z_of_byte (nth i b x00).

Definition ReadFrame (r : stream) : res Frame * stream :=
  match ReadFull r 32 with
  | (Err e, r1) => (Err e, r1)
  | (Ok hdr, r1) =>
      if negb (be_u16 0 hdr =? FrameMagic) then (Err proto_ErrBadMagic, r1)
      else if negb (byte_at 2 hdr =? ProtocolVersion) then (Err proto_ErrBadVersion, r1)
      else if negb (CRC32C (slice 0 28 hdr) =? be_u32 28 hdr) then (Err proto_ErrHdrCRC, r1)
      else
        let payloadLen := be_u32 24 hdr in
        if MaxPayloadLen <? payloadLen then (Err proto_ErrPayloadHuge, r1)
        else match ReadFull r1 (Z.to_nat payloadLen) with
        | (Err e, r2) => (Err e, r2)
        | (Ok payload, r2) =>
            match ReadFull r2 4 with
            | (Err e, r3) => (Err e, r3)
            | (Ok crc, r3) =>
                if negb (CRC32C payload =? be_u32 0 crc) then (Err proto_ErrPayCRC, r3)
                else (Ok (mkFrame (byte_at 3 hdr) (be_u16 4 hdr) (be_u16 6 hdr)
                            (be_u64 8 hdr) (be_u64 16 hdr) payload), r3)
            end
        end
  end.

(** ** Preamble (preamble.go) *)

Definition CompressionNone : list byte := str "none".
Definition CompressionZstd : list byte := str "zstd".

Record PreambleHeader : Type := mkPreambleHeader {
  Compression : list byte;
  Sources : list SrcInfo;
  ResumeAck : gmap Z Z
}.

Definition maxPreambleHeader : Z := 2 ^ 16.

(** The CBOR library, as the two calls the package makes. *)
Class CborCodec (A : Type) : Type := {
  cbor_Marshal : A -> res (list byte);
  cbor_Unmarshal : list byte -> res A
}.

Section Preamble.
Context `{CborCodec PreambleHeader}.

(** The bytes handed to the writer, or the error. *)
Definition WritePreamble (h : PreambleHeader) : res (list byte) :=
  match cbor_Marshal h with
  | Err e => Err e
  | Ok body =>
      if maxPreambleHeader <? len body then Err fmt_err
      else Ok (PreambleMagic ++ be_enc 2 ProtocolVersion ++ be_enc 4 (CRC32C body) ++
               be_enc 2 (u16 (len body)) ++ body)
  end.

Definition ReadPreamble (r : stream) : res PreambleHeader * stream :=
  match ReadFull r 12 with
  | (Err e, r1) => (Err e, r1)
  | (Ok fixed, r1) =>
      if negb (bool_decide (take 4 fixed = PreambleMagic)) then (Err proto_ErrBadPreamble, r1)
      else if negb (be_u16 4 fixed =? ProtocolVersion) then (Err proto_ErrBadVersion, r1)
      else
        let wantCRC := be_u32 6 fixed in
        let hdrLen := be_u16 10 fixed in
        if maxPreambleHeader <? hdrLen then (Err proto_ErrBadPreamble, r1)
        else match ReadFull r1 (Z.to_nat hdrLen) with
        | (Err e, r2) => (Err e, r2)
        | (Ok body, r2) =>
            if negb (CRC32C body =? wantCRC) then (Err proto_ErrBadPreamble, r2)
            else match cbor_Unmarshal body with
            | Err e => (Err e, r2)
            | Ok h => (Ok h, r2)
            end
        end
  end.
End Preamble.

(** [EncodeStats] and [DecodeStats]. *)
Definition EncodeStats `{CborCodec Stats} (s : Stats) : res (list byte) := cbor_Marshal s.
Definition DecodeStats `{CborCodec Stats} (b : list byte) : res Stats := cbor_Unmarshal b.

(** ** Batch compression (zstd.go): the two calls into the zstd library. *)
Class ZstdCodec : Type := {
  zstd_EncodeAll : list byte -> list byte;
  zstd_DecodeAll : list byte -> res (list byte)
}.

Definition maxDecompressed : Z := 32 * 2 ^ 20.

Definition CompressBatch `{ZstdCodec} (payload : list byte) : list byte := zstd_EncodeAll payload.

Definition DecompressBatch `{ZstdCodec} (payload : list byte) : res (list byte) :=
  match zstd_DecodeAll payload with
  | Err _ => Err zstd_err
  | Ok out => Ok out
  end.

(** ** Specification vocabulary *)

(** The bytes of a run of packets. *)
Definition enc_pkts (recs : list PktRecord) : list byte := concat (PktRecord_bytes <$> recs).

Definition wf_pkt (p : PktRecord) : Prop :=
  is_uint 64 (pk_TsSec p) /\ is_uint 32 (pk_TsNsec p) /\ is_uint 32 (pk_OrigLen p) /\
  pk_CapLen p = len (pk_Data p) /\ len (pk_Data p) <= MaxPayloadLen.

Definition wf_frame (f : Frame) : Prop :=
  is_uint 8 (f_Type f) /\ is_uint 16 (f_Flags f) /\ is_uint 16 (f_SourceID f) /\
  is_uint 64 (f_BaseGpidx f) /\ is_uint 64 (f_Seq f) /\ len (f_Payload f) <= MaxPayloadLen.

#[export] Instance wf_pkt_dec p : Decision (wf_pkt p).
Proof. unfold wf_pkt; apply _. Defined.
#[export] Instance wf_frame_dec f : Decision (wf_frame f).
Proof. unfold wf_frame; apply _. Defined.

(** ** Lemmas: packet bodies *)

Lemma length_PktRecord_header p : length (PktRecord_header p) = 20%nat.
Proof. done. Qed.

#[export] Hint Rewrite length_PktRecord_header : ipcap_len.

Lemma parsePktRecord_app p k :
  wf_pkt p -> parsePktRecord (PktRecord_bytes p ++ k) = Some (p, len (PktRecord_bytes p)).
Proof.
  intros (Hs & Hn & Ho & Hc & Hm). destruct p as [ts tn ol cap data]. cbn in Hs, Hn, Ho, Hc, Hm.
  pose proof (len_nonneg data). pose proof (len_nonneg k). unfold MaxPayloadLen in Hm.
  assert (len (PktRecord_bytes (mkPktRecord ts tn ol cap data)) = 20 + len data) as Hb.
  { unfold PktRecord_bytes. rewrite len_app. unfold len at 1. rewrite length_PktRecord_header. done. }
  unfold parsePktRecord. rewrite len_app, Hb. change pktFixedLen with 20.
  rewrite (proj2 (Z.ltb_ge _ _)) by lia. subst cap.
  unfold PktRecord_bytes, PktRecord_header.
  cbn [pk_TsSec pk_TsNsec pk_OrigLen pk_CapLen pk_Data]. rewrite <-!app_assoc.
  be_field (be_enc 8 ts ++ be_enc 4 tn ++ be_enc 4 ol) (data ++ k); [|unfold is_uint; lia].
  rewrite (proj2 (Z.ltb_ge _ _)) by (unfold MaxPayloadLen; lia).
  rewrite (proj2 (Z.ltb_ge _ _)) by lia.
  be_field (@nil byte) (be_enc 4 tn ++ be_enc 4 ol ++ be_enc 4 (len data) ++ data ++ k); [|done].
  be_field (be_enc 8 ts) (be_enc 4 ol ++ be_enc 4 (len data) ++ data ++ k); [|done].
  be_field (be_enc 8 ts ++ be_enc 4 tn) (be_enc 4 (len data) ++ data ++ k); [|done].
  do 3 f_equal. change (Z.to_nat 20) with (length (be_enc 8 ts ++ be_enc 4 tn ++ be_enc 4 ol ++ be_enc 4 (len data))).
  rewrite !app_assoc, <-(app_assoc _ data k), <-!app_assoc.
  rewrite 3!(app_assoc _ _ (data ++ k)). rewrite <-!app_assoc.
  apply (slice_app_exact _ (be_enc 8 ts ++ be_enc 4 tn ++ be_enc 4 ol ++ be_enc 4 (len data))).
  unfold len; lia.
Qed.

Lemma parsePktRecord_Some b p n :
  parsePktRecord b = Some (p, n) ->
  b = PktRecord_bytes p ++ drop (Z.to_nat n) b /\ n = len (PktRecord_bytes p) /\ wf_pkt p.
Proof.
  unfold parsePktRecord. change (Z.to_nat pktFixedLen) with 20%nat. change pktFixedLen with 20.
  destruct (Z.ltb_spec (len b) 20) as [|Hl]; [done|].
  destruct (Z.ltb_spec MaxPayloadLen (be_u32 16 b)) as [|Hm]; [done|].
  destruct (Z.ltb_spec (len b) (20 + be_u32 16 b)) as [|Hl2]; [done|]. intros [= <- <-].
  pose proof (be_range 16 4 b) as [Hc0 Hc1]. fold (be_u32 16 b) in Hc0, Hc1.
  unfold len in Hl, Hl2.
  assert (len (slice 20 (Z.to_nat (be_u32 16 b)) b) = be_u32 16 b) as Hd.
  { unfold len. rewrite length_slice by lia. lia. }
  assert (len (PktRecord_header (mkPktRecord (be_u64 0 b) (be_u32 8 b) (be_u32 12 b) (be_u32 16 b)
    (slice 20 (Z.to_nat (be_u32 16 b)) b))) = 20) as Hh by done.
  unfold PktRecord_bytes. rewrite len_app, Hh. cbn [pk_Data]. rewrite Hd. split_and!; [|done|].
  - unfold PktRecord_header. cbn [pk_TsSec pk_TsNsec pk_OrigLen pk_CapLen].
    unfold be_u64, be_u32 at 1 2 3. rewrite !be_enc_slice by lia.
    unfold slice at 1 2 3 4 5. rewrite drop_0, <-!app_assoc.
    rewrite <-(take_drop 8 b) at 1. f_equal.
    rewrite <-(take_drop 4 (drop 8 b)) at 1. f_equal. rewrite drop_drop. cbn [Nat.add].
    rewrite <-(take_drop 4 (drop 12 b)) at 1. f_equal. rewrite drop_drop. cbn [Nat.add].
    rewrite <-(take_drop 4 (drop 16 b)) at 1. f_equal. rewrite drop_drop. cbn [Nat.add].
    rewrite <-(take_drop (Z.to_nat (be_u32 16 b)) (drop 20 b)) at 1. f_equal.
    rewrite drop_drop. f_equal. lia.
  - unfold wf_pkt. cbn [pk_TsSec pk_TsNsec pk_OrigLen pk_CapLen pk_Data]. rewrite Hd.
    split_and!; [apply (be_range 0 8)|apply (be_range 8 4)|apply (be_range 12 4)|done|done].
Qed.

Lemma enc_pkts_cons r recs : enc_pkts (r :: recs) = PktRecord_bytes r ++ enc_pkts recs.
Proof. done. Qed.

Lemma EncodePktBatch_bytes recs :
  EncodePktBatch recs = be_enc 2 (u16 (len recs)) ++ enc_pkts recs.
Proof.
  unfold EncodePktBatch. generalize (be_enc 2 (u16 (len recs))) as out.
  induction recs as [|r recs IH]; intros out; cbn [foldl].
  { cbn. by rewrite app_nil_r. }
  rewrite IH, enc_pkts_cons. unfold PktRecord_AppendTo. by rewrite <-app_assoc.
Qed.

Lemma decode_pkts_app recs k :
  Forall wf_pkt recs ->
  decode_pkts (length recs) (enc_pkts recs ++ k) = Ok recs.
Proof.
  induction 1 as [|r recs Hr Hrecs IH]; [done|].
  cbn [length decode_pkts]. rewrite enc_pkts_cons, <-app_assoc, parsePktRecord_app by done.
  unfold len. rewrite Nat2Z.id, drop_app_length. by rewrite IH.
Qed.

Lemma decode_pkts_Ok n b recs :
  decode_pkts n b = Ok recs ->
  length recs = n /\ Forall wf_pkt recs /\ exists k, b = enc_pkts recs ++ k.
Proof.
  revert b recs; induction n as [|n IH]; intros b recs; cbn [decode_pkts].
  { intros [= <-]. split_and!; [done|constructor|by exists b]. }
  destruct (parsePktRecord b) as [[p m]|] eqn:E; [|done].
  apply parsePktRecord_Some in E as (Hb & -> & Hp).
  destruct (decode_pkts n _) as [ps|] eqn:Eps; cbn; [|done]. intros [= <-].
  apply IH in Eps as (Hl & Hps & k & Hk).
  split_and!; [cbn; lia|by constructor|]. exists k. rewrite Hb at 1. rewrite Hk at 1.
  by rewrite enc_pkts_cons, <-app_assoc.
Qed.

Lemma decode_encode recs k :
  Forall wf_pkt recs -> len recs < 2 ^ 16 -> DecodePktBatch (EncodePktBatch recs ++ k) = Ok recs.
Proof.
  intros Hrecs Hl. pose proof (len_nonneg recs).
  rewrite EncodePktBatch_bytes, <-app_assoc. unfold DecodePktBatch.
  rewrite u16_small by (unfold is_uint; lia).
  rewrite (proj2 (Z.ltb_ge _ _)).
  2:{ rewrite len_app. unfold len at 1. rewrite length_be_enc.
      pose proof (len_nonneg (enc_pkts recs ++ k)). lia. }
  be_field (@nil byte) (enc_pkts recs ++ k); [|unfold is_uint; lia].
  change 2%nat with (length (be_enc 2 (len recs))) at 1. rewrite drop_app_length.
  unfold len. rewrite Nat2Z.id. by apply decode_pkts_app.
Qed.

(** ** Lemmas: frames *)

Lemma length_header_body f n : length (header_body f n) = 28%nat.
Proof. done. Qed.

Lemma length_marshalHeader f n : length (marshalHeader f n) = 32%nat.
Proof. done. Qed.

#[export] Hint Rewrite length_header_body length_marshalHeader : ipcap_len.

Lemma byte_at_app p b k : byte_at (length p) (p ++ b :: k) = Z_of_byte b.
Proof. unfold byte_at. by rewrite app_nth2, Nat.sub_diag by lia. Qed.

(** What [ReadFrame] does with a whole frame in the stream. *)
Lemma ReadFrame_split hdr p c k e :
  length hdr = 32%nat -> length c = 4%nat ->
  be_u32 24 hdr = len p -> len p <= MaxPayloadLen ->
  ReadFrame (Stream (hdr ++ p ++ c ++ k) e) =
    if negb (be_u16 0 hdr =? FrameMagic) then (Err proto_ErrBadMagic, Stream (p ++ c ++ k) e)
    else if negb (byte_at 2 hdr =? ProtocolVersion)
    then (Err proto_ErrBadVersion, Stream (p ++ c ++ k) e)
    else if negb (CRC32C (slice 0 28 hdr) =? be_u32 28 hdr)
    then (Err proto_ErrHdrCRC, Stream (p ++ c ++ k) e)
    else if negb (CRC32C p =? be_u32 0 c) then (Err proto_ErrPayCRC, Stream k e)
    else (Ok (mkFrame (byte_at 3 hdr) (be_u16 4 hdr) (be_u16 6 hdr)
            (be_u64 8 hdr) (be_u64 16 hdr) p), Stream k e).
Proof.
  intros Hh Hc Hn Hm. unfold ReadFrame. rewrite ReadFull_app by done.
  destruct (negb _); [done|]. destruct (negb _); [done|]. destruct (negb _); [done|].
  rewrite Hn, (proj2 (Z.ltb_ge _ _)) by done.
  rewrite ReadFull_app by (unfold len; lia). by rewrite ReadFull_app.
Qed.

Lemma header_fields_wide f (n : Z) :
  wf_frame f -> is_uint 32 n ->
  let hdr := marshalHeader f n in
  be_u16 0 hdr = FrameMagic /\ byte_at 2 hdr = ProtocolVersion /\
  slice 0 28 hdr = header_body f n /\ be_u32 28 hdr = CRC32C (header_body f n) /\
  be_u32 24 hdr = n /\ byte_at 3 hdr = f_Type f /\ be_u16 4 hdr = f_Flags f /\
  be_u16 6 hdr = f_SourceID f /\ be_u64 8 hdr = f_BaseGpidx f /\ be_u64 16 hdr = f_Seq f.
Proof.
  intros (Ht & Hfl & Hs & Hb & Hq & Hp) Hn32. cbn zeta.
  unfold marshalHeader. generalize (CRC32C_range (header_body f n)).
  generalize (CRC32C (header_body f n)) as crc. intros crc Hcrc.
  assert (forall l k : list byte, length l = 28%nat -> slice 0 28 (l ++ k) = l) as Hsl
    by (intros; by apply slice_0_app).
  split_and!.
  - be_field (@nil byte) (drop 2 (header_body f n) ++ be_enc 4 crc); [done|]. by split.
  - done.
  - by apply Hsl.
  - by be_field (header_body f n) (@nil byte).
  - unfold header_body. rewrite u32_small by done.
    by be_field (take 24 (header_body f n)) (be_enc 4 crc).
  - change (byte_at 3 _) with (Z_of_byte (byte_of_Z (f_Type f))).
    rewrite Z_of_byte_of_Z, Z.mod_small; [done|]. exact Ht.
  - by be_field (take 4 (header_body f n)) (drop 6 (header_body f n) ++ be_enc 4 crc).
  - by be_field (take 6 (header_body f n)) (drop 8 (header_body f n) ++ be_enc 4 crc).
  - by be_field (take 8 (header_body f n)) (drop 16 (header_body f n) ++ be_enc 4 crc).
  - by be_field (take 16 (header_body f n)) (drop 24 (header_body f n) ++ be_enc 4 crc).
Qed.

Lemma header_fields f (n : Z) :
  wf_frame f -> 0 <= n <= MaxPayloadLen ->
  let hdr := marshalHeader f n in
  be_u16 0 hdr = FrameMagic /\ byte_at 2 hdr = ProtocolVersion /\
  slice 0 28 hdr = header_body f n /\ be_u32 28 hdr = CRC32C (header_body f n) /\
  be_u32 24 hdr = n /\ byte_at 3 hdr = f_Type f /\ be_u16 4 hdr = f_Flags f /\
  be_u16 6 hdr = f_SourceID f /\ be_u64 8 hdr = f_BaseGpidx f /\ be_u64 16 hdr = f_Seq f.
Proof. intros Hf Hn. apply header_fields_wide; [done|]. unfold is_uint, MaxPayloadLen in *. lia. Qed.

(** A frame whose payload is too large is not accepted. *)
Lemma ReadFrame_huge f (p k : list byte) e :
  wf_frame f -> MaxPayloadLen < len p < 2 ^ 32 ->
  (ReadFrame (Stream (marshalHeader f (len p) ++ k) e)).1 = Err proto_ErrPayloadHuge.
Proof.
  intros Hf Hl. assert (is_uint 32 (len p)) as Hu by (unfold is_uint, MaxPayloadLen in *; lia).
  destruct (header_fields_wide f (len p) Hf Hu) as (H1 & H2 & H3 & H4 & H5 & _).
  unfold ReadFrame. rewrite ReadFull_app by done. rewrite H1, H2, H3, H4, H5, !Z.eqb_refl. cbn [negb].
  by rewrite (proj2 (Z.ltb_lt _ _)) by lia.
Qed.

(** Replacing the byte at [i] splits the buffer around it. *)
Lemma insert_split (l : list byte) i b b' :
  l !! i = Some b -> exists p k, l = p ++ b :: k /\ <[i:=b']> l = p ++ b' :: k /\ length p = i.
Proof.
  intros Hi. exists (take i l), (drop (S i) l). pose proof (lookup_lt_Some _ _ _ Hi).
  split_and!; [by rewrite take_drop_middle|by rewrite insert_take_drop|].
  rewrite length_take; lia.
Qed.

Lemma CRC32C_insert l i b b' : l !! i = Some b -> b <> b' -> CRC32C (<[i:=b']> l) <> CRC32C l.
Proof.
  intros Hi Hne. destruct (insert_split l i b b' Hi) as (p & k & -> & -> & _).
  intros H. symmetry in H. by apply CRC32C_one_byte in H.
Qed.

Lemma be_u32_insert l i b b' :
  length l = 4%nat -> l !! i = Some b -> b <> b' -> be_u32 0 (<[i:=b']> l) <> be_u32 0 l.
Proof.
  intros Hl Hi Hne H. unfold be_u32, slice in H.
  rewrite !drop_0, !firstn_all2 in H by (rewrite ?length_insert; lia).
  apply be_dec_inj in H; [|by rewrite length_insert].
  apply Hne. pose proof (lookup_lt_Some _ _ _ Hi).
  apply (f_equal (lookup i)) in H. rewrite list_lookup_insert_eq in H by done. congruence.
Qed.

(** A header with one changed byte never passes. *)
Lemma header_corrupt f n i b b' :
  wf_frame f -> 0 <= n <= MaxPayloadLen ->
  marshalHeader f n !! i = Some b -> b <> b' ->
  CRC32C (slice 0 28 (<[i:=b']> (marshalHeader f n))) <>
  be_u32 28 (<[i:=b']> (marshalHeader f n)).
Proof.
  intros Hf Hn Hi Hne. unfold marshalHeader in *.
  pose proof (length_header_body f n) as Hl.
  assert (forall l c : list byte, length l = 28%nat -> length c = 4%nat ->
    slice 0 28 (l ++ c) = l /\ be_u32 28 (l ++ c) = be_u32 0 c) as Hsplit.
  { intros l c Hl' Hc. split; [by apply slice_0_app|].
    unfold be_u32. rewrite <-Hl' at 1. rewrite <-(app_nil_r c), slice_app_exact by done.
    by rewrite slice_0_app. }
  assert (be_u32 0 (be_enc 4 (CRC32C (header_body f n))) = CRC32C (header_body f n)) as Hcrc.
  { pose proof (CRC32C_range (header_body f n)) as Hr.
    by rewrite (be_u32_at 0 [] [] (CRC32C (header_body f n))). }
  destruct (decide (i < 28)%nat) as [Hlt|Hge].
  - rewrite lookup_app_l in Hi by lia. rewrite insert_app_l by lia.
    destruct (Hsplit (<[i:=b']> (header_body f n)) (be_enc 4 (CRC32C (header_body f n)))) as [-> ->];
      [by rewrite length_insert|done|]. rewrite Hcrc. by eapply CRC32C_insert.
  - rewrite lookup_app_r in Hi by lia. rewrite Hl in Hi.
    replace i with (length (header_body f n) + (i - 28))%nat by lia. rewrite insert_app_r.
    destruct (Hsplit (header_body f n) (<[(i - 28)%nat:=b']> (be_enc 4 (CRC32C (header_body f n)))))
      as [-> ->]; [done|by rewrite length_insert|].
    rewrite <-Hcrc at 1. intros H. symmetry in H. by eapply be_u32_insert in H.
Qed.

(** The errors a corrupted frame is reported with. *)
Definition corrupt_error (e : goerror) : Prop :=
  e = proto_ErrPayCRC \/ e = proto_ErrHdrCRC \/ e = proto_ErrBadMagic \/
  e = proto_ErrBadVersion \/ e = proto_ErrPayloadHuge.

(** ** Reading back what was written *)

Lemma ReadFrame_bytes f k e : wf_frame f -> ReadFrame (Stream (Frame_bytes f ++ k) e) = (Ok f, Stream k e).
Proof.
  intros Hf. pose proof Hf as (_ & _ & _ & _ & _ & Hp). pose proof (len_nonneg (f_Payload f)).
  destruct (header_fields f (len (f_Payload f)) Hf ltac:(lia))
    as (H1 & H2 & H3 & H4 & H5 & H6 & H7 & H8 & H9 & H10).
  unfold Frame_bytes. rewrite <-!app_assoc.
  rewrite ReadFrame_split by done. rewrite H1, H2, H3, H4, H6, H7, H8, H9, H10, !Z.eqb_refl.
  cbn [negb]. pose proof (CRC32C_range (f_Payload f)) as Hr.
  rewrite (be_u32_at 0 [] [] (CRC32C (f_Payload f))), Z.eqb_refl by done. by destruct f.
Qed.

(** More bytes behind what was read change nothing. *)
Lemma ReadFull_extend r n b r' k e :
  ReadFull r n = (Ok b, r') -> ReadFull (Stream (st_data r ++ k) e) n = (Ok b, Stream (st_data r' ++ k) e).
Proof. intros E. apply ReadFull_Ok in E as (Hl & -> & _). rewrite <-app_assoc. by apply ReadFull_app. Qed.

Lemma ReadFrame_extend r f r' k e :
  ReadFrame r = (Ok f, r') -> ReadFrame (Stream (st_data r ++ k) e) = (Ok f, Stream (st_data r' ++ k) e).
Proof.
  unfold ReadFrame. destruct (ReadFull r 32) as [[hdr|x] r1] eqn:E1; [|done].
  rewrite (ReadFull_extend _ _ _ _ k e E1). do 4 (case_match; [done|]).
  destruct (ReadFull r1 _) as [[pl|x] r2] eqn:E2; [|done]. rewrite (ReadFull_extend _ _ _ _ k e E2).
  destruct (ReadFull r2 4) as [[crc|x] r3] eqn:E3; [|done]. rewrite (ReadFull_extend _ _ _ _ k e E3).
  case_match; [done|]. by intros [= <- <-].
Qed.

(** ** Properties *)

(** C26: every frame the code writes is read back as it was written, and the
    reader stops exactly behind it, so frames can follow each other. *)
Theorem ReadFrame_AppendTo f k e :
  wf_frame f -> ReadFrame (Stream (Frame_AppendTo f [] ++ k) e) = (Ok f, Stream k e).
Proof. exact (ReadFrame_bytes f k e). Qed.

Lemma ReadFrame_AppendTo_witness :
  let f := mkFrame FramePktBatch 0 7 5 1 [x61; x62] in
  ReadFrame (Stream (Frame_AppendTo f [] ++ [x09]) io_EOF) = (Ok f, Stream [x09] io_EOF).
Proof.
  intros f. apply (ReadFrame_AppendTo f [x09] io_EOF).
  apply (bool_decide_unpack _); vm_compute; exact I.
Defined.

(** C27: a frame with any single byte changed, in its header, its payload or one
    of its checksums, is never accepted: [ReadFrame] returns one of the five
    errors the collector counts as corruption. *)
Theorem ReadFrame_detects_corruption f i b b' k e :
  wf_frame f -> Frame_bytes f !! i = Some b -> b <> b' ->
  exists err, (ReadFrame (Stream (<[i:=b']> (Frame_bytes f) ++ k) e)).1 = Err err /\
              corrupt_error err.
Proof.
  intros Hf Hi Hne. pose proof Hf as (_ & _ & _ & _ & _ & Hp).
  pose proof (len_nonneg (f_Payload f)) as Hp0. unfold corrupt_error.
  destruct (header_fields f (len (f_Payload f)) Hf ltac:(lia))
    as (H1 & H2 & H3 & H4 & H5 & _).
  pose proof (CRC32C_range (f_Payload f)) as Hr.
  assert (be_u32 0 (be_enc 4 (CRC32C (f_Payload f))) = CRC32C (f_Payload f)) as Hcrc
    by (by rewrite (be_u32_at 0 [] [] (CRC32C (f_Payload f)))).
  unfold Frame_bytes in *. set (hdr := marshalHeader f (len (f_Payload f))) in *.
  assert (length hdr = 32%nat) as Hh by done.
  destruct (decide (i < 32)%nat) as [Hlt|Hge].
  - rewrite lookup_app_l in Hi by lia. rewrite insert_app_l, <-app_assoc by lia.
    pose proof (header_corrupt f (len (f_Payload f)) i b b' Hf ltac:(lia) Hi Hne) as Hbad.
    fold hdr in Hbad. unfold ReadFrame. rewrite ReadFull_app by (by rewrite length_insert).
    destruct (be_u16 0 _ =? _); cbn [negb]; [|eauto 10].
    destruct (byte_at 2 _ =? _); cbn [negb]; [|eauto 10].
    rewrite (proj2 (Z.eqb_neq _ _) Hbad). cbn [negb]. eauto 10.
  - rewrite lookup_app_r, Hh in Hi by lia.
    replace i with (length hdr + (i - 32))%nat by lia. rewrite insert_app_r.
    destruct (decide (i - 32 < length (f_Payload f))%nat) as [Hlt|Hge2].
    + rewrite lookup_app_l in Hi by lia. rewrite insert_app_l, <-!app_assoc by lia.
      rewrite ReadFrame_split;
        [|done|done|unfold len; by rewrite length_insert|unfold len; by rewrite length_insert].
      rewrite H1, H2, H3, H4, !Z.eqb_refl, Hcrc. cbn [negb].
      rewrite (proj2 (Z.eqb_neq _ _)); [cbn [negb fst]; eauto 10|].
      by eapply CRC32C_insert.
    + rewrite lookup_app_r in Hi by lia.
      set (j := (i - 32 - length (f_Payload f))%nat) in *.
      assert ((i - 32)%nat = (length (f_Payload f) + j)%nat) as -> by lia.
      rewrite insert_app_r, <-!app_assoc.
      rewrite ReadFrame_split; [|done|by rewrite length_insert|done|done].
      rewrite H1, H2, H3, H4, !Z.eqb_refl. cbn [negb].
      rewrite (proj2 (Z.eqb_neq _ _)); [cbn [negb fst]; eauto 10|].
      rewrite <-Hcrc at 1. intros Heq. symmetry in Heq. by eapply be_u32_insert in Heq.
Qed.

Lemma ReadFrame_detects_corruption_witness :
  let f := mkFrame FramePktBatch 0 7 5 1 [x61; x62] in
  exists err, (ReadFrame (Stream (<[33%nat := x63]> (Frame_bytes f) ++ []) io_EOF)).1 = Err err /\
              corrupt_error err.
Proof.
  intros f. apply (ReadFrame_detects_corruption f 33 x62 x63 [] io_EOF).
  - apply (bool_decide_unpack _); vm_compute; exact I.
  - vm_compute. reflexivity.
  - discriminate.
Defined.

(** C28: a batch of at most 65535 packets decodes to the packets it was encoded
    from, also with bytes behind it. *)
Theorem DecodePktBatch_Encode recs k :
  Forall wf_pkt recs -> len recs < 2 ^ 16 -> DecodePktBatch (EncodePktBatch recs ++ k) = Ok recs.
Proof. apply decode_encode. Qed.

Lemma DecodePktBatch_Encode_witness :
  let recs := [mkPktRecord 1 2 3 1 [x61]; mkPktRecord 4 5 6 0 []] in
  DecodePktBatch (EncodePktBatch recs ++ [x00]) = Ok recs.
Proof.
  intros recs. apply (DecodePktBatch_Encode recs [x00]);
    apply (bool_decide_unpack _); vm_compute; exact I.
Defined.

(** whatever [DecodePktBatch] accepts is an encoding: the announced number
    of well-formed packets lie back to back behind the count. *)
Theorem DecodePktBatch_sound payload recs :
  DecodePktBatch payload = Ok recs ->
  exists k, payload = EncodePktBatch recs ++ k /\ Forall wf_pkt recs /\ len recs < 2 ^ 16.
Proof.
  unfold DecodePktBatch. destruct (Z.ltb_spec (len payload) 2) as [|Hl]; [done|].
  intros (Hlen & Hrecs & k & Hk)%decode_pkts_Ok.
  pose proof (be_range 0 2 payload) as [Hc0 Hc1]. fold (be_u16 0 payload) in Hc0, Hc1.
  assert (len recs = be_u16 0 payload) as Hlr by (unfold len; lia).
  exists k. split_and!; [|done|rewrite Hlr; exact Hc1].
  rewrite EncodePktBatch_bytes, Hlr, u16_small by done. rewrite <-app_assoc, <-Hk.
  unfold be_u16. rewrite be_enc_slice by (unfold len in Hl; lia).
  unfold slice. by rewrite drop_0, take_drop.
Qed.

Lemma DecodePktBatch_sound_witness :
  let recs := [mkPktRecord 1 2 3 1 [x61]] in
  exists k, EncodePktBatch recs ++ [x00] = EncodePktBatch recs ++ k /\
            Forall wf_pkt recs /\ len recs < 2 ^ 16.
Proof.
  intros recs. apply (DecodePktBatch_sound (EncodePktBatch recs ++ [x00]) recs).
  vm_compute. reflexivity.
Defined.

(** the fixed-size control payloads (resume and commit ACKs, gap markers,
    heartbeats) decode to what was encoded, also with bytes behind them. *)
Theorem control_payloads_roundtrip a g h k :
  is_uint 16 (ack_SrcID a) -> is_uint 64 (AckedGpidx a) -> is_uint 64 (ack_LastSeq a) ->
  is_uint 16 (gap_SrcID g) -> is_uint 64 (FromGpidx g) -> is_uint 64 (ToGpidx g) ->
  is_uint 64 (hb_TsNsec h) -> is_uint 64 (HeadGpidx h) ->
  DecodeAck (Ack_Encode a ++ k) = Ok a /\ DecodeGap (Gap_Encode g ++ k) = Ok g /\
  DecodeHeartbeat (Heartbeat_Encode h ++ k) = Ok h.
Proof.
  intros Ha1 Ha2 Ha3 Hg1 Hg2 Hg3 Hh1 Hh2. destruct a as [s x q], g as [s' f t], h as [ts hd].
  cbn in Ha1, Ha2, Ha3, Hg1, Hg2, Hg3, Hh1, Hh2. pose proof (len_nonneg k).
  assert (forall n (b : list byte), len b = n -> (len (b ++ k) <? n) = false) as Hlen
    by (intros n b <-; apply Z.ltb_ge; rewrite len_app; lia).
  unfold DecodeAck, DecodeGap, DecodeHeartbeat. rewrite !Hlen by done.
  unfold Ack_Encode, Gap_Encode, Heartbeat_Encode.
  cbn [ack_SrcID AckedGpidx ack_LastSeq gap_SrcID FromGpidx ToGpidx hb_TsNsec HeadGpidx].
  rewrite <-!app_assoc. split_and!.
  - be_field (@nil byte) (be_enc 8 x ++ be_enc 8 q ++ k); [|done].
    be_field (be_enc 2 s) (be_enc 8 q ++ k); [|done].
    by be_field (be_enc 2 s ++ be_enc 8 x) k.
  - be_field (@nil byte) (be_enc 8 f ++ be_enc 8 t ++ k); [|done].
    be_field (be_enc 2 s') (be_enc 8 t ++ k); [|done].
    by be_field (be_enc 2 s' ++ be_enc 8 f) k.
  - be_field (@nil byte) (be_enc 8 hd ++ k); [|done]. by be_field (be_enc 8 ts) k.
Qed.

Lemma control_payloads_roundtrip_witness :
  let a := mkAck 1 2 3 in let g := mkGap 4 5 6 in let h := mkHeartbeat 7 8 in
  DecodeAck (Ack_Encode a ++ []) = Ok a /\ DecodeGap (Gap_Encode g ++ []) = Ok g /\
  DecodeHeartbeat (Heartbeat_Encode h ++ []) = Ok h.
Proof.
  intros a g h. apply (control_payloads_roundtrip a g h []);
    apply (bool_decide_unpack _); vm_compute; exact I.
Defined.

Section PreambleProps.
Context `{CborCodec PreambleHeader}.

(** What [ReadPreamble] finds when a preamble was written for [body]. *)
Lemma ReadPreamble_split body n k e :
  is_uint 16 n ->
  ReadPreamble (Stream (PreambleMagic ++ be_enc 2 ProtocolVersion ++ be_enc 4 (CRC32C body) ++
    be_enc 2 n ++ k) e) =
  match ReadFull (Stream k e) (Z.to_nat n) with
  | (Err err, r2) => (Err err, r2)
  | (Ok b, r2) =>
      if negb (CRC32C b =? CRC32C body) then (Err proto_ErrBadPreamble, r2)
      else match cbor_Unmarshal b with Err err => (Err err, r2) | Ok h => (Ok h, r2) end
  end.
Proof.
  intros Hn. unfold ReadPreamble.
  set (fixed := PreambleMagic ++ be_enc 2 ProtocolVersion ++ be_enc 4 (CRC32C body) ++ be_enc 2 n).
  replace (PreambleMagic ++ _) with (fixed ++ k) by (subst fixed; by rewrite <-!app_assoc).
  rewrite ReadFull_app by done.
  assert (take 4 fixed = PreambleMagic) as -> by done.
  rewrite bool_decide_eq_true_2 by done. cbn [negb]. subst fixed.
  pose proof (CRC32C_range body) as Hc.
  be_field PreambleMagic (be_enc 4 (CRC32C body) ++ be_enc 2 n); [|done].
  rewrite Z.eqb_refl. cbn [negb].
  be_field (PreambleMagic ++ be_enc 2 ProtocolVersion) (be_enc 2 n); [|done].
  be_field (PreambleMagic ++ be_enc 2 ProtocolVersion ++ be_enc 4 (CRC32C body)) (@nil byte);
    [|done].
  destruct Hn as [Hn0 Hn1]. rewrite (proj2 (Z.ltb_ge _ _)) by (unfold maxPreambleHeader; lia).
  done.
Qed.

Lemma ReadPreamble_bytes h body k e :
  cbor_Marshal h = Ok body -> cbor_Unmarshal body = Ok h -> len body < 2 ^ 16 ->
  exists out, WritePreamble h = Ok out /\
              ReadPreamble (Stream (out ++ k) e) = (Ok h, Stream k e).
Proof.
  intros Hm Hu Hl. pose proof (len_nonneg body). unfold WritePreamble. rewrite Hm.
  rewrite (proj2 (Z.ltb_ge _ _)) by (unfold maxPreambleHeader; lia).
  eexists. split; [done|]. rewrite u16_small by (unfold is_uint; lia).
  rewrite <-!app_assoc.
  rewrite ReadPreamble_split by (unfold is_uint; lia).
  rewrite ReadFull_app by (unfold len; lia). by rewrite Z.eqb_refl, Hu.
Qed.

Lemma ReadPreamble_extend r h r' k e :
  ReadPreamble r = (Ok h, r') -> ReadPreamble (Stream (st_data r ++ k) e) = (Ok h, Stream (st_data r' ++ k) e).
Proof.
  unfold ReadPreamble. destruct (ReadFull r 12) as [[hdr|x] r1] eqn:E1; [|done].
  rewrite (ReadFull_extend _ _ _ _ k e E1). do 2 (case_match; [done|]). cbv zeta. case_match; [done|].
  destruct (ReadFull r1 _) as [[body|x] r2] eqn:E2; [|done]. rewrite (ReadFull_extend _ _ _ _ k e E2).
  case_match; [done|]. case_match; [|done]. by intros [= <- <-].
Qed.

(** C29: the preamble is read back as it was written, as long as its CBOR body
    is shorter than 65536 bytes, and the reader stops exactly behind it. *)
Theorem ReadPreamble_WritePreamble h body k e :
  cbor_Marshal h = Ok body -> cbor_Unmarshal body = Ok h -> len body < 2 ^ 16 ->
  exists out, WritePreamble h = Ok out /\
              ReadPreamble (Stream (out ++ k) e) = (Ok h, Stream k e).
Proof. exact (ReadPreamble_bytes h body k e). Qed.

(** a CBOR body of exactly 65536 bytes passes the size check of
    [WritePreamble], but its length is written as 0 and the preamble is
    rejected by every reader (unless the checksum of the body is 0). *)
Theorem WritePreamble_length_wraps h body k e :
  cbor_Marshal h = Ok body -> len body = 2 ^ 16 -> CRC32C body <> 0 ->
  exists out, WritePreamble h = Ok out /\
              (ReadPreamble (Stream (out ++ k) e)).1 = Err proto_ErrBadPreamble.
Proof.
  intros Hm Hl Hc. unfold WritePreamble. rewrite Hm, Hl.
  rewrite (proj2 (Z.ltb_ge _ _)) by (unfold maxPreambleHeader; lia).
  eexists. split; [done|]. change (u16 (2 ^ 16)) with 0.
  rewrite <-!app_assoc.
  rewrite ReadPreamble_split by (unfold is_uint; lia).
  change (Stream (body ++ k) e) with (Stream ([] ++ body ++ k) e).
  rewrite ReadFull_app by done. change (CRC32C []) with 0.
  by rewrite (proj2 (Z.eqb_neq _ _)).
Qed.
End PreambleProps.

(** A codec that knows one header, to instantiate the preamble's theorems. *)
Definition one_header : PreambleHeader := mkPreambleHeader CompressionNone [] ∅.

Definition const_codec (body : list byte) : CborCodec PreambleHeader :=
  {| cbor_Marshal := fun _ => Ok body; cbor_Unmarshal := fun _ => Ok one_header |}.

Lemma ReadPreamble_WritePreamble_witness :
  exists out, @WritePreamble (const_codec [x61; x62]) one_header = Ok out /\
    @ReadPreamble (const_codec [x61; x62]) (Stream (out ++ [x07]) io_EOF) =
      (Ok one_header, Stream [x07] io_EOF).
Proof.
  apply (@ReadPreamble_WritePreamble (const_codec [x61; x62]) one_header [x61; x62] [x07] io_EOF);
    vm_compute; reflexivity.
Defined.

Lemma WritePreamble_length_wraps_witness :
  let body := replicate (Z.to_nat (2 ^ 16)) x61 in
  exists out, @WritePreamble (const_codec body) one_header = Ok out /\
    (@ReadPreamble (const_codec body) (Stream (out ++ []) io_EOF)).1 = Err proto_ErrBadPreamble.
Proof.
  intros body. apply (@WritePreamble_length_wraps (const_codec body) one_header body [] io_EOF).
  - reflexivity.
  - vm_compute. reflexivity.
  - vm_compute. discriminate.
Defined.
