(* ===== verification/Os.v ===== *)
(** * Files, faults and crashes

    The state of the operating system a component works on, and a small
    state-and-error monad for code that calls it.

    A [world] holds one directory, its files, the open file descriptions, and
    three scripts the environment plays: which system call fails (or crashes the
    process, or writes only a part), what the clock shows, and what the random
    source returns.  Every call takes the next entry of its script; an
    exhausted script means success, time 0 and zero bytes.  Theorems quantify
    over all scripts, so they cover every failure and every crash point. *)

From S2P Require Import Prelude Bytes GoIO.

(** ** Files and directories *)

Record inode : Type := Inode {
  i_data : list byte;          (** current contents *)
  i_old : list (list byte);    (** earlier contents not yet superseded on stable storage *)
  i_floor : nat                (** bytes a crash cannot lose *)
}.

Record fdesc : Type := Fdesc {
  fd_ino : nat;
  fd_pos : nat;
  fd_append : bool;
  fd_shared : bool             (** holds a shared [flock] *)
}.

Record fs : Type := Fs {
  fs_inodes : gmap nat inode;
  fs_dir : gmap (list byte) nat;             (** names of the directory *)
  fs_olddirs : list (gmap (list byte) nat);  (** directory versions since the last directory sync *)
  fs_fds : gmap nat fdesc;
  fs_next : nat                              (** next fresh inode and descriptor number *)
}.

Definition set_inodes f s := Fs (f (fs_inodes s)) (fs_dir s) (fs_olddirs s) (fs_fds s) (fs_next s).
Definition set_fds f s := Fs (fs_inodes s) (fs_dir s) (fs_olddirs s) (f (fs_fds s)) (fs_next s).
Definition set_dir d s := Fs (fs_inodes s) d (fs_dir s :: fs_olddirs s) (fs_fds s) (fs_next s).
Definition bump_next s := Fs (fs_inodes s) (fs_dir s) (fs_olddirs s) (fs_fds s) (S (fs_next s)).

Definition empty_inode : inode := Inode [] [] 0.

(** New contents that are not yet on stable storage. *)
Definition inode_set (data : list byte) (floor : nat) (i : inode) : inode :=
  Inode data (i_data i :: i_old i) floor.

Definition inode_sync (i : inode) : inode := Inode (i_data i) [] (length (i_data i)).

Definition inode_truncate (n : nat) (i : inode) : inode :=
  inode_set (take n (i_data i) ++ replicate (n - length (i_data i)) x00)
    (Nat.min (i_floor i) n) i.

(** Bytes written at [pos]; a hole before it reads as zeros. *)
Definition overwrite (pos : nat) (buf data : list byte) : list byte :=
  take pos data ++ replicate (pos - length data) x00 ++ buf ++ drop (pos + length buf) data.

(** ** Faults and the monad *)

Inductive fault : Type :=
  | FOk
  | FErr                (** the call fails without effect *)
  | FShort (n : nat)    (** a write stores [n] bytes, then fails *)
  | FCrash.             (** the process (or the host) dies before the call *)

Record world : Type := World {
  w_fs : fs;
  w_faults : list fault;
  w_clock : list Z;
  w_rand : list byte
}.

Definition set_fs s w := World s (w_faults w) (w_clock w) (w_rand w).

Inductive outcome (A : Type) : Type :=
  | Ret (a : A)
  | Fail (e : goerror)
  | Crashed.
Arguments Ret {A} a.
Arguments Fail {A} e.
Arguments Crashed {A}.

(** Code that mutates an object of type [X] and calls the operating system. *)
Definition M (X A : Type) : Type := X * world -> outcome A * (X * world).

#[export] Instance M_ret X : MRet (M X) := fun A a s => (Ret a, s).
#[export] Instance M_bind X : MBind (M X) := fun A B k m s =>
  match m s with
  | (Ret a, s') => k a s'
  | (Fail e, s') => (Fail e, s')
  | (Crashed, s') => (Crashed, s')
  end.

Definition fail {X A} (e : goerror) : M X A := fun s => (Fail e, s).
Definition get {X} : M X X := fun s => (Ret s.1, s).
Definition modify {X} (f : X -> X) : M X unit := fun s => (Ret (), (f s.1, s.2)).
Definition of_res {X A} (r : res A) : M X A :=
  match r with Ok a => mret a | Err e => fail e end.

(** [err := f()] without returning on error. *)
Definition try {X A} (m : M X A) : M X (res A) := fun s =>
  match m s with
  | (Ret a, s') => (Ret (Ok a), s')
  | (Fail e, s') => (Ret (Err e), s')
  | (Crashed, s') => (Crashed, s')
  end.

(** [if err := f(); err != nil { cleanup; return err }]. *)
Definition on_error {X A} (m : M X A) (cleanup : M X unit) : M X A :=
  r ← try m;
  match r with
  | Ok a => mret a
  | Err e => cleanup ;; fail e
  end.

(** A call on a field of the object. *)
Definition zoom {X Y A} (g : X -> Y) (p : Y -> X -> X) (m : M Y A) : M X A := fun s =>
  let '(o, (y, w)) := m (g s.1, s.2) in (o, (p y s.1, w)).

(** ** System calls *)

Definition next_fault (w : world) : fault * world :=
  match w_faults w with
  | [] => (FOk, w)
  | f :: fs => (f, World (w_fs w) fs (w_clock w) (w_rand w))
  end.

(** A call that has its effect or fails without one. *)
Definition sys {X A} (call : fs -> res (A * fs)) : M X A := fun s =>
  let '(f, w) := next_fault s.2 in
  match f with
  | FCrash => (Crashed, (s.1, w))
  | FErr | FShort _ => (Fail os_err, (s.1, w))
  | FOk =>
      match call (w_fs w) with
      | Ok (a, s') => (Ret a, (s.1, set_fs s' w))
      | Err e => (Fail e, (s.1, w))
      end
  end.

Definition with_fd {A} (fd : nat) (k : fdesc -> inode -> fs -> res (A * fs)) (s : fs) : res (A * fs) :=
  match fs_fds s !! fd with
  | None => Err os_err
  | Some d => match fs_inodes s !! fd_ino d with None => Err os_err | Some i => k d i s end
  end.

(** [os.OpenFile]; reading and writing permissions are not distinguished. *)
Record oflags : Type := OFlags { O_CREATE : bool; O_TRUNC : bool; O_EXCL : bool; O_APPEND : bool }.

Definition O_plain : oflags := OFlags false false false false.

Definition open_ino (ino : nat) (app : bool) (s : fs) : nat * fs :=
  (fs_next s, bump_next (set_fds <[fs_next s := Fdesc ino 0 app false]> s)).

Definition open_call (name : list byte) (fl : oflags) (s : fs) : res (nat * fs) :=
  match fs_dir s !! name with
  | Some ino =>
      if O_EXCL fl then Err os_ErrExist
      else
        let s1 := if O_TRUNC fl then set_inodes (alter (inode_truncate 0) ino) s else s in
        Ok (open_ino ino (O_APPEND fl) s1)
  | None =>
      if O_CREATE fl then
        let ino := fs_next s in
        let s1 := bump_next (set_inodes <[ino := empty_inode]> (set_dir (<[name := ino]> (fs_dir s)) s)) in
        Ok (open_ino ino (O_APPEND fl) s1)
      else Err os_ErrNotExist
  end.

Definition OpenFile {X} (name : list byte) (fl : oflags) : M X nat := sys (open_call name fl).

Definition write_fs (fd : nat) (d : fdesc) (i : inode) (buf : list byte) (s : fs) : fs :=
  let pos := if fd_append d then length (i_data i) else fd_pos d in
  set_fds <[fd := Fdesc (fd_ino d) (pos + length buf) (fd_append d) (fd_shared d)]>
    (set_inodes <[fd_ino d := inode_set (overwrite pos buf (i_data i)) (i_floor i) i]> s).

(** [f.Write]: all of [buf], or a part of it and an error. *)
Definition Write {X} (fd : nat) (buf : list byte) : M X unit := fun s =>
  let '(f, w) := next_fault s.2 in
  let store b := with_fd fd (fun d i fs0 => Ok ((), write_fs fd d i b fs0)) (w_fs w) in
  match f with
  | FCrash => (Crashed, (s.1, w))
  | FErr => (Fail os_err, (s.1, w))
  | FShort n =>
      match store (take n buf) with
      | Ok (_, s') => (Fail os_err, (s.1, set_fs s' w))
      | Err e => (Fail e, (s.1, w))
      end
  | FOk =>
      match store buf with
      | Ok (_, s') => (Ret (), (s.1, set_fs s' w))
      | Err e => (Fail e, (s.1, w))
      end
  end.

(** [pcapio.Fdatasync]: contents and size of the file reach stable storage. *)
Definition Fdatasync {X} (fd : nat) : M X unit :=
  sys (with_fd fd (fun d i s => Ok ((), set_inodes <[fd_ino d := inode_sync i]> s))).

Definition Truncate {X} (fd : nat) (n : Z) : M X unit :=
  sys (with_fd fd (fun d i s =>
    if n <? 0 then Err os_err
    else Ok ((), set_inodes <[fd_ino d := inode_truncate (Z.to_nat n) i]> s))).

Definition seek_to {X} (fd : nat) (pos : inode -> Z) : M X Z :=
  sys (with_fd fd (fun d i s =>
    if pos i <? 0 then Err os_err
    else Ok (pos i, set_fds <[fd := Fdesc (fd_ino d) (Z.to_nat (pos i)) (fd_append d) (fd_shared d)]> s))).

Definition SeekStart {X} (fd : nat) (off : Z) : M X Z := seek_to fd (fun _ => off).
Definition SeekEnd {X} (fd : nat) : M X Z := seek_to fd (fun i => len (i_data i)).

Definition FileSize {X} (fd : nat) : M X Z := sys (with_fd fd (fun _ i s => Ok (len (i_data i), s))).

(** The file for [ReadAt]: its contents as they are now. *)
Definition FileReaderAt {X} (fd : nat) : M X ReaderAt :=
  sys (with_fd fd (fun _ i s => Ok (file_ReaderAt (i_data i), s))).

(** What reading the file from the current position on delivers: all of it and
    [io.EOF], or a part of it and an error. *)
Definition FileStream {X} (fd : nat) : M X stream := fun s =>
  let '(f, w) := next_fault s.2 in
  match with_fd fd (fun d i fs0 => Ok (drop (fd_pos d) (i_data i), fs0)) (w_fs w) with
  | Err e => (Fail e, (s.1, w))
  | Ok (data, _) =>
      match f with
      | FCrash => (Crashed, (s.1, w))
      | FErr => (Ret (Stream [] os_err), (s.1, w))
      | FShort n => (Ret (Stream (take n data) os_err), (s.1, w))
      | FOk => (Ret (Stream data io_EOF), (s.1, w))
      end
  end.

(** [f.Close()] with its error ignored. *)
Definition Close {X} (fd : nat) : M X unit := fun s =>
  (Ret (), (s.1, set_fs (set_fds (delete fd) (w_fs s.2)) s.2)).

(** [err := f.Close()]. *)
Definition CloseErr {X} (fd : nat) : M X unit := sys (fun s => Ok ((), set_fds (delete fd) s)).

Definition ReadFile {X} (name : list byte) : M X (list byte) :=
  sys (fun s =>
    match fs_dir s !! name with
    | None => Err os_ErrNotExist
    | Some ino => match fs_inodes s !! ino with None => Err os_err | Some i => Ok (i_data i, s) end
    end).

(** [os.Stat(name)], for the size. *)
Definition StatSize {X} (name : list byte) : M X Z :=
  sys (fun s =>
    match fs_dir s !! name with
    | None => Err os_ErrNotExist
    | Some ino => match fs_inodes s !! ino with None => Err os_err | Some i => Ok (len (i_data i), s) end
    end).

(** [os.ReadDir]: the names, in some order (the code sorts what it keeps). *)
Definition ReadDir {X} : M X (list (list byte)) :=
  sys (fun s => Ok ((map_to_list (fs_dir s)).*1, s)).

Definition Rename {X} (old new : list byte) : M X unit :=
  sys (fun s =>
    match fs_dir s !! old with
    | None => Err os_ErrNotExist
    | Some ino => Ok ((), set_dir (<[new := ino]> (delete old (fs_dir s))) s)
    end).

Definition Remove {X} (name : list byte) : M X unit :=
  sys (fun s =>
    match fs_dir s !! name with
    | None => Err os_ErrNotExist
    | Some _ => Ok ((), set_dir (delete name (fs_dir s)) s)
    end).

(** [pcapio.SyncDir]: the directory's names reach stable storage. *)
Definition SyncDir {X} : M X unit :=
  sys (fun s => Ok ((), Fs (fs_inodes s) (fs_dir s) [] (fs_fds s) (fs_next s))).

Definition MkdirAll {X} : M X unit := sys (fun s => Ok ((), s)).

(** [flock(LOCK_SH|LOCK_NB)] with its error ignored: the lock may be missed. *)
Definition FlockShared {X} (fd : nat) : M X unit :=
  _ ← try (sys (with_fd fd (fun d _ s =>
    Ok ((), set_fds <[fd := Fdesc (fd_ino d) (fd_pos d) (fd_append d) true]> s))));
  mret ().

(** [flock(LOCK_EX|LOCK_NB)]: fails while another description of the file
    holds a shared lock. *)
Definition FlockExclusive {X} (fd : nat) : M X unit :=
  sys (with_fd fd (fun d _ s =>
    if bool_decide (map_Forall (fun fd' d' => fd' = fd \/ fd_ino d' <> fd_ino d \/ fd_shared d' = false)
                      (fs_fds s))
    then Ok ((), s) else Err os_err)).

(** [time.Now()]: never fails, shows what the clock script says. *)
Definition Now {X} : M X Z := fun s =>
  let w := s.2 in
  match w_clock w with
  | [] => (Ret 0, s)
  | t :: ts => (Ret t, (s.1, World (w_fs w) (w_faults w) ts (w_rand w)))
  end.

(** [rand.Read] of [n] bytes. *)
Definition RandRead {X} (n : nat) : M X (list byte) := fun s =>
  let '(f, w) := next_fault s.2 in
  match f with
  | FCrash => (Crashed, (s.1, w))
  | FErr | FShort _ => (Fail os_err, (s.1, w))
  | FOk => (Ret (take n (w_rand w ++ replicate n x00)),
            (s.1, World (w_fs w) (w_faults w) (w_clock w) (drop n (w_rand w))))
  end.

(** ** Crashes *)

(** What a file may hold after a crash: a prefix of one of the contents it had
    since the last [Fdatasync], and no less than the synced bytes. *)
Definition crash_inode (i i' : inode) : Prop :=
  (exists v, v ∈ i_data i :: i_old i /\ i_data i' `prefix_of` v) /\
  (i_floor i <= length (i_data i'))%nat /\ i_old i' = [] /\ i_floor i' = length (i_data i').

(** After a crash the directory is one of its versions since the last directory
    sync (metadata operations reach the journal in order), every file has lost
    at most unsynced bytes, and no descriptor is open. *)
Definition crash_fs (s s' : fs) : Prop :=
  fs_dir s' ∈ fs_dir s :: fs_olddirs s /\ fs_olddirs s' = [] /\ fs_fds s' = ∅ /\
  fs_next s' = fs_next s /\
  forall ino, match fs_inodes s !! ino, fs_inodes s' !! ino with
              | Some i, Some i' => crash_inode i i'
              | None, None => True
              | _, _ => False
              end.

(** ** Reasoning about runs

    [wp F m Φ x s]: whatever the scripts say, running [m] on the object [x] and
    the file system [s] ends in an outcome, object and file system that satisfy
    [Φ], as long as only faults in [F] happen.  Crashes are outcomes, so one [Φ]
    states the normal, the error and the crash postcondition. *)
Definition wp {X A} (F : fault -> Prop) (m : M X A) (Φ : outcome A -> X -> fs -> Prop)
    (x : X) (s : fs) : Prop :=
  forall faults clock rand, Forall F faults ->
    let '(o, (x', w')) := m (x, World s faults clock rand) in
    Φ o x' (w_fs w') /\ Forall F (w_faults w').

(** Every fault, and crashes only. *)
Definition any_fault (_ : fault) : Prop := True.
Definition crash_only (f : fault) : Prop := f = FOk \/ f = FCrash.

(** A call can fail. *)
Definition can_fail (F : fault -> Prop) : Prop := F FErr \/ exists n, F (FShort n).

(** Calls fail and die only if a fault makes them. *)
Definition allowed (F : fault -> Prop) {A} (o : outcome A) : Prop :=
  match o with Ret _ => True | Fail _ => can_fail F | Crashed => F FCrash end.

Lemma crash_only_no_fail : ~ can_fail crash_only.
Proof. intros [[?|?]|[n [?|?]]]; done. Qed.

Lemma any_fault_all l : Forall any_fault l.
Proof. by apply Forall_true. Qed.

(** The postcondition of the rest of a sequence. *)
Definition bind_post {X A B} F (k : A -> M X B) (Φ : outcome B -> X -> fs -> Prop)
    (o : outcome A) (x : X) (s : fs) : Prop :=
  match o with
  | Ret a => wp F (k a) Φ x s
  | Fail e => Φ (Fail e) x s
  | Crashed => Φ Crashed x s
  end.

Section Wp.
Context {F : fault -> Prop}.

Lemma wp_mono {X A} (m : M X A) (Φ Ψ : outcome A -> X -> fs -> Prop) x s :
  wp F m Φ x s -> (forall o x' s', Φ o x' s' -> Ψ o x' s') -> wp F m Ψ x s.
Proof.
  intros H HΦ fl ck rn HF. specialize (H fl ck rn HF). destruct (m _) as [o [x' w']].
  destruct H. split; [by apply HΦ|done].
Qed.

Lemma wp_conj {X A} (m : M X A) (Φ Ψ : outcome A -> X -> fs -> Prop) x s :
  wp F m Φ x s -> wp F m Ψ x s -> wp F m (fun o x' s' => Φ o x' s' /\ Ψ o x' s') x s.
Proof.
  intros H1 H2 fl ck rn HF. specialize (H1 fl ck rn HF). specialize (H2 fl ck rn HF).
  destruct (m _) as [o [x' w']]. destruct H1, H2. by split_and!.
Qed.

Lemma wp_ret {X A} (a : A) Φ (x : X) s : Φ (Ret a) x s -> wp F (mret a) Φ x s.
Proof. by intros H fl ck rn. Qed.

Lemma wp_fail {X A} e Φ (x : X) s : Φ (Fail e) x s -> wp F (fail e : M X A) Φ x s.
Proof. by intros H fl ck rn. Qed.

Lemma wp_bind {X A B} (m : M X A) (k : A -> M X B) Φ x s :
  wp F m (bind_post F k Φ) x s -> wp F (m ≫= k) Φ x s.
Proof.
  intros H fl ck rn HF. specialize (H fl ck rn HF). unfold mbind, M_bind.
  destruct (m _) as [[a|e|] [x' [s' fl' ck' rn']]]; cbn in *; destruct H as [H HF']; [|done|done].
  by apply (H fl' ck' rn').
Qed.

Lemma wp_get {X} Φ (x : X) s : Φ (Ret x) x s -> wp F get Φ x s.
Proof. by intros H fl ck rn. Qed.

Lemma wp_modify {X} (f : X -> X) Φ x s : Φ (Ret ()) (f x) s -> wp F (modify f) Φ x s.
Proof. by intros H fl ck rn. Qed.

Lemma wp_of_res {X A} (r : res A) Φ (x : X) s :
  match r with Ok a => Φ (Ret a) x s | Err e => Φ (Fail e) x s end -> wp F (of_res r) Φ x s.
Proof. destruct r; [apply wp_ret|apply wp_fail]. Qed.

Lemma wp_try {X A} (m : M X A) Φ x s :
  wp F m (fun o x' s' => match o with
                         | Ret a => Φ (Ret (Ok a)) x' s'
                         | Fail e => Φ (Ret (Err e)) x' s'
                         | Crashed => Φ Crashed x' s'
                         end) x s ->
  wp F (try m) Φ x s.
Proof.
  intros H fl ck rn HF. specialize (H fl ck rn HF). unfold try.
  destruct (m _) as [[a|e|] [x' w']]; done.
Qed.

Lemma wp_zoom {X Y A} (g : X -> Y) (p : Y -> X -> X) (m : M Y A) Φ x s :
  wp F m (fun o y s' => Φ o (p y x) s') (g x) s -> wp F (zoom g p m) Φ x s.
Proof.
  intros H fl ck rn HF. specialize (H fl ck rn HF). unfold zoom. cbn.
  destruct (m _) as [o [y w']]. done.
Qed.

(** The next entry of a script. *)
Lemma next_fault_F s fl ck rn f w :
  Forall F fl -> next_fault (World s fl ck rn) = (f, w) ->
  (f = FOk \/ F f) /\ w_fs w = s /\ Forall F (w_faults w).
Proof.
  intros HF. unfold next_fault. destruct HF as [|f0 fl Hf HF]; cbn; intros [= <- <-]; cbn; auto.
Qed.

Lemma can_fail_err f : F f -> (f = FErr \/ exists n, f = FShort n) -> can_fail F.
Proof. intros Hf [->|[n ->]]; [by left|right; eauto]. Qed.

(** A system call: it may crash, fail, or take effect. *)
Lemma wp_sys {X A} (call : fs -> res (A * fs)) Φ (x : X) s :
  (F FCrash -> Φ Crashed x s) -> (can_fail F -> Φ (Fail os_err) x s) ->
  match call s with Ok (a, s') => Φ (Ret a) x s' | Err e => Φ (Fail e) x s end ->
  wp F (sys call) Φ x s.
Proof.
  intros Hc Hf Hok fl ck rn HF. unfold sys. cbn.
  destruct (next_fault _) as [f w] eqn:E. destruct (next_fault_F _ _ _ _ _ _ HF E) as (Hff & Hs & HF').
  destruct f; rewrite ?Hs.
  - destruct (call s) as [[a s']|e]; cbn; by rewrite ?Hs.
  - split; [|done]. cbn. rewrite ?Hs. apply Hf. destruct Hff; [done|]. eapply can_fail_err; eauto.
  - split; [|done]. cbn. rewrite ?Hs. apply Hf. destruct Hff; [done|]. eapply can_fail_err; eauto.
  - split; [|done]. cbn. rewrite ?Hs. apply Hc. by destruct Hff.
Qed.

Lemma wp_Write {X} fd buf Φ (x : X) s d i :
  fs_fds s !! fd = Some d -> fs_inodes s !! fd_ino d = Some i ->
  (F FCrash -> Φ Crashed x s) -> (can_fail F -> Φ (Fail os_err) x s) ->
  (forall n, can_fail F -> Φ (Fail os_err) x (write_fs fd d i (take n buf) s)) ->
  Φ (Ret ()) x (write_fs fd d i buf s) ->
  wp F (Write fd buf) Φ x s.
Proof.
  intros Hd Hi Hc Hf Hs Hok fl ck rn HF. unfold Write, with_fd. cbn.
  destruct (next_fault _) as [f w] eqn:E. destruct (next_fault_F _ _ _ _ _ _ HF E) as (Hff & Hw & HF').
  destruct f; cbn; rewrite ?Hw, ?Hd, ?Hi; cbn; rewrite ?Hw; try done.
  - split; [|done]. apply Hf. destruct Hff; [done|]. eapply can_fail_err; eauto.
  - split; [|done]. apply Hs. destruct Hff; [done|]. eapply can_fail_err; eauto.
  - split; [|done]. apply Hc. by destruct Hff.
Qed.

Lemma wp_FileStream {X} fd Φ (x : X) s d i :
  fs_fds s !! fd = Some d -> fs_inodes s !! fd_ino d = Some i ->
  (F FCrash -> Φ Crashed x s) ->
  (forall n, can_fail F -> Φ (Ret (Stream (take n (drop (fd_pos d) (i_data i))) os_err)) x s) ->
  Φ (Ret (Stream (drop (fd_pos d) (i_data i)) io_EOF)) x s ->
  wp F (FileStream fd) Φ x s.
Proof.
  intros Hd Hi Hc Hs Hok fl ck rn HF. unfold FileStream, with_fd. cbn.
  destruct (next_fault _) as [f w] eqn:E. destruct (next_fault_F _ _ _ _ _ _ HF E) as (Hff & Hw & HF').
  rewrite Hw, Hd. cbn. rewrite Hi. destruct f; cbn; rewrite ?Hw; try done.
  - split; [|done]. apply (Hs 0%nat). destruct Hff; [done|]. eapply can_fail_err; eauto.
  - split; [|done]. apply Hs. destruct Hff; [done|]. eapply can_fail_err; eauto.
  - split; [|done]. apply Hc. by destruct Hff.
Qed.

Lemma wp_Now {X} Φ (x : X) s : (forall t, Φ (Ret t) x s) -> wp F Now Φ x s.
Proof. intros H fl [|t ck] rn HF; (split; [apply H|done]). Qed.

Lemma wp_Close {X} fd Φ (x : X) s : Φ (Ret ()) x (set_fds (delete fd) s) -> wp F (Close fd) Φ x s.
Proof. by intros H fl ck rn. Qed.

Lemma wp_RandRead {X} n Φ (x : X) s :
  (F FCrash -> Φ Crashed x s) -> (can_fail F -> Φ (Fail os_err) x s) ->
  (forall b, length b = n -> Φ (Ret b) x s) ->
  wp F (RandRead n) Φ x s.
Proof.
  intros Hc Hf Hok fl ck rn HF. unfold RandRead. cbn.
  destruct (next_fault _) as [f w] eqn:E. destruct (next_fault_F _ _ _ _ _ _ HF E) as (Hff & Hw & HF').
  destruct f; cbn; rewrite ?Hw; (split; [|done]); try done.
  - apply Hok. rewrite length_take, length_app, length_replicate. lia.
  - apply Hf. destruct Hff; [done|]. eapply can_fail_err; eauto.
  - apply Hf. destruct Hff; [done|]. eapply can_fail_err; eauto.
  - apply Hc. by destruct Hff.
Qed.

(** Running with a given script, from a property of all scripts. *)
Lemma wp_run {X A} (m : M X A) Φ x s w o x' w' :
  wp F m Φ x s -> w_fs w = s -> Forall F (w_faults w) -> m (x, w) = (o, (x', w')) ->
  Φ o x' (w_fs w').
Proof.
  intros H <- HF E. destruct w as [s fl ck rn]. specialize (H fl ck rn HF). cbn in H.
  rewrite E in H. apply H.
Qed.

Lemma wp_on_error {X A} (m : M X A) (cleanup : M X unit) Φ x s :
  wp F m (fun o x' s' => match o with
                         | Ret a => Φ (Ret a) x' s'
                         | Fail e => wp F (cleanup ;; fail e) Φ x' s'
                         | Crashed => Φ Crashed x' s'
                         end) x s ->
  wp F (on_error m cleanup) Φ x s.
Proof.
  intros H. apply wp_bind, wp_try. eapply wp_mono; [exact H|].
  intros [a|e|] x' s' Ho; cbn; [by apply wp_ret|done|done].
Qed.

Lemma wp_seq_fail {X A} (m : M X unit) e (Φ : outcome A -> X -> fs -> Prop) x s :
  wp F m (fun o x' s' => match o with
                         | Ret _ => Φ (Fail e) x' s'
                         | Fail e' => Φ (Fail e') x' s'
                         | Crashed => Φ Crashed x' s'
                         end) x s ->
  wp F (m ;; fail e) Φ x s.
Proof.
  intros H. apply wp_bind. eapply wp_mono; [exact H|].
  intros [a|e'|] x' s' Ho; cbn; [by apply wp_fail|done|done].
Qed.
End Wp.

(** [io_step]: the crashed and the plainly failed outcome of a system call, by [tac]. *)
Ltac io_step tac :=
  apply wp_bind; apply wp_sys;
    [let H := fresh "Hcrash" in intros H; tac|let H := fresh "Hfault" in intros H; tac|].

(** ** Well-formed file systems and what crashes preserve *)

Definition versions (s : fs) : list (gmap (list byte) nat) := fs_dir s :: fs_olddirs s.

(** No more is synced than any of the contents that may survive. *)
Definition inode_ok (i : inode) : Prop :=
  forall v, v ∈ i_data i :: i_old i -> (i_floor i <= length v)%nat.

(** Numbers in use are below the next fresh one. *)
Record fs_wf (s : fs) : Prop := {
  wf_inodes : forall ino i, fs_inodes s !! ino = Some i ->
                (ino < fs_next s)%nat /\ inode_ok i;
  wf_dirs : forall d n ino, d ∈ versions s -> d !! n = Some ino ->
              (ino < fs_next s)%nat /\ is_Some (fs_inodes s !! ino);
  wf_fds : forall fd d, fs_fds s !! fd = Some d -> (fd < fs_next s)%nat
}.

(** The contents of a name, if it exists. *)
Definition content (s : fs) (n : list byte) : option (list byte) :=
  ino ← fs_dir s !! n; i_data <$> fs_inodes s !! ino.

(** A file whose contents are all on stable storage. *)
Definition settled (i : inode) : Prop := i_old i = [] /\ i_floor i = length (i_data i).

(** Whatever a crash makes of the file satisfies [P]. *)
Definition survives (i : inode) (P : list byte -> Prop) : Prop :=
  forall c v, v ∈ i_data i :: i_old i -> c `prefix_of` v -> (i_floor i <= length c)%nat -> P c.

(** In every directory version, [n] is absent or a file, and what a crash makes
    of it satisfies [P]. *)
Definition holds (s : fs) (n : list byte) (P : option (list byte) -> Prop) : Prop :=
  forall d, d ∈ versions s ->
    match d !! n with
    | None => P None
    | Some ino => exists i, fs_inodes s !! ino = Some i /\ survives i (fun c => P (Some c))
    end.

Lemma inode_ok_empty : inode_ok empty_inode.
Proof. by intros v ->%list_elem_of_singleton. Qed.

Lemma inode_ok_set i data floor :
  inode_ok i -> (floor <= i_floor i)%nat -> (floor <= length data)%nat ->
  inode_ok (inode_set data floor i).
Proof. intros Hi Hf Hd v [->|Hv]%elem_of_cons; cbn; [done|]. specialize (Hi v Hv). lia. Qed.

Lemma inode_ok_sync i : inode_ok (inode_sync i).
Proof. by intros v ->%list_elem_of_singleton. Qed.

Lemma inode_ok_truncate n i : inode_ok i -> inode_ok (inode_truncate n i).
Proof.
  intros Hi. apply inode_ok_set; [done|lia|]. pose proof (Hi (i_data i) ltac:(left)).
  rewrite length_app, length_take, length_replicate. lia.
Qed.

#[export] Hint Resolve inode_ok_empty inode_ok_sync inode_ok_truncate : ipcap.

Lemma survives_mono i (P Q : list byte -> Prop) :
  survives i P -> (forall c, P c -> Q c) -> survives i Q.
Proof. intros H HPQ c v Hv Hp Hl. eauto. Qed.

Lemma survives_settled i (P : list byte -> Prop) : settled i -> P (i_data i) -> survives i P.
Proof.
  intros [Ho Hf] HP c v Hv Hp Hl. rewrite Ho in Hv.
  apply list_elem_of_singleton in Hv as ->. apply prefix_length_eq in Hp as ->; [done|lia].
Qed.

Lemma survives_now i (P : list byte -> Prop) :
  inode_ok i -> survives i P -> P (i_data i).
Proof. intros Hl H. apply (H _ (i_data i)); [left|done|apply Hl; left]. Qed.

Lemma survives_crash i i' (P : list byte -> Prop) :
  survives i P -> crash_inode i i' -> P (i_data i').
Proof. intros H ((v & Hv & Hp) & Hl & _). by apply (H _ v). Qed.

Lemma settled_crash i i' : settled i -> crash_inode i i' -> i_data i' = i_data i.
Proof.
  intros Hs. apply (survives_crash i i' (fun c => c = i_data i)). by apply survives_settled.
Qed.

Lemma crash_settled i i' : crash_inode i i' -> settled i'.
Proof. by intros (_ & _ & ? & ?). Qed.

Lemma holds_now s n P : fs_wf s -> holds s n P -> P (content s n).
Proof.
  intros Hwf H. specialize (H (fs_dir s) ltac:(left)). unfold content.
  destruct (fs_dir s !! n) as [ino|]; cbn; [|done]. destruct H as (i & Hi & Hs). rewrite Hi. cbn.
  apply (survives_now i (fun c => P (Some c))); [|done]. by apply (wf_inodes s Hwf ino).
Qed.

Lemma holds_crash s s' n P : holds s n P -> crash_fs s s' -> P (content s' n).
Proof.
  intros H (Hd & _ & _ & _ & Hi). specialize (H _ Hd). unfold content.
  destruct (fs_dir s' !! n) as [ino|]; cbn; [|done].
  destruct H as (i & Hino & Hs). specialize (Hi ino). rewrite Hino in Hi.
  destruct (fs_inodes s' !! ino) as [i'|]; cbn; [|done].
  by apply (survives_crash i i' (fun c => P (Some c))).
Qed.

Lemma holds_mono s n (P Q : option (list byte) -> Prop) :
  holds s n P -> (forall c, P c -> Q c) -> holds s n Q.
Proof.
  intros H HPQ d Hd. specialize (H d Hd). destruct (d !! n) as [ino|]; [|by apply HPQ].
  destruct H as (i & ? & ?). exists i. eauto using survives_mono.
Qed.

Lemma crash_wf s s' : fs_wf s -> crash_fs s s' -> fs_wf s'.
Proof.
  intros [Hi Hd Hf] (Hd' & Ho & Hfds & Hn & Hino). split; rewrite ?Hn.
  - intros ino i' H. specialize (Hino ino). rewrite H in Hino.
    destruct (fs_inodes s !! ino) eqn:E; [|done]. split; [by eapply Hi|].
    destruct Hino as (_ & _ & Hov & Hfl). intros v. rewrite Hov, Hfl.
    by intros ->%list_elem_of_singleton.
  - unfold versions. rewrite Ho. intros d n ino ->%list_elem_of_singleton H.
    destruct (Hd _ _ _ Hd' H) as [? [i Hx]]. split; [done|].
    specialize (Hino ino). rewrite Hx in Hino. destruct (fs_inodes s' !! ino); [eauto|done].
  - rewrite Hfds. intros fd d H. by rewrite lookup_empty in H.
Qed.

(** After a crash every surviving file is settled. *)
Lemma crash_holds s s' n : fs_wf s -> crash_fs s s' -> holds s' n (eq (content s' n)).
Proof.
  intros Hwf Hcr d Hd'. pose proof (crash_wf s s' Hwf Hcr) as Hwf'.
  destruct Hcr as (Hd & Ho & _ & _ & Hi). pose proof Hd' as Hd2.
  unfold versions in Hd'. rewrite Ho in Hd'. apply list_elem_of_singleton in Hd' as ->.
  unfold content. destruct (fs_dir s' !! n) as [ino|] eqn:En; cbn; [|done].
  destruct (wf_dirs s' Hwf' _ _ _ Hd2 En) as [_ [i' Hx]].
  specialize (Hi ino). rewrite Hx in *. destruct (fs_inodes s !! ino) as [i|]; [|done].
  exists i'. split; [done|]. apply survives_settled; [by eapply crash_settled|done].
Qed.

(** [frame T s s']: going from [s] to [s'] touched only the names in [T] and the
    files they are bound to. *)
Record frame (T : list byte -> Prop) (s s' : fs) : Prop := {
  fr_next : (fs_next s <= fs_next s')%nat;
  fr_inodes : forall ino, (ino < fs_next s)%nat ->
    (forall n, T n -> fs_dir s !! n <> Some ino) -> fs_inodes s' !! ino = fs_inodes s !! ino;
  fr_fds : forall fd, (fd < fs_next s)%nat -> fs_fds s' !! fd = fs_fds s !! fd;
  fr_live : forall n, ~ T n -> fs_dir s' !! n = fs_dir s !! n;
  fr_touched : forall n ino, T n -> fs_dir s' !! n = Some ino ->
    (fs_next s <= ino)%nat \/ exists n', T n' /\ fs_dir s !! n' = Some ino;
  fr_recent : forall d', d' ∈ versions s' ->
    d' ∈ versions s \/ forall n, ~ T n -> d' !! n = fs_dir s !! n;
  fr_old : forall d' n ino, d' ∈ versions s' -> T n -> d' !! n = Some ino ->
    (fs_next s <= ino)%nat \/ exists d n', d ∈ versions s /\ T n' /\ d !! n' = Some ino
}.

Lemma fr_versions T s s' : frame T s s' ->
  forall d', d' ∈ versions s' -> exists d, d ∈ versions s /\ forall n, ~ T n -> d' !! n = d !! n.
Proof.
  intros Hf d' Hd'. destruct (fr_recent _ _ _ Hf d' Hd') as [?|?]; [by exists d'|].
  exists (fs_dir s). split; [left|done].
Qed.

Lemma frame_refl T s : frame T s s.
Proof. split; eauto. intros. right. eauto. Qed.

Lemma frame_trans T s1 s2 s3 : frame T s1 s2 -> frame T s2 s3 -> frame T s1 s3.
Proof.
  intros [n12 i12 f12 l12 t12 v12 o12] [n23 i23 f23 l23 t23 v23 o23]. split.
  - lia.
  - intros ino Hl Ht. rewrite i23; [by apply i12|lia|].
    intros n Hn H. destruct (t12 n ino Hn H) as [|(n' & ? & ?)]; [lia|]. by eapply Ht.
  - intros fd Hl. rewrite f23 by lia. by apply f12.
  - intros n Hn. rewrite l23 by done. by apply l12.
  - intros n ino Hn H. destruct (t23 n ino Hn H) as [|(n' & Hn' & H')]; [left; lia|].
    by apply (t12 n' ino).
  - intros d' Hd'. destruct (v23 d' Hd') as [Hd|Heq]; [by apply v12|right].
    intros n Hn. rewrite Heq by done. by apply l12.
  - intros d' n ino Hd' Hn H.
    destruct (o23 d' n ino Hd' Hn H) as [?|(d & n' & Hd & Hn' & H')]; [left; lia|].
    by apply (o12 d n').
Qed.

(** *** Elementary changes *)

(** The contents of an inode change. *)
Lemma wf_set_inode s ino i' :
  fs_wf s -> is_Some (fs_inodes s !! ino) -> inode_ok i' ->
  fs_wf (set_inodes <[ino := i']> s).
Proof.
  intros [Hi Hd Hf] [i0 H0] Hl. split; cbn.
  - intros ino0 i. rewrite lookup_insert. case_decide as E; [subst|apply Hi].
    intros [= ->]. split; [by eapply Hi|done].
  - intros d n ino0 Hd' H. destruct (Hd d n ino0 Hd' H) as [? Hx]. split; [done|].
    rewrite lookup_insert. case_decide; [eauto|done].
  - done.
Qed.

Lemma holds_set_inode s ino i' n P :
  holds s n P -> (forall d, d ∈ versions s -> d !! n <> Some ino) ->
  holds (set_inodes <[ino := i']> s) n P.
Proof.
  intros H Hne d Hd. specialize (H d Hd). specialize (Hne d Hd). cbn in *.
  destruct (d !! n) as [ino'|]; [|done]. rewrite lookup_insert_ne by congruence. done.
Qed.

Lemma frame_set_inode (T : list byte -> Prop) s ino i' :
  ((fs_next s <= ino)%nat \/ exists n, T n /\ fs_dir s !! n = Some ino) ->
  frame T s (set_inodes <[ino := i']> s).
Proof.
  intros Hino. split; cbn; eauto; [|intros; right; eauto].
  intros ino0 Hl Ht. rewrite lookup_insert_ne; [done|]. intros <-.
  destruct Hino as [|(n & Hn & H)]; [lia|]. by eapply Ht.
Qed.

(** A descriptor changes or goes away. *)
Lemma wf_set_fd s fd (f : gmap nat fdesc -> gmap nat fdesc) :
  fs_wf s -> (fd < fs_next s)%nat -> (forall fd', fd' <> fd -> f (fs_fds s) !! fd' = fs_fds s !! fd') ->
  fs_wf (set_fds f s).
Proof.
  intros [Hi Hd Hf] Hl Hm. split; cbn; [done..|]. intros fd' d H.
  destruct (decide (fd' = fd)) as [->|]; [done|]. rewrite Hm in H by done. by eapply Hf.
Qed.

Lemma frame_set_fd T s s0 fd (f : gmap nat fdesc -> gmap nat fdesc) :
  frame T s0 s -> (fs_next s0 <= fd)%nat -> (forall fd', fd' <> fd -> f (fs_fds s) !! fd' = fs_fds s !! fd') ->
  frame T s0 (set_fds f s).
Proof.
  intros [? ? Hf ? ? ? ?] Hl Hm. split; cbn; eauto; [].
  intros fd' Hl'. rewrite Hm by lia. by apply Hf.
Qed.

(** *** Opening files *)

(** The file bound to [n] now is bound to [m] in no version of the directory. *)
Definition apart (s : fs) (n m : list byte) : Prop :=
  forall ino d, fs_dir s !! n = Some ino -> d ∈ versions s -> d !! m <> Some ino.

Lemma open_ino_facts ino app s :
  fs_wf s -> is_Some (fs_inodes s !! ino) ->
  let '(fd, s') := open_ino ino app s in
  fs_wf s' /\ (forall T, frame T s s') /\ fd = fs_next s /\
  fs_fds s' = <[fd := Fdesc ino 0 app false]> (fs_fds s) /\
  fs_inodes s' = fs_inodes s /\ fs_dir s' = fs_dir s /\ fs_olddirs s' = fs_olddirs s /\
  fs_next s' = S (fs_next s).
Proof.
  intros [Hi Hd Hf] Hino. cbn. split_and!; try done.
  - split; cbn.
    + intros ino0 i Hinl. specialize (Hi _ _ Hinl) as [? ?]. split; [lia|done].
    + intros d n ino0 Hd' H. destruct (Hd d n ino0 Hd' H). split; [lia|done].
    + intros fd d. rewrite lookup_insert. case_decide; [intros; lia|].
      intros Hfdl. specialize (Hf _ _ Hfdl). lia.
  - intros T. split; cbn; try (by eauto); [|intros; right; eauto].
    intros fd Hl. by rewrite lookup_insert_ne by lia.
Qed.

(** Opening [n] with [O_CREATE] and without [O_EXCL]: the descriptor is fresh,
    the file is the one [n] was bound to or a fresh empty one, and the names
    apart from [n] keep what they hold. *)
Record opened (n : list byte) (fl : oflags) (s : fs) (fd ino : nat) (i : inode) (s' : fs) : Prop := {
  op_wf : fs_wf s';
  op_frame : forall T : list byte -> Prop, T n -> frame T s s';
  op_fd_fresh : (fs_next s <= fd)%nat;
  op_fd : fs_fds s' !! fd = Some (Fdesc ino 0 (O_APPEND fl) false);
  op_live : fs_dir s' !! n = Some ino;
  op_inode : fs_inodes s' !! ino = Some i;
  op_which : match fs_dir s !! n with
             | Some ino0 => ino = ino0 /\ exists i0, fs_inodes s !! ino0 = Some i0 /\
                            i = (if O_TRUNC fl then inode_truncate 0 i0 else i0) /\
                            versions s' = versions s
             | None => (fs_next s <= ino)%nat /\ i = empty_inode /\
                       versions s' = <[n := ino]> (fs_dir s) :: versions s
             end
}.

Lemma open_create n fl s :
  fs_wf s -> O_CREATE fl = true -> O_EXCL fl = false ->
  exists fd ino i s', open_call n fl s = Ok (fd, s') /\ opened n fl s fd ino i s'.
Proof.
  intros Hwf Hc Hx. unfold open_call. rewrite Hc, Hx.
  destruct (fs_dir s !! n) as [ino|] eqn:En.
  - destruct (wf_dirs s Hwf (fs_dir s) n ino) as [Hl [i Hi]]; [left|done|].
    set (s1 := if O_TRUNC fl then set_inodes (alter (inode_truncate 0) ino) s else s).
    set (i1 := if O_TRUNC fl then inode_truncate 0 i else i).
    assert (fs_wf s1 /\ fs_inodes s1 !! ino = Some i1 /\ fs_dir s1 = fs_dir s /\
      fs_olddirs s1 = fs_olddirs s /\ fs_next s1 = fs_next s /\
      forall T : list byte -> Prop, T n -> frame T s s1)
      as (Hwf1 & Hi1 & Hd1 & Ho1 & Hn1 & Hf1).
    { subst s1 i1. destruct (O_TRUNC fl); [|split_and!; auto using frame_refl].
      assert (set_inodes (alter (inode_truncate 0) ino) s =
        set_inodes <[ino := inode_truncate 0 i]> s) as ->.
      { unfold set_inodes. f_equal. 
        apply map_eq. intros j. rewrite lookup_alter, lookup_insert.
        case_decide; subst; by rewrite ?Hi. }
      split_and!; cbn; [apply wf_set_inode; [done|eauto|apply inode_ok_truncate, (Hwf.(wf_inodes s) _ _ Hi)]|apply lookup_insert_eq|done..|].
      intros T HT. apply frame_set_inode. right. eauto. }
    pose proof (open_ino_facts ino (O_APPEND fl) s1 Hwf1 ltac:(eauto)) as Ho.
    destruct (open_ino ino (O_APPEND fl) s1) as [fd s'] eqn:Eo.
    destruct Ho as (Hwf' & Hfr & Hfd & Hfds & Hino & Hdir & Hold & Hnext).
    exists fd, ino, i1, s'. split; [done|]. split.
    + done.
    + intros T HT. eapply frame_trans; [by apply Hf1|apply Hfr].
    + lia.
    + rewrite Hfds. apply lookup_insert_eq.
    + by rewrite Hdir, Hd1.
    + by rewrite Hino.
    + rewrite En. split; [done|]. exists i. unfold versions. by rewrite Hdir, Hold, Hd1, Ho1.
  - set (ino := fs_next s).
    set (s1 := bump_next (set_inodes <[ino := empty_inode]> (set_dir (<[n := ino]> (fs_dir s)) s))).
    assert (fs_wf s1) as Hwf1.
    { destruct Hwf as [Hi Hd Hf]. split; cbn.
      - intros j i. rewrite lookup_insert. case_decide; [intros [= <-]; split; [lia|apply inode_ok_empty]|].
        intros Hinl. specialize (Hi _ _ Hinl) as [? ?]. split; [lia|done].
      - intros d m j [->|Hd']%elem_of_cons.
        + change (fs_dir s1) with (<[n := ino]> (fs_dir s)). rewrite lookup_insert. case_decide; [intros [= <-]; split; [lia|]|].
          * rewrite lookup_insert_eq. eauto.
          * intros Hm. destruct (Hd (fs_dir s) m j) as [? ?]; [left|done|]. split; [lia|].
            rewrite lookup_insert. case_decide; eauto.
        + intros Hm. destruct (Hd d m j) as [? ?]; [done..|]. split; [lia|].
          rewrite lookup_insert. case_decide; eauto.
      - intros fd d H. specialize (Hf _ _ H). lia. }
    pose proof (open_ino_facts ino (O_APPEND fl) s1 Hwf1) as Ho.
    destruct (open_ino ino (O_APPEND fl) s1) as [fd s'] eqn:Eo.
    destruct Ho as (Hwf' & Hfr & Hfd & Hfds & Hino & Hdir & Hold & Hnext).
    { cbn. rewrite lookup_insert_eq. eauto. }
    exists fd, ino, empty_inode, s'. split; [done|]. split.
    + done.
    + intros T HT. eapply frame_trans; [|apply Hfr]. split; cbn.
      * lia.
      * intros j Hj _. by rewrite lookup_insert_ne by (subst ino; lia).
      * done.
      * intros m Hm. rewrite lookup_insert_ne; [done|]. congruence.
      * intros m j Hm. rewrite lookup_insert. case_decide; [intros [= <-]; left; subst ino; lia|].
        intros H'. right. eauto.
      * intros d [->|Hd']%elem_of_cons; [right|by left].
        intros m Hm. change (fs_dir s1) with (<[n := ino]> (fs_dir s)).
        rewrite lookup_insert_ne; [done|]. congruence.
      * intros d m j [->|Hd']%elem_of_cons Hm; [|right; eauto].
        change (fs_dir s1) with (<[n := ino]> (fs_dir s)). rewrite lookup_insert.
        case_decide; [intros [= <-]; left; subst ino; lia|].
        intros Hmj. right. exists (fs_dir s), m. split; [left|done].
    + subst fd. cbn. lia.
    + rewrite Hfds. apply lookup_insert_eq.
    + rewrite Hdir. cbn. apply lookup_insert_eq.
    + rewrite Hino. cbn. apply lookup_insert_eq.
    + rewrite En. split_and!; [subst ino; lia|done|]. unfold versions. by rewrite Hdir, Hold.
Qed.

(** *** Working on an open file

    [editing s0 s n fd d i]: since [s0] only the name [n] and its file were
    touched; [fd], opened since, is the descriptor [d] of that file, which holds [i]. *)
Record editing (s0 s : fs) (n : list byte) (fd : nat) (d : fdesc) (i : inode) : Prop := {
  ed_wf : fs_wf s;
  ed_frame : frame (eq n) s0 s;
  ed_live : fs_dir s !! n = Some (fd_ino d);
  ed_fd : fs_fds s !! fd = Some d;
  ed_fresh : (fs_next s0 <= fd)%nat;
  ed_inode : fs_inodes s !! fd_ino d = Some i;
  ed_same : fs_dir s0 !! n = None \/ fs_dir s0 !! n = Some (fd_ino d);
  ed_versions : forall d', d' ∈ versions s -> d' ∈ versions s0 \/ d' !! n = Some (fd_ino d)
}.

Lemma editing_opened n fl s fd ino i s' :
  opened n fl s fd ino i s' -> editing s s' n fd (Fdesc ino 0 (O_APPEND fl) false) i.
Proof.
  intros [Hwf Hfr Hnew Hfd Hl Hi Hw]. split; cbn; eauto.
  - destruct (fs_dir s !! n) as [ino0|]; [|by left]. destruct Hw as (-> & _). by right.
  - intros d' Hd'. destruct (fs_dir s !! n) as [ino0|].
    + destruct Hw as (-> & i0 & _ & _ & Hv). rewrite Hv in Hd'. by left.
    + destruct Hw as (_ & _ & Hv). rewrite Hv in Hd'. apply elem_of_cons in Hd' as [->|?]; [right|by left].
      apply lookup_insert_eq.
Qed.

Lemma editing_update s0 s n fd d i d' i' :
  editing s0 s n fd d i -> fd_ino d' = fd_ino d -> inode_ok i' ->
  editing s0 (set_fds <[fd := d']> (set_inodes <[fd_ino d := i']> s)) n fd d' i'.
Proof.
  intros [Hwf Hfr Hl Hfd Hnew Hi Hsame Hv] Hd Hf. split; rewrite ?Hd; try done.
  - apply (wf_set_fd _ fd).
    + apply wf_set_inode; eauto.
    + exact (wf_fds s Hwf fd d Hfd).
    + intros fd' Hne. by apply lookup_insert_ne.
  - apply (frame_set_fd _ _ _ fd); [|done|intros fd' Hne; by apply lookup_insert_ne].
    eapply frame_trans; [done|]. apply frame_set_inode. right. eauto.
  - cbn. apply lookup_insert_eq.
  - cbn. apply lookup_insert_eq.
Qed.

Lemma editing_set_inode s0 s n fd d i i' :
  editing s0 s n fd d i -> inode_ok i' ->
  editing s0 (set_inodes <[fd_ino d := i']> s) n fd d i'.
Proof.
  intros [Hwf Hfr Hl Hfd Hnew Hi Hsame Hv] Hf. split; cbn; try done.
  - apply wf_set_inode; eauto.
  - eapply frame_trans; [done|]. apply frame_set_inode. right. eauto.
  - apply lookup_insert_eq.
Qed.

Lemma length_overwrite_le pos buf data : (length data <= length (overwrite pos buf data))%nat.
Proof. unfold overwrite. rewrite !length_app, length_take, length_drop. lia. Qed.

Lemma overwrite_end buf data : overwrite (length data) buf data = data ++ buf.
Proof.
  unfold overwrite. rewrite firstn_all, Nat.sub_diag, drop_ge by lia. cbn. by rewrite app_nil_r.
Qed.

Lemma editing_write s0 s n fd d i buf :
  editing s0 s n fd d i ->
  exists d' i', editing s0 (write_fs fd d i buf s) n fd d' i' /\ fd_ino d' = fd_ino d /\
    fd_append d' = fd_append d /\ i_floor i' = i_floor i /\ i_old i' = i_data i :: i_old i /\
    let pos := if fd_append d then length (i_data i) else fd_pos d in
    fd_pos d' = (pos + length buf)%nat /\ i_data i' = overwrite pos buf (i_data i).
Proof.
  intros H. eexists _, _. split.
  - unfold write_fs. apply (editing_update _ _ _ _ _ _ _ _ H); [done|]. cbn.
    pose proof (ed_inode _ _ _ _ _ _ H) as Hi. apply (wf_inodes s (ed_wf _ _ _ _ _ _ H)) in Hi as [_ Hi].
    apply inode_ok_set; [done..|]. etrans; [apply (Hi (i_data i)); left|apply length_overwrite_le].
  - by cbn.
Qed.

Lemma editing_sync s0 s n fd d i :
  editing s0 s n fd d i ->
  editing s0 (set_inodes <[fd_ino d := inode_sync i]> s) n fd d (inode_sync i).
Proof. intros H. apply (editing_set_inode _ _ _ _ _ i); auto with ipcap. Qed.

Lemma editing_with_fd {A} s0 s n fd d i (k : fdesc -> inode -> fs -> res (A * fs)) :
  editing s0 s n fd d i -> with_fd fd k s = k d i s.
Proof. intros []. unfold with_fd. by rewrite ed_fd0, ed_inode0. Qed.

(** Names apart from the touched ones keep what they hold. *)
Lemma holds_frame (T : list byte -> Prop) s s' n P :
  fs_wf s -> frame T s s' -> ~ T n -> (forall t, T t -> apart s t n) ->
  holds s n P -> holds s' n P.
Proof.
  intros Hwf Hfr Hn Hap H d' Hd'. destruct (fr_versions _ _ _ Hfr d' Hd') as (d & Hd & Heq).
  rewrite Heq by done. specialize (H d Hd). destruct (d !! n) as [ino|] eqn:E; [|done].
  destruct H as (i & Hi & Hs). exists i. split; [|done].
  rewrite (fr_inodes _ _ _ Hfr); [done| |].
  - by apply (wf_dirs s Hwf d n).
  - intros t Ht Ht'. by apply (Hap t Ht ino d).
Qed.

(** A file that is edited into acceptable contents. *)
Lemma editing_holds s0 s n fd d i P :
  fs_wf s0 -> editing s0 s n fd d i -> holds s0 n P -> survives i (fun c => P (Some c)) ->
  holds s n P.
Proof.
  intros Hwf0 [Hwf Hfr Hl Hfd Hnew Hi Hsame Hv] Hh Hs d' Hd'.
  destruct (decide (d' !! n = Some (fd_ino d))) as [->|Hne]; [eauto|].
  destruct (Hv d' Hd') as [Hd0|]; [|done]. specialize (Hh d' Hd0).
  destruct (d' !! n) as [ino|] eqn:E; [|done]. destruct Hh as (i0 & Hi0 & Hs0).
  exists i0. split; [|done]. rewrite (fr_inodes _ _ _ Hfr); [done| |].
  - by apply (wf_dirs s0 Hwf0 d' n).
  - intros n' <- Hx. destruct Hsame as [?|?]; congruence.
Qed.

Lemma content_frame (T : list byte -> Prop) s s' n :
  fs_wf s -> frame T s s' -> ~ T n -> (forall t, T t -> apart s t n) ->
  content s' n = content s n.
Proof.
  intros Hwf Hfr Hn Hap. unfold content. rewrite (fr_live _ _ _ Hfr) by done.
  destruct (fs_dir s !! n) as [ino|] eqn:E; cbn; [|done].
  rewrite (fr_inodes _ _ _ Hfr); [done| |].
  - by apply (wf_dirs s Hwf (fs_dir s) n); [left|].
  - intros t Ht Ht'. eapply (Hap t Ht ino (fs_dir s)); [done|left|done].
Qed.

(** Touching [t] alone keeps it apart from the other names. *)
Lemma apart_frame s s' t n :
  fs_wf s -> frame (eq t) s s' -> t <> n -> apart s t n -> apart s' t n.
Proof.
  intros Hwf Hfr Hne Hap ino d' Ht Hd' Hn.
  destruct (fr_versions _ _ _ Hfr d' Hd') as (d & Hd & Heq). rewrite Heq in Hn by done.
  destruct (fr_touched _ _ _ Hfr t ino eq_refl Ht) as [Hnew|(t' & <- & Ht')].
  - pose proof (wf_dirs s Hwf d n ino Hd Hn) as [? _]. lia.
  - by apply (Hap ino d).
Qed.

(** Touching [n] alone keeps the other names apart. *)
Lemma apart_frame_other s s' n t m :
  fs_wf s -> frame (eq n) s s' -> n <> t -> n <> m -> apart s t m -> apart s' t m.
Proof.
  intros Hwf Hfr Hnt Hnm Hap ino d' Ht Hd' Hm.
  destruct (fr_versions _ _ _ Hfr d' Hd') as (d & Hd & Heq). rewrite Heq in Hm by done.
  rewrite (fr_live _ _ _ Hfr) in Ht by done. by apply (Hap ino d).
Qed.
