(* ===== verification/Keeps.v ===== *)
(** * Invariants of programs

    A predicate on the object and the file system that holds after a program if it
    held before, however the program ends; the rules follow the program text. *)

From S2P Require Import Prelude Bytes GoIO Os.

Section Keeps.
Context (F : fault -> Prop) {X : Type} (I : X -> fs -> Prop).

(** However the call ends, [I] holds afterwards. *)
Definition keeps {A} (m : M X A) : Prop :=
  forall x s, I x s -> wp F m (fun _ => I) x s.

Lemma keeps_ret {A} (a : A) : keeps (mret a).
Proof. intros x s Hx. by apply wp_ret. Qed.

Lemma keeps_fail {A} e : keeps (A := A) (fail e).
Proof. intros x s Hx. by apply wp_fail. Qed.

Lemma keeps_bind {A B} (m : M X A) (k : A -> M X B) : keeps m -> (forall a, keeps (k a)) -> keeps (m ≫= k).
Proof.
  intros Hm Hk x s Hx. apply wp_bind. eapply wp_mono; [by apply Hm|].
  intros [a|e|] x' s' Hx'; cbn [bind_post]; [by apply Hk|done..].
Qed.

Lemma keeps_get {B} (k : X -> M X B) : (forall x s, I x s -> wp F (k x) (fun _ => I) x s) -> keeps (get ≫= k).
Proof. intros Hk x s Hx. apply wp_bind, wp_get. cbn [bind_post]. by apply Hk. Qed.

Lemma keeps_get_any {B} (k : X -> M X B) : (forall x, keeps (k x)) -> keeps (get ≫= k).
Proof. intros Hk. apply keeps_get. intros x s Hx. by apply Hk. Qed.

Lemma keeps_modify (f : X -> X) : (forall x s, I x s -> I (f x) s) -> keeps (modify f).
Proof. intros Hf x s Hx. apply wp_modify. by apply Hf. Qed.

Lemma keeps_try {A} (m : M X A) : keeps m -> keeps (try m).
Proof. intros Hm x s Hx. apply wp_try. eapply wp_mono; [by apply Hm|]. by intros [a|e|] x' s'. Qed.

Lemma keeps_on_error {A} (m : M X A) (cl : M X unit) : keeps m -> keeps cl -> keeps (on_error m cl).
Proof.
  intros Hm Hc. unfold on_error. apply keeps_bind; [by apply keeps_try|]. intros [a|e]; [apply keeps_ret|].
  apply keeps_bind; [done|]. intros _. apply keeps_fail.
Qed.

Lemma keeps_sys {A} (call : fs -> res (A * fs)) :
  (forall x s a s', I x s -> call s = Ok (a, s') -> I x s') -> keeps (sys call).
Proof.
  intros Hc x s Hx. apply wp_sys; [by intros _|by intros _|]. destruct (call s) as [[a s']|e] eqn:E; [|done]. by eapply Hc.
Qed.

Lemma keeps_Now {B} (k : Z -> M X B) : (forall t, keeps (k t)) -> keeps (Now ≫= k).
Proof. intros Hk x s Hx. apply wp_bind, wp_Now. intros t. cbn [bind_post]. by apply Hk. Qed.

Lemma keeps_with_fd {A} f (k : fdesc -> inode -> fs -> res (A * fs)) :
  (forall x d i s a s', I x s -> k d i s = Ok (a, s') -> I x s') -> keeps (sys (with_fd f k)).
Proof.
  intros Hk. apply keeps_sys. intros x s a s' Hx. unfold with_fd. destruct (fs_fds s !! f) as [d|]; [|done].
  destruct (fs_inodes s !! fd_ino d); [|done]. by apply Hk.
Qed.

Lemma keeps_if {A} (b : bool) (m1 m2 : M X A) : keeps m1 -> keeps m2 -> keeps (if b then m1 else m2).
Proof. by destruct b. Qed.

Lemma keeps_of_res {A} (r : res A) : keeps (of_res r).
Proof. destruct r; [apply keeps_ret|apply keeps_fail]. Qed.
End Keeps.

Create HintDb keeps.
#[export] Hint Resolve keeps_ret keeps_fail keeps_if keeps_on_error keeps_of_res : keeps.

