(* ===== verification/Durable.v ===== *)
(** * Atomic file replacement (internal/pcapio/durable.go)

    [WriteFileAtomic]: temporary file, rename, directory sync.  The commit point
    of the collector and the advertised head of the spool are written with it. *)

From S2P Require Import Prelude Bytes GoIO Os.

Definition tmp_name (path : list byte) : list byte := path ++ str ".tmp".

Definition WriteFileAtomic {X} (path b : list byte) (durable : bool) : M X unit :=
  let tmp := tmp_name path in
  f ← OpenFile tmp (OFlags true true false false);
  on_error (Write f b) (Close f) ;;
  (if durable then on_error (Fdatasync f) (Close f) else mret ()) ;;
  CloseErr f ;;
  Rename tmp path ;;
  SyncDir.

(** ** Lemmas *)

Lemma tmp_name_ne path : tmp_name path <> path.
Proof.
  unfold tmp_name. intros H. apply (f_equal length) in H. revert H. rewrite length_app. cbn. lia.
Qed.

Section WriteFileAtomic.
Context (path b : list byte) (durable : bool) (P : option (list byte) -> Prop).

(** What the caller has to know about the directory, and gets back. *)
Record replaceable (s : fs) : Prop := {
  rp_wf : fs_wf s;
  rp_apart : apart s (tmp_name path) path;
  rp_holds : holds s path P;
  (** a leftover temporary file that a call without sync could install *)
  rp_tmp : holds s (tmp_name path)
             (fun c => durable = true \/ from_option (fun c => P (Some c)) True c);
  rp_split : forall d ino, d ∈ versions s -> d !! tmp_name path = Some ino -> d !! path <> Some ino
}.

Definition leftover_ok (i : inode) : Prop := survives i (fun c => durable = true \/ P (Some c)).

(** The names the call touches. *)
Definition touched (n : list byte) : Prop := n = tmp_name path \/ n = path.

(** The files that [path] was ever bound to are not written to. *)
Definition undisturbed (s s' : fs) : Prop :=
  forall d ino, d ∈ versions s -> d !! path = Some ino -> fs_inodes s' !! ino = fs_inodes s !! ino.

(** What every outcome guarantees. *)
Definition atomically (s : fs) (o : outcome unit) (s' : fs) : Prop :=
  replaceable s' /\ frame touched s s' /\ undisturbed s s' /\
  (content s' path = content s path \/ content s' path = Some b) /\
  (o = Ret () -> content s' path = Some b /\ fs_olddirs s' = [] /\
                 (durable = true -> holds s' path (eq (Some b)))).

(** New contents must be acceptable; those a crash may cut, cut anywhere. *)
Definition acceptable : Prop :=
  P (Some b) /\ (durable = false -> forall c c', c' `prefix_of` c -> P (Some c) -> P (Some c')).

Lemma acceptable_prefix c : acceptable -> c `prefix_of` b -> durable = true \/ P (Some c).
Proof. intros [Hb Hp] Hc. destruct durable; [by left|right]. by apply (Hp eq_refl b). Qed.

Lemma editing_replaceable s0 s fd d i :
  replaceable s0 -> editing s0 s (tmp_name path) fd d i -> leftover_ok i ->
  replaceable s /\ content s path = content s0 path.
Proof.
  intros [Hwf Hap Hh Htm Hsp] H Hok. pose proof H as [Hwf' Hfr Hl Hfd Hnew Hi Hsame Hv]. pose proof (tmp_name_ne path).
  split; [split|].
  - done.
  - by apply (apart_frame s0).
  - apply (holds_frame (eq (tmp_name path)) s0); [done..| |done]. by intros t <-.
  - by apply (editing_holds s0 _ _ fd d i).
  - intros d' ino Hd' Ht Hx. destruct (Hv d' Hd') as [Hd0|Hd0]; [by apply (Hsp d' ino)|].
    destruct (fr_versions _ _ _ Hfr d' Hd') as (d0 & Hd0' & Heq). rewrite Heq in Hx by done.
    assert (ino = fd_ino d) as -> by congruence.
    destruct (fr_touched _ _ _ Hfr (tmp_name path) (fd_ino d) eq_refl Hl) as [Hge|(n' & <- & Hn')].
    + pose proof (wf_dirs s0 Hwf d0 path _ Hd0' Hx) as [? _]. lia.
    + by apply (Hap (fd_ino d) d0).
  - apply (content_frame (eq (tmp_name path))); [done..|]. by intros t <-.
Qed.

Lemma editing_undisturbed s0 s fd d i :
  replaceable s0 -> editing s0 s (tmp_name path) fd d i -> undisturbed s0 s.
Proof.
  intros Hr He d' ino Hd' Hp. pose proof (wf_dirs s0 (rp_wf _ Hr) d' path ino Hd' Hp) as [Hl _].
  apply (fr_inodes _ _ _ (ed_frame _ _ _ _ _ _ He)); [done|].
  intros n <- Ht. by apply (rp_apart _ Hr ino d').
Qed.

Lemma frame_touched s s' : frame (eq (tmp_name path)) s s' -> frame touched s s'.
Proof.
  intros Hfr. pose proof (fr_versions _ _ _ Hfr) as Hv. revert Hfr.
  intros [? Hi ? Hl Ht Hr Hold]. unfold touched. split; try done.
  - intros ino Hlt Hno. apply Hi; [done|]. intros n <-. apply Hno. by left.
  - intros n Hn. apply Hl. intros <-. apply Hn. by left.
  - intros n ino Hn H. destruct (decide (n = tmp_name path)) as [->|Hne].
    + destruct (Ht (tmp_name path) ino eq_refl H) as [?|(n' & <- & ?)]; [by left|right].
      exists (tmp_name path). auto.
    + destruct Hn as [->| ->]; [done|]. right. exists path. split; [by right|].
      rewrite <-Hl by done. done.
  - intros d' Hd'. destruct (Hr d' Hd') as [?|Heq]; [by left|right].
    intros n Hn. apply Heq. intros <-. apply Hn. by left.
  - intros d' n ino Hd' [->| ->] H.
    + destruct (Hold d' (tmp_name path) ino Hd' eq_refl H) as [?|(d & n' & Hd & <- & H')]; [by left|right].
      exists d, (tmp_name path). auto.
    + destruct (Hv d' Hd') as (d & Hd & Heq). right. exists d, path. split_and!; [done|by right|].
      rewrite <-Heq; [done|]. pose proof (tmp_name_ne path). congruence.
Qed.

Lemma atomically_early s0 s fd d i o :
  replaceable s0 -> editing s0 s (tmp_name path) fd d i -> leftover_ok i -> o <> Ret () -> atomically s0 o s.
Proof.
  intros Hr He Hok Ho. destruct (editing_replaceable s0 s fd d i Hr He Hok) as [Hr' Hc].
  split_and!; [done|apply frame_touched, He|by eapply editing_undisturbed|by left|done].
Qed.

(** The descriptor is gone or changed. *)
Lemma editing_fds s0 s fd d i f :
  replaceable s0 -> editing s0 s (tmp_name path) fd d i -> leftover_ok i ->
  (forall fd', fd' <> fd -> f (fs_fds s) !! fd' = fs_fds s !! fd') ->
  replaceable (set_fds f s) /\ frame touched s0 (set_fds f s) /\
  content (set_fds f s) path = content s0 path.
Proof.
  intros Hr He Hok Hf. destruct (editing_replaceable s0 s fd d i Hr He Hok) as [[Hwf Hap Hh Htm Hsp] Hc].
  destruct He as [Hwf' Hfr Hl Hfd Hnew Hi _ _]. split_and!; [|by apply (frame_set_fd _ _ _ fd);
    [apply frame_touched| |]|done].
  split; [|done..]. apply (wf_set_fd _ fd); [done| |done]. exact (wf_fds s Hwf' fd d Hfd).
Qed.

Lemma atomically_close s0 s fd d i o :
  replaceable s0 -> editing s0 s (tmp_name path) fd d i -> leftover_ok i -> o <> Ret () ->
  atomically s0 o (set_fds (delete fd) s).
Proof.
  intros Hr He Hok Ho. destruct (editing_fds s0 s fd d i (delete fd) Hr He Hok) as (? & ? & ?).
  { intros fd' Hne. by apply lookup_delete_ne. }
  split_and!; [done|done|exact (editing_undisturbed s0 s fd d i Hr He)|by left|done].
Qed.

(** The rename and the directory sync. *)
Lemma replaced s0 s fd d i fds :
  replaceable s0 -> editing s0 s (tmp_name path) fd d i -> leftover_ok i ->
  (forall fd', fd' <> fd -> fds !! fd' = fs_fds s !! fd') ->
  i_data i = b -> survives i (fun c => P (Some c)) ->
  let s1 := set_fds (fun _ => fds) s in
  let s2 := set_dir (<[path := fd_ino d]> (delete (tmp_name path) (fs_dir s))) s1 in
  let s3 := Fs (fs_inodes s2) (fs_dir s2) [] (fs_fds s2) (fs_next s2) in
  (replaceable s2 /\ frame touched s0 s2 /\ content s2 path = Some b) /\
  (replaceable s3 /\ frame touched s0 s3 /\ content s3 path = Some b /\
   (settled i -> holds s3 path (eq (Some b)))).
Proof.
  intros Hr He Hok Hfds Hb Hs. pose proof He as [Hwf Hfr Hl Hfd Hnew Hi _ _].
  destruct (editing_replaceable s0 s fd d i Hr He Hok) as [[Hwf' Hap Hh Htm Hsp] Hc].
  apply frame_touched in Hfr. pose proof (tmp_name_ne path) as Hne.
  intros s1 s2 s3. destruct (editing_fds s0 s fd d i (fun _ => fds) Hr He Hok Hfds) as ([Hwf1 _ _ _ _] & Hfr1 & _).
  assert (frame touched s0 s2) as Hfr2.
  { eapply frame_trans; [apply Hfr1|]. split; cbn; try done; [| | |].
    - intros n Hn. unfold touched in Hn. rewrite lookup_insert_ne, lookup_delete_ne by naive_solver. done.
    - intros n ino Hn. rewrite lookup_insert. case_decide.
      + intros [= <-]. right. exists (tmp_name path). split; [by left|done].
      + rewrite lookup_delete. case_decide; [done|]. right. eauto.
    - intros d' [->|Hd']%elem_of_cons; [right|by left].
      intros n Hn. unfold touched in Hn. cbn.
      rewrite lookup_insert_ne, lookup_delete_ne by naive_solver. done.
    - intros d' n ino [->|Hd']%elem_of_cons Hn; [|intros; right; eauto]. cbn.
      rewrite lookup_insert. case_decide.
      + intros [= <-]. right. exists (fs_dir s), (tmp_name path). split_and!; [left|by left|done].
      + rewrite lookup_delete. case_decide; [done|]. intros. right. exists (fs_dir s), n.
        split_and!; [left|done..]. }
  assert (fs_wf s2) as Hwf2.
  { destruct Hwf1 as [Hi1 Hd1 Hf1]. split; [exact Hi1| |exact Hf1].
    intros d' n ino [->|Hd']%elem_of_cons; [|by apply (Hd1 d')]. cbn.
    rewrite lookup_insert. case_decide.
    - intros [= <-]. apply (Hd1 (fs_dir s) (tmp_name path)); [left|done].
    - rewrite lookup_delete. case_decide; [done|]. intros Hn. by apply (Hd1 (fs_dir s) n); [left|]. }
  assert (fs_dir s2 !! path = Some (fd_ino d)) as Hp2 by (cbn; apply lookup_insert_eq).
  assert (fs_dir s2 !! tmp_name path = None) as Ht2.
  { cbn. rewrite lookup_insert_ne by done. apply lookup_delete_eq. }
  assert (content s2 path = Some b) as Hc2.
  { unfold content. rewrite Hp2. cbn. rewrite Hi. cbn. by rewrite Hb. }
  assert (holds s2 path P) as Hh2.
  { intros d' [->|Hd']%elem_of_cons; [rewrite Hp2; eauto|]. apply (Hh d' Hd'). }
  assert (frame touched s0 s3) as Hfr3.
  { destruct Hfr2 as [? ? ? ? ? Hv Ho]. split; try done.
    - intros d' ->%list_elem_of_singleton. apply Hv. left.
    - intros d' n ino ->%list_elem_of_singleton. apply Ho. left. }
  assert (holds s2 (tmp_name path)
    (fun c => durable = true \/ from_option (fun c => P (Some c)) True c)) as Htm2.
  { intros d' [->|Hd']%elem_of_cons; [rewrite Ht2; by right|]. apply (Htm d' Hd'). }
  assert (forall d' ino, d' ∈ versions s2 -> d' !! tmp_name path = Some ino -> d' !! path <> Some ino) as Hsp2.
  { intros d' ino [->|Hd']%elem_of_cons; [by rewrite Ht2|by apply Hsp]. }
  split_and!; try done; [split; [done| |done..]|split|].
  - intros ino d' Hx. congruence.
  - destruct Hwf2 as [? Hd2 ?]. split; try done.
    intros d' n ino ->%list_elem_of_singleton. apply Hd2. left.
  - intros ino d' Hx. cbn in Hx. change (fs_dir s2 !! tmp_name path = Some ino) in Hx. congruence.
  - intros d' ->%list_elem_of_singleton. apply (Hh2 (fs_dir s2)). left.
  - intros d' ->%list_elem_of_singleton. apply (Htm2 (fs_dir s2)). left.
  - intros d' ino ->%list_elem_of_singleton. apply (Hsp2 (fs_dir s2)). left.
  - intros Hset d' ->%list_elem_of_singleton. change (fs_dir s3) with (fs_dir s2). rewrite Hp2.
    exists i. split; [done|]. apply survives_settled; [done|by rewrite Hb].
Qed.

Lemma atomically_refl s o : replaceable s -> o <> Ret () -> atomically s o s.
Proof. intros Hr Ho. split_and!; [done|apply frame_refl|done|by left|done]. Qed.
End WriteFileAtomic.

(** The temporary file as it is opened: empty. *)
Lemma open_leftover path b durable P s fd ino i s' :
  replaceable path durable P s -> acceptable b durable P ->
  opened (tmp_name path) (OFlags true true false false) s fd ino i s' ->
  i_data i = [] /\ leftover_ok durable P i.
Proof.
  intros Hr Hacc Ho. pose proof (op_which _ _ _ _ _ _ _ Ho) as Hw.
  assert (durable = true \/ P (Some [])) as Hnil.
  { apply (acceptable_prefix b durable P []); [done|apply prefix_nil]. }
  destruct (fs_dir s !! tmp_name path) as [ino0|] eqn:Et.
  - destruct Hw as (_ & i0 & Hi0 & -> & _). split; [done|].
    pose proof (rp_tmp _ _ _ _ Hr (fs_dir s) ltac:(left)) as Hl. rewrite Et, Hi0 in Hl.
    destruct Hl as (i0' & [= <-] & Hl). intros c v [->|Hv]%elem_of_cons Hp _; cbn in Hp.
    + by apply prefix_nil_inv in Hp as ->.
    + destruct (Hl v v) as [?|Hv']; [done|done| |by left|].
      * by apply (wf_inodes s (rp_wf _ _ _ _ Hr) _ _ Hi0).
      * destruct durable eqn:Ed; [by left|right]. by apply (proj2 Hacc eq_refl v).
  - destruct Hw as (_ & -> & _). split; [done|].
    intros c v ->%list_elem_of_singleton Hp _. by apply prefix_nil_inv in Hp as ->.
Qed.

(** The temporary file with a part of the new contents written to it. *)
Lemma write_leftover path b durable P s s' fd d i c :
  acceptable b durable P -> leftover_ok durable P i -> i_data i = [] -> fd_pos d = 0%nat ->
  fd_append d = false -> c `prefix_of` b ->
  editing s s' (tmp_name path) fd d i ->
  exists d' i', editing s (write_fs fd d i c s') (tmp_name path) fd d' i' /\
    leftover_ok durable P i' /\ i_data i' = c.
Proof.
  intros Hacc Hok Hi Hpos Happ Hc He.
  destruct (editing_write _ _ _ _ _ _ c He) as (d' & i' & He' & _ & _ & Hfl & Hold & _ & Hd).
  rewrite Happ, Hpos, Hi in Hd. unfold overwrite in Hd. cbn in Hd.
  rewrite drop_nil, app_nil_r in Hd. exists d', i'. split_and!; [done| |done].
  intros c' v. rewrite Hold, Hd, Hfl. intros [->|Hv]%elem_of_cons Hp Hl; [|by apply (Hok c' v)].
  apply (acceptable_prefix b); [done|by etrans].
Qed.

(** Installing the temporary file. *)
Lemma wp_install {X} F path b durable P (x : X) s s' fd d i :
  replaceable path durable P s -> editing s s' (tmp_name path) fd d i -> leftover_ok durable P i ->
  i_data i = b -> survives i (fun c => P (Some c)) -> (durable = true -> settled i) ->
  wp F (CloseErr fd ;; Rename (tmp_name path) path ;; SyncDir)
     (fun o x' s'' => x' = x /\ atomically path b durable P s o s'' /\ allowed F o) x s'.
Proof.
  intros Hr He Hok Hb Hs Hset.
  io_step ltac:(split; [done|split; [by eapply atomically_early|done]]).
  cbn [bind_post]. set (s1 := set_fds (delete fd) s').
  destruct (editing_fds path durable P s s' fd d i (delete fd) Hr He Hok) as (Hr1 & Hf1 & Hc1).
  { intros fd' Hne. by apply lookup_delete_ne. }
  pose proof (editing_undisturbed path durable P s s' fd d i Hr He) as Hu.
  assert (fs_dir s1 !! tmp_name path = Some (fd_ino d)) as Ht by apply He.
  io_step ltac:(split; [done|split; [split_and!; [done..|by left|done]|done]]).
  rewrite Ht. cbn [bind_post].
  destruct (replaced path b durable P s s' fd d i (delete fd (fs_fds s')) Hr He Hok)
    as ((Hr2 & Hf2 & Hc2) & (Hr3 & Hf3 & Hc3 & Hd3)); [|done..|].
  { intros fd' Hne. by apply lookup_delete_ne. }
  apply wp_sys; [intros Hfc; split; [done|split; [split_and!; [done..|by right|done]|done]]|
    intros Hff; split; [done|split; [split_and!; [done..|by right|done]|done]]|].
  split; [done|]. split; [|done]. split_and!; [done..|by right|]. intros _. split_and!; [done..|].
  intros Hdur. by apply Hd3, Hset.
Qed.

(** The specification used by callers: whatever fails and whenever the process
    or the host dies, [atomically]. *)
Lemma wp_WriteFileAtomic {X} F path b durable P (x : X) s :
  replaceable path durable P s -> acceptable b durable P ->
  wp F (WriteFileAtomic path b durable)
     (fun o x' s' => x' = x /\ atomically path b durable P s o s' /\ allowed F o) x s.
Proof.
  intros Hr Hacc. unfold WriteFileAtomic.
  io_step ltac:(split; [done|split; [by apply atomically_refl|done]]).
  destruct (open_create (tmp_name path) (OFlags true true false false) s) as
    (fd & ino & i & s1 & -> & Ho); [apply Hr|done..|].
  pose proof (editing_opened _ _ _ _ _ _ _ Ho) as He.
  destruct (open_leftover _ _ _ _ _ _ _ _ _ Hr Hacc Ho) as [Hi Hok]. cbn [O_APPEND] in He.
  set (Φ := fun (o : outcome unit) (x' : X) s' => x' = x /\ atomically path b durable P s o s' /\ allowed F o).
  assert (forall s' d' i' o, editing s s' (tmp_name path) fd d' i' -> leftover_ok durable P i' ->
    o <> Ret () -> allowed F o -> Φ o x s') as Hearly.
  { intros. split; [done|]. split; [by eapply atomically_early|done]. }
  assert (forall s' d' i' e, editing s s' (tmp_name path) fd d' i' -> leftover_ok durable P i' ->
    can_fail F -> wp F (Close fd ;; fail e) Φ x s') as Hcl.
  { intros. apply wp_seq_fail, wp_Close. split; [done|]. split; [by eapply atomically_close|done]. }
  apply wp_bind, wp_on_error, (wp_Write _ _ _ _ _ (Fdesc ino 0 false false) i);
    [apply He|apply He|intros Hfc; by eapply Hearly|intros Hff; by eapply Hcl|..].
  { intros n Hff. destruct (write_leftover path b durable P s s1 fd (Fdesc ino 0 false false) i (take n b) Hacc Hok)
      as (d' & i' & He' & Hok' & _); [done..|apply prefix_take|done|]. by eapply Hcl. }
  destruct (write_leftover path b durable P s s1 fd (Fdesc ino 0 false false) i b Hacc Hok) as (d2 & i2 & He2 & Hok2 & Hd2);
    [done..|].
  generalize dependent (write_fs fd (Fdesc ino 0 false false) i b s1). intros s2 He2.
  cbn [bind_post]. apply wp_bind. destruct durable.
  - apply wp_on_error, wp_sys; [intros Hfc; by eapply Hearly|intros Hff; by eapply Hcl|].
    rewrite (editing_with_fd _ _ _ _ _ _ _ He2). cbn [bind_post].
    apply (wp_install F path b true P x s _ fd d2 (inode_sync i2)); [done|by apply editing_sync|..].
    + intros c v _ _ _. by left.
    + done.
    + apply survives_settled; [done|]. cbn. rewrite Hd2. apply Hacc.
    + done.
  - apply wp_ret. apply (wp_install F path b false P x s s2 fd d2 i2); [done..| |done].
    intros c v Hv Hp Hl. by destruct (Hok2 c v).
Qed.

(** ** Properties *)

(** C24: a durable [WriteFileAtomic] replaces a file atomically whatever system
    call fails and wherever the process dies (the scripts of [w]): afterwards the
    name holds its old contents or the new ones, and so it does after the host
    crashed, whatever unsynced bytes and directory updates were lost; a call that
    returned success has installed the new contents for good. *)
Theorem WriteFileAtomic_atomic {X} path b old (x : X) w o x' w' :
  replaceable path true (fun c => c = old \/ c = Some b) (w_fs w) ->
  content (w_fs w) path = old ->
  WriteFileAtomic path b true (x, w) = (o, (x', w')) ->
  (content (w_fs w') path = old \/ content (w_fs w') path = Some b) /\
  (o = Ret () -> content (w_fs w') path = Some b) /\
  forall s'', crash_fs (w_fs w') s'' ->
    (content s'' path = old \/ content s'' path = Some b) /\
    (o = Ret () -> content s'' path = Some b).
Proof.
  intros Hr Hold Hrun.
  assert (acceptable b true (fun c => c = old \/ c = Some b)) as Hacc by (split; [by right|done]).
  pose proof (wp_run _ _ _ _ _ _ _ _ (wp_WriteFileAtomic any_fault path b true _ x _ Hr Hacc)
    eq_refl (any_fault_all _) Hrun)
    as (_ & (Hr' & _ & _ & Hc & Hok) & _).
  rewrite Hold in Hc. split_and!; [done|by intros [? _]%Hok|].
  intros s'' Hcr. split.
  - exact (holds_crash _ _ _ _ (rp_holds _ _ _ _ Hr') Hcr).
  - intros (_ & _ & Hd)%Hok. symmetry. exact (holds_crash _ _ _ _ (Hd eq_refl) Hcr).
Qed.

(** A directory with nothing in it. *)
Definition empty_fs : fs := Fs ∅ ∅ [] ∅ 0.

Lemma empty_replaceable path durable P : P None -> replaceable path durable P empty_fs.
Proof.
  intros HP. split.
  - split; [done| |done]. by intros d n ino ->%list_elem_of_singleton.
  - done.
  - by intros d ->%list_elem_of_singleton.
  - intros d ->%list_elem_of_singleton. by right.
  - by intros d ino ->%list_elem_of_singleton.
Qed.

Lemma WriteFileAtomic_atomic_witness :
  let w := World empty_fs [FOk; FShort 1] [] [] in
  let w' := (WriteFileAtomic (str "state") [x61; x62] true ((), w)).2.2 in
  (content (w_fs w') (str "state") = None \/ content (w_fs w') (str "state") = Some [x61; x62]).
Proof.
  intros w w'.
  refine (proj1 (WriteFileAtomic_atomic (str "state") [x61; x62] None () w (Fail os_err) () w' _ _ _)).
  - apply empty_replaceable. left. reflexivity.
  - reflexivity.
  - vm_compute. reflexivity.
Defined.
