(* ===== verification/Dir.v ===== *)
(** * Directories with one atomically replaced file

    Both durable components keep a directory of append-only files next to one
    small file that is replaced with [WriteFileAtomic] ([head.json] of the spool,
    [resume-src*.json] of the mirror).  [dir_inv] states what every file of such a
    directory may contain, now and after a crash, and the lemmas here show how the
    system calls preserve it. *)

From S2P Require Import Prelude Bytes GoIO Os Durable.

Section Dir.
Context (hd : list byte) (durable : bool).

(** [spec n] is what the file [n] may contain, [P] what the replaced file may
    contain.  Files are private to their name: no other name, in no version of the
    directory, is bound to the same inode. *)
Record dir_inv (spec : list byte -> option (list byte) -> Prop) (P : option (list byte) -> Prop)
    (s : fs) : Prop := {
  di_head : replaceable hd durable P s;
  di_holds : forall n, ~ touched hd n -> holds s n (spec n);
  di_private : forall d d' n m ino, d ∈ versions s -> d' ∈ versions s ->
    d !! n = Some ino -> d' !! m = Some ino -> n = m \/ (touched hd n /\ touched hd m)
}.

(** An open file: [n] is bound to the file [i] that [fd] describes. *)
Record open_file (s : fs) (n : list byte) (fd : nat) (d : fdesc) (i : inode) : Prop := {
  of_live : fs_dir s !! n = Some (fd_ino d);
  of_fd : fs_fds s !! fd = Some d;
  of_inode : fs_inodes s !! fd_ino d = Some i
}.

Lemma open_file_with_fd {A} s n fd d i (k : fdesc -> inode -> fs -> res (A * fs)) :
  open_file s n fd d i -> with_fd fd k s = k d i s.
Proof. intros [_ Hf Hi]. unfold with_fd. by rewrite Hf, Hi. Qed.

Section Inv.
Context {spec : list byte -> option (list byte) -> Prop} {P : option (list byte) -> Prop} {s : fs}.
Context (Hinv : dir_inv spec P s).

Lemma dir_wf : fs_wf s.
Proof. apply Hinv. Qed.

Lemma dir_apart n m : n <> m -> ~ (touched hd n /\ touched hd m) -> apart s n m.
Proof.
  intros Hne Ht ino d Hn Hd Hm.
  destruct (di_private _ _ _ Hinv (fs_dir s) d n m ino) as [?|?]; try done. left.
Qed.

Lemma dir_content n : ~ touched hd n -> spec n (content s n).
Proof. intros Hn. apply (holds_now s n (spec n)); [apply dir_wf|by apply Hinv]. Qed.

Lemma dir_live_inode n ino : fs_dir s !! n = Some ino ->
  (ino < fs_next s)%nat /\ exists i, fs_inodes s !! ino = Some i /\ inode_ok i.
Proof.
  intros Hn. destruct (wf_dirs s dir_wf (fs_dir s) n ino) as [Hl [i Hi]]; [left|done|].
  split; [done|]. exists i. split; [done|]. by apply (wf_inodes s dir_wf) in Hi as [_ ?].
Qed.

Lemma open_survives n fd d i :
  open_file s n fd d i -> ~ touched hd n -> survives i (fun c => spec n (Some c)).
Proof.
  intros [Hl _ Hi] Hn. pose proof (di_holds _ _ _ Hinv n Hn (fs_dir s) ltac:(left)) as H.
  rewrite Hl in H. destruct H as (i0 & Hi0 & Hs). by rewrite Hi in Hi0; injection Hi0 as <-.
Qed.

Lemma open_file_ok n fd d i : open_file s n fd d i -> inode_ok i /\ (fd < fs_next s)%nat.
Proof.
  intros [_ Hf Hi]. split; [by apply (wf_inodes s dir_wf) in Hi as [_ ?]|].
  by eapply wf_fds in Hf; [|apply dir_wf].
Qed.

(** Weakening. *)
Lemma dir_mono (spec' : list byte -> option (list byte) -> Prop) (P' : option (list byte) -> Prop) :
  (forall n c, ~ touched hd n -> spec n c -> spec' n c) -> (forall c, P c -> P' c) ->
  dir_inv spec' P' s.
Proof.
  intros Hs HP. destruct Hinv as [[Hwf Hap Hh Ht Hsp] Hf Hp]. split; [split|..]; try done.
  - by eapply holds_mono.
  - eapply holds_mono; [done|]. intros [c|] [?|Hc]; cbn in *; auto.
  - intros n Hn. eapply holds_mono; [by apply Hf|]. intros c. by apply Hs.
Qed.

(** Descriptors are not part of the invariant. *)
Lemma dir_fds f :
  (forall fd d, f (fs_fds s) !! fd = Some d -> (fd < fs_next s)%nat) -> dir_inv spec P (set_fds f s).
Proof.
  intros Hf. destruct Hinv as [[[Hi Hd Hfd] Hap Hh Ht Hsp] Hfs Hp]. split; [split|..]; try done.
Qed.

Lemma dir_close fd : dir_inv spec P (set_fds (delete fd) s).
Proof.
  apply dir_fds. intros fd' d. rewrite lookup_delete. case_decide; [done|].
  apply wf_fds, dir_wf.
Qed.

(** [n] is bound to [ino] in every version, or was absent and may have been. *)
Definition bound_or (s : fs) (n : list byte) (ino : nat) (may : Prop) : Prop :=
  forall d, d ∈ versions s -> d !! n = Some ino \/ (d !! n = None /\ may).

(** The contents of a file change, and descriptors with them. *)
Lemma dir_edit spec' P' n ino i' f :
  fs_dir s !! n = Some ino -> ~ touched hd n -> inode_ok i' ->
  (forall fd d, f (fs_fds s) !! fd = Some d -> (fd < fs_next s)%nat) ->
  (forall m c, m <> n -> ~ touched hd m -> spec m c -> spec' m c) -> (forall c, P c -> P' c) ->
  bound_or s n ino (spec n None -> spec' n None) ->
  survives i' (fun c => spec' n (Some c)) ->
  dir_inv spec' P' (set_fds f (set_inodes <[ino := i']> s)).
Proof.
  intros Hn Ht Hok Hf Hs HP Hb Hsv. pose proof (dir_live_inode n ino Hn) as (Hl & i & Hi & _).
  assert (fs_wf (set_inodes <[ino := i']> s)) as Hwf by (apply wf_set_inode; eauto using dir_wf).
  assert (forall d m, d ∈ versions s -> d !! m = Some ino -> m = n) as Hpr.
  { intros d m Hd Hm. destruct (di_private _ _ _ Hinv (fs_dir s) d n m ino) as [?|[? ?]]; try done. left. }
  assert (forall m Q, m <> n -> holds s m Q -> holds (set_inodes <[ino := i']> s) m Q) as Hoth.
  { intros m Q Hne Hm. apply holds_set_inode; [done|]. intros d Hd Hx. by apply Hne, (Hpr d). }
  destruct Hinv as [[_ Hap Hh Htm Hsp] Hfs Hp]. split; [split|..].
  - destruct Hwf as [? ? ?]. by split.
  - done.
  - apply (Hoth hd); [intros <-; apply Ht; by right|]. by eapply holds_mono.
  - apply (Hoth (tmp_name hd)); [intros <-; apply Ht; by left|].
    eapply holds_mono; [done|]. intros [c|] [?|Hc]; cbn in *; auto.
  - exact Hsp.
  - intros m Hm. destruct (decide (m = n)) as [->|Hne].
    + intros d Hd. specialize (Hfs n Ht d Hd). cbn. destruct (Hb d Hd) as [->|[Hnone Hmay]].
      * rewrite lookup_insert_eq. eauto.
      * rewrite Hnone in *. auto.
    + apply (Hoth m); [done|]. eapply holds_mono; [by apply Hfs|]. intros c. by apply Hs.
  - done.
Qed.

Lemma dir_edit_file spec' P' n fd d i i' d' :
  open_file s n fd d i -> ~ touched hd n -> inode_ok i' ->
  (forall m c, m <> n -> ~ touched hd m -> spec m c -> spec' m c) -> (forall c, P c -> P' c) ->
  bound_or s n (fd_ino d) (spec n None -> spec' n None) ->
  survives i' (fun c => spec' n (Some c)) ->
  dir_inv spec' P' (set_fds <[fd := d']> (set_inodes <[fd_ino d := i']> s)).
Proof.
  intros Ho. pose proof (open_file_ok n fd d i Ho) as [_ Hfd]. destruct Ho as [Hl Hf Hi].
  intros. eapply dir_edit; try done. intros fd' d0. rewrite lookup_insert.
  case_decide; [intros _; by subst|]. apply wf_fds, dir_wf.
Qed.

Lemma dir_edit_inode spec' P' n fd d i i' :
  open_file s n fd d i -> ~ touched hd n -> inode_ok i' ->
  (forall m c, m <> n -> ~ touched hd m -> spec m c -> spec' m c) -> (forall c, P c -> P' c) ->
  bound_or s n (fd_ino d) (spec n None -> spec' n None) ->
  survives i' (fun c => spec' n (Some c)) ->
  dir_inv spec' P' (set_inodes <[fd_ino d := i']> s).
Proof.
  intros Ho Ht Hok Hs HP Hb Hsv.
  apply (dir_edit spec' P' n (fd_ino d) i' (fun m => m)); try done; [apply Ho|].
  apply wf_fds, dir_wf.
Qed.

(** A file that was opened or created, and edited since. *)
Lemma dir_editing n fd d0 i s' :
  editing s s' n fd d0 i -> ~ touched hd n -> survives i (fun c => spec n (Some c)) ->
  dir_inv spec P s'.
Proof.
  intros He Ht Hsv. pose proof He as [Hwf Hfr Hl Hfd Hnew Hi Hsame Hv]. set (ino := fd_ino d0) in *.
  assert (forall m, m <> n -> apart s n m) as Hap by (intros m Hm; apply dir_apart; [congruence|by intros [? _]]).
  assert (n <> hd /\ n <> tmp_name hd) as [Hn1 Hn2] by (split; intros ->; apply Ht; unfold touched; auto).
  destruct Hinv as [[Hwf0 Hap0 Hh Htm Hsp] Hfs Hp].
  assert (forall m Q, m <> n -> holds s m Q -> holds s' m Q) as Hoth.
  { intros m Q Hm Hq. eapply (holds_frame (eq n) s); eauto. by intros t <-; apply Hap. }
  assert (forall d' m j, d' ∈ versions s' -> d' !! m = Some j ->
    (j = ino /\ m = n) \/ exists d, d ∈ versions s /\ d !! m = Some j) as Hcase.
  { intros d' m j Hd' Hm. destruct (decide (m = n)) as [->|Hmn].
    - destruct (Hv d' Hd') as [?|Hx]; [right; eauto|left]. split; [congruence|done].
    - right. destruct (fr_versions _ _ _ Hfr d' Hd') as (d & Hd & Heq). exists d.
      rewrite <-Heq by congruence. done. }
  assert (forall d m, d ∈ versions s -> d !! m = Some ino -> m = n) as Hino.
  { intros d m Hd Hm. destruct (fr_touched _ _ _ Hfr n ino eq_refl Hl) as [Hge|(n' & <- & Hn)].
    - pose proof (wf_dirs s Hwf0 d m ino Hd Hm) as [? _]. lia.
    - destruct (decide (m = n)) as [|Hmn]; [done|]. exfalso. apply (Hap m Hmn ino d); done. }
  split; [split|..].
  - done.
  - eapply apart_frame_other; eauto.
  - by apply Hoth.
  - by apply Hoth.
  - intros d' j Hd' Hx Hy. destruct (fr_versions _ _ _ Hfr d' Hd') as (d & Hd & Heq).
    rewrite Heq in Hx, Hy by done. by apply (Hsp d j).
  - intros m Hm. destruct (decide (m = n)) as [->|Hmn]; [|by apply Hoth, Hfs].
    eapply (editing_holds s); [done|done|by apply Hfs|done].
  - intros d d' m m' j Hd Hd' Hm Hm'.
    destruct (Hcase d m j Hd Hm) as [[Hj0 ->]|(d1 & Hd1 & Hm1)];
      destruct (Hcase d' m' j Hd' Hm') as [[Hj ->]|(d2 & Hd2 & Hm2)].
    + by left.
    + left. subst j. symmetry. by apply (Hino d2).
    + left. subst j. by apply (Hino d1).
    + by apply (Hp d1 d2 m m' j).
Qed.

(** A new or opened file. *)
Lemma dir_opened n fl fd ino i s' :
  opened n fl s fd ino i s' -> ~ touched hd n -> survives i (fun c => spec n (Some c)) ->
  dir_inv spec P s'.
Proof. intros Ho. by eapply dir_editing, editing_opened. Qed.

(** The replaced file is replaced. *)
Lemma dir_atomically b o s' : atomically hd b durable P s o s' -> dir_inv spec P s'.
Proof.
  intros (Hr & Hfr & _). split; [done|..].
  - intros n Hn. eapply (holds_frame (touched hd) s); [apply dir_wf|done..| |by apply Hinv].
    intros t Ht. apply dir_apart; [congruence|by intros [? ?]].
  - intros d d' n m ino Hd Hd' Hn Hm.
    destruct (decide (n = tmp_name hd \/ n = hd)) as [Htn|Htn];
      destruct (decide (m = tmp_name hd \/ m = hd)) as [Htm|Htm]; [by right|..].
    + exfalso. destruct (fr_versions _ _ _ Hfr d' Hd') as (d0 & Hd0 & Heq). rewrite Heq in Hm by done.
      destruct (fr_old _ _ _ Hfr d n ino Hd Htn Hn) as [Hge|(d1 & n' & Hd1 & Hn' & Hx)].
      * pose proof (wf_dirs s dir_wf d0 m ino Hd0 Hm) as [? _]. lia.
      * destruct (di_private _ _ _ Hinv d1 d0 n' m ino) as [->|[? ?]]; try done.
    + exfalso. destruct (fr_versions _ _ _ Hfr d Hd) as (d0 & Hd0 & Heq). rewrite Heq in Hn by done.
      destruct (fr_old _ _ _ Hfr d' m ino Hd' Htm Hm) as [Hge|(d1 & n' & Hd1 & Hn' & Hx)].
      * pose proof (wf_dirs s dir_wf d0 n ino Hd0 Hn) as [? _]. lia.
      * destruct (di_private _ _ _ Hinv d1 d0 n' n ino) as [->|[? ?]]; try done.
    + destruct (fr_versions _ _ _ Hfr d Hd) as (d0 & Hd0 & Heq).
      destruct (fr_versions _ _ _ Hfr d' Hd') as (d1 & Hd1 & Heq1).
      rewrite Heq in Hn by done. rewrite Heq1 in Hm by done.
      destruct (di_private _ _ _ Hinv d0 d1 n m ino) as [?|[? ?]]; try done. by left.
Qed.

(** The directory reaches stable storage: names that exist now exist for good. *)
Lemma dir_sync (spec' : list byte -> option (list byte) -> Prop) :
  (forall n c, ~ touched hd n -> spec n c ->
     (c = None -> fs_dir s !! n = None) -> spec' n c) ->
  dir_inv spec' P (Fs (fs_inodes s) (fs_dir s) [] (fs_fds s) (fs_next s)).
Proof.
  intros Hs. destruct Hinv as [[[Hi Hd Hf] Hap Hh Htm Hsp] Hfs Hp].
  assert (forall Q n, holds s n Q ->
    holds (Fs (fs_inodes s) (fs_dir s) [] (fs_fds s) (fs_next s)) n Q) as Hsub.
  { intros Q n H d ->%list_elem_of_singleton. apply (H (fs_dir s)). left. }
  split; [split|..]; auto.
  - split; [done| |done]. intros d n ino ->%list_elem_of_singleton. apply Hd. left.
  - intros ino d Hx ->%list_elem_of_singleton. apply (Hap ino (fs_dir s)); [done|left].
  - intros d ino ->%list_elem_of_singleton. apply Hsp. left.
  - intros n Hn d ->%list_elem_of_singleton. specialize (Hfs n Hn (fs_dir s) ltac:(left)).
    cbn [fs_dir fs_inodes]. destruct (fs_dir s !! n) as [ino|] eqn:En; [|by apply Hs].
    destruct Hfs as (i & Hi0 & Hsv). exists i. split; [done|].
    eapply survives_mono; [done|]. intros c Hc. by apply Hs.
  - intros d d' n m ino ->%list_elem_of_singleton ->%list_elem_of_singleton. apply Hp; left.
Qed.

(** The host crashes. *)
Lemma dir_crash s' : crash_fs s s' -> dir_inv spec P s'.
Proof.
  intros Hcr. pose proof (crash_wf s s' dir_wf Hcr) as Hwf'.
  assert (forall n Q, holds s n Q -> holds s' n Q) as Hh.
  { intros n Q HQ. eapply holds_mono; [by eapply crash_holds; [apply dir_wf|]|].
    intros c <-. by eapply holds_crash. }
  pose proof Hcr as (Hd & Ho & _).
  assert (forall d, d ∈ versions s' -> d ∈ versions s) as Hv.
  { unfold versions at 1. rewrite Ho. by intros d ->%list_elem_of_singleton. }
  destruct Hinv as [[Hwf Hap Hhd Htm Hsp] Hfs Hp]. split; [split|..]; auto.
  - intros ino d Hn Hd' Hm.
    unfold versions in Hd'. rewrite Ho in Hd'. apply list_elem_of_singleton in Hd' as ->.
    by apply (Hsp (fs_dir s') ino).
  - intros d d' n m ino Hd1 Hd2. apply Hp; auto.
Qed.

(** *** Files that stay open *)

Lemma open_frame (T : list byte -> Prop) s' n fd d i :
  frame T s s' -> ~ T n -> (forall t, T t -> apart s t n) -> open_file s n fd d i ->
  open_file s' n fd d i.
Proof.
  intros Hfr Hn Hap Ho. pose proof (open_file_ok n fd d i Ho) as [_ Hfd]. destruct Ho as [Hl Hf Hi].
  split.
  - by rewrite (fr_live _ _ _ Hfr).
  - by rewrite (fr_fds _ _ _ Hfr).
  - rewrite (fr_inodes _ _ _ Hfr); [done| |].
    + by apply (dir_live_inode n).
    + intros t Ht Hx. apply (Hap t Ht (fd_ino d) (fs_dir s)); [done|left|done].
Qed.

Lemma open_atomically b o s' n fd d i :
  atomically hd b durable P s o s' -> ~ touched hd n -> open_file s n fd d i -> open_file s' n fd d i.
Proof.
  intros (_ & Hfr & _) Hn. apply (open_frame (touched hd)); [done..|].
  intros t Ht. apply dir_apart; [congruence|by intros [_ ?]].
Qed.

Lemma open_opened n fl fd ino i s' m fd' d' i' :
  opened n fl s fd ino i s' -> ~ touched hd n -> m <> n -> open_file s m fd' d' i' ->
  open_file s' m fd' d' i'.
Proof.
  intros Ho Hn Hm. apply (open_frame (eq n)); [by apply Ho|congruence|].
  intros t <-. apply dir_apart; [done|by intros [? _]].
Qed.

Lemma open_edit_inode_other n fd d i i' m fd' dm im :
  open_file s n fd d i -> ~ touched hd n -> m <> n -> open_file s m fd' dm im ->
  open_file (set_inodes <[fd_ino d := i']> s) m fd' dm im.
Proof.
  intros [Hl _ _] Hn Hm [Hlm Hfm Him]. split; cbn; [done..|].
  rewrite lookup_insert_ne; [done|]. intros Heq. rewrite <-Heq in Hlm.
  destruct (di_private _ _ _ Hinv (fs_dir s) (fs_dir s) n m (fd_ino d)) as [?|[? _]]; try done; left.
Qed.

Lemma open_edit_other n fd d i d' i' m fd' dm im :
  open_file s n fd d i -> ~ touched hd n -> m <> n -> fd' <> fd -> open_file s m fd' dm im ->
  open_file (set_fds <[fd := d']> (set_inodes <[fd_ino d := i']> s)) m fd' dm im.
Proof.
  intros [Hl _ _] Hn Hm Hne [Hlm Hfm Him]. split; cbn; [done|by rewrite lookup_insert_ne|].
  rewrite lookup_insert_ne; [done|]. intros Heq. rewrite <-Heq in Hlm.
  destruct (di_private _ _ _ Hinv (fs_dir s) (fs_dir s) n m (fd_ino d)) as [?|[? _]]; try done; left.
Qed.

(** Where a name is bound, over the versions of the directory. *)
Lemma bound_frame (T : list byte -> Prop) s' n ino may :
  frame T s s' -> ~ T n -> bound_or s n ino may -> bound_or s' n ino may.
Proof.
  intros Hfr Hn Hb d' Hd'. destruct (fr_versions _ _ _ Hfr d' Hd') as (d & Hd & Heq).
  rewrite Heq by done. by apply Hb.
Qed.
End Inv.

Lemma open_edit_inode s n fd d i i' :
  open_file s n fd d i -> open_file (set_inodes <[fd_ino d := i']> s) n fd d i'.
Proof. intros [? ? _]. split; cbn; [done..|apply lookup_insert_eq]. Qed.

Lemma open_edit s n fd d i d' i' :
  open_file s n fd d i -> fd_ino d' = fd_ino d ->
  open_file (set_fds <[fd := d']> (set_inodes <[fd_ino d := i']> s)) n fd d' i'.
Proof.
  intros [Hl _ _] Hd. split; cbn; rewrite ?Hd; [done|apply lookup_insert_eq..].
Qed.

Lemma open_opened_self n fl s fd ino i s' :
  opened n fl s fd ino i s' -> open_file s' n fd (Fdesc ino 0 (O_APPEND fl) false) i.
Proof. intros []. by split. Qed.

Lemma open_close s n fd fd' d i :
  fd <> fd' -> open_file s n fd d i -> open_file (set_fds (delete fd') s) n fd d i.
Proof. intros Hne [? ? ?]. split; cbn; [done|by rewrite lookup_delete_ne|done]. Qed.

(** *** Restarting after a crash *)

(** Everything is on stable storage. *)
Definition quiet (s : fs) : Prop :=
  fs_olddirs s = [] /\
  forall n ino i, fs_dir s !! n = Some ino -> fs_inodes s !! ino = Some i -> settled i.

Lemma quiet_crash s0 s : crash_fs s0 s -> quiet s.
Proof.
  intros (_ & Ho & _ & _ & Hi). split; [done|]. intros n ino i _ H. specialize (Hi ino).
  rewrite H in Hi. destruct (fs_inodes s0 !! ino); [by eapply crash_settled|done].
Qed.

(** Of a quiet directory only the contents matter. *)
Lemma dir_quiet (spec spec' : list byte -> option (list byte) -> Prop) P P' s :
  dir_inv spec P s -> quiet s ->
  (forall n, ~ touched hd n -> spec n (content s n) -> spec' n (content s n)) ->
  (forall b, P b -> P' b) -> dir_inv spec' P' s.
Proof.
  intros Hinv [Ho Hq] Hs HP.
  assert (dir_inv spec P' s) as Hinv' by (by apply (dir_mono Hinv)).
  destruct Hinv' as [Hhd Hf Hp]. split; [done| |done]. intros n Hn d Hd.
  unfold versions in Hd. rewrite Ho in Hd. apply list_elem_of_singleton in Hd as ->.
  pose proof (Hs n Hn (dir_content Hinv n Hn)) as H. unfold content in H.
  destruct (fs_dir s !! n) as [ino|] eqn:En; cbn in H; [|done].
  destruct (dir_live_inode Hinv n ino En) as (_ & i & Hi & _). rewrite Hi in H. cbn in H.
  exists i. split; [done|]. apply survives_settled; [by eapply Hq|done].
Qed.

(** Only descriptors came and went. *)
Record idle (s s' : fs) : Prop := {
  id_inodes : fs_inodes s' = fs_inodes s;
  id_dir : fs_dir s' = fs_dir s;
  id_olddirs : fs_olddirs s' = fs_olddirs s;
  id_next : (fs_next s <= fs_next s')%nat;
  id_fds : forall fd d, fs_fds s' !! fd = Some d -> (fd < fs_next s')%nat
}.

Lemma idle_trans s1 s2 s3 : idle s1 s2 -> idle s2 s3 -> idle s1 s3.
Proof. intros [] []. split; try congruence; [lia|done]. Qed.

Lemma idle_refl s : fs_wf s -> idle s s.
Proof. intros [_ _ Hf]. by split. Qed.

Lemma idle_content s s' n : idle s s' -> content s' n = content s n.
Proof. intros [Hi Hd _ _ _]. unfold content. by rewrite Hi, Hd. Qed.

Lemma idle_versions s s' : idle s s' -> versions s' = versions s.
Proof. intros []. unfold versions. congruence. Qed.

Lemma idle_quiet s s' : idle s s' -> quiet s -> quiet s'.
Proof. intros [Hi Hd Ho _ _] [? Hq]. split; [congruence|]. rewrite Hi, Hd. exact Hq. Qed.

Lemma idle_open_ino ino app s : fs_wf s -> idle s (open_ino ino app s).2.
Proof.
  intros [_ _ Hf]. split; cbn; try done; [lia|]. intros fd d. rewrite lookup_insert.
  case_decide; [intros; lia|]. intros Hx. specialize (Hf _ _ Hx). lia.
Qed.

Lemma idle_set_fds s f :
  (forall fd d, f (fs_fds s) !! fd = Some d -> (fd < fs_next s)%nat) -> idle s (set_fds f s).
Proof. intros Hf. by split. Qed.

Lemma idle_close s fd : fs_wf s -> idle s (set_fds (delete fd) s).
Proof.
  intros [_ _ Hf]. apply idle_set_fds. intros fd' d. rewrite lookup_delete. case_decide; [done|]. apply Hf.
Qed.

Lemma idle_fd s fd d : fs_wf s -> (fd < fs_next s)%nat -> idle s (set_fds <[fd := d]> s).
Proof.
  intros [_ _ Hf] Hl. apply idle_set_fds. intros fd' d'. rewrite lookup_insert.
  case_decide; [by subst|]. apply Hf.
Qed.

Lemma dir_idle spec P s s' : dir_inv spec P s -> idle s s' -> dir_inv spec P s'.
Proof.
  intros [[Hwf Hap Hh Ht Hsp] Hf Hp] Hid. pose proof (idle_versions _ _ Hid) as Hv.
  assert (forall n Q, holds s n Q -> holds s' n Q) as Hhold.
  { intros n Q H d. rewrite Hv. intros Hd. specialize (H d Hd). destruct Hid as [-> _ _ _ _]. done. }
  assert (forall n m, apart s n m -> apart s' n m) as Hapart.
  { intros n m H ino d. rewrite Hv, (id_dir _ _ Hid). apply H. }
  split; [split|..]; rewrite ?Hv; auto.
  destruct Hwf as [Hi Hd _]. destruct Hid as [Ei Ed Eo En Hfd]. split; [|rewrite Hv|done].
  - intros ino i. rewrite Ei. intros H. destruct (Hi _ _ H). split; [lia|done].
  - intros d n ino Hd' H. rewrite Ei. destruct (Hd d n ino Hd' H). split; [lia|done].
Qed.

Lemma idle_wf s s' : fs_wf s -> idle s s' -> fs_wf s'.
Proof.
  intros [Hi Hd _] Hid. pose proof (idle_versions _ _ Hid) as Hv. destruct Hid as [Ei Ed Eo En Hfd].
  split; [|rewrite Hv|done].
  - intros ino i. rewrite Ei. intros H. destruct (Hi _ _ H). split; [lia|done].
  - intros d n ino Hd' H. rewrite Ei. destruct (Hd d n ino Hd' H). split; [lia|done].
Qed.

(** Opening a file that exists. *)
Lemma open_plain n ino s app :
  fs_wf s -> fs_dir s !! n = Some ino ->
  exists i s', open_call n (OFlags false false false app) s = Ok (fs_next s, s') /\ idle s s' /\
    open_file s' n (fs_next s) (Fdesc ino 0 app false) i /\ fs_inodes s !! ino = Some i /\
    content s n = Some (i_data i).
Proof.
  intros Hwf Hn. destruct (wf_dirs s Hwf (fs_dir s) n ino) as [_ [i Hi]]; [left|done|].
  exists i. eexists. unfold open_call. rewrite Hn. cbn [O_EXCL O_TRUNC O_APPEND]. split; [done|].
  split; [by apply (idle_open_ino ino app s)|]. split; [|split; [done|]].
  - split; cbn; [done|apply lookup_insert_eq|done].
  - unfold content. by rewrite Hn; cbn; rewrite Hi.
Qed.
End Dir.
