(* ===== verification/Runs.v ===== *)
(** * Runs

    Sequences of labelled steps, simulation along them, executions that show a
    run to exist, and the file system after a crash that lost nothing. *)

From S2P Require Import Prelude Bytes GoIO Os.

Inductive steps {S E} (R : S -> E -> S -> Prop) : S -> list E -> S -> Prop :=
  | steps_nil k : steps R k [] k
  | steps_cons k e k1 es k' : R k e k1 -> steps R k1 es k' -> steps R k (e :: es) k'.

Lemma steps_app {S E} (R : S -> E -> S -> Prop) k1 es1 k2 es2 k3 :
  steps R k1 es1 k2 -> steps R k2 es2 k3 -> steps R k1 (es1 ++ es2) k3.
Proof. induction 1; intros; cbn; [done|]. econstructor; eauto. Qed.

(** A step-by-step simulation is a simulation of runs. *)
Lemma steps_sim {S T E} (R : S -> E -> S -> Prop) (Q : T -> E -> T -> Prop) (rel : S -> T -> Prop) :
  (forall k e k' l, R k e k' -> rel k l -> exists l', Q l e l' /\ rel k' l') ->
  forall k es k' l, steps R k es k' -> rel k l -> exists l', steps Q l es l' /\ rel k' l'.
Proof.
  intros Hsim k es k' l Hs. revert l. induction Hs as [k|k e k1 es k' Hs Hss IH]; intros l Hr.
  - exists l. split; [constructor|done].
  - destruct (Hsim k e k1 l Hs Hr) as (l1 & Hl1 & Hr1).
    destruct (IH l1 Hr1) as (l' & Hl' & Hr'). exists l'. split; [by econstructor|done].
Qed.

(** A property of steps that composes. *)
Lemma steps_rtc {S E} (R : S -> E -> S -> Prop) (P : S -> S -> Prop) :
  (forall k, P k k) -> (forall a b c, P a b -> P b c -> P a c) -> (forall k e k', R k e k' -> P k k') ->
  forall k es k', steps R k es k' -> P k k'.
Proof. intros Hr Ht Hs. induction 1; eauto. Qed.

(** ** Executions *)

Definition exec_all {S E} (f : S -> E -> option S) (k : S) (es : list E) : option S :=
  foldl (fun k e => k ← k; f k e) (Some k) es.

Lemma exec_all_None {S E} (f : S -> E -> option S) es : foldl (fun k e => k ← k; f k e) None es = None.
Proof. induction es; done. Qed.

Lemma exec_all_app {S E} (f : S -> E -> option S) k k1 es es' :
  exec_all f k es = Some k1 -> exec_all f k (es ++ es') = exec_all f k1 es'.
Proof. unfold exec_all. rewrite foldl_app. by intros ->. Qed.

Lemma exec_steps {S E} (R : S -> E -> S -> Prop) (good : S -> Prop) (f : S -> E -> option S) :
  (forall k e k', good k -> f k e = Some k' -> R k e k' /\ good k') ->
  forall es k k', good k -> exec_all f k es = Some k' -> steps R k es k' /\ good k'.
Proof.
  intros Hf es. induction es as [|e es IH]; intros k k' Hk He.
  { injection He as ->. split; [constructor|done]. }
  unfold exec_all in He. cbn in He. destruct (f k e) as [k1|] eqn:E1; [|by rewrite exec_all_None in He].
  destruct (Hf k e k1 Hk E1) as [Hs Hk1]. destruct (IH k1 k' Hk1 He) as [Hss Hk'].
  split; [by econstructor|done].
Qed.

(** The end of an execution that was not stuck. *)
Definition exec_ok {S E} (f : S -> E -> option S) (k : S) (es : list E) : bool :=
  match exec_all f k es with Some _ => true | None => false end.
Definition exec_end {S E} (f : S -> E -> option S) (k : S) (es : list E) : S := default k (exec_all f k es).

Lemma exec_ok_end {S E} (f : S -> E -> option S) k es :
  exec_ok f k es = true -> exec_all f k es = Some (exec_end f k es).
Proof. unfold exec_ok, exec_end. by destruct (exec_all f k es). Qed.

(** The parts of what a run returns. *)
Lemma run_parts {A B C} (x : A * (B * C)) : x = (x.1, (x.2.1, x.2.2)).
Proof. by destruct x as [a [b c]]. Qed.

(** ** Crashes that lose nothing *)

Definition flushed (s : fs) : fs :=
  Fs ((fun i => Inode (i_data i) [] (length (i_data i))) <$> fs_inodes s) (fs_dir s) [] ∅ (fs_next s).

Definition floors_ok (s : fs) : bool :=
  bool_decide (map_Forall (fun _ i => i_floor i <= length (i_data i))%nat (fs_inodes s)).

Lemma crash_flushed s : floors_ok s = true -> crash_fs s (flushed s).
Proof.
  intros H%bool_decide_eq_true. split_and!; [left|done..|].
  intros ino. cbn. rewrite lookup_fmap. destruct (fs_inodes s !! ino) as [i|] eqn:E; cbn; [|done].
  split_and!; cbn; try done; [|by apply (H ino)]. exists (i_data i). split; [left|done].
Qed.

Definition no_faults (f : fault) : Prop := f = FOk.

Lemma no_faults_no_fail : ~ can_fail no_faults.
Proof. by intros [?|[n ?]]. Qed.
