(* ===== verification/Json.v ===== *)
(** * encoding/json

    The part of the Go standard library's JSON package the program relies on:
    [Marshal] of flat structs, the syntax accepted by [Unmarshal], and the
    assignment of members to struct fields.  Three facts carry the proofs of the
    files kept on disk: what is written is read back, a file cut anywhere is
    rejected, and an object occupies one line.

    Two simplifications, neither of which the program's files can reach: bytes
    from 0x80 up are copied without checking that they are valid UTF-8, and a
    surrogate escape decodes to U+FFFD on its own. *)

From S2P Require Import Prelude Bytes.

(** ** Syntax *)

#[warnings="-register-all"]
Inductive json : Type :=
  | JNull
  | JBool (b : bool)
  | JNum (raw : list byte)
  | JStr (s : list byte)
  | JArr (l : list json)
  | JObj (l : list (list byte * json)).

Definition is_ws (b : byte) : bool := bool_decide (b ∈ [x20; x09; x0a; x0d]).

Fixpoint skip_ws (s : list byte) : list byte :=
  match s with b :: t => if is_ws b then skip_ws t else s | [] => [] end.

Definition hex_val (b : byte) : option Z :=
  let z := Z_of_byte b in
  if is_digit b then Some (z - 48)
  else if (97 <=? z) && (z <=? 102) then Some (z - 87)
  else if (65 <=? z) && (z <=? 70) then Some (z - 55)
  else None.

Definition utf8 (c : Z) : list byte :=
  if c <? 0x80 then [byte_of_Z c]
  else if c <? 0x800 then [byte_of_Z (0xc0 + c / 64); byte_of_Z (0x80 + c mod 64)]
  else if (0xd800 <=? c) && (c <? 0xe000) then [xef; xbf; xbd]
  else [byte_of_Z (0xe0 + c / 4096); byte_of_Z (0x80 + c / 64 mod 64); byte_of_Z (0x80 + c mod 64)].

(** The character a one-letter escape stands for. *)
Definition escapes : list (byte * byte) :=
  [(x22, x22); (x5c, x5c); (x2f, x2f); (x62, x08); (x66, x0c); (x6e, x0a); (x72, x0d); (x74, x09)].

Definition simple_escape (e : byte) : option byte :=
  snd <$> List.find (fun p => bool_decide (p.1 = e)) escapes.

Definition cons_string (c : list byte) (r : option (list byte * list byte)) :=
  match r with Some (s, rest) => Some (c ++ s, rest) | None => None end.

(** The rest of a string literal, after its opening quote. *)
Fixpoint parse_string (s : list byte) : option (list byte * list byte) :=
  match s with
  | [] => None
  | q :: t =>
      if decide (q = x22) then Some ([], t)
      else if decide (q = x5c) then
        match t with
        | [] => None
        | e :: t =>
            if decide (e = x75) then
              match t with
              | a :: b :: c :: d :: t =>
                  match hex_val a, hex_val b, hex_val c, hex_val d with
                  | Some a, Some b, Some c, Some d =>
                      cons_string (utf8 (((a * 16 + b) * 16 + c) * 16 + d)) (parse_string t)
                  | _, _, _, _ => None
                  end
              | _ => None
              end
            else match simple_escape e with
                 | Some c => cons_string [c] (parse_string t)
                 | None => None
                 end
        end
      else if Z_of_byte q <? 32 then None
      else cons_string [q] (parse_string t)
  end.

(** The input behind the byte [c], if it comes next. *)
Definition expect (c : byte) (s : list byte) : option (list byte) :=
  match s with b :: t => if decide (b = c) then Some t else None | [] => None end.

Definition is_num_char (b : byte) : bool :=
  is_digit b || bool_decide (b ∈ [x2b; x2d; x2e; x45; x65]).

Fixpoint span (f : byte -> bool) (s : list byte) : list byte * list byte :=
  match s with
  | b :: t => if f b then let '(p, r) := span f t in (b :: p, r) else ([], s)
  | [] => ([], [])
  end.

Definition skip_byte (cs : list byte) (s : list byte) : list byte :=
  match s with b :: t => if decide (b ∈ cs) then t else s | [] => [] end.

(** The grammar of numbers: sign, digits without leading zeros, fraction, exponent. *)
Definition valid_number (s : list byte) : bool :=
  let '(int, s) := span is_digit (skip_byte [x2d] s) in
  let '(frac_ok, s) :=
    match expect x2e s with
    | Some t => let '(d, r) := span is_digit t in (negb (bool_decide (d = [])), r)
    | None => (true, s)
    end in
  let '(exp_ok, s) :=
    if decide (skip_byte [x45; x65] s = s) then (true, s)
    else let '(d, r) := span is_digit (skip_byte [x2b; x2d] (skip_byte [x45; x65] s)) in
         (negb (bool_decide (d = [])), r) in
  bool_decide (int <> [] /\ (head int = Some x30 -> length int = 1%nat)) &&
  frac_ok && exp_ok && bool_decide (s = []).

Definition parse_literal (lit : list byte) (v : json) (s : list byte) : option (json * list byte) :=
  if HasPrefix s lit then Some (v, drop (length lit) s) else None.

Definition parse_number (s : list byte) : option (json * list byte) :=
  let '(raw, r) := span is_num_char s in
  if valid_number raw then Some (JNum raw, r) else None.

(** A value.  Every nested call has consumed a byte, so one more than the
    length of the input is fuel enough. *)
Fixpoint parse_value (fuel : nat) (s : list byte) : option (json * list byte) :=
  match fuel with
  | O => None
  | S fuel =>
      match skip_ws s with
      | [] => None
      | b :: t =>
          if decide (b = x7b) then
            match expect x7d (skip_ws t) with
            | Some r => Some (JObj [], r)
            | None => '(l, r) ← parse_members fuel t; Some (JObj l, r)
            end
          else if decide (b = x5b) then
            match expect x5d (skip_ws t) with
            | Some r => Some (JArr [], r)
            | None => '(l, r) ← parse_elements fuel t; Some (JArr l, r)
            end
          else if decide (b = x22) then '(v, r) ← parse_string t; Some (JStr v, r)
          else if decide (b = x6e) then parse_literal (str "null") JNull (b :: t)
          else if decide (b = x74) then parse_literal (str "true") (JBool true) (b :: t)
          else if decide (b = x66) then parse_literal (str "false") (JBool false) (b :: t)
          else parse_number (b :: t)
      end
  end
with parse_members (fuel : nat) (s : list byte) : option (list (list byte * json) * list byte) :=
  match fuel with
  | O => None
  | S fuel =>
      t ← expect x22 (skip_ws s);
      '(key, r) ← parse_string t;
      r ← expect x3a (skip_ws r);
      '(v, r) ← parse_value fuel r;
      match expect x7d (skip_ws r) with
      | Some r => Some ([(key, v)], r)
      | None =>
          r ← expect x2c (skip_ws r);
          '(l, r) ← parse_members fuel r; Some ((key, v) :: l, r)
      end
  end
with parse_elements (fuel : nat) (s : list byte) : option (list json * list byte) :=
  match fuel with
  | O => None
  | S fuel =>
      '(v, r) ← parse_value fuel s;
      match expect x5d (skip_ws r) with
      | Some r => Some ([v], r)
      | None =>
          r ← expect x2c (skip_ws r);
          '(l, r) ← parse_elements fuel r; Some (v :: l, r)
      end
  end.

(** The one value of a document. *)
Definition parse_json (s : list byte) : option json :=
  '(v, r) ← parse_value (S (length s)) s;
  if decide (skip_ws r = []) then Some v else None.

(** ** Unmarshal into struct fields

    Each returns the new value of a field that held [old], or [None] for a type
    error; [null] leaves the field alone. *)

Definition ParseInt (s : list byte) : option Z :=
  match expect x2d s with
  | Some t => v ← ParseUint t; if v <=? 2 ^ 63 then Some (- v) else None
  | None => v ← ParseUint s; if v <? 2 ^ 63 then Some v else None
  end.

Definition field_u64 (old : Z) (v : json) : option Z :=
  match v with JNull => Some old | JNum raw => ParseUint raw | _ => None end.
Definition field_i64 (old : Z) (v : json) : option Z :=
  match v with JNull => Some old | JNum raw => ParseInt raw | _ => None end.
Definition field_string (old : list byte) (v : json) : option (list byte) :=
  match v with JNull => Some old | JStr s => Some s | _ => None end.
Definition field_bool (old : bool) (v : json) : option bool :=
  match v with JNull => Some old | JBool b => Some b | _ => None end.

(** Members match field names without regard to ASCII case. *)
Definition fold_case (b : byte) : byte :=
  let z := Z_of_byte b in if (65 <=? z) && (z <=? 90) then byte_of_Z (z + 32) else b.

Definition key_is (name key : list byte) : bool :=
  bool_decide (fold_case <$> key = fold_case <$> name).

(** [json.Unmarshal(s, &x)] for a struct whose members are assigned by [set];
    every error is reported as [None]. *)
Definition unmarshal {A} (set : list byte -> json -> A -> option A) (x : A) (s : list byte) : option A :=
  match parse_json s with
  | Some (JObj l) => foldr (fun kv k y => y' ← set kv.1 kv.2 y; k y') Some l x
  | Some JNull => Some x
  | _ => None
  end.

(** ** Marshal *)

Inductive scalar : Type :=
  | SNum (z : Z)           (** an integer type *)
  | SStr (s : list byte)
  | SBool (b : bool).

(** [strconv.FormatInt]. *)
Definition dec_int (z : Z) : list byte := if z <? 0 then x2d :: dec (- z) else dec z.

Definition hex_digit (z : Z) : byte := byte_of_Z (if z <? 10 then 48 + z else 87 + z).

Definition quote_escapes : list (byte * list byte) :=
  [(x22, [x5c; x22]); (x5c, [x5c; x5c]); (x08, [x5c; x62]); (x0c, [x5c; x66]);
   (x0a, [x5c; x6e]); (x0d, [x5c; x72]); (x09, [x5c; x74])].

(** How [Marshal] writes one byte of a string (HTML-safe escaping included). *)
Definition quote_byte (b : byte) : list byte :=
  let z := Z_of_byte b in
  match List.find (fun p => bool_decide (p.1 = b)) quote_escapes with
  | Some p => p.2
  | None =>
      if (z <? 32) || bool_decide (b ∈ [x3c; x3e; x26])
      then [x5c; x75; x30; x30; hex_digit (z / 16); hex_digit (z mod 16)]
      else [b]
  end.

Definition quote (s : list byte) : list byte := x22 :: concat (quote_byte <$> s) ++ [x22].

Definition scalar_bytes (v : scalar) : list byte :=
  match v with
  | SNum z => dec_int z
  | SStr s => quote s
  | SBool b => if b then str "true" else str "false"
  end.

Definition scalar_json (v : scalar) : json :=
  match v with SNum z => JNum (dec_int z) | SStr s => JStr s | SBool b => JBool b end.

Fixpoint members_bytes (l : list (list byte * scalar)) : list byte :=
  match l with
  | [] => []
  | [(k, v)] => quote k ++ x3a :: scalar_bytes v
  | (k, v) :: t => quote k ++ x3a :: scalar_bytes v ++ x2c :: members_bytes t
  end.

Definition object_bytes (l : list (list byte * scalar)) : list byte :=
  x7b :: members_bytes l ++ [x7d].

(** ** Lemmas: the parser is local *)

Lemma skip_ws_app s k b t : skip_ws s = b :: t -> skip_ws (s ++ k) = b :: t ++ k.
Proof.
  induction s as [|c s IH]; cbn; [done|]. destruct (is_ws c); [done|]. by intros [= <- <-].
Qed.

Lemma expect_Some c s t : expect c s = Some t -> s = c :: t.
Proof. destruct s as [|b s]; cbn; [done|]. case_decide; [|done]. by intros [= <-]; subst. Qed.

Lemma expect_cons c t : expect c (c :: t) = Some t.
Proof. cbn. by rewrite decide_True. Qed.

Lemma expect_skip_app c s k t :
  expect c (skip_ws s) = Some t -> expect c (skip_ws (s ++ k)) = Some (t ++ k).
Proof. intros H%expect_Some. rewrite (skip_ws_app _ _ _ _ H). apply expect_cons. Qed.

Lemma expect_skip_None c s k :
  expect c (skip_ws s) = None -> skip_ws s <> [] -> expect c (skip_ws (s ++ k)) = None.
Proof.
  intros H Hne. destruct (skip_ws s) as [|b t] eqn:E; [done|]. rewrite (skip_ws_app _ _ _ _ E).
  revert H. cbn. by case_decide.
Qed.

Lemma cons_string_Some c r s rest :
  cons_string c r = Some (s, rest) -> exists s', r = Some (s', rest) /\ s = c ++ s'.
Proof. destruct r as [[s' rest']|]; [|done]. intros [= <- <-]. eauto. Qed.

Lemma parse_string_app s k v r :
  parse_string s = Some (v, r) -> parse_string (s ++ k) = Some (v, r ++ k).
Proof.
  revert v r. remember (length s) as n eqn:Hn. revert s Hn.
  induction (lt_wf n) as [n _ IH]. intros [|q t] Hn v r; cbn [parse_string app]; [done|]. cbn in Hn.
  assert (forall c s' v, (length s' < n)%nat -> cons_string c (parse_string s') = Some (v, r) ->
    cons_string c (parse_string (s' ++ k)) = Some (v, r ++ k)) as Hc.
  { intros c s' v' Hl (s0 & Hs & ->)%cons_string_Some. by rewrite (IH _ Hl s' eq_refl _ _ Hs). }
  case_decide; [by intros [= <- <-]|]. case_decide.
  - destruct t as [|e t]; cbn [app]; [done|]. case_decide.
    + destruct t as [|a [|b [|c [|d t]]]]; cbn [app]; try done.
      destruct (hex_val a), (hex_val b), (hex_val c), (hex_val d); try done.
      apply Hc. cbn in Hn. lia.
    + destruct (simple_escape e); [|done]. apply Hc. cbn in Hn. lia.
  - destruct (_ <? 32); [done|]. apply Hc. lia.
Qed.

Lemma span_app f s k p c r : span f s = (p, c :: r) -> span f (s ++ k) = (p, c :: r ++ k).
Proof.
  revert p; induction s as [|b s IH]; intros p; cbn; [done|].
  destruct (f b); [|by intros [= <- <- <-]].
  destruct (span f s) as [p' r'] eqn:E. intros [= <- ->]. by rewrite (IH p').
Qed.

Lemma parse_literal_app lit v s k w r :
  parse_literal lit v s = Some (w, r) -> parse_literal lit v (s ++ k) = Some (w, r ++ k).
Proof.
  unfold parse_literal, HasPrefix. case_bool_decide as H; [|done]. intros [= <- <-].
  assert (length lit <= length s)%nat by (rewrite <-H, length_take; lia).
  rewrite take_app_le, H, bool_decide_eq_true_2 by done. by rewrite drop_app_le.
Qed.

(** Only a number at the end of the input can change its meaning by what follows. *)
Definition closed (v : json) (r : list byte) : Prop :=
  match v with JNum _ => r <> [] | _ => True end.

Lemma closed_ne v r : r <> [] -> closed v r.
Proof. by destruct v. Qed.

Lemma expect_skip_ne c r t : expect c (skip_ws r) = Some t -> r <> [].
Proof. by destruct r. Qed.

Ltac bind_cases H :=
  match type of H with
  | (?m ≫= _) = Some _ =>
      let E := fresh "E" in
      destruct m eqn:E; cbn [mbind option_bind] in H; [|discriminate H]
  end.

Lemma parse_app fuel k :
  (forall s v r, parse_value fuel s = Some (v, r) -> closed v r ->
     parse_value fuel (s ++ k) = Some (v, r ++ k)) /\
  (forall s l r, parse_members fuel s = Some (l, r) ->
     skip_ws s <> [] /\ parse_members fuel (s ++ k) = Some (l, r ++ k)) /\
  (forall s l r, parse_elements fuel s = Some (l, r) ->
     skip_ws s <> [] /\ parse_elements fuel (s ++ k) = Some (l, r ++ k)).
Proof.
  induction fuel as [|fuel (IHv & IHm & IHe)]; [done|]. split_and!.
  - intros s v r H Hc. cbn [parse_value] in *.
    destruct (skip_ws s) as [|b t] eqn:Es; [done|]. rewrite (skip_ws_app _ _ _ _ Es).
    case_decide.
    { destruct (expect x7d (skip_ws t)) as [r'|] eqn:Ex.
      - injection H as <- <-. by rewrite (expect_skip_app _ _ _ _ Ex).
      - bind_cases H. destruct p as [l r']. injection H as <- <-. apply IHm in E as [Hne E].
        by rewrite (expect_skip_None _ _ _ Ex Hne), E. }
    case_decide.
    { destruct (expect x5d (skip_ws t)) as [r'|] eqn:Ex.
      - injection H as <- <-. by rewrite (expect_skip_app _ _ _ _ Ex).
      - bind_cases H. destruct p as [l r']. injection H as <- <-. apply IHe in E as [Hne E].
        by rewrite (expect_skip_None _ _ _ Ex Hne), E. }
    case_decide.
    { bind_cases H. destruct p as [w r']. injection H as <- <-. by rewrite (parse_string_app _ _ _ _ E). }
    do 3 (case_decide; [rewrite app_comm_cons; by apply parse_literal_app|]).
    unfold parse_number in *. destruct (span is_num_char (b :: t)) as [raw [|c r']] eqn:Esp.
    + destruct (valid_number raw); [|done]. by injection H as <- <-.
    + rewrite app_comm_cons, (span_app _ _ _ _ _ _ Esp). destruct (valid_number raw); [|done].
      by injection H as <- <-.
  - intros s l r H. cbn [parse_members] in *. bind_cases H.
    split; [intros Hn; by rewrite Hn in E|].
    rewrite (expect_skip_app _ _ _ _ E). cbn [mbind option_bind].
    bind_cases H. destruct p as [key r1]. rewrite (parse_string_app _ _ _ _ E0). cbn [mbind option_bind].
    bind_cases H. rewrite (expect_skip_app _ _ _ _ E1). cbn [mbind option_bind].
    bind_cases H. destruct p as [v r2].
    destruct (expect x7d (skip_ws r2)) as [r3|] eqn:Ex.
    + injection H as <- <-. rewrite (IHv _ _ _ E2) by (by eapply closed_ne, expect_skip_ne).
      cbn [mbind option_bind]. by rewrite (expect_skip_app _ _ _ _ Ex).
    + bind_cases H. rewrite (IHv _ _ _ E2) by (by eapply closed_ne, expect_skip_ne).
      cbn [mbind option_bind].
      rewrite (expect_skip_None _ _ _ Ex) by (intros Hn; by rewrite Hn in E3).
      rewrite (expect_skip_app _ _ _ _ E3). cbn [mbind option_bind]. bind_cases H.
      destruct p as [l' r3]. injection H as <- <-. apply IHm in E4 as [_ ->]. done.
  - intros s l r H. cbn [parse_elements] in *. bind_cases H. destruct p as [v r2].
    split.
    { intros Hn. destruct fuel; [done|]. cbn [parse_value] in E. by rewrite Hn in E. }
    destruct (expect x5d (skip_ws r2)) as [r3|] eqn:Ex.
    + injection H as <- <-. rewrite (IHv _ _ _ E) by (by eapply closed_ne, expect_skip_ne).
      cbn [mbind option_bind]. by rewrite (expect_skip_app _ _ _ _ Ex).
    + bind_cases H. rewrite (IHv _ _ _ E) by (by eapply closed_ne, expect_skip_ne).
      cbn [mbind option_bind].
      rewrite (expect_skip_None _ _ _ Ex) by (intros Hn; by rewrite Hn in E0).
      rewrite (expect_skip_app _ _ _ _ E0). cbn [mbind option_bind]. bind_cases H.
      destruct p as [l' r3]. injection H as <- <-. apply IHe in E1 as [_ ->]. done.
Qed.

(** More fuel changes nothing. *)
Lemma parse_mono fuel :
  (forall s v fuel', parse_value fuel s = Some v -> (fuel <= fuel')%nat -> parse_value fuel' s = Some v) /\
  (forall s v fuel', parse_members fuel s = Some v -> (fuel <= fuel')%nat -> parse_members fuel' s = Some v) /\
  (forall s v fuel', parse_elements fuel s = Some v -> (fuel <= fuel')%nat -> parse_elements fuel' s = Some v).
Proof.
  induction fuel as [|fuel (IHv & IHm & IHe)]; [done|].
  split_and!; intros s v [|fuel'] H Hle; try lia; apply le_S_n in Hle.
  - cbn [parse_value] in *. destruct (skip_ws s) as [|b t]; [done|].
    repeat (case_decide; [try done|]); try done.
    + destruct (expect _ _); [done|]. bind_cases H. by rewrite (IHm _ _ _ E Hle).
    + destruct (expect _ _); [done|]. bind_cases H. by rewrite (IHe _ _ _ E Hle).
  - cbn [parse_members] in *. bind_cases H. cbn [mbind option_bind]. bind_cases H.
    destruct p. cbn [mbind option_bind]. bind_cases H. cbn [mbind option_bind]. bind_cases H.
    rewrite (IHv _ _ _ E2 Hle). destruct p as [w r2]. cbn [mbind option_bind].
    destruct (expect x7d _); [done|]. bind_cases H. cbn [mbind option_bind]. bind_cases H.
    by rewrite (IHm _ _ _ E4 Hle).
  - cbn [parse_elements] in *. bind_cases H. rewrite (IHv _ _ _ E Hle). destruct p as [w r2].
    cbn [mbind option_bind]. destruct (expect x5d _); [done|]. bind_cases H.
    cbn [mbind option_bind]. bind_cases H. by rewrite (IHe _ _ _ E1 Hle).
Qed.

(** ** Lemmas: what is written is read back *)

Lemma parse_quote_byte b t :
  parse_string (quote_byte b ++ t) = cons_string [b] (parse_string t).
Proof. destruct b; reflexivity. Qed.

Lemma parse_quote s r : parse_string (concat (quote_byte <$> s) ++ x22 :: r) = Some (s, r).
Proof.
  induction s as [|b s IH]; [done|]. cbn [fmap list_fmap concat]. rewrite <-app_assoc.
  by rewrite parse_quote_byte, IH.
Qed.

Lemma drop_zeros_digits l :
  l <> [] -> Forall (fun b => is_digit b = true) l ->
  Forall (fun b => is_digit b = true) (drop_zeros l) /\ drop_zeros l <> [] /\
  (head (drop_zeros l) = Some x30 -> length (drop_zeros l) = 1%nat) /\
  parse_digits 0 (drop_zeros l) = parse_digits 0 l.
Proof.
  induction l as [|b l IH]; [done|]. intros _ Hd. cbn [drop_zeros]. case_decide as Hz.
  - destruct Hz as [-> Hne]. inv Hd. destruct IH as (? & ? & ? & Hp); [done..|].
    split_and!; [done..|]. by rewrite Hp.
  - split_and!; try done. intros [= ->]. destruct l; [done|]. by destruct Hz.
Qed.

Lemma dec_spec z :
  is_uint 64 z ->
  Forall (fun b => is_digit b = true) (dec z) /\ dec z <> [] /\
  (head (dec z) = Some x30 -> length (dec z) = 1%nat) /\ ParseUint (dec z) = Some z.
Proof.
  intros Hz. pose proof (ParseUint_pad_dec z Hz) as Hp. unfold dec.
  destruct (drop_zeros_digits (pad_dec 20 z)) as (Hd & Hne & Hh & Hpd);
    [by intros Hn%(f_equal length)|apply pad_dec_digits|].
  split_and!; [done..|]. unfold ParseUint in *.
  destruct (drop_zeros _) eqn:E; [done|]. rewrite Hpd.
  by destruct (pad_dec 20 z).
Qed.

Lemma span_all f p b r :
  Forall (fun b => f b = true) p -> f b = false -> span f (p ++ b :: r) = (p, b :: r).
Proof.
  intros Hp Hb. induction Hp as [|c p Hc Hp IH]; cbn; [by rewrite Hb|]. by rewrite Hc, IH.
Qed.

Lemma span_end f p : Forall (fun b => f b = true) p -> span f p = (p, []).
Proof. intros Hp. induction Hp as [|c p Hc Hp IH]; cbn; [done|]. by rewrite Hc, IH. Qed.

Lemma valid_dec z : is_uint 64 z -> valid_number (dec z) = true.
Proof.
  intros (Hd & Hne & Hh & _)%dec_spec. unfold valid_number.
  assert (skip_byte [x2d] (dec z) = dec z) as ->.
  { destruct Hd as [|b l Hb]; [done|]. cbn [skip_byte]. rewrite decide_False; [done|].
    intros ->%list_elem_of_singleton. done. }
  rewrite span_end by done. cbn [expect skip_byte]. rewrite decide_True by done.
  by rewrite !bool_decide_eq_true_2.
Qed.

(** Values the encoder is given: integers of 64 bits, signed or not. *)
Definition wf_scalar (v : scalar) : Prop :=
  match v with SNum z => - 2 ^ 63 < z < 2 ^ 64 | _ => True end.

Definition stops (b : byte) : Prop := b = x2c \/ b = x7d.

Lemma parse_dec z b r fuel :
  is_uint 64 z -> stops b -> parse_value (S fuel) (dec z ++ b :: r) = Some (JNum (dec z), b :: r).
Proof.
  intros Hz Hb. pose proof (dec_spec z Hz) as (Hd & Hne & _). cbn [parse_value].
  assert (parse_number (dec z ++ b :: r) = Some (JNum (dec z), b :: r)) as Hn.
  { unfold parse_number. rewrite span_all.
    - by rewrite valid_dec.
    - eapply Forall_impl; [exact Hd|]. intros c Hc. unfold is_num_char. by rewrite Hc.
    - by destruct Hb as [-> | ->]. }
  destruct Hd as [|c l Hc Hl]; [done|]. cbn [app] in *.
  assert (skip_ws (c :: l ++ b :: r) = c :: l ++ b :: r) as -> by (revert Hc; by destruct c).
  revert Hc Hn. destruct c; try discriminate 1; intros _ Hn; exact Hn.
Qed.

Lemma parse_scalar v b r fuel :
  wf_scalar v -> stops b ->
  parse_value (S fuel) (scalar_bytes v ++ b :: r) = Some (scalar_json v, b :: r).
Proof.
  intros Hv Hb. destruct v as [z|s|t].
  - cbn [scalar_bytes scalar_json wf_scalar] in *. unfold dec_int. destruct (Z.ltb_spec z 0).
    + assert (is_uint 64 (- z)) as Hz by (unfold is_uint; lia). cbn [parse_value app].
      assert (parse_number (x2d :: dec (- z) ++ b :: r) = Some (JNum (x2d :: dec (- z)), b :: r)) as Hn.
      { pose proof (dec_spec _ Hz) as (Hd & Hne & _). unfold parse_number.
        rewrite app_comm_cons, span_all.
        - assert (valid_number (x2d :: dec (- z)) = valid_number (dec (- z))) as ->; [|by rewrite valid_dec].
          unfold valid_number. do 3 f_equal. cbn [skip_byte]. rewrite decide_True by left.
          destruct Hd as [|c l Hc]; [done|]. cbn [skip_byte]. rewrite decide_False; [done|].
          intros ->%list_elem_of_singleton. done.
        - constructor; [done|]. eapply Forall_impl; [exact Hd|]. intros c Hc. unfold is_num_char. by rewrite Hc.
        - by destruct Hb as [-> | ->]. }
      exact Hn.
    + apply parse_dec; [unfold is_uint; lia|done].
  - cbn [scalar_bytes scalar_json]. unfold quote. cbn [app parse_value].
    change (skip_ws (x22 :: ?t)) with (x22 :: t). rewrite <-app_assoc. cbn [app].
    rewrite !decide_False by done. rewrite decide_True by done. by rewrite parse_quote.
  - destruct t; cbn [scalar_bytes scalar_json]; reflexivity.
Qed.

Lemma expect_x7d_stop r : expect x7d (skip_ws (x2c :: r)) = None.
Proof. done. Qed.

Lemma parse_members_bytes l r fuel :
  l <> [] -> Forall (fun kv => wf_scalar kv.2) l -> (length l < fuel)%nat ->
  parse_members fuel (members_bytes l ++ x7d :: r) = Some ((fun kv => (kv.1, scalar_json kv.2)) <$> l, r).
Proof.
  intros Hne Hl. revert fuel. induction Hl as [|[k v] l Hv Hl IH]; [done|]. intros fuel Hf.
  cbn [length] in Hf. destruct fuel as [|[|fuel]]; [lia..|].
  assert (forall t w r', parse_value (S fuel) t = Some (w, r') ->
    parse_members (S (S fuel)) (quote k ++ x3a :: t) =
    match expect x7d (skip_ws r') with
    | Some r => Some ([(k, w)], r)
    | None => r ← expect x2c (skip_ws r');
              '(l, r) ← parse_members (S fuel) r; Some ((k, w) :: l, r)
    end) as Hstep.
  { intros t w r' Ht. cbn [parse_members]. unfold quote. cbn [app].
    change (skip_ws (x22 :: ?t)) with (x22 :: t). rewrite expect_cons. cbn [mbind option_bind].
    rewrite <-app_assoc. cbn [app]. rewrite parse_quote. cbn [mbind option_bind].
    change (expect x3a (skip_ws (x3a :: ?t))) with (Some t). cbn [mbind option_bind]. by rewrite Ht. }
  destruct l as [|kv l].
  - cbn [members_bytes]. rewrite <-app_assoc. cbn [app].
    by rewrite (Hstep _ _ _ (parse_scalar v x7d r fuel Hv (or_intror eq_refl))).
  - cbn [members_bytes]. rewrite <-app_assoc. cbn [app]. rewrite <-app_assoc.
    change ((x2c :: ?a) ++ ?b) with (x2c :: (a ++ b)).
    rewrite (Hstep _ _ _ (parse_scalar v x2c _ fuel Hv (or_introl eq_refl))), expect_x7d_stop.
    change (expect x2c (skip_ws (x2c :: ?t))) with (Some t). cbn [mbind option_bind].
    rewrite IH; [done|done|lia].
Qed.

Lemma parse_object l r fuel :
  l <> [] -> Forall (fun kv => wf_scalar kv.2) l -> (S (length l) < fuel)%nat ->
  parse_value fuel (object_bytes l ++ r) = Some (JObj ((fun kv => (kv.1, scalar_json kv.2)) <$> l), r).
Proof.
  intros Hne Hl Hf. destruct fuel as [|fuel]; [lia|]. unfold object_bytes. cbn [parse_value app].
  change (skip_ws (x7b :: ?t)) with (x7b :: t). cbn iota. rewrite decide_True by done.
  rewrite <-app_assoc. cbn [app].
  assert (expect x7d (skip_ws (members_bytes l ++ x7d :: r)) = None) as ->.
  { destruct l as [|[k v] l]; [done|]. by destruct l. }
  by rewrite parse_members_bytes by (done || lia).
Qed.

Lemma length_members l : (length l <= length (members_bytes l))%nat.
Proof.
  induction l as [|[k v] l IH]; [done|]. destruct l as [|kv l].
  - cbn [members_bytes]. unfold quote. cbn [app length]. lia.
  - change (members_bytes ((k, v) :: kv :: l))
      with (quote k ++ x3a :: scalar_bytes v ++ x2c :: members_bytes (kv :: l)). rewrite !length_app. cbn [length] in *. rewrite !length_app. cbn [length] in *. lia.
Qed.

(** An object that was written is read back. *)
Lemma parse_json_object l :
  l <> [] -> Forall (fun kv => wf_scalar kv.2) l ->
  parse_json (object_bytes l) = Some (JObj ((fun kv => (kv.1, scalar_json kv.2)) <$> l)).
Proof.
  intros Hne Hl. unfold parse_json. rewrite <-(app_nil_r (object_bytes l)) at 2.
  rewrite parse_object; [|done..|].
  - cbn [mbind option_bind]. by rewrite decide_True.
  - pose proof (length_members l). unfold object_bytes. cbn [length]. rewrite length_app. cbn. lia.
Qed.

(** An object cut anywhere is rejected. *)
Lemma parse_json_cut l p :
  l <> [] -> Forall (fun kv => wf_scalar kv.2) l ->
  p `prefix_of` object_bytes l -> p <> object_bytes l -> parse_json p = None.
Proof.
  intros Hne Hl [k Hk] Hp. unfold parse_json.
  destruct (parse_value (S (length p)) p) as [[v r]|] eqn:E; [|done]. cbn [mbind option_bind].
  case_decide as Hr; [exfalso|done].
  destruct p as [|b p]; [done|]. assert (b = x7b) as ->.
  { unfold object_bytes in Hk. by injection Hk. }
  assert (closed v r) as Hc.
  { revert E. cbn [parse_value]. change (skip_ws (x7b :: ?t)) with (x7b :: t). cbn iota.
    rewrite decide_True by done. destruct (expect _ _); [by intros [= <- <-]|].
    destruct (parse_members _ _) as [[??]|]; [|done]. by intros [= <- <-]. }
  apply (proj1 (parse_app _ k)) in E; [|done]. rewrite <-Hk in E.
  assert (exists fuel, (S (length (x7b :: p)) <= fuel)%nat /\ (S (length l) < fuel)%nat) as (fuel & Hf1 & Hf2)
    by (exists (S (length (x7b :: p)) + S (S (length l)))%nat; lia).
  apply (proj1 (parse_mono _)) with (fuel' := fuel) in E; [|done].
  rewrite <-(app_nil_r (object_bytes l)), parse_object in E by done. injection E as _ E.
  symmetry in E. apply app_nil in E as [-> ->]. rewrite app_nil_r in Hk. done.
Qed.

(** An object occupies one line. *)
Lemma dec_no_newline z : is_uint 64 z -> x0a ∉ dec z.
Proof. intros (Hd & _)%dec_spec Hin. by apply (proj1 (Forall_forall _ _) Hd) in Hin. Qed.

Lemma length_quote s : (length (quote s) <= 6 * length s + 2)%nat.
Proof.
  unfold quote. cbn. rewrite length_app. cbn.
  enough (length (concat (quote_byte <$> s)) <= 6 * length s)%nat by lia.
  induction s as [|b s IH]; cbn [fmap list_fmap concat length]; [lia|]. rewrite length_app.
  assert (length (quote_byte b) <= 6)%nat by (apply (bool_decide_unpack _); destruct b; exact I). lia.
Qed.

Lemma length_dec_int z : (length (dec_int z) <= 21)%nat.
Proof. unfold dec_int. pose proof (length_dec z). pose proof (length_dec (- z)). case_match; cbn [length]; lia. Qed.

Lemma quote_no_newline s : x0a ∉ quote s.
Proof.
  unfold quote. rewrite elem_of_cons, elem_of_app, list_elem_of_singleton.
  intros [?|[Hin|?]]; [done| |done]. apply list_elem_of_In, in_concat in Hin as (c & Hc & Hin).
  apply in_map_iff in Hc as (b & <- & _). revert Hin.
  assert (x0a ∉ quote_byte b) as Hb by (apply (bool_decide_unpack _); destruct b; exact I).
  by rewrite <-list_elem_of_In.
Qed.

Lemma scalar_no_newline v : wf_scalar v -> x0a ∉ scalar_bytes v.
Proof.
  destruct v as [z|s|[]]; cbn [scalar_bytes wf_scalar]; intros Hv.
  - unfold dec_int. destruct (Z.ltb_spec z 0).
    + rewrite elem_of_cons. intros [?|Hin]; [done|]. by apply dec_no_newline in Hin; [|unfold is_uint; lia].
    + apply dec_no_newline. unfold is_uint. lia.
  - apply quote_no_newline.
  - by apply (bool_decide_unpack _).
  - by apply (bool_decide_unpack _).
Qed.

Lemma object_no_newline l : Forall (fun kv => wf_scalar kv.2) l -> x0a ∉ object_bytes l.
Proof.
  intros Hl. unfold object_bytes. rewrite elem_of_cons, elem_of_app, list_elem_of_singleton.
  intros [?|[Hin|?]]; [done| |done]. revert Hin.
  induction Hl as [|[k v] l Hv Hl IH]; [by intros ?%elem_of_nil|].
  pose proof (quote_no_newline k). pose proof (scalar_no_newline v Hv).
  destruct l as [|kv l].
  - cbn [members_bytes]. rewrite elem_of_app, elem_of_cons. by intros [?|[?|?]].
  - change (members_bytes ((k, v) :: kv :: l))
      with (quote k ++ x3a :: scalar_bytes v ++ x2c :: members_bytes (kv :: l)).
    rewrite elem_of_app, elem_of_cons, elem_of_app, elem_of_cons. by intros [?|[?|[?|[?|?]]]].
Qed.

(** ** Structs

    A struct is described by the members [Marshal] writes and by the assignment
    of a member; [JsonLaws] is what users of a struct need to know about it. *)

Class JsonStruct (A : Type) : Type := {
  json_members : A -> list (list byte * scalar);
  json_zero : A;
  json_set : list byte -> json -> A -> option A
}.

Definition json_Marshal `{JsonStruct A} (x : A) : list byte := object_bytes (json_members x).
Definition json_Unmarshal `{JsonStruct A} (s : list byte) : option A := unmarshal json_set json_zero s.

Definition set_members `{JsonStruct A} (l : list (list byte * json)) (x : A) : option A :=
  foldr (fun kv k y => y' ← json_set kv.1 kv.2 y; k y') Some l x.

Class JsonLaws (A : Type) `{JsonStruct A} (ok : A -> Prop) : Prop := {
  law_members x : json_members x <> [];
  law_scalars x : ok x -> Forall (fun kv => wf_scalar kv.2) (json_members x);
  law_set x : ok x -> set_members ((fun kv => (kv.1, scalar_json kv.2)) <$> json_members x) json_zero = Some x
}.

Section Laws.
Context `{JsonLaws A ok}.

Lemma Unmarshal_Marshal x : ok x -> json_Unmarshal (json_Marshal x) = Some x.
Proof.
  intros Hx. unfold json_Unmarshal, unmarshal, json_Marshal.
  rewrite parse_json_object; [|apply law_members|by apply law_scalars]. by apply law_set.
Qed.

Lemma Unmarshal_cut x p :
  ok x -> p `prefix_of` json_Marshal x -> p <> json_Marshal x -> json_Unmarshal p = None.
Proof.
  intros Hx Hp Hne. unfold json_Unmarshal, unmarshal.
  rewrite (parse_json_cut (json_members x)); [done|apply law_members|by apply law_scalars|done..].
Qed.

Lemma Marshal_no_newline x : ok x -> x0a ∉ json_Marshal x.
Proof. intros Hx. by apply object_no_newline, law_scalars. Qed.

Lemma Marshal_nonempty x : json_Marshal x <> [].
Proof. done. Qed.

(** Any prefix of what was written is rejected or the whole. *)
Lemma Unmarshal_prefix x p y :
  ok x -> p `prefix_of` json_Marshal x -> json_Unmarshal p = Some y -> y = x.
Proof.
  intros Hx Hp Hy. destruct (decide (p = json_Marshal x)) as [->|Hne].
  - rewrite Unmarshal_Marshal in Hy by done. congruence.
  - by rewrite (Unmarshal_cut x) in Hy.
Qed.
End Laws.

(** What an integer or string field reads back. *)
Lemma field_u64_dec old z : is_uint 64 z -> field_u64 old (scalar_json (SNum z)) = Some z.
Proof.
  intros Hz. cbn. unfold dec_int. destruct (Z.ltb_spec z 0); [destruct Hz; lia|].
  by apply dec_spec.
Qed.

Lemma field_i64_dec old z : 0 <= z < 2 ^ 63 -> field_i64 old (scalar_json (SNum z)) = Some z.
Proof.
  intros Hz. cbn. unfold dec_int, ParseInt. destruct (Z.ltb_spec z 0); [lia|].
  assert (is_uint 64 z) as Hu by (unfold is_uint; lia). destruct (dec_spec z Hu) as (Hd & _ & _ & Hp).
  assert (expect x2d (dec z) = None) as ->.
  { destruct Hd as [|b l Hb]; [done|]. cbn. rewrite decide_False; [done|]. by intros ->. }
  rewrite Hp. cbn [mbind option_bind]. by destruct (Z.ltb_spec z (2 ^ 63)); [|lia].
Qed.

Lemma field_string_str old s : field_string old (scalar_json (SStr s)) = Some s.
Proof. done. Qed.

Lemma field_bool_bool old b : field_bool old (scalar_json (SBool b)) = Some b.
Proof. done. Qed.
