(* ===== verification/Manifest.v ===== *)
(** * Segments, the manifest and the head pointer (internal/spool/manifest.go) *)

From S2P Require Import Prelude Bytes GoIO Os Durable Json.

Record Segment : Type := mkSegment {
  seg_Seq : Z;
  seg_File : list byte;
  seg_StartGpidx : Z;
  seg_EndGpidx : Z;
  seg_ValidLen : Z;
  seg_Sealed : bool
}.

#[export] Instance Segment_eq_dec : EqDecision Segment.
Proof. solve_decision. Defined.

#[export] Instance Segment_json : JsonStruct Segment := {
  json_members s :=
    [(str "seq", SNum (seg_Seq s)); (str "file", SStr (seg_File s));
     (str "start", SNum (seg_StartGpidx s)); (str "end", SNum (seg_EndGpidx s));
     (str "vlen", SNum (seg_ValidLen s)); (str "sealed", SBool (seg_Sealed s))];
  json_zero := mkSegment 0 [] 0 0 0 false;
  json_set k v s :=
    let '(mkSegment q f a b n d) := s in
    if key_is (str "seq") k then q ← field_u64 q v; Some (mkSegment q f a b n d)
    else if key_is (str "file") k then f ← field_string f v; Some (mkSegment q f a b n d)
    else if key_is (str "start") k then a ← field_u64 a v; Some (mkSegment q f a b n d)
    else if key_is (str "end") k then b ← field_u64 b v; Some (mkSegment q f a b n d)
    else if key_is (str "vlen") k then n ← field_i64 n v; Some (mkSegment q f a b n d)
    else if key_is (str "sealed") k then d ← field_bool d v; Some (mkSegment q f a b n d)
    else Some s
}.

Definition manifestName : list byte := str "manifest.ndjson".
Definition headName : list byte := str "head.json".

Definition segmentName (srcID seq : Z) : list byte :=
  str "src" ++ dec srcID ++ str "-" ++ pad_dec 20 seq ++ str ".pcap".

Definition parseSegmentSeq (name : list byte) : option Z :=
  if negb (HasSuffix name (str ".pcap")) then None
  else
    i ← LastIndexByte name x2d;
    ParseUint (TrimSuffix (drop (S i) name) (str ".pcap")).

#[global] Arguments segmentName : simpl never.
#[global] Arguments manifestName : simpl never.
#[global] Arguments headName : simpl never.

(** ** bufio.Scanner with the default split function *)

(** The lines of the input; a last line needs no newline. *)
Fixpoint split_lines (s cur : list byte) : list (list byte) :=
  match s with
  | [] => match cur with [] => [] | _ => [reverse cur] end
  | b :: t => if decide (b = x0a) then reverse cur :: split_lines t [] else split_lines t (b :: cur)
  end.

Definition maxTokenSize : nat := Z.to_nat (2 ^ 20).

Definition dropCR (line : list byte) : list byte :=
  if decide (last line = Some x0d) then take (length line - 1) line else line.

(** What the scanner delivers: it stops for good at a line that does not fit
    its buffer. *)
Fixpoint scanner_lines (lines : list (list byte)) : list (list byte) :=
  match lines with
  | [] => []
  | l :: t => if decide (maxTokenSize <= length l)%nat then [] else dropCR l :: scanner_lines t
  end.

(** ** loadManifest *)

(** The loop over the lines; it stops at the first line that is not a segment. *)
Fixpoint load_lines (lines : list (list byte)) (bySeq : gmap Z Segment) : gmap Z Segment :=
  match lines with
  | [] => bySeq
  | line :: t =>
      match line with
      | [] => load_lines t bySeq
      | _ =>
          match json_Unmarshal line with
          | None => bySeq
          | Some seg => load_lines t (<[seg_Seq seg := seg]> bySeq)
          end
      end
  end.

Definition manifest_map (data : list byte) : gmap Z Segment :=
  load_lines (scanner_lines (split_lines data [])) ∅.

Definition by_seq (a b : Segment) : Prop := seg_Seq a <= seg_Seq b.
#[export] Instance by_seq_dec a b : Decision (by_seq a b).
Proof. unfold by_seq; apply _. Defined.

Definition segments_by_seq (m : gmap Z Segment) : list Segment :=
  merge_sort by_seq (map_to_list m).*2.

(** A read error ends the scan like the end of the file: [sc.Err()] is not looked at. *)
Definition loadManifest {X} : M X (list Segment) :=
  r ← try (OpenFile manifestName O_plain);
  match r with
  | Err e => if decide (e = os_ErrNotExist) then mret [] else fail e
  | Ok f =>
      st ← FileStream f;
      Close f ;;
      mret (segments_by_seq (manifest_map (st_data st)))
  end.

(** [None] when the pointer is absent or torn. *)
Definition readHead {X} : M X (option Segment) :=
  r ← try (ReadFile headName);
  match r with
  | Err e => if decide (e = os_ErrNotExist) then mret None else fail e
  | Ok b => mret (json_Unmarshal b)
  end.

Definition writeHead {X} (seg : Segment) : M X unit :=
  WriteFileAtomic headName (json_Marshal seg) false.

Definition segment_seqs (srcID : Z) (names : list (list byte)) : list Z :=
  merge_sort Z.le
    (omap (fun n => if HasPrefix n (str "src" ++ dec srcID ++ str "-") then parseSegmentSeq n else None) names).

(** The directory has no subdirectories in the model. *)
Definition listSegmentFiles {X} (srcID : Z) : M X (list Z) :=
  names ← ReadDir;
  mret (segment_seqs srcID names).

(** ** Lemmas *)

Definition wf_segment (s : Segment) : Prop :=
  is_uint 64 (seg_Seq s) /\ is_uint 64 (seg_StartGpidx s) /\ is_uint 64 (seg_EndGpidx s) /\
  0 <= seg_ValidLen s < 2 ^ 63.

#[export] Instance Segment_laws : JsonLaws Segment wf_segment.
Proof.
  split.
  - done.
  - intros [q f a b n d] (Hq & Ha & Hb & Hn). cbn in *. unfold is_uint in *.
    repeat constructor; cbn; lia.
  - intros [q f a b n d] (Hq & Ha & Hb & Hn). cbn in Hq, Ha, Hb, Hn.
    unfold set_members. cbn [json_members Segment_json fmap list_fmap foldr fst snd json_set json_zero].
    repeat match goal with
    | |- context [key_is ?x ?y] =>
        let b := eval vm_compute in (key_is x y) in change (key_is x y) with b
    end. cbn iota.
    repeat (first [rewrite field_u64_dec by done | rewrite field_i64_dec by done |
      rewrite field_string_str | rewrite field_bool_bool]; cbn [mbind option_bind]).
    done.
Qed.

(** *** Lines *)

(** One line of the manifest. *)
Definition manifest_line (s : Segment) : list byte := json_Marshal s ++ [x0a].

Definition manifest_lines (l : list Segment) : list byte := concat (manifest_line <$> l).

Lemma split_lines_line l t cur :
  x0a ∉ l -> split_lines (l ++ x0a :: t) cur = (reverse cur ++ l) :: split_lines t [].
Proof.
  revert cur; induction l as [|b l IH]; intros cur Hl; cbn.
  - rewrite decide_True by done. by rewrite app_nil_r.
  - apply not_elem_of_cons in Hl as [Hb Hl]. rewrite decide_False by congruence.
    rewrite IH by done. by rewrite reverse_cons, <-app_assoc.
Qed.

Lemma split_lines_last l cur :
  x0a ∉ l -> split_lines l cur = match reverse cur ++ l with [] => [] | r => [r] end.
Proof.
  revert cur; induction l as [|b l IH]; intros cur Hl; cbn.
  - destruct cur as [|c cur]; [done|]. rewrite app_nil_r.
    by destruct (reverse (c :: cur)) eqn:E; [apply (f_equal length) in E; rewrite length_reverse in E|].
  - apply not_elem_of_cons in Hl as [Hb Hl]. rewrite decide_False by congruence.
    rewrite IH by done. by rewrite reverse_cons, <-app_assoc.
Qed.

Lemma split_lines_manifest l t :
  Forall wf_segment l ->
  split_lines (manifest_lines l ++ t) [] = (json_Marshal <$> l) ++ split_lines t [].
Proof.
  intros Hl. induction Hl as [|s l Hs Hl IH]; [done|].
  unfold manifest_lines in *. cbn [fmap list_fmap concat]. unfold manifest_line at 1.
  rewrite <-!app_assoc. cbn [app]. rewrite split_lines_line by (by eapply Marshal_no_newline).
  cbn [app]. by rewrite IH.
Qed.

Lemma last_Marshal (s : Segment) : last (json_Marshal s) = Some x7d.
Proof. unfold json_Marshal, object_bytes. rewrite app_comm_cons. apply last_snoc. Qed.

Lemma length_Marshal_Segment s : (length (seg_File s) <= 100)%nat -> (length (json_Marshal s) < maxTokenSize)%nat.
Proof.
  intros Hf. unfold json_Marshal, object_bytes. cbn [json_members Segment_json members_bytes scalar_bytes].
  cbn [length]. repeat (rewrite length_app || cbn [length]).
  pose proof (length_quote (seg_File s)).
  pose proof (length_dec_int (seg_Seq s)). pose proof (length_dec_int (seg_StartGpidx s)).
  pose proof (length_dec_int (seg_EndGpidx s)). pose proof (length_dec_int (seg_ValidLen s)).
  assert (length (if seg_Sealed s then str "true" else str "false") <= 5)%nat by (by destruct (seg_Sealed s); cbn; lia).
  repeat match goal with |- context [length (quote (str ?x))] =>
    let n := eval vm_compute in (length (quote (str x))) in change (length (quote (str x))) with n
  end.
  assert (1000 <= maxTokenSize)%nat; [|lia].
  unfold maxTokenSize. rewrite <-(Nat2Z.id 1000). apply Z2Nat.inj_le; [apply Nat2Z.is_nonneg|done|].
  change (Z.of_nat 1000) with 1000. lia.
Qed.

(** Segments whose line fits the scanner's buffer. *)
Definition line_ok (s : Segment) : Prop :=
  wf_segment s /\ (length (json_Marshal s) < maxTokenSize)%nat.

Lemma line_ok_wf l : Forall line_ok l -> Forall wf_segment l.
Proof. intros H. eapply Forall_impl; [exact H|]. by intros s []. Qed.

Lemma scanner_lines_Marshal l t :
  Forall line_ok l ->
  scanner_lines ((json_Marshal <$> l) ++ t) = (json_Marshal <$> l) ++ scanner_lines t.
Proof.
  intros Hl. induction Hl as [|s l [Hw Hs] Hl IH]; [done|]. cbn [fmap list_fmap app scanner_lines].
  rewrite decide_False by lia. unfold dropCR. rewrite last_Marshal, decide_False by done. by rewrite IH.
Qed.

(** Last record per sequence number. *)
Definition by_seq_map (l : list Segment) (m : gmap Z Segment) : gmap Z Segment :=
  foldl (fun m s => <[seg_Seq s := s]> m) m l.

Lemma load_lines_Marshal l t m :
  Forall wf_segment l -> load_lines ((json_Marshal <$> l) ++ t) m = load_lines t (by_seq_map l m).
Proof.
  intros Hl. revert m; induction Hl as [|s l Hs Hl IH]; intros m; [done|].
  cbn [fmap list_fmap app load_lines]. rewrite Unmarshal_Marshal by done.
  destruct (json_Marshal s) eqn:E; [done|]. apply IH.
Qed.

(** A manifest of whole lines and a part of one more. *)
Lemma manifest_map_lines l p s :
  Forall line_ok l -> line_ok s -> p `prefix_of` json_Marshal s ->
  manifest_map (manifest_lines l ++ p) =
    by_seq_map (if decide (p = json_Marshal s) then l ++ [s] else l) ∅.
Proof.
  intros Hl [Hw Hs] Hp. unfold manifest_map. rewrite split_lines_manifest by (by apply line_ok_wf).
  rewrite scanner_lines_Marshal, load_lines_Marshal by (done || by apply line_ok_wf).
  assert (x0a ∉ p) as Hn.
  { intros Hin. destruct Hp as [k Hk]. apply (Marshal_no_newline s Hw). rewrite Hk. set_solver. }
  rewrite split_lines_last by done. change (reverse [] ++ p) with p.
  assert (length p < maxTokenSize)%nat as Hlen by (apply prefix_length in Hp; lia).
  case_decide as E.
  - subst p. assert (match json_Marshal s with [] => [] | r => [r] end = (json_Marshal <$> [s]) ++ []) as ->
      by reflexivity.
    rewrite scanner_lines_Marshal, load_lines_Marshal by (by apply Forall_singleton).
    unfold by_seq_map. by rewrite foldl_app.
  - destruct p as [|b p']; [done|]. set (p := b :: p') in *. cbn [scanner_lines].
    rewrite decide_False by lia. unfold dropCR. case_decide as Hcr.
    + (* a line cut behind a carriage return would still be cut *)
      assert (json_Unmarshal (take (length p - 1) p) = None) as Hun.
      { apply (Unmarshal_cut s); [done| |].
        - etrans; [apply prefix_take|done].
        - intros Heq. apply prefix_length in Hp. apply (f_equal length) in Heq.
          rewrite length_take in Heq. subst p. cbn [length] in *. lia. }
      cbn [load_lines]. destruct (take _ p); [done|]. by rewrite Hun.
    + cbn [load_lines]. subst p. rewrite (Unmarshal_cut s) by done. done.
Qed.

Lemma manifest_map_whole l : Forall line_ok l -> manifest_map (manifest_lines l) = by_seq_map l ∅.
Proof.
  intros Hl. unfold manifest_map. rewrite <-(app_nil_r (manifest_lines l)).
  rewrite split_lines_manifest by (by apply line_ok_wf).
  rewrite scanner_lines_Marshal, load_lines_Marshal by (done || by apply line_ok_wf). done.
Qed.

Lemma manifest_lines_snoc l s : manifest_lines (l ++ [s]) = manifest_lines l ++ manifest_line s.
Proof. unfold manifest_lines. rewrite fmap_app, concat_app. cbn. by rewrite app_nil_r. Qed.

(** *** Names *)

Lemma reverse_IndexByte s c t :
  c ∉ t -> LastIndexByte (s ++ c :: t) c = Some (length s).
Proof.
  intros Ht. unfold LastIndexByte. rewrite reverse_app, reverse_cons.
  assert (forall l k, c ∉ l -> IndexByte (l ++ c :: k) c = Some (length l)) as Hidx.
  { intros l k. induction l as [|b l IH]; intros Hl; cbn; [by rewrite decide_True|].
    apply not_elem_of_cons in Hl as [Hb Hl]. rewrite decide_False by congruence. by rewrite IH. }
  rewrite <-app_assoc. cbn [app]. rewrite Hidx by (by rewrite elem_of_reverse).
  cbn. f_equal. rewrite length_app, length_reverse. cbn. lia.
Qed.

Lemma HasSuffix_app s p : HasSuffix (s ++ p) p = true.
Proof.
  unfold HasSuffix. apply bool_decide_eq_true_2. rewrite length_app. split; [lia|].
  replace (length s + length p - length p)%nat with (length s) by lia. apply drop_app_length.
Qed.

Lemma TrimSuffix_app s p : TrimSuffix (s ++ p) p = s.
Proof.
  unfold TrimSuffix. rewrite HasSuffix_app, length_app.
  replace (length s + length p - length p)%nat with (length s) by lia. apply take_app_length.
Qed.

(** The sequence number of a segment's name is read back from it. *)
Lemma parseSegmentSeq_segmentName srcID seq :
  is_uint 64 seq -> parseSegmentSeq (segmentName srcID seq) = Some seq.
Proof.
  intros Hq. unfold parseSegmentSeq, segmentName.
  assert (forall a b c d : list byte, a ++ b ++ (x2d :: c ++ d) = (a ++ b) ++ x2d :: c ++ d) as Ha
    by (intros; by rewrite <-app_assoc).
  change (str "-" ++ ?a) with (x2d :: a). rewrite Ha.
  replace ((str "src" ++ dec srcID) ++ x2d :: pad_dec 20 seq ++ str ".pcap")
    with (((str "src" ++ dec srcID) ++ x2d :: pad_dec 20 seq) ++ str ".pcap") by (by rewrite <-app_assoc).
  rewrite HasSuffix_app. cbn [negb]. rewrite <-app_assoc. cbn [app].
  rewrite reverse_IndexByte.
  - cbn [mbind option_bind]. rewrite drop_app_ge by lia. rewrite Nat.sub_succ_l, Nat.sub_diag by lia.
    change (drop 1 (x2d :: ?l)) with l. rewrite TrimSuffix_app. by apply ParseUint_pad_dec.
  - rewrite elem_of_app. intros [Hin|Hin].
    + by apply (proj1 (Forall_forall _ _) (pad_dec_digits 20 seq)) in Hin.
    + revert Hin. by apply (bool_decide_unpack _).
Qed.

Lemma segmentName_inj srcID q q' :
  is_uint 64 q -> is_uint 64 q' -> segmentName srcID q = segmentName srcID q' -> q = q'.
Proof.
  intros Hq Hq' H. apply (f_equal parseSegmentSeq) in H.
  rewrite !parseSegmentSeq_segmentName in H by done. congruence.
Qed.
