(* ===== verification/Recover.v ===== *)
(** * Crash recovery of a spool (internal/spool/recover.go)

    The durable state of a source, rebuilt from the manifest and a forward scan
    of the segment files. *)

From S2P Require Import Prelude Bytes GoIO Pcapio Os Durable Json Manifest.

Record recovered : Type := mkRecovered {
  rc_sealed : gmap Z Segment;
  rc_reseal : list Segment;
  rc_active : option Segment;
  rc_head : Z;
  rc_nextSeq : Z;
  rc_oldestGpidx : Z;
  rc_linkType : Z;
  rc_snaplen : Z
}.

(** [defer f.Close()]. *)
Definition with_close {X A} (f : nat) (body : M X A) : M X A :=
  r ← try body;
  Close f ;;
  of_res r.

Definition resetSegment {X} (f : nat) (snaplen linkType : Z) : M X (Z * Z) :=
  Truncate f 0 ;;
  _ ← SeekStart f 0;
  Write f (GlobalHeader_AppendTo (mkGlobalHeader snaplen linkType) []) ;;
  Fdatasync f ;;
  mret (0, 0).

(** [validBytes] and [count]. *)
Definition scanSegment {X} (srcID seq snaplen linkType : Z) (repair : bool) : M X (Z * Z) :=
  f ← OpenFile (segmentName srcID seq) O_plain;
  with_close f (
    size ← FileSize f;
    if size <? GlobalHeaderLen then
      if repair then resetSegment f snaplen linkType else fail fmt_err
    else
      st ← FileStream f;
      match ReadFull st 24 with
      | (Err e, _) => fail e
      | (Ok ghBuf, br) =>
          match ParseGlobalHeader ghBuf with
          | Err _ => if repair then resetSegment f snaplen linkType else fail fmt_err
          | Ok _ =>
              match ScanRecords br snaplen None () with
              | (_, _, _, Some e) => fail e
              | (_, validBytes, count, None) =>
                  let want := i64 (GlobalHeaderLen + validBytes) in
                  if repair && negb (size =? want)
                  then Truncate f want ;; Fdatasync f ;; mret (validBytes, count)
                  else mret (validBytes, count)
              end
          end
      end).

Section Recover.
Context {X : Type} (srcID snaplen linkType : Z) (sealedBySeq : gmap Z Segment).

(** The loop over the sequence numbers: [running] and [haveRunning], and the
    result under construction.  Returns the final counter and result. *)
Fixpoint recover_loop (seqs : list Z) (running : Z) (haveRunning : bool) (r : recovered)
    : M X (Z * recovered) :=
  match seqs with
  | [] => mret (running, r)
  | seq :: rest =>
      let isLast := bool_decide (rest = []) in
      let '(mkRecovered sealed reseal active head nextSeq oldest lt sl) := r in
      match sealedBySeq !! seq with
      | Some seg =>
          let '(running, oldest) :=
            if haveRunning then (running, oldest) else (seg_StartGpidx seg, seg_StartGpidx seg) in
          if negb (seg_StartGpidx seg =? running) then fail fmt_err
          else recover_loop rest (seg_EndGpidx seg) true
                 (mkRecovered (<[seq := seg]> sealed) reseal active head nextSeq oldest lt sl)
      | None =>
          let start := if haveRunning then running else 0 in
          let oldest := if haveRunning then oldest else 0 in
          '(validBytes, count) ← scanSegment srcID seq snaplen linkType isLast;
          let seg := mkSegment seq (segmentName srcID seq) start (u64 (start + count))
                       (i64 (GlobalHeaderLen + validBytes)) false in
          let sealedSeg := mkSegment seq (segmentName srcID seq) start (u64 (start + count))
                             (i64 (GlobalHeaderLen + validBytes)) true in
          if isLast then
            recover_loop rest (seg_EndGpidx seg) true
              (mkRecovered sealed reseal (Some seg) head nextSeq oldest lt sl)
          else
            recover_loop rest (seg_EndGpidx seg) true
              (mkRecovered (<[seq := sealedSeg]> sealed) (reseal ++ [sealedSeg]) active head nextSeq
                 oldest lt sl)
      end
  end.
End Recover.

(** [maxSealedSeq] and [maxSealedEnd]. *)
Definition max_sealed (manifest : list Segment) : Z * Z :=
  foldl (fun '(q, e) s => (if q <=? seg_Seq s then seg_Seq s else q,
                           if e <? seg_EndGpidx s then seg_EndGpidx s else e)) (0, 0) manifest.

Definition recoverSpool {X} (srcID snaplen linkType : Z) : M X recovered :=
  let r := mkRecovered ∅ [] None 0 0 0 linkType snaplen in
  manifest ← loadManifest;
  let sealedBySeq := by_seq_map manifest ∅ in
  let '(maxSealedSeq, maxSealedEnd) := max_sealed manifest in
  seqs ← listSegmentFiles srcID;
  match last seqs with
  | None =>
      mret (mkRecovered ∅ [] None maxSealedEnd
              (if decide (manifest = []) then 0 else u64 (maxSealedSeq + 1)) maxSealedEnd linkType snaplen)
  | Some lastSeq =>
      '(running, r) ← recover_loop srcID snaplen linkType sealedBySeq seqs 0 false r;
      let nextSeq := match rc_active r with
                     | Some a => u64 (seg_Seq a + 1)
                     | None => u64 (lastSeq + 1)
                     end in
      mret (mkRecovered (rc_sealed r) (rc_reseal r) (rc_active r) running nextSeq (rc_oldestGpidx r)
              linkType snaplen)
  end.
