(* ===== verification/Spool.v ===== *)
(** * The spool writer (internal/spool/spool.go)

    The durable, append-only writer of one source: segments, the manifest of
    sealed segments, and the advertised head. *)

From S2P Require Import Prelude Bytes GoIO Pcapio Os Durable Json Manifest Recover.

(** Durations are nanoseconds. *)
Record Config : Type := mkConfig {
  SrcID : Z;
  Snaplen : Z;
  LinkType : Z;
  RotateBytes : Z;
  RotateInterval : Z;
  SyncBytes : Z;
  SyncInterval : Z
}.

Definition applyDefaults (c : Config) : Config :=
  mkConfig (SrcID c)
    (if Snaplen c =? 0 then 65536 else Snaplen c)
    (LinkType c)
    (if RotateBytes c <=? 0 then 64 * 2 ^ 20 else RotateBytes c)
    (if RotateInterval c <=? 0 then 60 * 10 ^ 9 else RotateInterval c)
    (if SyncBytes c <=? 0 then 64 * 2 ^ 10 else SyncBytes c)
    (if SyncInterval c <=? 0 then 500 * 10 ^ 6 else SyncInterval c).

Record Writer : Type := mkWriter {
  cfg : Config;
  file : option nat;        (** active segment *)
  manifest : option nat;    (** sealed-segment log, open for append *)
  active : Segment;
  nextSeq : Z;
  sealed : gmap Z Segment;
  head : Z;
  oldestGpidx : Z;
  fileOffset : Z;
  durableLen : Z;
  durableEnd : Z;
  pendingBytes : Z;
  segStart : Z;
  lastSync : Z
}.

(** A call on a [*os.File] that may be nil. *)
Definition on_file {X A} (f : option nat) (k : nat -> M X A) : M X A :=
  match f with Some fd => k fd | None => fail os_err end.

Definition close_file {X} (f : option nat) : M X unit :=
  match f with Some fd => Close fd | None => mret () end.

Definition publishHead : M Writer unit :=
  w ← get;
  writeHead (mkSegment (seg_Seq (active w)) (seg_File (active w)) (seg_StartGpidx (active w))
               (durableEnd w) (durableLen w) false).

Definition sync : M Writer unit :=
  w ← get;
  on_file (file w) Fdatasync ;;
  t ← Now;
  modify (fun w => mkWriter (cfg w) (file w) (manifest w) (active w) (nextSeq w) (sealed w) (head w)
                     (oldestGpidx w) (fileOffset w) (fileOffset w) (head w) 0 (segStart w) t) ;;
  publishHead.

Definition sealToManifest (seg : Segment) : M Writer unit :=
  let seg := mkSegment (seg_Seq seg) (seg_File seg) (seg_StartGpidx seg) (seg_EndGpidx seg)
               (seg_ValidLen seg) true in
  w ← get;
  on_file (manifest w) (fun f => Write f (json_Marshal seg ++ [x0a])) ;;
  on_file (manifest w) Fdatasync ;;
  modify (fun w => mkWriter (cfg w) (file w) (manifest w) (active w) (nextSeq w)
                     (<[seg_Seq seg := seg]> (sealed w)) (head w) (oldestGpidx w) (fileOffset w)
                     (durableLen w) (durableEnd w) (pendingBytes w) (segStart w) (lastSync w)).

Definition openNewSegment (seq startGpidx : Z) : M Writer unit :=
  w ← get;
  let name := segmentName (SrcID (cfg w)) seq in
  f ← OpenFile name (OFlags true true false false);
  on_error (Write f (GlobalHeader_AppendTo (mkGlobalHeader (Snaplen (cfg w)) (LinkType (cfg w))) []))
    (Close f) ;;
  on_error (Fdatasync f) (Close f) ;;
  on_error SyncDir (Close f) ;;
  close_file (file w) ;;
  t ← Now;
  modify (fun w => mkWriter (cfg w) (Some f) (manifest w)
                     (mkSegment seq name startGpidx startGpidx GlobalHeaderLen false)
                     (nextSeq w) (sealed w) (head w) (oldestGpidx w)
                     GlobalHeaderLen GlobalHeaderLen startGpidx 0 t (lastSync w)).

Definition rotate : M Writer unit :=
  sync ;;
  w ← get;
  sealToManifest (mkSegment (seg_Seq (active w)) (seg_File (active w)) (seg_StartGpidx (active w))
                    (durableEnd w) (durableLen w) true) ;;
  w ← get;
  let seq := nextSeq w in
  modify (fun w => mkWriter (cfg w) (file w) (manifest w) (active w) (u64 (nextSeq w + 1)) (sealed w)
                     (head w) (oldestGpidx w) (fileOffset w) (durableLen w) (durableEnd w)
                     (pendingBytes w) (segStart w) (lastSync w)) ;;
  w ← get;
  openNewSegment seq (head w) ;;
  publishHead.

(** [time.Since(t0) >= d]. *)
Definition since (t0 d : Z) : M Writer bool :=
  t ← Now; mret (d <=? t - t0).

(** Returns the gpidx the packet was assigned; errors of the sync and rotation
    that follow the write are errors of the call. *)
Definition WritePacket (rec : PcapRecord) : M Writer Z :=
  let rec := if OrigLen rec =? 0
             then mkPcapRecord (TsSec rec) (TsUsec rec) (u32 (len (Data rec))) (Data rec) else rec in
  let buf := PcapRecord_AppendTo rec [] in
  w ← get;
  on_file (file w) (fun f => Write f buf) ;;
  let gpidx := head w in
  modify (fun w =>
    let head' := u64 (head w + 1) in
    mkWriter (cfg w) (file w) (manifest w)
      (mkSegment (seg_Seq (active w)) (seg_File (active w)) (seg_StartGpidx (active w)) head'
         (seg_ValidLen (active w)) (seg_Sealed (active w)))
      (nextSeq w) (sealed w) head' (oldestGpidx w) (i64 (fileOffset w + len buf)) (durableLen w)
      (durableEnd w) (i64 (pendingBytes w + len buf)) (segStart w) (lastSync w)) ;;
  w ← get;
  due ← (if SyncBytes (cfg w) <=? pendingBytes w then mret true
         else since (lastSync w) (SyncInterval (cfg w)));
  (if due : bool then sync else mret ()) ;;
  w ← get;
  due ← (if RotateBytes (cfg w) <=? fileOffset w then mret true
         else since (segStart w) (RotateInterval (cfg w)));
  (if due : bool then rotate else mret ()) ;;
  mret gpidx.

Definition Tick : M Writer unit :=
  w ← get;
  due ← (if 0 <? pendingBytes w then since (lastSync w) (SyncInterval (cfg w)) else mret false);
  (if due : bool then sync else mret ()) ;;
  w ← get;
  due ← (if GlobalHeaderLen <? fileOffset w then since (segStart w) (RotateInterval (cfg w))
         else mret false);
  if due : bool then rotate else mret ().

Definition Head : M Writer Z := w ← get; mret (head w).
Definition OldestGpidx : M Writer Z := w ← get; mret (oldestGpidx w).

(** The first error of the three steps. *)
Definition first_err {A B} (err : res A) (r : res B) : res unit :=
  match err, r with Err e, _ => Err e | Ok _, Err e => Err e | Ok _, Ok _ => Ok () end.

Definition Writer_Close : M Writer unit :=
  w ← get;
  err ← (match file w with
         | None => mret (Ok ())
         | Some f =>
             serr ← (if 0 <? pendingBytes w then try sync else mret (Ok ()));
             cerr ← try (CloseErr f);
             mret (first_err serr cerr)
         end);
  err ← (match manifest w with
         | None => mret err
         | Some f => cerr ← try (CloseErr f); mret (first_err err cerr)
         end);
  of_res err.

Definition zero_Segment : Segment := mkSegment 0 [] 0 0 0 false.

(** [NewWriter]: the object is the writer it returns. *)
Definition NewWriter (c : Config) : M Writer unit :=
  let c := applyDefaults c in
  MkdirAll ;;
  rec ← recoverSpool (SrcID c) (Snaplen c) (LinkType c);
  mf ← OpenFile manifestName (OFlags true false false true);
  on_error SyncDir (Close mf) ;;
  t1 ← Now;
  t2 ← Now;
  modify (fun _ => mkWriter c None (Some mf) zero_Segment (rc_nextSeq rec) (rc_sealed rec)
                     (rc_head rec) (rc_oldestGpidx rec) 0 0 0 0 t2 t1) ;;
  on_error (foldr (fun seg k => sealToManifest seg ;; k) (mret ()) (rc_reseal rec)) (Close mf) ;;
  (match rc_active rec with
   | Some a =>
       f ← on_error (OpenFile (seg_File a) O_plain) (Close mf);
       on_error (_ ← SeekStart f (seg_ValidLen a); mret ()) (Close f ;; Close mf) ;;
       modify (fun w => mkWriter (cfg w) (Some f) (manifest w) a (nextSeq w) (sealed w) (head w)
                          (oldestGpidx w) (seg_ValidLen a) (seg_ValidLen a) (seg_EndGpidx a)
                          (pendingBytes w) (segStart w) (lastSync w))
   | None =>
       on_error (openNewSegment (rc_nextSeq rec) (rc_head rec)) (Close mf) ;;
       modify (fun w => mkWriter (cfg w) (file w) (manifest w) (active w) (u64 (rc_nextSeq rec + 1))
                          (sealed w) (head w) (oldestGpidx w) (fileOffset w) (durableLen w)
                          (durableEnd w) (pendingBytes w) (segStart w) (lastSync w))
   end) ;;
  on_error publishHead (_ ← try Writer_Close; mret ()).
