(* ===== verification/Janitor.v ===== *)
(** * Retention and the spool's instance id (internal/spool/janitor.go, epoch.go) *)

From S2P Require Import Prelude Bytes GoIO Pcapio Os Durable Json Manifest Recover Spool.

(** ** janitor.go *)

Definition stat_total {X} (srcID : Z) (seqs : list Z) : M X Z :=
  foldr (fun seq k total =>
           r ← try (StatSize (segmentName srcID seq));
           k (match r with Ok n => i64 (total + n) | Err _ => total end))
    mret seqs 0.

Definition spoolBytesLocked : M Writer Z :=
  w ← get;
  r ← try (listSegmentFiles (SrcID (cfg w)));
  match r with
  | Err _ => mret 0
  | Ok seqs => stat_total (SrcID (cfg w)) seqs
  end.

Definition SpoolBytes : M Writer Z := spoolBytesLocked.

(** Deletes the file iff no reader holds a shared lock on it. *)
Definition tryReap {X} (path : list byte) : M X bool :=
  r ← try (OpenFile path O_plain);
  match r with
  | Err _ => mret false
  | Ok f =>
      with_close f (
        r ← try (FlockExclusive f);
        match r with
        | Err _ => mret false
        | Ok _ => r ← try (Remove path); mret (match r with Ok _ => true | Err _ => false end)
        end)
  end.

(** The sealed sequence numbers but the active one whose files exist. *)
Definition reap_candidates (w : Writer) : M Writer (list Z) :=
  foldr (fun kv k =>
           if decide (kv.1 = seg_Seq (active w)) then k
           else r ← try (StatSize (segmentName (SrcID (cfg w)) kv.1));
                t ← k;
                mret (match r with Ok _ => kv.1 :: t | Err _ => t end))
    (mret []) (map_to_list (sealed w)).

(** [w.sealed[seq]]: the zero value for a missing key. *)
Definition sealed_at (m : gmap Z Segment) (seq : Z) : Segment := default zero_Segment (m !! seq).

Definition by_start (m : gmap Z Segment) (a b : Z) : Prop :=
  seg_StartGpidx (sealed_at m a) <= seg_StartGpidx (sealed_at m b).
#[export] Instance by_start_dec m a b : Decision (by_start m a b).
Proof. unfold by_start; apply _. Defined.

(** The loop over the candidates, oldest first. *)
Fixpoint reap_loop (maxBytes : Z) (seqs : list Z) (total deleted : Z) : M Writer Z :=
  match seqs with
  | [] => mret deleted
  | seq :: rest =>
      if total <=? maxBytes then mret deleted
      else
        w ← get;
        let seg := sealed_at (sealed w) seq in
        r ← try (StatSize (seg_File seg));
        match r with
        | Err _ => reap_loop maxBytes rest total deleted
        | Ok size =>
            reaped ← tryReap (seg_File seg);
            if reaped : bool then
              modify (fun w =>
                mkWriter (cfg w) (file w) (manifest w) (active w) (nextSeq w) (delete seq (sealed w))
                  (head w)
                  (if oldestGpidx w <? seg_EndGpidx seg then seg_EndGpidx seg else oldestGpidx w)
                  (fileOffset w) (durableLen w) (durableEnd w) (pendingBytes w) (segStart w)
                  (lastSync w)) ;;
              reap_loop maxBytes rest (i64 (total - size)) (deleted + 1)
            else mret deleted
        end
  end.

Definition Reap (maxBytes : Z) : M Writer Z :=
  if maxBytes <=? 0 then mret 0
  else
    total ← spoolBytesLocked;
    if total <=? maxBytes then mret 0
    else
      w ← get;
      cands ← reap_candidates w;
      reap_loop maxBytes (merge_sort (by_start (sealed w)) cands) total 0.

(** ** epoch.go *)

Definition epochName : list byte := str "epoch".

(** [hex.EncodeToString]. *)
Definition hex_encode (b : list byte) : list byte :=
  concat ((fun c => [hex_digit (Z_of_byte c / 16); hex_digit (Z_of_byte c mod 16)]) <$> b).

(** The id, empty when the file does not exist. *)
Definition readEpoch {X} (path : list byte) : M X (list byte) :=
  r ← try (ReadFile path);
  match r with
  | Err e => if decide (e = os_ErrNotExist) then mret [] else fail e
  | Ok b => mret (TrimSpace b)
  end.

Definition Epoch {X} : M X (list byte) :=
  let path := epochName in
  id ← readEpoch path;
  if decide (id <> []) then mret id
  else
    MkdirAll ;;
    raw ← RandRead 8;
    let id := hex_encode raw in
    r ← try (OpenFile path (OFlags true false true false));
    match r with
    | Err e => if decide (e = os_ErrExist) then readEpoch path else fail e
    | Ok f =>
        on_error (Write f (id ++ [x0a])) (Close f) ;;
        on_error (Fdatasync f) (Close f) ;;
        CloseErr f ;;
        SyncDir ;;
        mret id
    end.
