(* ===== verification/Reader.v ===== *)
(** * The tailing reader (internal/spool/reader.go) *)

From S2P Require Import Prelude Bytes GoIO Pcapio Os Durable Json Manifest.

Record Reader : Type := mkReader {
  srcID : Z;
  snaplen : Z;
  view : list Segment;     (** durable segments, by start *)
  oldest : Z;
  rd_head : Z;
  gpidx : Z;               (** next to read *)
  rd_file : option nat;
  fileSeq : Z;
  offset : Z
}.

Definition by_StartGpidx (a b : Segment) : Prop := seg_StartGpidx a <= seg_StartGpidx b.
#[export] Instance by_StartGpidx_dec a b : Decision (by_StartGpidx a b).
Proof. unfold by_StartGpidx; apply _. Defined.

(** The view: sealed segments and the head pointer, of files that exist. *)
Definition build_view (seqs : list Z) (sealed : list Segment) (act : option Segment) : list Segment :=
  let bySeq := by_seq_map (filter (fun s => seg_Seq s ∈ seqs) sealed) ∅ in
  let bySeq := match act with
               | Some a => if decide (seg_Seq a ∈ seqs) then <[seg_Seq a := a]> bySeq else bySeq
               | None => bySeq
               end in
  merge_sort by_StartGpidx (map_to_list bySeq).*2.

Definition set_view (v : list Segment) (r : Reader) : Reader :=
  mkReader (srcID r) (snaplen r) v
    (match v with [] => 0 | s :: _ => seg_StartGpidx s end)
    (match last v with None => 0 | Some s => seg_EndGpidx s end)
    (gpidx r) (rd_file r) (fileSeq r) (offset r).

Definition refresh : M Reader unit :=
  r ← get;
  seqs ← listSegmentFiles (srcID r);
  sealed ← loadManifest;
  act ← readHead;
  modify (set_view (build_view seqs sealed act)).

Definition owning (r : Reader) (gp : Z) : option Segment :=
  List.find (fun s => (seg_StartGpidx s <=? gp) && (gp <? seg_EndGpidx s)) (view r).

Definition set_gpidx (gp : Z) (r : Reader) : Reader :=
  mkReader (srcID r) (snaplen r) (view r) (oldest r) (rd_head r) gp (rd_file r) (fileSeq r) (offset r).
Definition set_offset (off : Z) (r : Reader) : Reader :=
  mkReader (srcID r) (snaplen r) (view r) (oldest r) (rd_head r) (gpidx r) (rd_file r) (fileSeq r) off.

(** [OpenReader]: the object becomes the reader; returns the start position and
    whether it was clamped to the oldest retained packet. *)
Definition OpenReader (src snap fromGpidx : Z) : M Reader (Z * bool) :=
  modify (fun _ => mkReader src snap [] 0 0 0 None (2 ^ 64 - 1) 0) ;;
  refresh ;;
  r ← get;
  let '(from, reaped) := if fromGpidx <? oldest r then (oldest r, true) else (fromGpidx, false) in
  let from := if rd_head r <? from then oldest r else from in
  modify (set_gpidx from) ;;
  mret (from, reaped).

Definition Reader_Head : M Reader Z := r ← get; mret (rd_head r).
Definition Reader_Oldest : M Reader Z := r ← get; mret (oldest r).
Definition Reader_Pos : M Reader Z := r ← get; mret (gpidx r).

(** Skipping [n] whole records from offset [off]: the offset reached and the
    error that stopped the loop, if any. *)
Fixpoint skip_records (ra : ReaderAt) (n : nat) (off : Z) : Z * option goerror :=
  match n with
  | O => (off, None)
  | S n =>
      match ra off 16%nat with
      | Err e => (off, Some e)
      | Ok hdr => skip_records ra n (i64 (off + (RecordHeaderLen + (ParseRecordHeader hdr).1)))
      end
  end.

Definition position (seg : Segment) (targetGpidx : Z) : M Reader unit :=
  f ← OpenFile (seg_File seg) O_plain;
  FlockShared f ;;
  r ← get;
  (match rd_file r with Some old => Close old | None => mret () end) ;;
  modify (fun r => mkReader (srcID r) (snaplen r) (view r) (oldest r) (rd_head r) (gpidx r)
                     (Some f) (seg_Seq seg) GlobalHeaderLen) ;;
  ra ← FileReaderAt f;
  let '(off, err) := skip_records ra (Z.to_nat (targetGpidx - seg_StartGpidx seg)) GlobalHeaderLen in
  modify (set_offset off) ;;
  match err with Some e => fail e | None => mret () end.

(** The record at the current offset; [None] when it is not all durable yet. *)
Definition readAt (seg : Segment) : M Reader (option PcapRecord) :=
  r ← get;
  match rd_file r with
  | None => fail os_err
  | Some f =>
      ra ← FileReaderAt f;
      match ReadRecordAt ra (offset r) (seg_ValidLen seg) (snaplen r) with
      | (_, _, _, Some e) => fail e
      | (_, _, false, None) => mret None
      | (rec, next, true, None) => modify (set_offset next) ;; mret (Some rec)
      end
  end.

(** [Next].  The loop has no bound in the code; [None] means that [fuel] rounds
    did not decide ([TailProps.reader_makes_progress]: two are enough). *)
Fixpoint Next (fuel : nat) : M Reader (option (PcapRecord * Z)) :=
  match fuel with
  | O => mret None
  | S fuel =>
      r ← get;
      if gpidx r <? oldest r then fail spool_ErrReaped
      else
        (if rd_head r <=? gpidx r then
           refresh ;;
           r ← get;
           if gpidx r <? oldest r then fail spool_ErrReaped
           else if rd_head r <=? gpidx r then fail spool_ErrNoData
           else mret ()
         else mret ()) ;;
        r ← get;
        match owning r (gpidx r) with
        | None =>
            refresh ;;
            r ← get;
            match owning r (gpidx r) with
            | None => fail spool_ErrNoData
            | Some _ => Next fuel
            end
        | Some seg =>
            (if decide (rd_file r = None \/ fileSeq r <> seg_Seq seg)
             then position seg (gpidx r) else mret ()) ;;
            o ← readAt seg;
            match o with
            | None =>
                refresh ;;
                r ← get;
                if rd_head r <=? gpidx r then fail spool_ErrNoData else Next fuel
            | Some rec =>
                r ← get;
                let gp := gpidx r in
                modify (set_gpidx (u64 (gp + 1))) ;;
                mret (Some (rec, gp))
            end
        end
  end.

Definition Reader_Close : M Reader unit :=
  r ← get;
  match rd_file r with
  | None => mret ()
  | Some f =>
      err ← try (CloseErr f);
      modify (fun r => mkReader (srcID r) (snaplen r) (view r) (oldest r) (rd_head r) (gpidx r)
                         None (fileSeq r) (offset r)) ;;
      of_res err
  end.

(** [SourceHeader]. *)
Definition SourceHeader {X} (src : Z) : M X GlobalHeader :=
  seqs ← listSegmentFiles src;
  match last seqs with
  | None => fail os_ErrNotExist
  | Some seq =>
      f ← OpenFile (segmentName src seq) O_plain;
      r ← try (ra ← FileReaderAt f; of_res (ra 0 24%nat));
      Close f ;;
      match r with
      | Err e => fail e
      | Ok gh => of_res (ParseGlobalHeader gh)
      end
  end.
