(* ===== verification/SpoolSpec.v ===== *)
(** * What a spool directory holds

    The abstract state of a spool (a chain of segments with their packets, how
    much of it is durable, and the sealed lines of the manifest) and what it
    says about every file of the directory, now and after a crash. *)

From S2P Require Import Prelude Bytes GoIO Pcapio Os Durable Dir Json Manifest.

(** ** The abstract spool *)

(** A segment: the packets [gs_recs] have the gpidx from [gs_start] on. *)
Record gseg : Type := GSeg {
  gs_seq : Z;
  gs_start : Z;
  gs_recs : list PcapRecord
}.

Record ghost : Type := Ghost {
  g_gone : list gseg;        (** sealed segments that were deleted; the manifest keeps their lines *)
  g_closed : list gseg;      (** sealed segments *)
  g_act : gseg;              (** the active segment *)
  g_sync : nat;              (** packets of the active segment that are durable *)
  g_absent : bool;           (** the active segment's name may not be durable yet *)
  g_raw : bool;              (** its header may not be durable yet *)
  g_pend : bool;             (** its manifest line may be on its way *)
  g_nomanifest : bool        (** the manifest's name may not be durable yet *)
}.

Definition g_segs (g : ghost) : list gseg := g_closed g ++ [g_act g].

Definition gs_end (x : gseg) : Z := gs_start x + len (gs_recs x).

(** All packets of the chain, in gpidx order. *)
Definition hist (g : ghost) : list PcapRecord := concat (gs_recs <$> g_segs g).

(** The gpidx below which packets are durable, and the next one to assign. *)
Definition durable_end (g : ghost) : Z := gs_start (g_act g) + Z.of_nat (g_sync g).
Definition next_gpidx (g : ghost) : Z := gs_end (g_act g).

Lemma act_in_segs g : g_act g ∈ g_segs g.
Proof. unfold g_segs. rewrite elem_of_app, list_elem_of_singleton. by right. Qed.

Lemma closed_in_segs g x : x ∈ g_closed g -> x ∈ g_segs g.
Proof. unfold g_segs. rewrite elem_of_app. by left. Qed.

(** The gpidx of the first packet of the chain. *)
Definition base (g : ghost) : Z := match g_segs g with x :: _ => gs_start x | [] => 0 end.

(** The first [j] packets of [x] are durable. *)
Definition durable_seg (g : ghost) (x : gseg) (j : nat) : Prop :=
  (j <= length (gs_recs x))%nat /\
  (x ∈ g_closed g \/ (x = g_act g /\ (j <= g_sync g)%nat /\ g_raw g = false /\ g_absent g = false)).

(** Durable packets stay in their segment. *)
Definition keeps_segs (g g' : ghost) : Prop :=
  forall x j, durable_seg g x j -> exists x', durable_seg g' x' j /\ gs_seq x' = gs_seq x /\
    gs_start x' = gs_start x /\ take j (gs_recs x') = take j (gs_recs x).

Lemma keeps_segs_refl g : keeps_segs g g.
Proof. intros x j Hx. by exists x. Qed.

Lemma keeps_segs_trans g1 g2 g3 : keeps_segs g1 g2 -> keeps_segs g2 g3 -> keeps_segs g1 g3.
Proof.
  intros H1 H2 x j Hx. destruct (H1 x j Hx) as (y & Hy & E1 & E2 & E3).
  destruct (H2 y j Hy) as (z & Hz & E4 & E5 & E6). exists z. split_and!; [done|congruence..].
Qed.

(** Sealed segments stay, in their order. *)
Definition seals (g g' : ghost) : Prop := g_gone g' = g_gone g /\ g_closed g `prefix_of` g_closed g'.

Lemma seals_refl g : seals g g.
Proof. done. Qed.

Lemma seals_trans g1 g2 g3 : seals g1 g2 -> seals g2 g3 -> seals g1 g3.
Proof. intros [E1 P1] [E2 P2]. split; [congruence|by etrans]. Qed.

(** From [g] to [g'] the packets [rs] were added and nothing durable was lost. *)
Definition evolves (rs : list PcapRecord) (g g' : ghost) : Prop :=
  hist g' = hist g ++ rs /\ durable_end g <= durable_end g' /\ base g' = base g /\
  next_gpidx g' = next_gpidx g + len rs /\ keeps_segs g g' /\ seals g g'.

Lemma evolves_refl g : evolves [] g g.
Proof.
  unfold evolves. rewrite app_nil_r. change (len (@nil PcapRecord)) with 0.
  split_and!; [done|lia|done|lia|apply keeps_segs_refl|done..].
Qed.

Lemma evolves_trans rs rs' g1 g2 g3 :
  evolves rs g1 g2 -> evolves rs' g2 g3 -> evolves (rs ++ rs') g1 g3.
Proof.
  intros (H1 & H2 & H3 & H4 & H5 & H6) (K1 & K2 & K3 & K4 & K5 & K6). unfold evolves. rewrite len_app.
  repeat split; [by rewrite K1, H1, app_assoc|lia|congruence|lia|by eapply keeps_segs_trans|by eapply seals_trans..].
Qed.

Section Spec.
Context (src snap link : Z).

Definition gs_name (x : gseg) : list byte := segmentName src (gs_seq x).

Definition gh_bytes : list byte := GlobalHeader_bytes (mkGlobalHeader snap link).
Definition gs_bytes (x : gseg) : list byte := gh_bytes ++ enc_records (gs_recs x).

(** Bytes of the file up to and including its first [j] packets. *)
Definition gs_len (x : gseg) (j : nat) : Z := GlobalHeaderLen + len (enc_records (take j (gs_recs x))).

(** The segment descriptor that covers the first [j] packets. *)
Definition gs_entry (is_sealed : bool) (j : nat) (x : gseg) : Segment :=
  mkSegment (gs_seq x) (gs_name x) (gs_start x) (gs_start x + Z.of_nat j) (gs_len x j) is_sealed.

Definition gs_line (x : gseg) : Segment := gs_entry true (length (gs_recs x)) x.

(** The segments that have a line in the manifest. *)
Definition g_old (g : ghost) : list gseg := g_gone g ++ g_closed g.

Definition man_lines (g : ghost) : list Segment := gs_line <$> g_old g.

(** What a name of the directory may hold. *)
Definition act_spec (g : ghost) (c : option (list byte)) : Prop :=
  match c with
  | None => g_absent g = true
  | Some b => b `prefix_of` gs_bytes (g_act g) /\
              (g_raw g = true \/ gs_len (g_act g) (g_sync g) <= len b)
  end.

Definition man_spec (g : ghost) (c : option (list byte)) : Prop :=
  match c with
  | None => g_nomanifest g = true /\ man_lines g = []
  | Some b => exists p, b = manifest_lines (man_lines g) ++ p /\
                (p = [] \/ (g_pend g = true /\ p `prefix_of` manifest_line (gs_line (g_act g))))
  end.

Definition is_segment (n : list byte) : bool :=
  HasPrefix n (str "src" ++ dec src ++ str "-") && bool_decide (is_Some (parseSegmentSeq n)).

Record spool_spec (g : ghost) (n : list byte) (c : option (list byte)) : Prop := {
  sp_closed : forall x, x ∈ g_closed g -> n = gs_name x -> c = Some (gs_bytes x);
  sp_act : n = gs_name (g_act g) -> act_spec g c;
  sp_other : is_segment n = true -> (forall x, x ∈ g_segs g -> n <> gs_name x) -> c = None;
  sp_man : n = manifestName -> man_spec g c
}.

(** [seg] advertises packets that are durable, at their place in the chain, or
    that were when their segment was deleted. *)
Definition advertised (g : ghost) (seg : Segment) : Prop :=
  exists x j, seg = gs_entry false j x /\
    ((x ∈ g_old g /\ (j <= length (gs_recs x))%nat) \/
     (x = g_act g /\ (j <= g_sync g)%nat /\ g_raw g = false /\ g_absent g = false)).

Definition head_spec (g : ghost) (c : option (list byte)) : Prop :=
  match c with
  | None => True
  | Some b => exists seg, advertised g seg /\ b `prefix_of` json_Marshal seg
  end.

(** ** Well-formed chains *)

Fixpoint contiguous (start : Z) (l : list gseg) : Prop :=
  match l with
  | [] => True
  | x :: t => gs_start x = start /\ contiguous (gs_end x) t
  end.

Definition gseg_ok (x : gseg) : Prop :=
  is_uint 64 (gs_seq x) /\ Forall (wf_record snap) (gs_recs x) /\ 0 <= gs_start x /\
  len (gs_bytes x) < 2 ^ 62 /\ gs_end x < 2 ^ 62.

Record ghost_ok (g : ghost) : Prop := {
  ok_seqs : StronglySorted Z.lt (gs_seq <$> g_segs g);
  ok_segs : Forall gseg_ok (g_segs g);
  ok_chain : exists start, contiguous start (g_segs g);
  ok_base : g_closed g <> [] \/ (gs_start (g_act g) = 0 /\ g_gone g = []);
  ok_sync : (g_sync g <= length (gs_recs (g_act g)))%nat;
  ok_raw : g_raw g = true -> gs_recs (g_act g) = [];
  ok_absent : g_absent g = true -> gs_recs (g_act g) = [];
  ok_pend : g_pend g = true ->
    g_sync g = length (gs_recs (g_act g)) /\ g_raw g = false /\ g_absent g = false /\ g_nomanifest g = false /\
    gs_recs (g_act g) <> [];
  ok_full : Forall (fun x => gs_recs x <> []) (g_closed g);
  ok_gone : Forall (fun x => gseg_ok x /\ gs_recs x <> []) (g_gone g);
  ok_gone_segs : forall x y, x ∈ g_gone g -> y ∈ g_segs g -> gs_seq x < gs_seq y /\ gs_end x <= gs_start y
}.

Definition spool_disk (g : ghost) (s : fs) : Prop :=
  ghost_ok g /\ dir_inv headName false (spool_spec g) (head_spec g) s.

Arguments gs_name : simpl never.
Arguments gs_line : simpl never.
Arguments gs_bytes : simpl never.
Arguments gh_bytes : simpl never.
Arguments gs_len : simpl never.
Arguments gs_entry : simpl never.
Arguments gs_end : simpl never.

Lemma seg_ok g x : ghost_ok g -> x ∈ g_segs g -> gseg_ok x.
Proof. intros Hg Hx. exact (proj1 (Forall_forall _ _) (ok_segs _ Hg) x Hx). Qed.

Lemma act_ok g : ghost_ok g -> gseg_ok (g_act g).
Proof. intros Hg. apply (seg_ok g); [done|apply act_in_segs]. Qed.

(** ** Names *)

Lemma HasPrefix_app p s : HasPrefix (p ++ s) p = true.
Proof. unfold HasPrefix. apply bool_decide_eq_true_2. apply take_app_length. Qed.

Lemma HasPrefix_trans s p q : HasPrefix s (p ++ q) = true -> HasPrefix s p = true.
Proof.
  unfold HasPrefix. intros H%bool_decide_eq_true_1. apply bool_decide_eq_true_2.
  apply (f_equal (take (length p))) in H. rewrite take_take, take_app_length in H.
  rewrite Nat.min_l in H; [done|]. rewrite length_app. lia.
Qed.

Lemma segmentName_is_segment q : is_uint 64 q -> is_segment (segmentName src q) = true.
Proof.
  intros Hq. unfold is_segment. rewrite parseSegmentSeq_segmentName by done.
  rewrite bool_decide_eq_true_2 by eauto. rewrite andb_true_r. unfold segmentName.
  replace (str "src" ++ dec src ++ str "-" ++ pad_dec 20 q ++ str ".pcap")
    with ((str "src" ++ dec src ++ str "-") ++ pad_dec 20 q ++ str ".pcap") by (by rewrite <-!app_assoc).
  apply HasPrefix_app.
Qed.

Lemma is_segment_src n : is_segment n = true -> HasPrefix n (str "src") = true.
Proof. unfold is_segment. intros [H _]%andb_true_iff. by eapply HasPrefix_trans. Qed.

Lemma segment_not_touched n : is_segment n = true -> ~ touched headName n.
Proof. intros H%is_segment_src [->| ->]; by vm_compute in H. Qed.

Lemma segment_not_manifest n : is_segment n = true -> n <> manifestName.
Proof. intros H%is_segment_src ->. by vm_compute in H. Qed.

Lemma manifest_not_touched : ~ touched headName manifestName.
Proof. intros [H|H]; by vm_compute in H. Qed.

Lemma gs_name_segment x : gseg_ok x -> is_segment (gs_name x) = true.
Proof. intros (Hq & _). by apply segmentName_is_segment. Qed.

Lemma gs_name_inj x y : gseg_ok x -> gseg_ok y -> gs_name x = gs_name y -> gs_seq x = gs_seq y.
Proof. intros (Hx & _) (Hy & _). by apply segmentName_inj. Qed.

(** What the two append-only kinds of files may hold, from their own clause. *)
Lemma gs_name_ne g x : ghost_ok g -> x ∈ g_closed g -> gs_name x <> gs_name (g_act g).
Proof.
  intros Hg Hx Heq. apply gs_name_inj in Heq; [|by apply (seg_ok g), closed_in_segs|by apply act_ok].
  pose proof (ok_seqs _ Hg) as Hs. unfold g_segs in Hs. rewrite fmap_app in Hs.
  apply StronglySorted_app in Hs as (Hlt & _).
  specialize (Hlt (gs_seq x) (gs_seq (g_act g))). cbn in Hlt.
  assert (gs_seq x < gs_seq (g_act g)); [|lia].
  apply Hlt; [by apply list_elem_of_fmap_2|by left].
Qed.

Lemma spec_act_intro g c : ghost_ok g -> act_spec g c -> spool_spec g (gs_name (g_act g)) c.
Proof.
  intros Hg Ha. split.
  - intros x Hx Heq. exfalso. by apply (gs_name_ne g x).
  - done.
  - intros _ Hne. exfalso. by apply (Hne (g_act g)); [apply act_in_segs|].
  - intros Heq. exfalso. revert Heq. by apply segment_not_manifest, gs_name_segment, act_ok.
Qed.

Lemma spec_man_intro g c : ghost_ok g -> man_spec g c -> spool_spec g manifestName c.
Proof.
  intros Hg Hm. split; [|intros Heq|intros Hs|done].
  - intros x Hx Heq. exfalso. symmetry in Heq. revert Heq.
    by apply segment_not_manifest, gs_name_segment, (seg_ok g), closed_in_segs.
  - exfalso. symmetry in Heq. revert Heq. by apply segment_not_manifest, gs_name_segment, act_ok.
  - exfalso. by apply segment_not_manifest in Hs.
Qed.

Lemma act_not_touched g : ghost_ok g -> ~ touched headName (gs_name (g_act g)).
Proof. intros Hg. by apply segment_not_touched, gs_name_segment, act_ok. Qed.

Lemma act_not_manifest g : ghost_ok g -> gs_name (g_act g) <> manifestName.
Proof. intros Hg. by apply segment_not_manifest, gs_name_segment, act_ok. Qed.

(** ** Steps of the abstract spool *)

Definition gs_append (r : PcapRecord) (x : gseg) : gseg :=
  GSeg (gs_seq x) (gs_start x) (gs_recs x ++ [r]).

Definition g_append (r : PcapRecord) (g : ghost) : ghost :=
  Ghost (g_gone g) (g_closed g) (gs_append r (g_act g)) (g_sync g) (g_absent g) (g_raw g) (g_pend g)
    (g_nomanifest g).

Definition g_synced (g : ghost) : ghost :=
  Ghost (g_gone g) (g_closed g) (g_act g) (length (gs_recs (g_act g))) (g_absent g) (g_raw g)
    (g_pend g) (g_nomanifest g).

Definition g_pending (g : ghost) : ghost :=
  Ghost (g_gone g) (g_closed g) (g_act g) (g_sync g) (g_absent g) (g_raw g) true (g_nomanifest g).

(** The active segment is sealed; segment [q] follows it. *)
Definition g_roll (q : Z) (g : ghost) : ghost :=
  Ghost (g_gone g) (g_closed g ++ [g_act g]) (GSeg q (gs_end (g_act g)) []) 0 true true false
    (g_nomanifest g).

Definition g_header (g : ghost) : ghost :=
  Ghost (g_gone g) (g_closed g) (g_act g) (g_sync g) (g_absent g) false (g_pend g) (g_nomanifest g).

Definition g_present (g : ghost) : ghost :=
  Ghost (g_gone g) (g_closed g) (g_act g) (g_sync g) false (g_raw g) (g_pend g) (g_nomanifest g).

(** A change of the active segment and of the flags. *)
Lemma spec_change g g' n c :
  g_closed g' = g_closed g -> gs_seq (g_act g') = gs_seq (g_act g) ->
  (n = gs_name (g_act g) -> act_spec g c -> act_spec g' c) ->
  (n = manifestName -> man_spec g c -> man_spec g' c) ->
  spool_spec g n c -> spool_spec g' n c.
Proof.
  intros Hc Hs Ha Hm [H1 H2 H3 H4]. split; rewrite ?Hc; [done|unfold gs_name in *; rewrite Hs; auto| |auto].
  intros Hn Hne. apply H3; [done|]. intros x Hx. unfold g_segs in *.
  apply elem_of_app in Hx as [Hx| ->%list_elem_of_singleton].
  - apply Hne. rewrite Hc, elem_of_app. by left.
  - unfold gs_name. rewrite <-Hs. apply (Hne (g_act g')), act_in_segs.
Qed.

Lemma gs_bytes_append r x : gs_bytes (gs_append r x) = gs_bytes x ++ PcapRecord_bytes r.
Proof. unfold gs_bytes, gs_append. cbn [gs_recs]. by rewrite enc_records_snoc, app_assoc. Qed.

Lemma gs_len_append r x j : (j <= length (gs_recs x))%nat -> gs_len (gs_append r x) j = gs_len x j.
Proof. intros Hj. unfold gs_len, gs_append. cbn [gs_recs]. by rewrite take_app_le. Qed.

Lemma gs_entry_append b r x j :
  (j <= length (gs_recs x))%nat -> gs_entry b j (gs_append r x) = gs_entry b j x.
Proof. intros Hj. unfold gs_entry. by rewrite gs_len_append. Qed.

Lemma gs_len_full x : gs_len x (length (gs_recs x)) = len (gs_bytes x).
Proof. unfold gs_len, gs_bytes. by rewrite firstn_all, len_app. Qed.

Lemma gs_len_le x j k : (j <= k)%nat -> gs_len x j <= gs_len x k.
Proof.
  intros Hjk. unfold gs_len. pose proof (enc_records_prefix_mono (gs_recs x) j k Hjk) as Hp.
  apply prefix_length in Hp. unfold len. lia.
Qed.

Lemma gs_len_nonneg x j : GlobalHeaderLen <= gs_len x j.
Proof. unfold gs_len. pose proof (len_nonneg (enc_records (take j (gs_recs x)))). lia. Qed.

Lemma act_spec_append r g c :
  (g_sync g <= length (gs_recs (g_act g)))%nat -> act_spec g c -> act_spec (g_append r g) c.
Proof.
  intros Hk. destruct c as [b|]; [|done]. intros [Hp Hl]. unfold act_spec.
  change (g_act (g_append r g)) with (gs_append r (g_act g)). rewrite gs_bytes_append. split.
  - by apply prefix_app_r.
  - cbn [g_raw g_sync g_append]. by rewrite gs_len_append.
Qed.

Lemma man_spec_append r g c : g_pend g = false -> man_spec g c -> man_spec (g_append r g) c.
Proof.
  intros Hp. destruct c as [b|]; cbn; [|done]. intros (p & -> & [->|[? _]]); [|congruence].
  exists []. auto.
Qed.

Lemma spec_append r g n c :
  ghost_ok g -> g_pend g = false -> spool_spec g n c -> spool_spec (g_append r g) n c.
Proof.
  intros Hok Hp. apply spec_change; [done..| |].
  - intros _. apply act_spec_append, Hok.
  - intros _. by apply man_spec_append.
Qed.

Lemma advertised_append r g seg : ghost_ok g -> advertised g seg -> advertised (g_append r g) seg.
Proof.
  intros Hok (x & j & -> & [Hx|(-> & Hj & ? & ?)]); [exists x, j; auto|].
  pose proof (ok_sync _ Hok). exists (gs_append r (g_act g)), j.
  rewrite gs_entry_append by lia. split; [done|]. by right.
Qed.

Lemma head_spec_mono g g' c :
  (forall seg, advertised g seg -> advertised g' seg) -> head_spec g c -> head_spec g' c.
Proof. intros H. destruct c as [b|]; cbn; [|done]. intros (seg & Ha & Hp). eauto. Qed.

(** Nothing but the active segment depends on what is synced. *)
Lemma spec_synced g n c : n <> gs_name (g_act g) -> spool_spec g n c -> spool_spec (g_synced g) n c.
Proof. intros Hn. by apply spec_change. Qed.

Lemma advertised_synced g seg : ghost_ok g -> advertised g seg -> advertised (g_synced g) seg.
Proof.
  intros Hok (x & j & -> & [Hx|(-> & Hj & ? & ?)]); [exists x, j; auto|].
  pose proof (ok_sync _ Hok). exists (g_act g), j. split; [done|]. right. split_and!; try done. cbn [g_synced g_sync g_act]. lia.
Qed.

Lemma spec_pending g n c : spool_spec g n c -> spool_spec (g_pending g) n c.
Proof.
  apply spec_change; [done..|]. intros _. destruct c as [b|]; cbn; [|done].
  intros (p & -> & [->|[? ?]]); exists p || exists []; auto.
Qed.

Lemma advertised_pending g seg : advertised g seg -> advertised (g_pending g) seg.
Proof. intros (x & j & -> & H). by exists x, j. Qed.

Lemma act_spec_whole g c :
  g_sync g = length (gs_recs (g_act g)) -> g_raw g = false -> g_absent g = false ->
  act_spec g c -> c = Some (gs_bytes (g_act g)).
Proof.
  intros Hs Hr Ha. destruct c as [b|]; cbn; [|congruence]. intros [Hp [?|Hl]]; [congruence|].
  rewrite Hs, gs_len_full in Hl. f_equal. apply prefix_length_eq; [done|]. unfold len in Hl. lia.
Qed.

Lemma spec_roll q g n c :
  g_sync g = length (gs_recs (g_act g)) -> g_raw g = false -> g_absent g = false ->
  is_uint 64 q -> (forall x, x ∈ g_segs g -> gs_name x <> segmentName src q) ->
  n <> manifestName -> spool_spec g n c -> spool_spec (g_roll q g) n c.
Proof.
  intros Hs Hr Ha Hq Hfresh Hn [H1 H2 H3 H4]. split; cbn [g_roll g_closed g_act g_segs].
  - intros x [Hx| ->%list_elem_of_singleton]%elem_of_app Hnx; [by apply H1|].
    apply act_spec_whole; auto.
  - unfold gs_name at 1. cbn. intros ->. rewrite H3; [done|by apply segmentName_is_segment|].
    intros x Hx Heq. by apply (Hfresh x).
  - intros Hseg Hne. apply H3; [done|]. intros x Hx. apply Hne.
    change (g_segs (g_roll q g)) with (g_segs g ++ [GSeg q (gs_end (g_act g)) []]).
    rewrite elem_of_app. by left.
  - done.
Qed.

Lemma advertised_roll q g seg : ghost_ok g -> advertised g seg -> advertised (g_roll q g) seg.
Proof.
  intros Hok (x & j & -> & H). pose proof (ok_sync _ Hok). exists x, j. split; [done|]. left.
  unfold g_old in *. cbn. rewrite !elem_of_app, list_elem_of_singleton in *.
  destruct H as [[Hx ?]|(-> & ? & _)]; [tauto|split; [tauto|lia]].
Qed.

Lemma spec_header g n c : n <> gs_name (g_act g) -> spool_spec g n c -> spool_spec (g_header g) n c.
Proof. intros Hn. by apply spec_change. Qed.

Lemma advertised_header g seg : advertised g seg -> advertised (g_header g) seg.
Proof. intros (x & j & -> & [?|(? & ? & ? & ?)]); exists x, j; (split; [done|]); [by left|by right]. Qed.

Lemma spec_present g n c :
  (n = gs_name (g_act g) -> c <> None) -> spool_spec g n c -> spool_spec (g_present g) n c.
Proof. intros Hn. apply spec_change; [done..| |done]. by destruct c as [b|]; [|intros []%Hn]. Qed.

Lemma advertised_present g seg : advertised g seg -> advertised (g_present g) seg.
Proof. intros (x & j & -> & [?|(? & ? & ? & ?)]); exists x, j; (split; [done|]); [by left|by right]. Qed.

Lemma evolves_append r g : evolves [r] g (g_append r g).
Proof.
  unfold evolves, hist, durable_end, base, next_gpidx, gs_end.
  change (g_segs (g_append r g)) with (g_closed g ++ [gs_append r (g_act g)]). unfold g_segs.
  split_and!.
  - rewrite !fmap_app, !concat_app. cbn. by rewrite !app_nil_r, <-app_assoc.
  - cbn. lia.
  - by destruct (g_closed g).
  - unfold gs_append. cbn. rewrite len_app. lia.
  - intros x j (Hj & [Hx|(-> & Hk & Hr & Ha)]).
    + exists x. split_and!; try done. split; [done|by left].
    + exists (gs_append r (g_act g)). unfold gs_append. cbn. split_and!; [|done..|by rewrite take_app_le].
      split; [cbn; rewrite length_app; lia|]. right. by split_and!.
  - done.
Qed.

Lemma evolves_synced g : ghost_ok g -> evolves [] g (g_synced g).
Proof.
  intros Hg. pose proof (ok_sync _ Hg). unfold evolves, durable_end. rewrite app_nil_r.
  change (len (@nil PcapRecord)) with 0. split_and!; [done|cbn; lia|done|unfold next_gpidx; cbn; lia| |done..].
  intros x j (Hj & [Hx|(-> & Hk & Hr & Ha)]); exists x || exists (g_act g); (split_and!; [|done..]);
    (split; [done|]); [by left|right]. by split_and!.
Qed.

Lemma evolves_roll q g :
  g_sync g = length (gs_recs (g_act g)) -> evolves [] g (g_roll q g).
Proof.
  intros Hs. unfold evolves, hist, durable_end, base, next_gpidx, gs_end.
  change (g_segs (g_roll q g)) with (g_segs g ++ [GSeg q (gs_end (g_act g)) []]).
  rewrite app_nil_r. change (len (@nil PcapRecord)) with 0. split_and!.
  - rewrite fmap_app, concat_app. cbn. by rewrite app_nil_r.
  - cbn. rewrite Hs. unfold gs_end, len. lia.
  - unfold g_segs. by destruct (g_closed g).
  - cbn. unfold gs_end. change (len (@nil PcapRecord)) with 0. lia.
  - intros x j (Hj & Hx). exists x. split_and!; try done. split; [done|left]. cbn.
    rewrite elem_of_app, list_elem_of_singleton. destruct Hx as [Hx|(-> & _)]; [by left|by right].
  - split; [done|]. by apply prefix_app_r.
Qed.

Lemma evolves_flags g g' :
  g_gone g' = g_gone g -> g_closed g' = g_closed g -> g_act g' = g_act g -> g_sync g' = g_sync g ->
  (g_raw g = false -> g_raw g' = false) -> (g_absent g = false -> g_absent g' = false) -> evolves [] g g'.
Proof.
  intros Hgo Hs Ha Hk Hr Hab. unfold evolves, seals, hist, durable_end, base, next_gpidx, g_segs. rewrite Hs, Ha, Hk, app_nil_r.
  change (len (@nil PcapRecord)) with 0. split_and!; [done|lia|done|lia| |done..].
  intros x j (Hj & Hx). exists x. split_and!; try done. split; [done|]. rewrite Hs, Ha, Hk. naive_solver.
Qed.

(** ** Steps keep the chain well-formed *)

Lemma contiguous_app start l k :
  contiguous start (l ++ k) <-> contiguous start l /\ contiguous (foldl (fun _ => gs_end) start l) k.
Proof.
  revert start; induction l as [|x l IH]; intros start; cbn; [tauto|]. rewrite IH. tauto.
Qed.

Lemma ghost_ok_append r g :
  ghost_ok g -> wf_record snap r -> g_raw g = false -> g_absent g = false -> g_pend g = false ->
  len (gs_bytes (g_act g)) + PcapRecord_Size r < 2 ^ 62 -> gs_end (g_act g) + 1 < 2 ^ 62 ->
  ghost_ok (g_append r g).
Proof.
  intros [Hs Hg [st Hc] Hb Hk Hr Ha Hp Hne Hgo Hgs] Hwr Hraw Habs Hpend Hlen Hend.
  assert (g_segs (g_append r g) = g_closed g ++ [gs_append r (g_act g)]) as Hsegs by done.
  split; try done; rewrite ?Hsegs.
  - unfold g_segs in Hs. rewrite fmap_app in *. exact Hs.
  - unfold g_segs in Hg. apply Forall_app in Hg as [Hg1 Hg2]. apply Forall_app. split; [done|].
    apply Forall_singleton. apply Forall_singleton in Hg2 as (Hq & Hrs & H0 & Hl & He).
    unfold gseg_ok. rewrite gs_bytes_append, len_app, len_PcapRecord_bytes.
    split_and!; [done|apply Forall_app; split; [done|by apply Forall_singleton]|done|lia|].
    unfold gs_end, gs_append in *. cbn. rewrite len_app. change (len [r]) with 1. lia.
  - exists st. unfold g_segs in Hc. apply contiguous_app in Hc as [Hc1 [Hc2 _]].
    apply contiguous_app. done.
  - cbn. rewrite length_app. lia.
  - cbn. congruence.
  - cbn. congruence.
  - cbn. congruence.
  - intros x y Hx' Hy. apply elem_of_app in Hy as [Hy| ->%list_elem_of_singleton].
    + apply Hgs; [done|]. by apply closed_in_segs.
    + apply (Hgs x (g_act g)); [done|]. apply act_in_segs.
Qed.

Lemma ghost_ok_synced g : ghost_ok g -> ghost_ok (g_synced g).
Proof. intros [Hs Hg Hc Hb Hk Hr Ha Hp Hne Hgo Hgs]. split; try done. intros (? & ? & ? & ? & ?)%Hp. by split_and!. Qed.

Lemma ghost_ok_pending g :
  ghost_ok g -> g_sync g = length (gs_recs (g_act g)) -> g_raw g = false -> g_absent g = false ->
  g_nomanifest g = false -> gs_recs (g_act g) <> [] -> ghost_ok (g_pending g).
Proof. intros [Hs Hg Hc Hb Hk Hr Ha Hp Hne Hgo Hgs] ?????. by split. Qed.

Lemma ghost_ok_roll q g :
  ghost_ok g -> is_uint 64 q -> Forall (fun x => gs_seq x < q) (g_segs g) -> gs_recs (g_act g) <> [] ->
  ghost_ok (g_roll q g).
Proof.
  intros [Hs Hg [st Hc] Hb Hk Hr Ha Hp Hne Hgo Hgs] Hq Hlt Hnonempty.
  assert (g_segs (g_roll q g) = g_segs g ++ [GSeg q (gs_end (g_act g)) []]) as Hsegs by done.
  assert (gseg_ok (g_act g)) as (_ & _ & H0 & _ & He).
  { exact (proj1 (Forall_forall _ _) Hg _ (act_in_segs g)). }
  pose proof (len_nonneg (gs_recs (g_act g))) as Hnn.
  split; try done; rewrite ?Hsegs.
  - rewrite fmap_app. apply StronglySorted_app_2; [|done|by repeat constructor].
    intros a b Ha' Hb'. apply list_elem_of_singleton in Hb' as ->.
    apply list_elem_of_fmap in Ha' as (x & -> & Hx). exact (proj1 (Forall_forall _ _) Hlt x Hx).
  - apply Forall_app. split; [done|]. apply Forall_singleton. unfold gseg_ok, gs_end in *. cbn.
    change (len (@nil PcapRecord)) with 0. split_and!; [done|constructor|lia|done|lia].
  - exists st. apply contiguous_app. split; [done|]. cbn. split; [|done].
    unfold g_segs. by rewrite foldl_app.
  - left. cbn. by destruct (g_closed g).
  - cbn. apply Forall_app. split; [done|by apply Forall_singleton].
  - intros x y Hx' Hy. apply elem_of_app in Hy as [Hy| ->%list_elem_of_singleton]; [by apply Hgs|].
    pose proof (act_in_segs g) as Hin.
    specialize (Hgs x _ Hx' Hin). pose proof (proj1 (Forall_forall _ _) Hlt _ Hin). unfold gs_end in *. cbn in *. lia.
Qed.

Lemma ghost_ok_header g : ghost_ok g -> ghost_ok (g_header g).
Proof. intros [Hs Hg Hc Hb Hk Hr Ha Hp Hne Hgo Hgs]. split; try done. intros (? & ? & ? & ? & ?)%Hp. by split_and!. Qed.

Lemma ghost_ok_present g : ghost_ok g -> ghost_ok (g_present g).
Proof. intros [Hs Hg Hc Hb Hk Hr Ha Hp Hne Hgo Hgs]. split; try done. intros (? & ? & ? & ? & ?)%Hp. by split_and!. Qed.
End Spec.

#[global] Arguments gs_name : simpl never.
#[global] Arguments gs_line : simpl never.
#[global] Arguments gs_bytes : simpl never.
#[global] Arguments gh_bytes : simpl never.
#[global] Arguments gs_len : simpl never.
#[global] Arguments gs_entry : simpl never.
#[global] Arguments gs_end : simpl never.
#[global] Arguments gs_append : simpl never.
