(* ===== verification/SpoolProof.v ===== *)
(** * The writer keeps the spool (internal/spool/spool.go)

    The invariant of a running [Writer] and what its operations guarantee,
    whatever fails and wherever they are cut off. *)

From S2P Require Import Prelude Bytes GoIO Pcapio Os Durable Dir Json Manifest Recover Spool SpoolSpec.

Section Proof.
Context (c : Config).

Abbreviation src := (SrcID c).
Abbreviation snap := (Snaplen c).
Abbreviation link := (LinkType c).
Abbreviation gname := (gs_name src).
Abbreviation gbytes := (gs_bytes snap link).
Abbreviation disk := (spool_disk src snap link).
Abbreviation lines := (man_lines src).

(** The gpidx of the first packet of [l]. *)
Definition first_start (l : list gseg) : Z := match l with x :: _ => gs_start x | [] => 0 end.

(** The writer knows the sealed segments but the [k] oldest, which retention dropped. *)
Definition in_hand (g : ghost) (w : Writer) : Prop :=
  exists k, (k <= length (g_closed g))%nat /\
    sealed w = by_seq_map (gs_line src <$> drop k (g_closed g)) ∅ /\
    oldestGpidx w = first_start (drop k (g_segs g)).

Lemma in_hand_act g g' w w' :
  in_hand g w -> g_closed g' = g_closed g -> gs_start (g_act g') = gs_start (g_act g) ->
  sealed w' = sealed w -> oldestGpidx w' = oldestGpidx w -> in_hand g' w'.
Proof.
  intros (k & Hk & Hs & Ho) Hc Ha Es Eo. exists k. unfold g_segs in *. rewrite Hc, Es, Eo.
  split_and!; [done|done|]. rewrite Ho, !drop_app_le by done. destruct (drop k (g_closed g)); cbn; congruence.
Qed.

Lemma in_hand_roll q g w w' :
  in_hand g w -> sealed w' = <[gs_seq (g_act g) := gs_line src (g_act g)]> (sealed w) ->
  oldestGpidx w' = oldestGpidx w -> in_hand (g_roll q g) w'.
Proof.
  intros (k & Hk & Hs & Ho) Es Eo. exists k. cbn [g_roll g_closed].
  change (g_segs (g_roll q g)) with (g_segs g ++ [GSeg q (gs_end (g_act g)) []]).
  assert (k < length (g_segs g))%nat as Hl by (unfold g_segs; rewrite length_app; cbn; lia).
  rewrite !drop_app_le by (rewrite ?length_app; lia). rewrite Es, Eo, Hs, Ho. split_and!.
  - rewrite length_app. lia.
  - rewrite fmap_app. unfold by_seq_map. by rewrite foldl_app.
  - destruct (drop k (g_segs g)) as [|x l] eqn:E; [|done].
    apply (f_equal length) in E. rewrite length_drop in E. cbn in E. lia.
Qed.

(** The writer's fields and descriptors agree with the abstract spool. *)
Record wcore (g : ghost) (w : Writer) (s : fs) : Prop := {
  wi_disk : disk g s;
  wi_flags : g_absent g = false /\ g_raw g = false /\ g_pend g = false /\ g_nomanifest g = false;
  wi_cfg : cfg w = c;
  wi_file : exists f d i, file w = Some f /\ open_file s (gname (g_act g)) f d i /\
    fd_append d = false /\ fd_pos d = length (i_data i) /\ i_data i = gbytes (g_act g) /\
    bound_or s (gname (g_act g)) (fd_ino d) False;
  wi_man : exists f d i, manifest w = Some f /\ open_file s manifestName f d i /\
    fd_append d = true /\ i_data i = manifest_lines (lines g) /\
    bound_or s manifestName (fd_ino d) False;
  wi_active : seg_Seq (active w) = gs_seq (g_act g) /\ seg_File (active w) = gname (g_act g) /\
    seg_StartGpidx (active w) = gs_start (g_act g);
  wi_head : head w = next_gpidx g;
  wi_off : fileOffset w = len (gbytes (g_act g)) /\ durableLen w = gs_len (g_act g) (g_sync g) /\
    durableEnd w = durable_end g /\ pendingBytes w = fileOffset w - durableLen w;
  wi_sealed : in_hand g w
}.

(** The next segment's number is above those in use. *)
Definition next_ok (g : ghost) (q : Z) : Prop :=
  is_uint 64 q /\ Forall (fun x => gs_seq x < q) (g_segs g).

Definition winv (g : ghost) (w : Writer) (s : fs) : Prop := wcore g w s /\ next_ok g (nextSeq w).

(** Descriptors and bindings that a step leaves alone. *)
Definition kept (s s' : fs) (n : list byte) : Prop :=
  (forall fd d i, open_file s n fd d i -> open_file s' n fd d i) /\
  (forall ino may, bound_or s n ino may -> bound_or s' n ino may) /\
  ((forall d, d ∈ versions s -> d !! n = None) -> forall d, d ∈ versions s' -> d !! n = None).

Lemma kept_refl s n : kept s s n.
Proof. done. Qed.

Lemma frame_nowhere (T : list byte -> Prop) s s' n :
  frame T s s' -> ~ T n -> (forall d, d ∈ versions s -> d !! n = None) ->
  forall d, d ∈ versions s' -> d !! n = None.
Proof.
  intros Hfr Hn Hs d' Hd'. destruct (fr_versions _ _ _ Hfr d' Hd') as (d & Hd & Heq).
  rewrite Heq by done. by apply Hs.
Qed.

Lemma kept_atomically g s o s' b n :
  disk g s -> atomically headName b false (head_spec src g) s o s' -> ~ touched headName n -> kept s s' n.
Proof.
  intros [Hg Hd] Ha Hn. split_and!.
  - intros. by eapply (open_atomically headName false Hd).
  - intros. eapply (bound_frame (touched headName)); [|done..]. apply Ha.
  - apply (frame_nowhere (touched headName)); [apply Ha|done].
Qed.

Lemma wp_writeHead {X} F g seg (x : X) s :
  disk g s -> advertised src g seg ->
  wp F (writeHead seg) (fun o x' s' => x' = x /\ disk g s' /\ allowed F o /\
    (forall n, ~ touched headName n -> kept s s' n) /\
    (o = Ret () -> content s' headName = Some (json_Marshal seg))) x s.
Proof.
  intros Hd Hadv. pose proof Hd as [Hg Hinv]. unfold writeHead.
  eapply wp_mono; [apply wp_WriteFileAtomic|].
  - apply Hinv.
  - split; [cbn; eauto|]. intros _ b b' Hp (seg' & Ha & Hb). exists seg'. split; [done|]. by etrans.
  - intros o x' s' (-> & Ha & Hall). split_and!; [done|split; [done|]|done|..].
    + by eapply dir_atomically.
    + intros n Hn. by eapply kept_atomically.
    + intros ->. by apply Ha.
Qed.

(** What an operation leaves behind when it does not return, for a reason [why]:
    a spool that holds the packets it held, perhaps with those of [rs] that it was
    adding. *)
Definition broken (why : Prop) (rs : list PcapRecord) (g : ghost) (s : fs) : Prop :=
  why /\ exists g', disk g' s /\ (evolves [] g g' \/ evolves rs g g').

Lemma broken_same (why : Prop) rs g s : why -> disk g s -> broken why rs g s.
Proof. intros Hy H. split; [done|]. exists g. split; [done|left; apply evolves_refl]. Qed.

Lemma broken_trans why rs g g' s :
  evolves [] g g' -> broken why rs g' s -> broken why rs g s.
Proof.
  intros He (Hy & g2 & Hd & [H|H]); (split; [done|]); exists g2; (split; [done|]).
  - left. apply (evolves_trans [] [] g g' g2 He H).
  - right. apply (evolves_trans [] rs g g' g2 He H).
Qed.

(** The parts of the invariant a step on other files keeps. *)
Lemma wcore_kept g w s s' :
  wcore g w s -> disk g s' -> (forall n, ~ touched headName n -> kept s s' n) -> wcore g w s'.
Proof.
  intros [Hd Hfl Hc Hf Hm Ha Hh Ho Hse] Hd' Hk.
  assert (~ touched headName (gname (g_act g))) as Hact by (eapply act_not_touched; apply Hd).
  destruct (Hk _ Hact) as (Hk1 & Hk2 & _). destruct (Hk _ manifest_not_touched) as (Hm1 & Hm2 & _).
  destruct Hf as (f & d & i & ? & ? & ? & ? & ? & ?). destruct Hm as (mf & md & mi & ? & ? & ? & ? & ?).
  split; try done.
  - exists f, d, i. split_and!; auto.
  - exists mf, md, mi. split_and!; auto.
Qed.

(** [publishHead], from a state that holds up to the pointer. *)
Lemma wp_publishHead F g w s :
  wcore g w s ->
  wp F publishHead (fun o w' s' =>
    match o with
    | Ret _ => wcore g w' s' /\ nextSeq w' = nextSeq w /\ oldestGpidx w' = oldestGpidx w
    | _ => broken (allowed F o) [] g s'
    end) w s.
Proof.
  intros Hw. pose proof Hw as [Hd Hfl _ _ _ Ha _ Ho _]. unfold publishHead. apply wp_bind, wp_get.
  cbn [bind_post]. destruct Ha as (-> & -> & ->). destruct Ho as (_ & -> & -> & _).
  destruct Hfl as (Habs & Hraw & _).
  eapply wp_mono; [apply (wp_writeHead F g (gs_entry src false (g_sync g) (g_act g)) w s Hd)|].
  - exists (g_act g), (g_sync g). split; [done|]. right. by split_and!.
  - intros o w' s' (-> & Hd' & Hall & Hk & _). destruct o; [split_and!; [by eapply wcore_kept|done|done]|by apply broken_same..].
Qed.

(** [sync]: everything written becomes durable and is advertised. *)
Lemma wp_sync F g w s :
  wcore g w s ->
  wp F sync (fun o w' s' =>
    match o with
    | Ret _ => wcore (g_synced g) w' s' /\ nextSeq w' = nextSeq w
    | _ => broken (allowed F o) [] g s'
    end) w s.
Proof.
  intros Hw. pose proof Hw as [Hd Hfl Hc Hf Hm Ha Hh Ho Hse]. unfold sync. apply wp_bind, wp_get.
  cbn [bind_post]. destruct Hf as (f & d & i & Hfile & Hof & Happ & Hpos & Hdat & Hb).
  unfold on_file at 1. rewrite Hfile. destruct Hd as [Hg Hinv].
  io_step ltac:(by apply broken_same). rewrite (open_file_with_fd _ _ _ _ _ _ Hof). cbn [bind_post].
  set (s1 := set_inodes <[fd_ino d := inode_sync i]> s).
  assert (disk (g_synced g) s1) as Hd1.
  { split; [by apply ghost_ok_synced|].
    eapply (dir_edit_inode headName false Hinv); [done|by eapply act_not_touched|apply inode_ok_sync|..].
    - intros m b Hne _. by apply spec_synced.
    - intros b. apply head_spec_mono. intros. by eapply advertised_synced.
    - intros e He. left. by destruct (Hb e He) as [?|[_ []]].
    - apply survives_settled; [done|]. cbn [inode_sync i_data]. rewrite Hdat.
      apply (spec_act_intro _ _ _ (g_synced g)); [by apply ghost_ok_synced|]. split; [done|].
      right. cbn. by rewrite (gs_len_full snap link). }
  apply wp_bind, wp_Now. intros t. cbn [bind_post]. apply wp_bind, wp_modify. cbn [bind_post].
  eapply wp_mono; [apply (wp_publishHead F (g_synced g))|].
  - destruct Hm as (mf & md & mi & Hmf & Hom & Hma & Hmd & Hmb).
    destruct Ho as (Hoff & _). pose proof (act_not_touched src snap link _ Hg) as Hnt.
    split; cbn; try done.
    + exists f, d, (inode_sync i). split_and!; try done. by eapply open_edit_inode.
    + exists mf, md, mi. split_and!; try done.
      eapply (open_edit_inode_other headName false Hinv); try done.
    + rewrite (gs_len_full snap link), Hoff. split_and!; try done.
      lia.
  - intros o w' s' H. destruct o; [by destruct H as (? & ? & _)|..];
      (eapply (broken_trans _ []); [by apply (evolves_synced snap link)|done]).
Qed.

(** ** Appending a packet *)

(** What is synced of an open file is at least what its clause requires. *)
Lemma floor_act g i :
  survives i (fun b => act_spec snap link g (Some b)) -> inode_ok i -> g_raw g = false ->
  gs_len (g_act g) (g_sync g) <= Z.of_nat (i_floor i).
Proof.
  intros Hs Hi Hr. pose proof (Hi (i_data i) ltac:(left)) as Hl.
  destruct (Hs (take (i_floor i) (i_data i)) (i_data i)) as [_ [?|Hg]].
  - left.
  - apply prefix_take.
  - rewrite length_take. lia.
  - congruence.
  - unfold len in Hg. rewrite length_take in Hg. lia.
Qed.

Lemma spec_act_survives g i :
  survives i (fun b => spool_spec src snap link g (gname (g_act g)) (Some b)) ->
  survives i (fun b => act_spec snap link g (Some b)).
Proof. intros H. eapply survives_mono; [exact H|]. intros b Hb. by apply (sp_act _ _ _ _ _ _ Hb). Qed.

(** The record as it is written. *)
Definition stored (r : PcapRecord) : PcapRecord :=
  if OrigLen r =? 0 then mkPcapRecord (TsSec r) (TsUsec r) (u32 (len (Data r))) (Data r) else r.

(** There is room for the packet in the counters. *)
Definition fits (g : ghost) (r : PcapRecord) : Prop :=
  wf_record snap (stored r) /\ len (gbytes (g_act g)) + PcapRecord_Size (stored r) < 2 ^ 62 /\
  gs_end (g_act g) + 1 < 2 ^ 62.

(** A write of a part of the record leaves an acceptable file. *)
Lemma append_part g s f d i r n :
  disk g s -> g_absent g = false -> g_raw g = false -> g_pend g = false -> fits g r ->
  open_file s (gname (g_act g)) f d i -> fd_append d = false -> fd_pos d = length (i_data i) ->
  i_data i = gbytes (g_act g) -> bound_or s (gname (g_act g)) (fd_ino d) False ->
  disk (g_append (stored r) g) (write_fs f d i (take n (PcapRecord_bytes (stored r))) s).
Proof.
  intros [Hg Hinv] Ha Hr Hp (Hw & Hl & He) Hof Happ Hpos Hdat Hb.
  assert (ghost_ok snap link (g_append (stored r) g)) as Hg' by (by apply ghost_ok_append).
  pose proof (act_not_touched src snap link _ Hg) as Hnt.
  destruct (open_file_ok headName false Hinv _ _ _ _ Hof) as [Hio _].
  pose proof (open_survives headName false Hinv _ _ _ _ Hof Hnt) as Hsv.
  split; [done|]. unfold write_fs. rewrite Happ, Hpos.
  eapply (dir_edit_file headName false Hinv); [done..| | | | |].
  - rewrite overwrite_end. apply inode_ok_set; [done..|].
    etrans; [apply (Hio (i_data i)); left|]. rewrite length_app. lia.
  - intros m b _ _. by apply spec_append.
  - intros b. apply head_spec_mono. intros. by eapply advertised_append.
  - intros e Hin. left. by destruct (Hb e Hin) as [?|[_ []]].
  - rewrite overwrite_end, Hdat. intros b v [->|Hv]%elem_of_cons Hpre Hfl.
    + apply (spec_act_intro src snap link (g_append (stored r) g)); [done|]. split.
      * change (g_act (g_append (stored r) g)) with (gs_append (stored r) (g_act g)).
        rewrite gs_bytes_append. etrans; [exact Hpre|]. cbn. apply prefix_app, prefix_take.
      * right. cbn. rewrite gs_len_append by apply Hg.
        pose proof (floor_act g i (spec_act_survives g i Hsv) Hio Hr). cbn in Hfl. unfold len. lia.
    + apply spec_append; [done..|]. cbn in Hv, Hfl. by apply (Hsv b v).
Qed.

(** ** Sealing the active segment *)

(** The chain ends in a segment that is about to be created. *)
Record opening (g : ghost) (w : Writer) (s : fs) : Prop := {
  op_disk : disk g s;
  op_flags : g_absent g = true /\ g_raw g = true /\ g_pend g = false /\ g_nomanifest g = false;
  op_empty : gs_recs (g_act g) = [];
  op_cfg : cfg w = c;
  op_man : exists f d i, manifest w = Some f /\ open_file s manifestName f d i /\
    fd_append d = true /\ i_data i = manifest_lines (lines g) /\
    bound_or s manifestName (fd_ino d) False /\
    (forall fo, file w = Some fo -> fo <> f /\ (fo < fs_next s)%nat);
  op_sealed : in_hand g w;
  op_head : head w = gs_start (g_act g);
  op_nowhere : forall d, d ∈ versions s -> d !! gname (g_act g) = None
}.

Lemma next_ok_name g q x :
  ghost_ok snap link g -> next_ok g q -> x ∈ g_segs g -> gname x <> segmentName src q.
Proof.
  intros Hg [Hq Hlt] Hx Heq. pose proof (proj1 (Forall_forall _ _) Hlt x Hx) as Hl. cbn in Hl.
  apply segmentName_inj in Heq; [lia| |done]. by apply (seg_ok snap link g).
Qed.

(** No file of the next number exists. *)
Lemma next_nowhere g q s :
  disk g s -> next_ok g q -> forall d, d ∈ versions s -> d !! segmentName src q = None.
Proof.
  intros [Hg Hinv] Hn d Hd. pose proof (segmentName_is_segment src q (proj1 Hn)) as Hseg.
  pose proof (di_holds _ _ _ _ _ Hinv (segmentName src q) (segment_not_touched src _ Hseg) d Hd) as H.
  destruct (d !! segmentName src q) as [ino|]; [|done]. exfalso. destruct H as (i & Hi & Hs).
  apply (wf_inodes s (dir_wf _ _ Hinv)) in Hi as [_ Hi]. apply survives_now in Hs; [|done].
  pose proof (sp_other _ _ _ _ _ _ Hs Hseg). enough (Some (i_data i) = None) by done. apply H.
  intros x Hx Heq. by eapply next_ok_name.
Qed.

Lemma man_spec_survives g i :
  survives i (fun b => spool_spec src snap link g manifestName (Some b)) ->
  survives i (fun b => man_spec src g (Some b)).
Proof. intros H. eapply survives_mono; [exact H|]. intros b Hb. by apply (sp_man _ _ _ _ _ _ Hb). Qed.

Lemma floor_man g i :
  survives i (fun b => man_spec src g (Some b)) -> inode_ok i ->
  (length (manifest_lines (lines g)) <= i_floor i)%nat.
Proof.
  intros Hs Hi. pose proof (Hi (i_data i) ltac:(left)) as Hl.
  destruct (Hs (take (i_floor i) (i_data i)) (i_data i)) as (p & Hp & _).
  - left.
  - apply prefix_take.
  - rewrite length_take. lia.
  - apply (f_equal length) in Hp. rewrite length_take, length_app in Hp. lia.
Qed.

(** A part of the new line in the manifest. *)
Lemma seal_part g s f d i n :
  disk g s -> g_absent g = false -> g_raw g = false -> g_nomanifest g = false -> g_pend g = false ->
  g_sync g = length (gs_recs (g_act g)) -> gs_recs (g_act g) <> [] ->
  open_file s manifestName f d i -> fd_append d = true -> i_data i = manifest_lines (lines g) ->
  bound_or s manifestName (fd_ino d) False ->
  disk (g_pending g) (write_fs f d i (take n (manifest_line (gs_line src (g_act g)))) s).
Proof.
  intros [Hg Hinv] Ha Hr Hm Hp Hk Hne Hof Happ Hdat Hb.
  assert (ghost_ok snap link (g_pending g)) as Hg' by (by apply ghost_ok_pending).
  destruct (open_file_ok headName false Hinv _ _ _ _ Hof) as [Hio _].
  pose proof (open_survives headName false Hinv _ _ _ _ Hof manifest_not_touched) as Hsv.
  split; [done|]. unfold write_fs. rewrite Happ.
  eapply (dir_edit_file headName false Hinv); [done|apply manifest_not_touched|..].
  - rewrite overwrite_end. apply inode_ok_set; [done..|].
    etrans; [apply (Hio (i_data i)); left|]. rewrite length_app. lia.
  - intros m b _ _. apply spec_pending.
  - intros b. apply head_spec_mono. intros. by apply advertised_pending.
  - intros e Hin. left. by destruct (Hb e Hin) as [?|[_ []]].
  - rewrite overwrite_end, Hdat. intros b v [->|Hv]%elem_of_cons Hpre Hfl; cbn in Hfl.
    + apply (spec_man_intro src snap link (g_pending g)); [done|].
      cbn in Hpre. pose proof (floor_man g i (man_spec_survives g i Hsv) Hio) as Hfm.
      change (lines (g_pending g)) with (lines g).
      destruct (prefix_weak_total b (manifest_lines (lines g))
        (manifest_lines (lines g) ++ take n (manifest_line (gs_line src (g_act g))))) as [Hle|Hle];
        [done|apply prefix_app_r; done|..].
      * apply prefix_length_eq in Hle; [|lia]. exists []. rewrite app_nil_r. auto.
      * destruct Hle as [p ->]. apply prefix_app_inv in Hpre. exists p. split; [done|]. right.
        split; [done|]. etrans; [done|apply prefix_take].
    + apply spec_pending. cbn in Hv. by apply (Hsv b v).
Qed.

Lemma write_open s n f d i buf :
  open_file s n f d i ->
  exists d' i', open_file (write_fs f d i buf s) n f d' i' /\ fd_ino d' = fd_ino d /\
    fd_append d' = fd_append d /\
    let pos := if fd_append d then length (i_data i) else fd_pos d in
    fd_pos d' = (pos + length buf)%nat /\ i_data i' = overwrite pos buf (i_data i) /\
    i_floor i' = i_floor i /\ i_old i' = i_data i :: i_old i.
Proof.
  intros Hof. eexists _, _. split; [unfold write_fs; by apply (open_edit s n f d i)|]. by cbn.
Qed.

Lemma lines_roll q g : lines (g_roll q g) = lines g ++ [gs_line src (g_act g)].
Proof. unfold man_lines, g_old. cbn. by rewrite app_assoc, fmap_app. Qed.

(** The whole line is in the manifest and synced. *)
Lemma seal_done g q s f d i :
  disk (g_pending g) s -> g_pend g = false -> next_ok g q ->
  open_file s manifestName f d i -> i_data i = manifest_lines (lines (g_roll q g)) ->
  bound_or s manifestName (fd_ino d) False ->
  disk (g_roll q g) (set_inodes <[fd_ino d := inode_sync i]> s).
Proof.
  intros [Hg Hinv] Hp Hq Hof Hdat Hb.
  destruct (ok_pend _ _ _ Hg eq_refl) as (Hk & Hr & Ha & Hm & Hrecs).
  assert (ghost_ok snap link (g_roll q g)) as Hg' by (destruct Hq; by apply (ghost_ok_roll snap link q (g_pending g))).
  split; [done|].
  eapply (dir_edit_inode headName false Hinv); [done|apply manifest_not_touched|apply inode_ok_sync|..].
  - intros m b Hne _. apply (spec_roll src snap link q (g_pending g)); try done; [apply Hq|].
    intros x. by apply (next_ok_name (g_pending g)).
  - intros b. apply head_spec_mono. intros. by eapply (advertised_roll src snap link q (g_pending g)).
  - intros e Hin. left. by destruct (Hb e Hin) as [?|[_ []]].
  - apply survives_settled; [done|]. apply spec_man_intro; [done|]. exists [].
    split; [|by left]. cbn [inode_sync i_data]. by rewrite app_nil_r.
Qed.

Lemma wp_seal F g w s :
  winv g w s -> g_sync g = length (gs_recs (g_act g)) -> gs_recs (g_act g) <> [] ->
  wp F (sealToManifest (mkSegment (seg_Seq (active w)) (seg_File (active w))
          (seg_StartGpidx (active w)) (durableEnd w) (durableLen w) true))
    (fun o w' s' =>
       match o with
       | Ret _ => opening (g_roll (nextSeq w) g) w' s' /\ nextSeq w' = nextSeq w
       | _ => broken (allowed F o) [] g s'
       end) w s.
Proof.
  intros [Hw Hq] Hk Hrecs. destruct Hw as [Hd Hfl Hc Hf Hm Ha Hh Ho Hse].
  destruct Ha as (-> & -> & ->). destruct Ho as (_ & -> & -> & _). destruct Hfl as (Habs & Hraw & Hpd & Hnm).
  unfold sealToManifest. cbn [seg_Seq seg_File seg_StartGpidx seg_EndGpidx seg_ValidLen].
  change (mkSegment (gs_seq (g_act g)) (gname (g_act g)) (gs_start (g_act g)) (durable_end g)
            (gs_len (g_act g) (g_sync g)) true) with (gs_entry src true (g_sync g) (g_act g)).
  rewrite Hk. fold (gs_line src (g_act g)). fold (manifest_line (gs_line src (g_act g))).
  apply wp_bind, wp_get. cbn [bind_post].
  destruct Hm as (mf & md & mi & Hmf & Hom & Hma & Hmd & Hmb). rewrite Hmf. unfold on_file.
  pose proof (seal_part g s mf md mi) as Hpart. specialize (fun n => Hpart n Hd Habs Hraw Hnm Hpd Hk Hrecs Hom Hma Hmd Hmb).
  assert (forall (why : Prop) n, why ->
    broken why [] g (write_fs mf md mi (take n (manifest_line (gs_line src (g_act g)))) s)) as Hbr.
  { intros why n Hy. split; [done|]. exists (g_pending g). split; [apply Hpart|]. left. by apply evolves_flags. }
  apply wp_bind, (wp_Write _ _ _ _ _ md mi); [apply Hom|apply Hom|intros Hfc; by apply broken_same|
    intros Hff; by apply broken_same|intros n Hff; by apply Hbr|].
  cbn [bind_post]. specialize (fun why => Hbr why (length (manifest_line (gs_line src (g_act g))))).
  specialize (Hpart (length (manifest_line (gs_line src (g_act g))))). rewrite firstn_all in Hbr, Hpart.
  destruct (write_open s manifestName mf md mi (manifest_line (gs_line src (g_act g))) Hom)
    as (md' & mi' & Hom' & Hino & Happ' & _ & Hdat' & _).
  rewrite Hma, overwrite_end, Hmd, <-manifest_lines_snoc, <-(lines_roll (nextSeq w)) in Hdat'.
  assert (bound_or (write_fs mf md mi (manifest_line (gs_line src (g_act g))) s) manifestName
    (fd_ino md') False) as Hmb' by (by rewrite Hino).
  assert (forall d, d ∈ versions (write_fs mf md mi (manifest_line (gs_line src (g_act g))) s) ->
    d !! segmentName src (nextSeq w) = None) as Hnw by exact (next_nowhere g (nextSeq w) s Hd Hq).
  assert (forall fo, file w = Some fo -> fo <> mf /\
    (fo < fs_next (write_fs mf md mi (manifest_line (gs_line src (g_act g))) s))%nat) as Hne.
  { destruct Hf as (f & d & i & Hfe & Hof & Hfa & _). intros fo Heq. rewrite Heq in Hfe. injection Hfe as <-.
    split; [|by apply (open_file_ok headName false (proj2 Hd) _ _ _ _ Hof)].
    destruct Hof as [_ Hof _], Hom as [_ Hom _]. congruence. }
  revert Hbr Hpart Hom' Hmb' Hnw Hne.
  generalize (write_fs mf md mi (manifest_line (gs_line src (g_act g))) s).
  intros s1 Hbr Hpart Hom' Hmb' Hnw Hne.
  io_step ltac:(by apply Hbr). rewrite (open_file_with_fd _ _ _ _ _ _ Hom'). cbn [bind_post].
  apply wp_modify. split; [|done]. split; try done.
  - by apply (seal_done g (nextSeq w) s1 mf md' mi').
  - exists mf, md', (inode_sync mi'). split_and!; try done.
    + by eapply open_edit_inode.
    + congruence.
  - by apply (in_hand_roll _ _ w).
Qed.

(** ** Creating a segment *)

(** The file of the new segment, opened. *)
Lemma open_new g w s fl :
  opening g w s -> O_CREATE fl = true -> O_EXCL fl = false ->
  exists f ino s1, open_call (gname (g_act g)) fl s = Ok (f, s1) /\
    opened (gname (g_act g)) fl s f ino empty_inode s1 /\
    disk g s1 /\ kept s s1 manifestName /\ (fs_next s <= f)%nat /\
    bound_or s1 (gname (g_act g)) ino True.
Proof.
  intros [[Hg Hinv] (Ha & Hr & Hp & Hn) He _ _ _ _ Hnw] Hc Hx.
  destruct (open_create (gname (g_act g)) fl s) as (f & ino & i & s1 & Hcall & Ho); [apply Hinv|done..|].
  pose proof (op_which _ _ _ _ _ _ _ Ho) as Hw. rewrite (Hnw (fs_dir s) ltac:(left)) in Hw.
  destruct Hw as (_ & -> & Hv). exists f, ino, s1.
  pose proof (act_not_touched src snap link _ Hg) as Hnt.
  pose proof (act_not_manifest src snap link _ Hg) as Hnm.
  pose proof (op_frame _ _ _ _ _ _ _ Ho (eq (gname (g_act g))) eq_refl) as Hfr.
  split_and!; [done|done|split; [done|]|split_and!|apply Ho|].
  - eapply (dir_opened headName false Hinv); [done..|]. intros b v ->%list_elem_of_singleton Hpre _.
    apply prefix_nil_inv in Hpre as ->. apply spec_act_intro; [done|]. split; [apply prefix_nil|by left].
  - intros. eapply (open_opened headName false Hinv); [done..| |done]. congruence.
  - intros. by eapply (bound_frame _ _ _ _ _ Hfr).
  - by apply (frame_nowhere _ _ _ _ Hfr).
  - intros d Hd. rewrite Hv in Hd. apply elem_of_cons in Hd as [->|Hd].
    + left. apply lookup_insert_eq.
    + right. by split; [apply Hnw|].
Qed.

(** A part of the header in the new file. *)
Lemma header_part g s f d i n :
  disk g s -> g_absent g = true -> g_raw g = true -> gs_recs (g_act g) = [] ->
  open_file s (gname (g_act g)) f d i -> fd_append d = false -> fd_pos d = 0%nat -> i_data i = [] ->
  bound_or s (gname (g_act g)) (fd_ino d) True ->
  disk g (write_fs f d i (take n (gh_bytes snap link)) s).
Proof.
  intros [Hg Hinv] Ha Hr He Hof Happ Hpos Hdat Hb.
  destruct (open_file_ok headName false Hinv _ _ _ _ Hof) as [Hio _].
  pose proof (act_not_touched src snap link _ Hg) as Hnt.
  pose proof (open_survives headName false Hinv _ _ _ _ Hof Hnt) as Hsv.
  split; [done|]. unfold write_fs. rewrite Happ, Hpos, Hdat.
  assert (forall buf, overwrite 0 buf [] = buf) as Hov.
  { intros buf. unfold overwrite. cbn. by rewrite drop_nil, app_nil_r. }
  rewrite Hov. eapply (dir_edit_file headName false Hinv); [done..| | | | |].
  - apply inode_ok_set; [done..|]. pose proof (Hio (i_data i) ltac:(left)) as Hf.
    rewrite Hdat in Hf. cbn in Hf. lia.
  - done.
  - done.
  - intros e Hin. destruct (Hb e Hin) as [?|[? _]]; [by left|right]. done.
  - intros b v [->|Hv]%elem_of_cons Hpre Hfl; [|by apply (Hsv b v)].
    apply spec_act_intro; [done|]. split; [|by left]. unfold gs_bytes. rewrite He, enc_records_nil, app_nil_r.
    etrans; [exact Hpre|apply prefix_take].
Qed.

(** The header is synced. *)
Lemma header_done g s f d i :
  disk g s -> g_pend g = false -> gs_recs (g_act g) = [] -> g_sync g = 0%nat ->
  open_file s (gname (g_act g)) f d i -> i_data i = gh_bytes snap link ->
  bound_or s (gname (g_act g)) (fd_ino d) True ->
  disk (g_header g) (set_inodes <[fd_ino d := inode_sync i]> s).
Proof.
  intros [Hg Hinv] Hp He Hk Hof Hdat Hb.
  pose proof (act_not_touched src snap link _ Hg) as Hnt.
  assert (ghost_ok snap link (g_header g)) as Hg' by (by apply ghost_ok_header).
  split; [done|].
  eapply (dir_edit_inode headName false Hinv); [done|done|apply inode_ok_sync|..].
  - intros m b Hne _. by apply spec_header.
  - intros b. apply head_spec_mono. intros. by apply advertised_header.
  - intros e Hin. destruct (Hb e Hin) as [?|[? _]]; [by left|right]. split; [done|].
    by apply spec_change.
  - apply survives_settled; [done|]. apply (spec_act_intro src snap link (g_header g)); [done|].
    cbn [inode_sync i_data]. rewrite Hdat. split.
    + unfold gs_bytes. cbn. rewrite He, enc_records_nil. by rewrite app_nil_r.
    + right. cbn. rewrite Hk. done.
Qed.

(** The name is durable. *)
Lemma present_done g s ino :
  disk (g_header g) s -> fs_dir s !! gname (g_act g) = Some ino ->
  disk (g_present (g_header g)) (Fs (fs_inodes s) (fs_dir s) [] (fs_fds s) (fs_next s)).
Proof.
  intros [Hg Hinv] Hl. split; [by apply ghost_ok_present|].
  apply (dir_mono headName false (spec := spool_spec src snap link (g_present (g_header g)))
           (P := head_spec src (g_header g))).
  - apply (dir_sync headName false Hinv). intros n b Hn Hs Hnone.
    apply spec_present; [|done]. intros -> ->. cbn in Hnone. rewrite Hnone in Hl; done.
  - done.
  - intros b. apply head_spec_mono. intros. by apply advertised_present.
Qed.

(** Writing and syncing the header of a new file, before the rest [k] of the call. *)
Lemma wp_header F g (k : M Writer unit) (Φ : outcome unit -> Writer -> fs -> Prop) w s f d mf md mi :
  disk g s -> g_absent g = true -> g_raw g = true -> g_pend g = false ->
  gs_recs (g_act g) = [] -> g_sync g = 0%nat ->
  open_file s (gname (g_act g)) f d empty_inode -> fd_append d = false -> fd_pos d = 0%nat ->
  bound_or s (gname (g_act g)) (fd_ino d) True ->
  open_file s manifestName mf md mi -> bound_or s manifestName (fd_ino md) False -> mf <> f ->
  (forall o s', o <> Ret () -> broken (allowed F o) [] g s' -> Φ o w s') ->
  (forall s' d' i', disk (g_present (g_header g)) s' ->
     open_file s' (gname (g_act g)) f d' i' -> fd_append d' = false ->
     fd_pos d' = length (i_data i') -> i_data i' = gbytes (g_act g) ->
     bound_or s' (gname (g_act g)) (fd_ino d') False ->
     open_file s' manifestName mf md mi -> bound_or s' manifestName (fd_ino md) False ->
     wp F k Φ w s') ->
  wp F (on_error (Write f (gh_bytes snap link)) (Close f) ;; on_error (Fdatasync f) (Close f) ;;
        on_error SyncDir (Close f) ;; k) Φ w s.
Proof.
  intros Hd Ha Hr Hp He Hk Hof Happ Hpos Hb Hom Hmb Hne Hbad Hgood.
  pose proof Hd as [Hg Hinv]. pose proof (act_not_touched src snap link _ Hg) as Hnt.
  pose proof (act_not_manifest src snap link _ Hg) as Hnm.
  pose proof (fun n => header_part g s f d empty_inode n Hd Ha Hr He Hof Happ Hpos eq_refl Hb) as Hpart.
  assert (forall g' s', evolves [] g g' -> disk g' s' -> forall o, o <> Ret () -> allowed F o -> Φ o w s') as Hbr.
  { intros g' s' Hev Hd' o Hno Hall. apply Hbad; [done|]. split; [done|]. exists g'. split; [done|by left]. }
  assert (forall g' s' e (k' : unit -> M Writer unit), evolves [] g g' -> disk g' s' -> can_fail F ->
    wp F (Close f ;; fail e : M Writer unit) (bind_post F k' Φ) w s') as Hcl.
  { intros g' s' e k' Hev Hd' Hff. apply wp_seq_fail, wp_Close. cbn [bind_post]. eapply Hbr; [done| |done..].
    destruct Hd' as [Hg' Hinv']. split; [done|]. by apply (dir_close headName false Hinv'). }
  pose proof (evolves_refl g) as Hrefl.
  apply wp_bind, wp_on_error, (wp_Write _ _ _ _ _ d empty_inode);
    [apply Hof|apply Hof|intros Hfc; by eapply Hbr|intros Hff; by eapply Hcl|intros n Hff; by eapply Hcl|].
  cbn [bind_post]. specialize (Hpart (length (gh_bytes snap link))). rewrite firstn_all in Hpart.
  destruct (write_open s _ f d empty_inode (gh_bytes snap link) Hof) as (d1 & i1 & Hof1 & Hi1 & Ha1 & Hx1).
  rewrite Happ in Ha1, Hx1. rewrite Hpos in Hx1. destruct Hx1 as (Hp1 & Hd1 & _).
  unfold overwrite in Hd1. cbn in Hd1. rewrite drop_nil, app_nil_r in Hd1.
  assert (open_file (write_fs f d empty_inode (gh_bytes snap link) s) manifestName mf md mi) as Hom1.
  { eapply (open_edit_other headName false Hinv); try done. }
  assert (bound_or (write_fs f d empty_inode (gh_bytes snap link) s) (gname (g_act g)) (fd_ino d1) True)
    as Hb1 by (by rewrite Hi1).
  assert (bound_or (write_fs f d empty_inode (gh_bytes snap link) s) manifestName (fd_ino md) False)
    as Hmb1 by done.
  revert Hpart Hof1 Hom1 Hb1 Hmb1. generalize (write_fs f d empty_inode (gh_bytes snap link) s).
  intros s1 Hd1' Hof1 Hom1 Hb1 Hmb1. clear Hinv.
  apply wp_bind, wp_on_error, wp_sys; [intros Hfc; by eapply Hbr|intros Hff; by eapply Hcl|].
  rewrite (open_file_with_fd _ _ _ _ _ _ Hof1). cbn [bind_post].
  assert (evolves [] g (g_header g)) as Hev by (by apply evolves_flags).
  pose proof (header_done g s1 f d1 i1 Hd1' Hp He Hk Hof1 Hd1 Hb1) as Hd2.
  apply wp_bind, wp_on_error, wp_sys; [intros Hfc; by eapply Hbr|intros Hff; by eapply Hcl|]. cbn [bind_post].
  pose proof (present_done g _ (fd_ino d1) Hd2 (of_live _ _ _ _ _ Hof1)) as Hd3.
  destruct Hd1' as [_ Hinv1].
  apply (Hgood _ d1 (inode_sync i1)); try done.
  - split; cbn; [apply Hof1|apply Hof1|apply lookup_insert_eq].
  - cbn. rewrite Hp1, Hd1. done.
  - cbn. rewrite Hd1. unfold gs_bytes. by rewrite He, enc_records_nil, app_nil_r.
  - intros e ->%list_elem_of_singleton. left. apply Hof1.
  - destruct (open_edit_inode_other headName false Hinv1 _ f d1 i1 (inode_sync i1) manifestName mf md mi
      Hof1 Hnt ltac:(congruence) Hom1). by split.
  - intros e ->%list_elem_of_singleton. left. apply Hom1.
Qed.

(** [openNewSegment]: the new segment is durable before it becomes active. *)
Lemma wp_openNewSegment F g w s :
  opening g w s -> g_sync g = 0%nat ->
  wp F (openNewSegment (gs_seq (g_act g)) (gs_start (g_act g)))
    (fun o w' s' =>
       match o with
       | Ret _ => wcore (g_present (g_header g)) w' s' /\ nextSeq w' = nextSeq w /\ oldestGpidx w' = oldestGpidx w
       | _ => broken (allowed F o) [] g s'
       end) w s.
Proof.
  intros Ho Hk. pose proof Ho as [Hd (Ha & Hr & Hp & Hn) He Hc Hm Hse Hh Hnw].
  unfold openNewSegment. apply wp_bind, wp_get. cbn [bind_post]. rewrite Hc.
  change (segmentName src (gs_seq (g_act g))) with (gname (g_act g)).
  io_step ltac:(by apply broken_same).
  destruct (open_new g w s (OFlags true true false false) Ho eq_refl eq_refl)
    as (f & ino & s1 & -> & Hop & Hd1 & Hkm & Hf & Hb1).
  cbn [bind_post]. pose proof (open_opened_self _ _ _ _ _ _ _ Hop) as Hof. cbn [O_APPEND] in Hof.
  set (d0 := Fdesc ino 0 false false) in *.
  assert (GlobalHeader_AppendTo (mkGlobalHeader snap link) [] = gh_bytes snap link) as -> by done.
  destruct Hm as (mf & md & mi & Hmf & Hom & Hma & Hmd & Hmb & Hne).
  destruct Hkm as (Hk1 & Hk2 & _). pose proof Hd as [Hg Hinv].
  destruct (open_file_ok headName false Hinv _ _ _ _ Hom) as [_ Hmlt].
  apply (wp_header F g _ _ w s1 f d0 mf md mi); auto; [lia| |].
  { intros [[]|e|] s' Hno Hbr; done. }
  intros s2 d2 i2 Hd2 Hof2 Ha2 Hp2 Hdat2 Hb2 Hom2 Hmb2.
  assert (forall fo, file w = Some fo -> fo <> f /\ fo <> mf) as Hfo.
  { intros fo Hfo. destruct (Hne fo Hfo). split; [lia|done]. }
  assert (forall Φ : outcome unit -> Writer -> fs -> Prop,
    (forall s3, disk (g_present (g_header g)) s3 -> open_file s3 (gname (g_act g)) f d2 i2 ->
       open_file s3 manifestName mf md mi -> versions s3 = versions s2 -> Φ (Ret ()) w s3) ->
    wp F (close_file (file w)) Φ w s2) as Hclose.
  { intros Φ HΦ. unfold close_file. destruct (file w) as [fo|]; [|by apply wp_ret, HΦ].
    destruct (Hfo fo eq_refl). destruct Hd2 as [Hg2 Hinv2]. apply wp_Close, HΦ; [|by apply open_close..|done].
    split; [done|]. by apply (dir_close headName false Hinv2). }
  apply wp_bind, Hclose. intros s3 Hd3 Hof3 Hom3 Hv3. cbn [bind_post].
  apply wp_bind, wp_Now. intros t. cbn [bind_post]. apply wp_modify. split; [|done].
  assert (gbytes (g_act g) = gh_bytes snap link) as Hgb.
  { unfold gs_bytes. by rewrite He, enc_records_nil, app_nil_r. }
  split; try done.
  - exists f, d2, i2. split_and!; try done. intros e. rewrite Hv3. apply Hb2.
  - exists mf, md, mi. split_and!; try done. intros e. rewrite Hv3. apply Hmb2.
  - cbn. rewrite Hh. unfold next_gpidx, gs_end. cbn. rewrite He. change (len (@nil PcapRecord)) with 0. lia.
  - cbn. rewrite Hgb, Hk. unfold durable_end. cbn. rewrite Hk. split_and!; [done|done|lia|done].
Qed.

(** ** Rotation *)

(** What an operation that adds no packet guarantees. *)
Definition settled_post {A} F (g : ghost) (o : outcome A) (w' : Writer) (s' : fs) : Prop :=
  match o with
  | Ret _ => exists g', evolves [] g g' /\ winv g' w' s'
  | _ => broken (allowed F o) [] g s'
  end.

Lemma wp_rotate F g w s :
  winv g w s -> nextSeq w + 1 < 2 ^ 64 -> gs_recs (g_act g) <> [] -> wp F rotate (settled_post F g) w s.
Proof.
  intros [Hw Hq] Hnext Hne. pose proof (wi_disk _ _ _ Hw) as [Hg _]. unfold rotate.
  apply wp_bind. eapply wp_mono; [by apply wp_sync|].
  intros [[]|e|] w1 s1 H1; cbn [bind_post]; [|done..]. destruct H1 as [Hw1 Hn1].
  pose proof (evolves_synced snap link g Hg) as Hev1.
  assert (forall why s', broken why [] (g_synced g) s' -> broken why [] g s') as Hbr by (intros; by eapply broken_trans).
  assert (next_ok (g_synced g) (nextSeq w1)) as Hq1 by (by rewrite Hn1).
  apply wp_bind, wp_get. cbn [bind_post]. apply wp_bind.
  eapply wp_mono; [by apply (wp_seal F (g_synced g))|].
  intros [[]|e|] w2 s2 H2; cbn [bind_post]; [|by apply Hbr..]. destruct H2 as [Hw2 Hn2].
  set (q := nextSeq w1) in *. set (g2 := g_roll q (g_synced g)) in *.
  assert (evolves [] g g2) as Hev2.
  { apply (evolves_trans [] [] _ (g_synced g)); [done|by apply evolves_roll]. }
  assert (forall why s', broken why [] g2 s' -> broken why [] g s') as Hbr2 by (intros; by eapply broken_trans).
  apply wp_bind, wp_get. cbn [bind_post]. apply wp_bind, wp_modify. cbn [bind_post].
  apply wp_bind, wp_get. cbn [bind_post head]. rewrite Hn2.
  rewrite (op_head _ _ _ Hw2). apply wp_bind.
  eapply wp_mono; [apply (wp_openNewSegment F g2)|].
  - by destruct Hw2.
  - done.
  - intros [[]|e|] w3 s3 H3; cbn [bind_post]; [|by apply Hbr2..]. destruct H3 as (Hw3 & Hn3 & _).
    eapply wp_mono; [by apply (wp_publishHead F (g_present (g_header g2)))|].
    assert (evolves [] g (g_present (g_header g2))) as Hev3.
    { apply (evolves_trans [] [] _ g2); [done|by apply evolves_flags]. }
    intros [[]|e|] w4 s4 H4; cbn [settled_post]; [|by eapply broken_trans..].
    destruct H4 as (Hw4 & Hn4 & _). exists (g_present (g_header g2)). split; [done|]. split; [done|].
    rewrite Hn4, Hn3. cbn [nextSeq]. rewrite u64_small by (destruct Hq1; unfold is_uint in *; lia).
    destruct Hq1 as [Hqu Hlt]. split; [unfold is_uint in *; lia|].
    change (g_segs (g_present (g_header g2))) with (g_segs g ++ [GSeg q (gs_end (g_act g)) []]).
    apply Forall_app. split; [|apply Forall_singleton; cbn; lia].
    eapply Forall_impl; [exact Hlt|]. cbn. intros x Hx. lia.
Qed.

Lemma wp_since t0 d (Φ : outcome bool -> Writer -> fs -> Prop) F w s :
  (forall b, Φ (Ret b) w s) -> wp F (since t0 d) Φ w s.
Proof. intros H. apply wp_bind, wp_Now. intros t. apply wp_ret, H. Qed.

(** [sync] when due. *)
Lemma wp_sync_post F g w s :
  winv g w s ->
  wp F sync (fun o w' s' =>
    match o with
    | Ret _ => exists g', evolves [] g g' /\ winv g' w' s' /\ nextSeq w' = nextSeq w /\ g_act g' = g_act g
    | _ => broken (allowed F o) [] g s'
    end) w s.
Proof.
  intros [Hw Hq]. pose proof (wi_disk _ _ _ Hw) as [Hg _].
  eapply wp_mono; [by apply wp_sync|]. intros [[]|e|] w1 s1 H1; [|done..]. destruct H1 as [Hw1 Hn1].
  exists (g_synced g). split; [by apply (evolves_synced snap link)|]. split; [|done].
  split; [done|]. by rewrite Hn1.
Qed.

(** The result of an operation, if it returns. *)
Definition returns {A} (a : A) (o : outcome A) : Prop :=
  match o with Ret a' => a' = a | _ => True end.

(** [rotate] when due, and then the result. *)
Lemma wp_rotate_if {A} F (a : A) (k : M Writer unit -> M Writer A) b g w s :
  (forall b', k b' = (b' ;; mret a)) ->
  winv g w s -> nextSeq w + 1 < 2 ^ 64 -> (b = true -> gs_recs (g_act g) <> []) ->
  wp F (k (if b : bool then rotate else mret ())) (fun o w' s' => settled_post F g o w' s' /\ returns a o) w s.
Proof.
  intros -> Hw Hn Hne. apply wp_bind.
  assert (wp F (if b then rotate else mret ()) (settled_post F g) w s) as Hr.
  { destruct b; [by apply wp_rotate; [..|by apply Hne]|]. apply wp_ret. exists g. split; [apply evolves_refl|done]. }
  eapply wp_mono; [exact Hr|]. intros [[]|e|] w2 s2 Hy; cbn [bind_post settled_post] in *; [|done..].
  by apply wp_ret.
Qed.

(** The maintenance tail of [WritePacket] and [Tick]: sync when [due1], rotate when [due2]. *)
Lemma wp_maintain {A} F (a : A) (k : bool -> M Writer A) g w s (due1 : M Writer bool)
    (due2 : Writer -> M Writer bool) :
  winv g w s -> nextSeq w + 1 < 2 ^ 64 ->
  (forall Φ : outcome bool -> Writer -> fs -> Prop, (forall b, Φ (Ret b) w s) -> wp F due1 Φ w s) ->
  (forall g' w' s' (Φ : outcome bool -> Writer -> fs -> Prop), winv g' w' s' -> g_act g' = g_act g ->
     (forall b, (b = true -> gs_recs (g_act g') <> []) -> Φ (Ret b) w' s') -> wp F (due2 w') Φ w' s') ->
  (forall g' w' s' b, winv g' w' s' -> nextSeq w' + 1 < 2 ^ 64 -> (b = true -> gs_recs (g_act g') <> []) ->
     wp F (k b) (fun o w' s' => settled_post F g' o w' s' /\ returns a o) w' s') ->
  wp F (due ← due1; (if due : bool then sync else mret ()) ;; w ← get; due ← due2 w; k due)
    (fun o w' s' => settled_post F g o w' s' /\ returns a o) w s.
Proof.
  intros Hw Hn H1 H2 Hk. apply wp_bind, H1. intros due. cbn [bind_post]. apply wp_bind.
  assert (wp F (if due : bool then sync else mret ()) (fun o w' s' =>
    match o with
    | Ret _ => exists g', evolves [] g g' /\ winv g' w' s' /\ nextSeq w' = nextSeq w /\ g_act g' = g_act g
    | _ => broken (allowed F o) [] g s'
    end) w s) as Hs.
  { destruct due; [by apply wp_sync_post|]. apply wp_ret. exists g. split; [apply evolves_refl|done]. }
  eapply wp_mono; [exact Hs|]. clear Hs.
  intros [[]|e|] w1 s1 Hx; cbn [bind_post]; [|by split..]. destruct Hx as (g1 & Hev & Hw1 & Hn1 & Ha1).
  apply wp_bind, wp_get. cbn [bind_post]. apply wp_bind, (H2 g1); [done..|]. intros due2' Hne. cbn [bind_post].
  eapply wp_mono; [apply (Hk g1 w1 s1 due2' Hw1); [by rewrite Hn1|done]|].
  intros o w2 s2 [Hy Hret]. split; [|done]. destruct o as [a'|e|]; cbn [settled_post] in *.
  - destruct Hy as (g2 & Hev2 & Hw2). exists g2. split; [|done]. by apply (evolves_trans [] [] g g1 g2).
  - by eapply broken_trans.
  - by eapply broken_trans.
Qed.

(** ** WritePacket and Tick *)

(** The packet is in the file and the counters follow. *)
Lemma append_done g w s f d i r :
  winv g w s -> fits g r -> file w = Some f -> open_file s (gname (g_act g)) f d i ->
  fd_append d = false -> fd_pos d = length (i_data i) -> i_data i = gbytes (g_act g) ->
  bound_or s (gname (g_act g)) (fd_ino d) False ->
  let buf := PcapRecord_bytes (stored r) in
  winv (g_append (stored r) g)
    (mkWriter (cfg w) (file w) (manifest w)
       (mkSegment (seg_Seq (active w)) (seg_File (active w)) (seg_StartGpidx (active w)) (u64 (head w + 1))
          (seg_ValidLen (active w)) (seg_Sealed (active w)))
       (nextSeq w) (sealed w) (u64 (head w + 1)) (oldestGpidx w) (i64 (fileOffset w + len buf))
       (durableLen w) (durableEnd w) (i64 (pendingBytes w + len buf)) (segStart w) (lastSync w))
    (write_fs f d i buf s).
Proof.
  intros [Hw Hq] Hfits Hfile Hof Happ Hpos Hdat Hb. cbv zeta.
  pose proof Hw as [Hd (Ha & Hr & Hp & Hn) Hc Hf Hm Hact Hh Ho]. pose proof Hd as [Hg Hinv].
  pose proof (append_part g s f d i r (length (PcapRecord_bytes (stored r))) Hd Ha Hr Hp Hfits Hof Happ
                Hpos Hdat Hb) as Hd'. rewrite firstn_all in Hd'.
  destruct (write_open s _ f d i (PcapRecord_bytes (stored r)) Hof) as (d1 & i1 & Hof1 & Hi1 & Ha1 & Hx1).
  rewrite Happ in Ha1, Hx1. destruct Hx1 as (Hp1 & Hd1 & _). rewrite Hpos in Hp1. rewrite Hpos, overwrite_end in Hd1.
  destruct Hfits as (Hwr & Hl & He). destruct Hm as (mf & md & mi & Hmf & Hom & Hma & Hmd & Hmb).
  pose proof (act_not_touched src snap link _ Hg) as Hnt.
  assert (0 <= next_gpidx g < 2 ^ 62) as Hng.
  { destruct (act_ok snap link g Hg) as (_ & _ & H0 & _ & _). unfold next_gpidx in *.
    unfold gs_end in *. pose proof (len_nonneg (gs_recs (g_act g))). lia. }
  assert (0 <= PcapRecord_Size (stored r)) as Hsz.
  { unfold PcapRecord_Size, RecordHeaderLen. pose proof (len_nonneg (Data (stored r))). lia. }
  pose proof (len_nonneg (gbytes (g_act g))) as Hgl.
  pose proof (gs_len_nonneg (g_act g) (g_sync g)) as Hgs.
  pose proof (gs_len_le (g_act g) (g_sync g) _ (ok_sync _ _ _ Hg)) as Hle.
  rewrite (gs_len_full snap link) in Hle.
  destruct Ho as (Hoff & Hdl & Hde & Hpe). change GlobalHeaderLen with 24 in *.
  assert (u64 (head w + 1) = head w + 1) as Hu by (rewrite Hh; apply u64_small; unfold is_uint; lia).
  split; [|split; [apply Hq|]].
  - assert (gbytes (gs_append (stored r) (g_act g)) = gbytes (g_act g) ++ PcapRecord_bytes (stored r))
      as Hgb by apply gs_bytes_append.
    assert (len (PcapRecord_bytes (stored r)) = PcapRecord_Size (stored r)) as Hlb by apply len_PcapRecord_bytes.
    split; try done.
    + exists f, d1, i1. split_and!; try done.
      * rewrite Hp1, Hd1, length_app. lia.
      * rewrite Hd1, Hdat. by rewrite <-Hgb.
      * by rewrite Hi1.
    + exists mf, md, mi. split_and!; try done. eapply (open_edit_other headName false Hinv); try done.
      intros ->. pose proof (of_fd _ _ _ _ _ Hof). pose proof (of_fd _ _ _ _ _ Hom). congruence.
    + cbn. rewrite Hu, Hh. unfold next_gpidx, gs_end, g_append, gs_append. cbn. rewrite len_app. change (len [stored r]) with 1. lia.
    + change (g_act (g_append (stored r) g)) with (gs_append (stored r) (g_act g)).
      change (durable_end (g_append (stored r) g)) with (durable_end g).
      cbn [fileOffset durableLen durableEnd pendingBytes g_sync g_append].
      rewrite gs_len_append by apply Hg. rewrite Hgb, len_app, Hlb, Hpe, Hoff.
      rewrite !i64_small by lia. split_and!; try done. lia.
    + by apply (in_hand_act g _ w).
  - change (g_segs (g_append (stored r) g)) with (g_closed g ++ [gs_append (stored r) (g_act g)]).
    destruct Hq as [_ Hlt]. unfold g_segs in Hlt. apply Forall_app in Hlt as [H1 H2].
    apply Forall_app. split; [exact H1|]. apply Forall_singleton. by apply (proj1 (Forall_singleton _ _)) in H2.
Qed.

Lemma wp_WritePacket F g w s r :
  winv g w s -> fits g r -> nextSeq w + 1 < 2 ^ 64 ->
  wp F (WritePacket r) (fun o w' s' =>
    match o with
    | Ret gpidx => gpidx = next_gpidx g /\ exists g', evolves [stored r] g g' /\ winv g' w' s'
    | _ => broken (allowed F o) [stored r] g s'
    end) w s.
Proof.
  intros Hwi Hfits Hnext. pose proof Hwi as [Hw Hq].
  pose proof Hw as [Hd (Ha & Hr & Hp & Hn) Hc Hf Hm Hact Hh Ho].
  destruct Hf as (f & d & i & Hfile & Hof & Happ & Hpos & Hdat & Hb).
  unfold WritePacket. fold (stored r). change (PcapRecord_AppendTo (stored r) []) with (PcapRecord_bytes (stored r)).
  apply wp_bind, wp_get. cbn [bind_post]. apply wp_bind. unfold on_file. rewrite Hfile.
  assert (forall (why : Prop) n, why ->
    broken why [stored r] g (write_fs f d i (take n (PcapRecord_bytes (stored r))) s)) as Hpart.
  { intros why n Hy. split; [done|]. exists (g_append (stored r) g). split; [by apply append_part|right; apply evolves_append]. }
  assert (forall why : Prop, why -> broken why [stored r] g s) as Hsame by (intros; by apply broken_same).
  apply (wp_Write _ _ _ _ _ d i); [apply Hof|apply Hof|intros Hfc; by apply Hsame|intros Hff; by apply Hsame|intros n Hff; by apply Hpart|].
  cbn [bind_post]. apply wp_bind, wp_modify. cbn [bind_post]. apply wp_bind, wp_get. cbn [bind_post].
  pose proof (append_done g w s f d i r Hwi Hfits Hfile Hof Happ Hpos Hdat Hb) as Hw1. cbv zeta in Hw1.
  eapply wp_mono; [eapply (wp_maintain F (head w)); [exact Hw1|done|..|]|].
  - intros Φ HΦ. case_match; [apply wp_ret, HΦ|by apply wp_since].
  - intros g' w' s' Φ _ Ha' HΦ. cbn beta.
    assert (gs_recs (g_act g') <> []) as Hne by (rewrite Ha'; cbn; unfold gs_append; cbn; by destruct (gs_recs (g_act g))).
    case_match; [by apply wp_ret, HΦ|by apply wp_since; intros b; apply HΦ].
  - intros g' w' s' b Hw' Hn' Hne. by apply (wp_rotate_if F (head w) (fun m => m ;; mret (head w))).
  - intros o w' s' [Hs Hr']. destruct o as [gp|e|]; cbn [settled_post] in Hs.
    + rewrite Hr'. split; [done|]. destruct Hs as (g' & Hev & Hw'). exists g'. split; [|done].
      apply (evolves_trans [stored r] [] _ _ _ (evolves_append _ g) Hev).
    + destruct Hs as (Hy & g' & Hd' & Hev). split; [done|]. exists g'. split; [done|right].
      destruct Hev as [Hev|Hev]; apply (evolves_trans [stored r] [] _ _ _ (evolves_append _ g) Hev).
    + destruct Hs as (Hy & g' & Hd' & Hev). split; [done|]. exists g'. split; [done|right].
      destruct Hev as [Hev|Hev]; apply (evolves_trans [stored r] [] _ _ _ (evolves_append _ g) Hev).
Qed.

Lemma wp_Tick F g w s :
  winv g w s -> nextSeq w + 1 < 2 ^ 64 -> wp F Tick (settled_post F g) w s.
Proof.
  intros Hw Hn. unfold Tick. apply wp_bind, wp_get. cbn [bind_post].
  eapply wp_mono.
  - eapply (wp_maintain F tt _ g w s _ (fun w => if GlobalHeaderLen <? fileOffset w
      then since (segStart w) (RotateInterval (cfg w)) else mret false) Hw Hn).
    + intros Φ HΦ. case_match; [by apply wp_since|apply wp_ret, HΦ].
    + intros g' w' s' Φ Hw' _ HΦ. destruct (Z.ltb_spec GlobalHeaderLen (fileOffset w')) as [Hlt|_]; [|by apply wp_ret, HΦ].
      apply wp_since. intros b. apply HΦ. intros _ He. destruct (wi_off _ _ _ (proj1 Hw')) as [Ho _].
      rewrite Ho in Hlt. unfold gs_bytes in Hlt. rewrite He, app_nil_r in Hlt. by vm_compute in Hlt.
    + intros g' w' s' b Hw' Hn' Hne. destruct b.
      * eapply wp_mono; [by apply wp_rotate; [..|by apply Hne]|]. by intros [[]|e|] ?? ?.
      * apply wp_ret. split; [|done]. exists g'. split; [apply evolves_refl|done].
  - by intros o w' s' [? _].
Qed.
End Proof.
