(* ===== verification/RecoverProof.v ===== *)
(** * Recovery rebuilds the spool (internal/spool/recover.go, NewWriter)

    What a restart finds in a directory that satisfied the spool's invariant when
    the host crashed, and that the new [Writer] satisfies its invariant again. *)

From S2P Require Import Prelude Bytes GoIO Pcapio Os Durable Dir Json Manifest Recover Spool SpoolSpec SpoolProof.

(** ** The manifest as a map *)

Lemma by_seq_map_app l k m : by_seq_map (l ++ k) m = by_seq_map k (by_seq_map l m).
Proof. apply foldl_app. Qed.

Lemma by_seq_map_notin l m q : q ∉ seg_Seq <$> l -> by_seq_map l m !! q = m !! q.
Proof.
  revert m; induction l as [|s l IH]; intros m Hq; [done|].
  cbn in Hq. apply not_elem_of_cons in Hq as [Hs Hq]. change (by_seq_map (s :: l) m) with
    (by_seq_map l (<[seg_Seq s := s]> m)). rewrite IH by done. by apply lookup_insert_ne.
Qed.

Lemma by_seq_map_in l m s : NoDup (seg_Seq <$> l) -> s ∈ l -> by_seq_map l m !! seg_Seq s = Some s.
Proof.
  revert m; induction l as [|s0 l IH]; intros m Hnd Hs; [by apply not_elem_of_nil in Hs|].
  cbn in Hnd. apply NoDup_cons in Hnd as [Hs0 Hnd]. change (by_seq_map (s0 :: l) m) with
    (by_seq_map l (<[seg_Seq s0 := s0]> m)). apply elem_of_cons in Hs as [->|Hs]; [|by apply IH].
  rewrite by_seq_map_notin by done. apply lookup_insert_eq.
Qed.

Lemma by_seq_map_value l m q seg : by_seq_map l m !! q = Some seg -> seg ∈ l \/ m !! q = Some seg.
Proof.
  revert m; induction l as [|s0 l IH]; intros m Hq; [by right|].
  change (by_seq_map (s0 :: l) m) with (by_seq_map l (<[seg_Seq s0 := s0]> m)) in Hq.
  destruct (IH _ Hq) as [?|Hm]; [left; by right|]. rewrite lookup_insert in Hm.
  case_decide; [left; simplify_eq; left|by right].
Qed.

Lemma by_seq_map_keys l m :
  map_Forall (fun q s => seg_Seq s = q) m -> map_Forall (fun q s => seg_Seq s = q) (by_seq_map l m).
Proof.
  revert m; induction l as [|s l IH]; intros m Hm; [done|]. apply IH. by apply map_Forall_insert_2.
Qed.

(** [loadManifest] and [recoverSpool] build the same map. *)
Lemma by_seq_map_segments m :
  map_Forall (fun q s => seg_Seq s = q) m -> by_seq_map (segments_by_seq m) ∅ = m.
Proof.
  intros Hm. unfold segments_by_seq.
  pose proof (merge_sort_Permutation by_seq (map_to_list m).*2) as Hp.
  set (l := merge_sort by_seq (map_to_list m).*2) in *.
  assert (seg_Seq <$> (map_to_list m).*2 = (map_to_list m).*1) as Hk.
  { rewrite <-list_fmap_compose. apply list_fmap_ext. intros i [q s] Hi. cbn.
    apply (Hm q s). apply elem_of_map_to_list. by eapply list_elem_of_lookup_2. }
  assert (NoDup (seg_Seq <$> l)) as Hnd.
  { rewrite Hp, Hk. apply NoDup_fst_map_to_list. }
  apply map_eq. intros q. destruct (m !! q) as [s|] eqn:E.
  - rewrite <-(Hm q s E). apply by_seq_map_in; [done|]. rewrite Hp.
    apply list_elem_of_fmap. exists (q, s). split; [done|]. by apply elem_of_map_to_list.
  - rewrite by_seq_map_notin; [apply lookup_empty|]. rewrite Hp, Hk. intros Hin.
    apply list_elem_of_fmap in Hin as ([q' s] & -> & Hin). apply elem_of_map_to_list in Hin. cbn in E. congruence.
Qed.

Lemma segments_by_seq_nil : segments_by_seq ∅ = [].
Proof. unfold segments_by_seq. by rewrite map_to_list_empty. Qed.

Section Recover.
Context (c : Config).

(** The faults that happen: none that makes a call fail. *)
Context (F : fault -> Prop) (HF : ~ can_fail F).

Abbreviation src := (SrcID c).
Abbreviation snap := (Snaplen c).
Abbreviation link := (LinkType c).
Abbreviation gname := (gs_name src).
Abbreviation gbytes := (gs_bytes snap link).
Abbreviation disk := (spool_disk src snap link).
Abbreviation lines := (man_lines src).

Definition sealed_map (g : ghost) : gmap Z Segment := by_seq_map (lines g) ∅.

Lemma lines_seqs (l : list gseg) : seg_Seq <$> (gs_line src <$> l) = gs_seq <$> l.
Proof. rewrite <-list_fmap_compose. by apply list_fmap_ext. Qed.

Lemma sorted_NoDup (l : list Z) : StronglySorted Z.lt l -> NoDup l.
Proof.
  induction 1 as [|x l Hs IH Hx]; constructor; [|done]. intros Hin.
  pose proof (proj1 (Forall_forall _ _) Hx x Hin). lia.
Qed.

Lemma closed_seqs g : ghost_ok snap link g ->
  NoDup (gs_seq <$> g_closed g) /\ Forall (fun x => gs_seq x < gs_seq (g_act g)) (g_closed g).
Proof.
  intros Hg. pose proof (ok_seqs _ _ _ Hg) as Hs. unfold g_segs in Hs. rewrite fmap_app in Hs.
  apply StronglySorted_app in Hs as (Hlt & Hs & _). split; [by apply sorted_NoDup|].
  apply Forall_forall. intros x Hx. apply Hlt; [by apply list_elem_of_fmap_2|by left].
Qed.

Lemma sealed_map_closed g x :
  ghost_ok snap link g -> x ∈ g_closed g -> sealed_map g !! gs_seq x = Some (gs_line src x).
Proof.
  intros Hg Hx. unfold sealed_map, man_lines, g_old. rewrite fmap_app, by_seq_map_app.
  apply (by_seq_map_in _ _ (gs_line src x)); [|by apply list_elem_of_fmap_2].
  rewrite lines_seqs. by apply closed_seqs.
Qed.

Lemma sealed_map_act g : ghost_ok snap link g -> sealed_map g !! gs_seq (g_act g) = None.
Proof.
  intros Hg. unfold sealed_map. rewrite by_seq_map_notin; [apply lookup_empty|].
  unfold man_lines. rewrite lines_seqs. intros (x & Heq & [Hin|Hin]%elem_of_app)%list_elem_of_fmap.
  - pose proof (ok_gone_segs _ _ _ Hg x (g_act g) Hin (act_in_segs g)). lia.
  - pose proof (proj1 (Forall_forall _ _) (proj2 (closed_seqs g Hg)) x Hin). cbn in *. lia.
Qed.

(** ** loadManifest *)

(** The manifest is as it should be: whole lines. *)
Definition man_whole (g : ghost) (s : fs) : Prop :=
  match content s manifestName with
  | None => lines g = []
  | Some b => b = manifest_lines (lines g)
  end.

Lemma gs_line_ok x : gseg_ok snap link x -> line_ok (gs_line src x).
Proof.
  intros (Hq & _ & H0 & Hl & He). unfold gs_line, gs_entry. rewrite (gs_len_full snap link).
  pose proof (len_nonneg (gbytes x)). pose proof (len_nonneg (gs_recs x)). unfold gs_end in He.
  unfold len in He, H1. split.
  - unfold wf_segment, is_uint. cbn. split_and!; try apply Hq; lia.
  - apply length_Marshal_Segment. cbn [seg_File]. unfold gs_name, segmentName. rewrite !length_app, length_pad_dec.
    pose proof (length_dec src). change (length (str "src")) with 3%nat.
    change (length (str "-")) with 1%nat. change (length (str ".pcap")) with 5%nat. lia.
Qed.

Lemma lines_ok g : ghost_ok snap link g ->
  manifest_map (manifest_lines (lines g)) = sealed_map g.
Proof.
  intros Hg. apply manifest_map_whole. unfold man_lines, g_old. apply Forall_fmap, Forall_forall.
  intros x [Hx|Hx]%elem_of_app; apply gs_line_ok.
  - exact (proj1 (proj1 (Forall_forall _ _) (ok_gone _ _ _ Hg) x Hx)).
  - by apply (seg_ok snap link g), closed_in_segs.
Qed.

Lemma wp_loadManifest {X} g (x : X) s :
  ghost_ok snap link g -> fs_wf s -> man_whole g s ->
  wp F loadManifest (fun o x' s' => x' = x /\ idle s s' /\
    match o with
    | Ret l => l = segments_by_seq (sealed_map g)
    | Fail _ => False
    | Crashed => F FCrash
    end) x s.
Proof.
  intros Hg Hwf Hman. pose proof (idle_refl s Hwf) as Hid.
  assert (forall P : Prop, can_fail F -> P) as Hno by (intros P Hf; by apply HF in Hf).
  unfold loadManifest. apply wp_bind, wp_try, wp_sys; [by intros Hfc|intros Hf; by apply Hno|].
  unfold man_whole in Hman. unfold content in Hman.
  destruct (fs_dir s !! manifestName) as [ino|] eqn:En.
  - destruct (open_plain manifestName ino s false Hwf En) as (i & s1 & Hop & Hid1 & Hof & Hi & _).
    change (OFlags false false false false) with O_plain in Hop. rewrite Hop. cbn [bind_post].
    cbn in Hman. rewrite Hi in Hman. cbn in Hman.
    apply wp_bind, (wp_FileStream _ _ _ _ (Fdesc ino 0 false false) i); [apply Hof|apply Hof|done|intros n Hf; by apply Hno|].
    cbn [bind_post fd_pos]. apply wp_bind, wp_Close. cbn [bind_post]. apply wp_ret. split_and!; [done| |].
    + eapply idle_trans; [done|]. apply idle_close. by eapply idle_wf.
    + cbn [st_data]. rewrite drop_0, Hman. by rewrite lines_ok.
  - cbn in Hman. unfold open_call. rewrite En. cbn [O_CREATE O_plain bind_post].
    rewrite decide_True by done. apply wp_ret. split_and!; [done..|].
    unfold sealed_map. rewrite Hman. symmetry. apply segments_by_seq_nil.
Qed.

(** ** listSegmentFiles *)

(** The segments whose file exists. *)
Definition present (g : ghost) (s : fs) : list gseg :=
  g_closed g ++ match content s (gname (g_act g)) with Some _ => [g_act g] | None => [] end.

Lemma present_in g s x : x ∈ present g s -> x ∈ g_segs g.
Proof.
  unfold present, g_segs. rewrite !elem_of_app. intros [?|Hx]; [by left|right].
  by destruct (content s _); [|apply not_elem_of_nil in Hx].
Qed.

Lemma present_content g s x : disk g s -> x ∈ present g s -> content s (gname x) <> None.
Proof.
  intros [Hg Hinv] Hx. pose proof (present_in g s x Hx) as Hx'.
  pose proof (dir_content _ _ Hinv (gname x)) as Hsp.
  specialize (Hsp ltac:(by apply (segment_not_touched src), (gs_name_segment src snap link), (seg_ok snap link g))).
  unfold present in Hx. apply elem_of_app in Hx as [Hx|Hx].
  - by rewrite (sp_closed _ _ _ _ _ _ Hsp x Hx eq_refl).
  - destruct (content s (gname (g_act g))) eqn:E; [|by apply not_elem_of_nil in Hx].
    apply list_elem_of_singleton in Hx as ->. by rewrite E.
Qed.

(** A segment file belongs to the chain. *)
Lemma segment_file g s n :
  disk g s -> is_segment src n = true -> content s n <> None -> exists x, x ∈ present g s /\ n = gname x.
Proof.
  intros [Hg Hinv] Hs Hc. pose proof (dir_content _ _ Hinv n (segment_not_touched _ _ Hs)) as Hsp.
  destruct (decide (Exists (fun x => n = gname x) (g_segs g))) as [Hex|Hno].
  - apply Exists_exists in Hex as (x & Hx & ->). exists x. split; [|done]. unfold present.
    unfold g_segs in Hx. apply elem_of_app in Hx as [Hx| ->%list_elem_of_singleton]; rewrite elem_of_app; [by left|right].
    destruct (content s (gname (g_act g))); [by left|done].
  - exfalso. apply Hc, (sp_other _ _ _ _ _ _ Hsp Hs). intros x Hx ->. apply Hno, Exists_exists. eauto.
Qed.

Lemma content_dom s n : fs_wf s -> content s n <> None <-> n ∈ (map_to_list (fs_dir s)).*1.
Proof.
  intros Hwf. unfold content. rewrite list_elem_of_fmap. split.
  - intros Hc. destruct (fs_dir s !! n) as [ino|] eqn:E; [|done].
    exists (n, ino). split; [done|]. by apply elem_of_map_to_list.
  - intros ([n' ino] & -> & Hin%elem_of_map_to_list). cbn. rewrite Hin. cbn.
    destruct (wf_dirs s Hwf (fs_dir s) n' ino) as [_ [i Hi]]; [left|done|]. by rewrite Hi.
Qed.

Lemma NoDup_omap_inj {A B} (f : A -> option B) (l : list A) :
  NoDup l -> (forall a b c, a ∈ l -> b ∈ l -> f a = Some c -> f b = Some c -> a = b) -> NoDup (omap f l).
Proof.
  induction 1 as [|a l Ha Hnd IH]; intros Hf; [constructor|].
  assert (NoDup (omap f l)) as Hl.
  { apply IH. intros a' b' d H1 H2. apply Hf; by right. }
  cbn. destruct (f a) as [d|] eqn:E; [|done]. constructor; [|done].
  intros (b & Hb & Hfb)%list_elem_of_omap. apply Ha.
  rewrite (Hf a b d); [done|left|by right|done..].
Qed.

Lemma present_sorted g s : ghost_ok snap link g -> StronglySorted Z.lt (gs_seq <$> present g s).
Proof.
  intros Hg. pose proof (ok_seqs _ _ _ Hg) as Hs. unfold g_segs in Hs. unfold present.
  rewrite fmap_app in *. apply StronglySorted_app in Hs as (H1 & H2 & H3).
  destruct (content s _); [by apply StronglySorted_app_2|by rewrite app_nil_r].
Qed.

(** What [listSegmentFiles] returns. *)
Lemma segment_seqs_present g s :
  disk g s -> segment_seqs src (map_to_list (fs_dir s)).*1 = gs_seq <$> present g s.
Proof.
  intros Hd. pose proof Hd as [Hg Hinv]. pose proof (dir_wf _ _ Hinv) as Hwf.
  pose proof (present_sorted g s Hg) as Hsorted.
  unfold segment_seqs. set (f := fun n => if HasPrefix n _ then parseSegmentSeq n else None).
  assert (forall n q, n ∈ (map_to_list (fs_dir s)).*1 -> f n = Some q ->
    exists x, x ∈ present g s /\ n = gname x /\ q = gs_seq x) as Hf.
  { intros n q Hn Hq. subst f. cbn beta in Hq. destruct (HasPrefix n _) eqn:Hp; [|done].
    destruct (segment_file g s n Hd) as (x & Hx & Heq); [|by apply content_dom|].
    - unfold is_segment. rewrite Hp, Hq. by rewrite bool_decide_eq_true_2 by eauto.
    - exists x. split_and!; [done..|]. subst n. unfold gs_name in Hq. rewrite parseSegmentSeq_segmentName in Hq; [congruence|].
      by apply (seg_ok snap link g); [|eapply present_in]. }
  assert (forall x, x ∈ present g s -> f (gname x) = Some (gs_seq x)) as Hfx.
  { intros x Hx. pose proof (present_in g s x Hx) as Hx'. subst f. cbn beta.
    pose proof (seg_ok snap link g x Hg Hx') as Hxo.
    pose proof (gs_name_segment src snap link x Hxo) as Hseg. unfold is_segment in Hseg.
    apply andb_true_iff in Hseg as [-> _]. unfold gs_name. by rewrite parseSegmentSeq_segmentName by apply Hxo. }
  assert (omap f (map_to_list (fs_dir s)).*1 ≡ₚ gs_seq <$> present g s) as Hperm.
  { apply NoDup_Permutation.
    - apply NoDup_omap_inj; [apply NoDup_fst_map_to_list|]. intros a b q Ha Hb Hqa Hqb.
      destruct (Hf a q Ha Hqa) as (x & _ & -> & Hx). destruct (Hf b q Hb Hqb) as (y & _ & -> & Hy).
      unfold gs_name. congruence.
    - by apply sorted_NoDup.
    - intros q. rewrite list_elem_of_omap, list_elem_of_fmap. split.
      + intros (n & Hn & Hq). destruct (Hf n q Hn Hq) as (x & Hx & _ & ->). eauto.
      + intros (x & -> & Hx). exists (gname x). split; [|by apply Hfx].
        apply content_dom; [done|]. by eapply present_content. }
  apply (StronglySorted_unique Z.le).
  - apply StronglySorted_merge_sort; apply _.
  - clear -Hsorted. induction Hsorted as [|q l _ IH Hq]; constructor; [done|].
    eapply Forall_impl; [exact Hq|]. cbn. intros; lia.
  - by rewrite merge_sort_Permutation.
Qed.
(** ** The loop over the sealed segments *)

Lemma gs_line_end x : seg_EndGpidx (gs_line src x) = gs_end x.
Proof. done. Qed.

(** Sealed segments are taken over one after the other. *)
Lemma recover_loop_sealed {X} sealedBySeq l start rest sm oldest :
  (forall x, x ∈ l -> sealedBySeq !! gs_seq x = Some (gs_line src x)) -> contiguous start l ->
  forall x w,
    recover_loop (X := X) src snap link sealedBySeq ((gs_seq <$> l) ++ rest) start true
      (mkRecovered sm [] None 0 0 oldest link snap) (x, w) =
    recover_loop src snap link sealedBySeq rest (foldl (fun _ => gs_end) start l) true
      (mkRecovered (by_seq_map (gs_line src <$> l) sm) [] None 0 0 oldest link snap) (x, w).
Proof.
  revert start sm; induction l as [|y l IH]; intros start sm Hl Hc; [done|].
  destruct Hc as [Hy Hc]. intros x w. cbn [fmap list_fmap app recover_loop foldl]. rewrite (Hl y) by left.
  change (seg_StartGpidx (gs_line src y)) with (gs_start y). rewrite Hy, Z.eqb_refl. cbn [negb].
  rewrite gs_line_end, IH; [done| |done]. intros z Hz. apply Hl. by right.
Qed.

(** The whole prefix of sealed segments, from the start of [recoverSpool]. *)
Lemma recover_loop_closed {X} g rest :
  ghost_ok snap link g ->
  forall x w,
    recover_loop (X := X) src snap link (sealed_map g) ((gs_seq <$> g_closed g) ++ rest) 0 false
      (mkRecovered ∅ [] None 0 0 0 link snap) (x, w) =
    recover_loop src snap link (sealed_map g) rest (gs_start (g_act g)) (bool_decide (g_closed g <> []))
      (mkRecovered (by_seq_map (gs_line src <$> g_closed g) ∅) [] None 0 0 (base g) link snap) (x, w).
Proof.
  intros Hg. pose proof (fun x => sealed_map_closed g x Hg) as Hm.
  pose proof (ok_base _ _ _ Hg) as Hb. destruct (ok_chain _ _ _ Hg) as [start Hc].
  unfold g_segs in Hc. apply contiguous_app in Hc as [Hc [Hact _]].
  destruct (g_closed g) as [|y l] eqn:E.
  - intros x w. destruct Hb as [?|[Hb _]]; [done|]. unfold base, g_segs. rewrite E. cbn [app].
    by rewrite Hb, bool_decide_eq_false_2 by (intros H; by apply H).
  - destruct Hc as [Hy Hc]. cbn [fmap list_fmap app recover_loop]. intros x w.
    pose proof (recover_loop_sealed (X := X) (sealed_map g) l (gs_end y) rest (<[gs_seq y := gs_line src y]> ∅)
      (gs_start y) ltac:(intros z Hz; apply Hm; by right) Hc x w) as Hsm. rewrite (Hm y) by left.
    change (seg_StartGpidx (gs_line src y)) with (gs_start y). rewrite Z.eqb_refl. cbn [negb].
    rewrite gs_line_end, Hsm, bool_decide_eq_true_2 by done. unfold base, g_segs. rewrite E. cbn [app].
    f_equal. by rewrite Hact.
Qed.

(** ** Scanning the active segment *)

Definition gs_cut (k : nat) (x : gseg) : gseg := GSeg (gs_seq x) (gs_start x) (take k (gs_recs x)).

(** The active segment keeps its first [k] packets, all of them durable. *)
Definition g_cut (k : nat) (g : ghost) : ghost :=
  Ghost (g_gone g) (g_closed g) (gs_cut k (g_act g)) k false false false (g_nomanifest g).

Lemma gs_len_cut x j k : (j <= k)%nat -> gs_len (gs_cut k x) j = gs_len x j.
Proof. intros Hj. unfold gs_len, gs_cut. cbn [gs_recs]. by rewrite take_take, Nat.min_l. Qed.

Lemma gs_entry_cut b x j k : (j <= k)%nat -> gs_entry src b j (gs_cut k x) = gs_entry src b j x.
Proof. intros Hj. unfold gs_entry. by rewrite gs_len_cut. Qed.

Lemma len_gs_cut x k : (k <= length (gs_recs x))%nat -> len (gbytes (gs_cut k x)) = gs_len x k.
Proof.
  intros Hk. rewrite <-(gs_len_full snap link), <-(gs_len_cut x k k) by lia. f_equal.
  unfold gs_cut. cbn. rewrite length_take. lia.
Qed.

Lemma gs_cut_prefix x k : gbytes (gs_cut k x) `prefix_of` gbytes x.
Proof.
  unfold gs_bytes. apply prefix_app. unfold gs_cut. cbn [gs_recs].
  rewrite (enc_records_take_drop k (gs_recs x)). by apply prefix_app_r.
Qed.

Lemma ghost_ok_cut k g : ghost_ok snap link g -> (k <= length (gs_recs (g_act g)))%nat -> ghost_ok snap link (g_cut k g).
Proof.
  intros [Hs Hg [st Hc] Hb Hk Hr Ha Hp Hne Hgo Hgs] Hle.
  assert (g_segs (g_cut k g) = g_closed g ++ [gs_cut k (g_act g)]) as Hsegs by done.
  split; try done; rewrite ?Hsegs.
  - unfold g_segs in Hs. rewrite fmap_app in *. exact Hs.
  - unfold g_segs in Hg. apply Forall_app in Hg as [Hg1 Hg2]. apply Forall_app. split; [done|].
    apply Forall_singleton. apply Forall_singleton in Hg2 as (Hq & Hrs & H0 & Hl & He).
    pose proof (gs_len_le (g_act g) k _ Hle) as Hll. rewrite (gs_len_full snap link) in Hll.
    unfold gseg_ok. rewrite len_gs_cut by done. split_and!; [done|by apply Forall_take|done|lia|].
    unfold gs_end, gs_cut in *. cbn. unfold len in *. rewrite length_take. lia.
  - exists st. unfold g_segs in Hc. apply contiguous_app in Hc as [Hc1 [Hc2 _]].
    apply contiguous_app. split; [done|]. cbn. done.
  - cbn. rewrite length_take. lia.
  - intros x y Hx' Hy. apply elem_of_app in Hy as [Hy| ->%list_elem_of_singleton].
    + apply Hgs; [done|]. by apply closed_in_segs.
    + apply (Hgs x (g_act g)); [done|]. apply act_in_segs.
Qed.

(** The state a recovered spool is in. *)
Lemma disk_cut g s k :
  disk g s -> quiet s -> g_pend g = false -> (g_sync g <= k <= length (gs_recs (g_act g)))%nat ->
  content s (gname (g_act g)) = Some (gbytes (gs_cut k (g_act g))) -> disk (g_cut k g) s.
Proof.
  intros [Hg Hinv] Hq Hp [Hk1 Hk2] Hc. split; [by apply ghost_ok_cut|].
  apply (dir_quiet headName false _ _ _ _ _ Hinv Hq).
  - intros n Hn. apply spec_change; [done..| |].
    + intros -> _. rewrite Hc. split; [done|]. right. cbn [g_cut g_act g_sync].
      rewrite gs_len_cut, len_gs_cut by lia. done.
    + intros -> . destruct (content s manifestName) as [b|]; cbn; [|done].
      intros (p & -> & [->|[? _]]); [|congruence]. exists []. split; [done|by left].
  - intros b. apply head_spec_mono. intros seg (x & j & -> & [?|(-> & Hj & ? & ?)]).
    + exists x, j. split; [done|by left].
    + exists (gs_cut k (g_act g)), j. rewrite gs_entry_cut by lia. split; [done|]. right. cbn. split_and!; [done|lia|done..].
Qed.
(** What contents of the active segment are acceptable. *)
Lemma act_survives g i :
  (forall v, v ∈ i_data i :: i_old i -> v `prefix_of` gbytes (g_act g)) ->
  g_raw g = true \/ gs_len (g_act g) (g_sync g) <= Z.of_nat (i_floor i) ->
  survives i (fun b => act_spec snap link g (Some b)).
Proof.
  intros Hp Hf b v Hv Hb Hl. split; [etrans; [exact Hb|by apply Hp]|].
  destruct Hf as [?|Hf]; [by left|right]. unfold len. lia.
Qed.

(** A change of the active segment's file that keeps its contents acceptable. *)
Lemma act_edit g s ino i' f :
  disk g s -> fs_dir s !! gname (g_act g) = Some ino -> fs_olddirs s = [] -> inode_ok i' ->
  (forall fd d, f (fs_fds s) !! fd = Some d -> (fd < fs_next s)%nat) ->
  survives i' (fun b => act_spec snap link g (Some b)) ->
  disk g (set_fds f (set_inodes <[ino := i']> s)).
Proof.
  intros [Hg Hinv] Hn Ho Hi Hf Hs. split; [done|].
  eapply (dir_edit headName false Hinv); try done.
  - by eapply act_not_touched.
  - intros d Hd. left. unfold versions in Hd. rewrite Ho in Hd. by apply list_elem_of_singleton in Hd as ->.
  - eapply survives_mono; [exact Hs|]. intros b. by apply spec_act_intro.
Qed.

(** The result of a scan that repaired the segment. *)
Definition scanned (g : ghost) (s s' : fs) (k : nat) : Prop :=
  (g_sync g <= k <= length (gs_recs (g_act g)))%nat /\ disk (g_cut k g) s' /\ quiet s' /\
  content s' (gname (g_act g)) = Some (gbytes (gs_cut k (g_act g))) /\
  fs_dir s' = fs_dir s /\ content s' manifestName = content s manifestName.

Lemma quiet_settle s s' ino i :
  quiet s -> settled i -> fs_olddirs s' = [] -> fs_dir s' = fs_dir s ->
  fs_inodes s' = <[ino := i]> (fs_inodes s) -> quiet s'.
Proof.
  intros [Ho Hq] Hi Ho' Hd Hs. split; [done|]. rewrite Hs, Hd. intros n j k Hn.
  rewrite lookup_insert. case_decide; [by intros [= <-]|by eapply Hq].
Qed.

(** The repaired file, once it is synced. *)
Lemma scanned_intro g s s' ino i k :
  disk g s -> quiet s -> g_pend g = false -> (g_sync g <= k <= length (gs_recs (g_act g)))%nat ->
  disk g s' -> fs_dir s !! gname (g_act g) = Some ino -> settled i ->
  i_data i = gbytes (gs_cut k (g_act g)) ->
  fs_olddirs s' = [] -> fs_dir s' = fs_dir s -> fs_inodes s' = <[ino := i]> (fs_inodes s) ->
  scanned g s s' k.
Proof.
  intros Hd Hq Hp Hk Hd' Hn Hi Hdat Ho Hdir Hino.
  assert (content s' (gname (g_act g)) = Some (gbytes (gs_cut k (g_act g)))) as Hc.
  { unfold content. rewrite Hdir, Hn. cbn. rewrite Hino, lookup_insert_eq. cbn. by rewrite Hdat. }
  assert (quiet s') as Hq' by (by eapply (quiet_settle s)).
  split_and!; try done; [by apply Hk|by apply Hk|by apply disk_cut|].
  unfold content. rewrite Hdir, Hino. destruct (fs_dir s !! manifestName) as [j|] eqn:E; cbn; [|done].
  rewrite lookup_insert_ne; [done|]. intros ->.
  destruct Hd as [Hg Hinv].
  destruct (di_private _ _ _ _ _ Hinv (fs_dir s) (fs_dir s) (gname (g_act g)) manifestName j) as [Hx|[Hx _]];
    [left|left|done..| |].
  - by eapply act_not_manifest.
  - by eapply act_not_touched.
Qed.

Lemma scanned_idle g s s' s'' k : scanned g s s' k -> idle s' s'' -> scanned g s s'' k.
Proof.
  intros (Hk & [Hg Hd] & Hq & Hc & Hdir & Hm) Hid. split_and!; try done; try apply Hk.
  - split; [done|]. by eapply dir_idle.
  - by eapply idle_quiet.
  - by rewrite (idle_content _ _ _ Hid).
  - by rewrite (id_dir _ _ Hid).
  - by rewrite (idle_content _ _ _ Hid).
Qed.
Lemma no_failure (P : Prop) : can_fail F -> P.
Proof. intros Hf. by apply HF in Hf. Qed.

Lemma overwrite_nil buf : overwrite 0 buf [] = buf.
Proof. unfold overwrite. cbn. by rewrite drop_nil, app_nil_r. Qed.

(** A header that did not reach the disk is written anew. *)
Lemma wp_resetSegment {X} g (x : X) s0 s fd i :
  disk g s0 -> quiet s0 -> idle s0 s -> g_pend g = false -> g_raw g = true ->
  open_file s (gname (g_act g)) fd (Fdesc (fd_ino (Fdesc i 0 false false)) 0 false false)
    (default empty_inode (fs_inodes s0 !! i)) ->
  fs_inodes s0 !! i <> None ->
  wp F (resetSegment fd snap link) (fun o x' s' => x' = x /\
    match o with
    | Ret r => r = (0, 0) /\ scanned g s0 s' 0
    | Fail _ => False
    | Crashed => F FCrash /\ disk g s'
    end) x s.
Proof.
  intros Hd Hq Hid Hp Hr Hof Hsome. cbn [fd_ino] in Hof.
  destruct (fs_inodes s0 !! i) as [i0|] eqn:Ei; [|done]. cbn [default] in Hof. clear Hsome.
  pose proof Hd as [Hg Hinv]. pose proof (ok_raw _ _ _ Hg Hr) as Hrecs.
  assert (gbytes (g_act g) = gh_bytes snap link) as Hgb.
  { unfold gs_bytes. by rewrite Hrecs, enc_records_nil, app_nil_r. }
  assert (disk g s) as Hds by (split; [done|by eapply dir_idle]).
  destruct (open_file_ok headName false (proj2 Hds) _ _ _ _ Hof) as [Hio Hfd].
  pose proof (open_survives headName false (proj2 Hds) _ _ _ _ Hof (act_not_touched _ _ _ _ Hg)) as Hsv.
  apply spec_act_survives in Hsv.
  assert (forall v, v ∈ i_data i0 :: i_old i0 -> v `prefix_of` gh_bytes snap link) as Hpre.
  { intros v Hv. rewrite <-Hgb. by apply (Hsv v v Hv); [|apply Hio]. }
  destruct Hof as [Hl Hf Hi]. cbn [fd_ino] in *.
  assert (fs_olddirs s = []) as Ho by (rewrite (id_olddirs _ _ Hid); apply Hq).
  set (i1 := inode_truncate 0 i0).
  set (i2 := inode_set (gh_bytes snap link) (i_floor i1) i1).
  set (i3 := inode_sync i2).
  assert (inode_ok i1) as Hok1 by (by apply inode_ok_truncate).
  assert (inode_ok i2) as Hok2 by (apply inode_ok_set; [done|done|cbn; lia]).
  assert (forall v, v ∈ i_data i1 :: i_old i1 -> v `prefix_of` gh_bytes snap link) as Hpre1.
  { intros v [->|Hv]%elem_of_cons; [apply prefix_nil|by apply Hpre]. }
  assert (forall v, v ∈ i_data i2 :: i_old i2 -> v `prefix_of` gh_bytes snap link) as Hpre2.
  { intros v [->|Hv]%elem_of_cons; [done|by apply Hpre1]. }
  assert (forall ii f, inode_ok ii -> (forall v, v ∈ i_data ii :: i_old ii -> v `prefix_of` gh_bytes snap link) ->
    (forall fd d, f (fs_fds s) !! fd = Some d -> (fd < fs_next s)%nat) ->
    disk g (set_fds f (set_inodes <[i := ii]> s))) as Hedit.
  { intros ii f Hok Hv Hff. apply act_edit; try done. apply act_survives; [by rewrite Hgb|by left]. }
  assert (forall d' fd' d, <[fd := d']> (fs_fds s) !! fd' = Some d -> (fd' < fs_next s)%nat) as Hfds.
  { intros d' fd' d. rewrite lookup_insert. case_decide; [intros _; by subst|]. apply wf_fds, Hds. }
  assert (forall fd' d, fs_fds s !! fd' = Some d -> (fd' < fs_next s)%nat) as Hfds0 by (apply wf_fds, Hds).
  unfold resetSegment.
  apply wp_bind, wp_sys; [intros Hfc; split; [done|split; [done|done]]|intros Hff; by apply no_failure|].
  unfold with_fd. rewrite Hf. cbn [fd_ino]. rewrite Hi. cbn [Z.ltb Z.compare bind_post].
  change (Z.to_nat 0) with 0%nat. fold i1.
  apply wp_bind, wp_sys; [intros Hfc; split; [done|split; [done|exact (Hedit i1 (fun m => m) Hok1 Hpre1 Hfds0)]]|intros Hff; by apply no_failure|].
  unfold with_fd. cbn [fs_fds set_inodes fs_inodes fd_ino]. rewrite Hf. cbn [fd_ino]. rewrite lookup_insert_eq.
  cbn [Z.ltb Z.compare bind_post fd_append fd_shared]. change (Z.to_nat 0) with 0%nat.
  set (d0 := Fdesc i 0 false false).
  apply wp_bind, (wp_Write _ _ _ _ _ d0 i1); [cbn; apply lookup_insert_eq|cbn; apply lookup_insert_eq|
    intros Hfc; split; [done|split; [done|exact (Hedit i1 (fun m => <[fd := d0]> m) Hok1 Hpre1 (Hfds d0))]]|intros Hff; by apply no_failure|intros n Hff; by apply no_failure|].
  cbn [bind_post]. unfold write_fs. cbn [fd_append fd_pos d0 fd_ino]. change (i_data i1) with (@nil byte).
  change (GlobalHeader_AppendTo (mkGlobalHeader snap link) []) with (gh_bytes snap link).
  rewrite overwrite_nil. fold i2.
  unfold set_fds, set_inodes. cbn [fs_inodes fs_fds fs_dir fs_olddirs fs_next]. rewrite insert_insert_eq.
  rewrite insert_insert_eq.
  apply wp_bind, wp_sys; [intros Hfc; split; [done|split; [done|exact (Hedit i2 (fun m => <[fd := _]> m) Hok2 Hpre2 (Hfds _))]]|intros Hff; by apply no_failure|].
  unfold with_fd. cbn [fs_fds fs_inodes]. rewrite lookup_insert_eq. cbn [fd_ino]. rewrite lookup_insert_eq.
  cbn [bind_post]. apply wp_ret. split; [done|]. split; [done|].
  unfold set_fds, set_inodes. cbn [fs_inodes fs_fds fs_dir fs_olddirs fs_next]. rewrite insert_insert_eq. fold i3.
  eapply (scanned_intro g s0 _ i i3 0); try done.
  - pose proof (ok_sync _ _ _ Hg) as Hk. rewrite Hrecs in Hk. cbn in Hk. lia.
  - apply (Hedit i3 (fun m => <[fd := _]> m)); [apply inode_ok_sync| |apply Hfds].
    by intros v ->%list_elem_of_singleton.
  - by rewrite <-(id_dir _ _ Hid).
  - cbn. by rewrite (id_dir _ _ Hid).
  - cbn. by rewrite (id_inodes _ _ Hid).
Qed.
(** The configuration fits the file format. *)
Definition config_ok : Prop := is_uint 32 snap /\ is_uint 32 link.

Definition scan_post {X} (g : ghost) (s : fs) (x : X) (o : outcome (Z * Z)) (x' : X) (s' : fs) : Prop :=
  x' = x /\
  match o with
  | Ret (v, n) => exists k, n = Z.of_nat k /\ GlobalHeaderLen + v = gs_len (g_act g) k /\ scanned g s s' k
  | Fail _ => False
  | Crashed => F FCrash /\ disk g s'
  end.

(** Cutting the torn tail off. *)
Lemma wp_repair {X} g (x : X) s0 s fd i d k (v n : Z) :
  disk g s0 -> quiet s0 -> idle s0 s -> g_pend g = false ->
  (g_sync g <= k <= length (gs_recs (g_act g)))%nat -> n = Z.of_nat k ->
  GlobalHeaderLen + v = gs_len (g_act g) k ->
  open_file s (gname (g_act g)) fd d i -> gbytes (gs_cut k (g_act g)) `prefix_of` i_data i ->
  let want := gs_len (g_act g) k in
  wp F (if true && negb (len (i_data i) =? want)
      then Truncate fd want ;; Fdatasync fd ;; mret (v, n) else mret (v, n)) (scan_post g s0 x) x s.
Proof.
  intros Hd Hq Hid Hp Hk Hn Hv Hof Hpre. cbv zeta. pose proof Hd as [Hg Hinv].
  assert (len (gbytes (gs_cut k (g_act g))) = gs_len (g_act g) k) as Hlen by (apply len_gs_cut, Hk).
  assert (disk g s) as Hds by (split; [done|by eapply dir_idle]).
  pose proof Hof as [Hl Hf Hi].
  assert (fs_dir s0 !! gname (g_act g) = Some (fd_ino d)) as Hl0 by (rewrite <-(id_dir _ _ Hid); exact Hl).
  assert (fs_inodes s0 !! fd_ino d = Some i) as Hi0 by (rewrite <-(id_inodes _ _ Hid); exact Hi).
  assert (settled i) as Hset by exact (proj2 Hq _ _ _ Hl0 Hi0).
  pose proof (prefix_length _ _ Hpre) as Hple.
  destruct (Z.eqb_spec (len (i_data i)) (gs_len (g_act g) k)) as [Heq|Hne]; cbn [andb negb].
  - apply wp_ret. split; [done|]. exists k. split_and!; try done.
    apply (scanned_intro g s0 s (fd_ino d) i k); try done.
    + symmetry. apply prefix_length_eq; [done|]. unfold len in *. lia.
    + rewrite (id_olddirs _ _ Hid). apply Hq.
    + apply Hid.
    + rewrite insert_id by done. apply Hid.
  - set (want := gs_len (g_act g) k) in *.
    assert (24 <= want) as Hw by (apply gs_len_nonneg).
    set (i1 := inode_truncate (Z.to_nat want) i).
    assert (i_data i1 = gbytes (gs_cut k (g_act g))) as Hd1.
    { cbn. destruct Hpre as [r Hr]. unfold len in *. rewrite Hr in Hple |- *. rewrite length_app in *.
      rewrite take_app_le by lia. rewrite firstn_all2 by lia.
      replace (Z.to_nat want - (length (gbytes (gs_cut k (g_act g))) + length r))%nat with 0%nat by lia.
      apply app_nil_r. }
    destruct (open_file_ok headName false (proj2 Hds) _ _ _ _ Hof) as [Hio Hfd].
    assert (inode_ok i1) as Hio1 by (by apply inode_ok_truncate).
    assert (fs_olddirs s = []) as Ho by (rewrite (id_olddirs _ _ Hid); apply Hq).
    assert (forall fd' d, fs_fds s !! fd' = Some d -> (fd' < fs_next s)%nat) as Hfds0 by (apply wf_fds, Hds).
    pose proof (open_survives headName false (proj2 Hds) _ _ _ _ Hof (act_not_touched _ _ _ _ Hg)) as Hsv.
    apply spec_act_survives in Hsv.
    assert (i_data i `prefix_of` gbytes (g_act g)) as Hpa by (by apply (Hsv (i_data i) (i_data i)); [left|..|apply Hio; left]).
    assert (gs_len (g_act g) (g_sync g) <= want) as Hsw by (apply gs_len_le, Hk).
    assert (disk g (set_inodes <[fd_ino d := i1]> s)) as Hd1'.
    { apply (act_edit g s (fd_ino d) i1 (fun m => m)); try done. apply act_survives.
      - destruct Hset as [Hold _]. cbn [i1 inode_truncate inode_set i_data i_old].
        change (take (Z.to_nat want) (i_data i) ++ replicate (Z.to_nat want - length (i_data i)) x00) with (i_data i1).
        rewrite Hd1, Hold. intros u [->|Hu]%elem_of_cons; [apply gs_cut_prefix|].
        by apply list_elem_of_singleton in Hu as ->.
      - right. destruct Hset as [_ Hfl]. cbn. rewrite Hfl. unfold len in *. lia. }
    apply wp_bind, wp_sys; [intros Hfc; split; [done|split; [done|done]]|intros Hff; by apply no_failure|].
    rewrite (open_file_with_fd _ _ _ _ _ _ Hof). destruct (Z.ltb_spec want 0); [lia|]. cbn [bind_post]. fold i1.
    apply wp_bind, wp_sys; [intros Hfc; split; [done|split; [done|done]]|intros Hff; by apply no_failure|].
    rewrite (open_file_with_fd _ _ _ _ _ _ (open_edit_inode _ _ _ _ _ i1 Hof)). cbn [bind_post]. apply wp_ret.
    split; [done|]. exists k. split_and!; [done..|].
    unfold set_inodes. cbn [fs_inodes fs_fds fs_dir fs_olddirs fs_next]. rewrite insert_insert_eq.
    eapply (scanned_intro g s0 _ (fd_ino d) (inode_sync i1) k); try done.
    + apply (act_edit g s (fd_ino d) (inode_sync i1) (fun m => m)); try done; [apply inode_ok_sync|].
      apply act_survives.
      * intros u ->%list_elem_of_singleton. change (i_data (inode_sync i1)) with (i_data i1).
        rewrite Hd1. apply gs_cut_prefix.
      * right. change (i_floor (inode_sync i1)) with (length (i_data i1)). rewrite Hd1. unfold len in Hlen. lia.
    + apply Hid.
    + cbn. by rewrite (id_inodes _ _ Hid).
Qed.
Lemma wp_with_close {X A} (fd : nat) (body : M X A) (Φ : outcome A -> X -> fs -> Prop) x s :
  wp F body (fun o x' s' =>
    match o with Crashed => Φ Crashed x' s' | _ => Φ o x' (set_fds (delete fd) s') end) x s ->
  wp F (with_close fd body) Φ x s.
Proof.
  intros H. apply wp_bind, wp_try. eapply wp_mono; [exact H|].
  intros [a|e|] x' s' Ho; cbn; [| |done].
  - apply wp_bind, wp_Close. by apply wp_ret.
  - apply wp_bind, wp_Close. by apply wp_fail.
Qed.

Lemma scan_post_close {X} g s (x : X) o x' s' fd :
  scan_post g s x o x' s' ->
  match o with Crashed => scan_post g s x Crashed x' s'
             | _ => scan_post g s x o x' (set_fds (delete fd) s') end.
Proof.
  destruct o as [[v n]|e|]; [|done..]. intros [Hx (k & Hn & Hv & Hs)]. split; [done|].
  exists k. split_and!; [done..|]. eapply scanned_idle; [done|]. apply idle_close.
  destruct Hs as (_ & [_ Hd] & _). apply Hd.
Qed.

Lemma whole_records_prefix recs m :
  exists t, take m (enc_records recs) = enc_records (take (whole_records recs m) recs) ++ t.
Proof.
  revert m. induction recs as [|x l IH]; intros m.
  - exists []. by rewrite enc_records_nil, take_nil.
  - cbn [whole_records]. rewrite enc_records_cons.
    destruct (Nat.ltb_spec m (length (PcapRecord_bytes x))) as [Hlt|Hge].
    { exists (take m (PcapRecord_bytes x)). rewrite take_app_le by lia. done. }
    destruct (IH (m - length (PcapRecord_bytes x))%nat) as [t Ht]. exists t.
    rewrite take_app_ge, Ht by lia. cbn [take]. by rewrite enc_records_cons, <-app_assoc.
Qed.

(** The records of a segment whose file was cut. *)
Lemma cut_file g (b : list byte) :
  ghost_ok snap link g -> b `prefix_of` gbytes (g_act g) -> GlobalHeaderLen <= len b ->
  exists m, b = gh_bytes snap link ++ take m (enc_records (gs_recs (g_act g))) /\
    let k := whole_records (gs_recs (g_act g)) m in
    gbytes (gs_cut k (g_act g)) `prefix_of` b /\ (k <= length (gs_recs (g_act g)))%nat /\
    (gs_len (g_act g) (g_sync g) <= len b -> (g_sync g <= k)%nat).
Proof.
  intros Hg [r Hr] Hl. set (recs := gs_recs (g_act g)) in *. unfold gs_bytes in Hr. fold recs in Hr.
  assert (length (gh_bytes snap link) = 24%nat) as Hgh by apply length_GlobalHeader_bytes.
  unfold len, GlobalHeaderLen in Hl.
  assert (b = gh_bytes snap link ++ take (length b - 24) (enc_records recs)) as Hb.
  { apply (f_equal (take (length b))) in Hr. rewrite take_app_length in Hr. rewrite <-Hr.
    rewrite length_take_le by (rewrite length_app; apply (f_equal length) in Hr; rewrite !length_take, length_app in Hr; lia).
    rewrite take_app_ge by lia. by rewrite Hgh. }
  exists (length b - 24)%nat. split; [done|].
  set (m := (length b - 24)%nat) in *. set (k := whole_records recs m). cbv zeta.
  destruct (act_ok snap link g Hg) as (_ & _ & _ & Hlen & _).
  split_and!.
  - rewrite Hb. unfold gs_bytes. apply prefix_app. unfold gs_cut. cbn [gs_recs]. fold recs.
    destruct (whole_records_prefix recs m) as [t ->]. by apply prefix_app_r.
  - apply whole_records_le.
  - intros Hs. apply whole_records_lower; [|apply (ok_sync _ _ _ Hg)].
    unfold gs_len in Hs. fold recs in Hs. unfold len, GlobalHeaderLen in Hs. lia.
Qed.

Lemma wp_scanSegment {X} g (x : X) s b :
  disk g s -> quiet s -> g_pend g = false -> config_ok -> content s (gname (g_act g)) = Some b ->
  wp F (scanSegment src (gs_seq (g_act g)) snap link true) (scan_post g s x) x s.
Proof.
  intros Hd Hq Hp [Hsn Hli] Hb. pose proof Hd as [Hg Hinv]. pose proof (dir_wf _ _ Hinv) as Hwf.
  destruct (fs_dir s !! gname (g_act g)) as [ino|] eqn:En; [|by unfold content in Hb; rewrite En in Hb].
  unfold scanSegment. change (segmentName src (gs_seq (g_act g))) with (gname (g_act g)).
  apply wp_bind, wp_sys; [intros Hfc; split; [done|split; [done|done]]|intros Hff; by apply no_failure|].
  destruct (open_plain (gname (g_act g)) ino s false Hwf En) as (i & s1 & Hop & Hid & Hof & Hi & Hc).
  change (OFlags false false false false) with O_plain in Hop. rewrite Hop. cbn [bind_post].
  rewrite Hc in Hb. injection Hb as Hb. subst b.
  apply wp_with_close. eapply wp_mono; [|intros o x' s'; apply scan_post_close].
  assert (disk g s1) as Hd1 by (split; [done|by eapply dir_idle]).
  apply wp_bind, wp_sys; [intros Hfc; split; [done|split; [done|done]]|intros Hff; by apply no_failure|].
  rewrite (open_file_with_fd _ _ _ _ _ _ Hof). cbn [bind_post].
  pose proof (dir_content _ _ Hinv (gname (g_act g)) (act_not_touched _ _ _ _ Hg)) as Hact.
  rewrite Hc in Hact. apply (sp_act _ _ _ _ _ _) in Hact as Ha; [|done]. destruct Ha as [Hpre Hfl].
  destruct (Z.ltb_spec (len (i_data i)) GlobalHeaderLen) as [Hlt|Hge].
  - assert (g_raw g = true) as Hr.
    { destruct Hfl as [?|Hfl]; [done|]. pose proof (gs_len_nonneg (g_act g) (g_sync g)). lia. }
    eapply wp_mono; [apply (wp_resetSegment g x s s1 (fs_next s) ino)|]; try done; [by rewrite Hi|by rewrite Hi|].
    intros [[v n]|e|] x' s' [-> H]; (split; [done|]); [|done..].
    destruct H as [[= -> ->] Hsc]. exists 0%nat. done.
  - destruct (cut_file g (i_data i) Hg Hpre Hge) as (m & Hm & Hcut & Hk & Hks).
    set (k := whole_records (gs_recs (g_act g)) m) in *.
    assert (g_sync g <= k)%nat as Hsk.
    { destruct Hfl as [Hr|Hfl]; [|by apply Hks]. pose proof (ok_sync _ _ _ Hg) as H.
      rewrite (ok_raw _ _ _ Hg Hr) in H. cbn in H. lia. }
    apply wp_bind, (wp_FileStream _ _ _ _ (Fdesc ino 0 false false) i); [apply Hof|apply Hof|done|intros n Hff; by apply no_failure|].
    cbn [bind_post fd_pos]. rewrite drop_0.
    replace (i_data i) with (gh_bytes snap link ++ take m (enc_records (gs_recs (g_act g)))) at 1 by done.
    rewrite ReadFull_app by apply length_GlobalHeader_bytes.
    unfold gh_bytes. rewrite <-(app_nil_r (GlobalHeader_bytes _)), ParseGlobalHeader_app by done.
    destruct (act_ok snap link g Hg) as (_ & Hrecs & _ & Hlen & _).
    pose proof (gs_len_le (g_act g) k _ Hk) as Hlk. rewrite (gs_len_full snap link) in Hlk.
    rewrite ScanRecords_prefix by (done || (unfold gs_bytes in Hlen; rewrite len_app in Hlen;
      pose proof (len_nonneg (gh_bytes snap link)); lia)).
    fold k. fold (gs_len (g_act g) k). rewrite i64_small by (pose proof (gs_len_nonneg (g_act g) k); unfold GlobalHeaderLen in *; lia).
    by apply (wp_repair g x s s1 (fs_next s) i (Fdesc ino 0 false false) k).
Qed.
(** ** recoverSpool *)

Lemma wp_bind_ext {X A B} (m m' : M X A) (k : A -> M X B) Φ x s :
  (forall x w, m (x, w) = m' (x, w)) -> wp F (m' ≫= k) Φ x s -> wp F (m ≫= k) Φ x s.
Proof. intros He H fl ck rn Hfl. specialize (H fl ck rn Hfl). unfold mbind, M_bind in *. by rewrite He. Qed.

(** The number of the segment that recovery would create. *)
Definition fresh_seq (g : ghost) : Z :=
  match last (g_closed g) with Some x => gs_seq x + 1 | None => 0 end.

Definition recovered_post (g : ghost) (s : fs) (r : recovered) (s' : fs) : Prop :=
  rc_reseal r = [] /\ rc_sealed r = by_seq_map (gs_line src <$> g_closed g) ∅ /\ rc_oldestGpidx r = base g /\
  match content s (gname (g_act g)) with
  | None => idle s s' /\ rc_active r = None /\ rc_head r = gs_start (g_act g) /\ rc_nextSeq r = fresh_seq g
  | Some _ => exists k, scanned g s s' k /\ rc_active r = Some (gs_entry src false k (g_act g)) /\
      rc_head r = gs_start (g_act g) + Z.of_nat k /\ rc_nextSeq r = gs_seq (g_act g) + 1
  end.

Lemma scanned_from g s0 s s' k : idle s0 s -> scanned g s s' k -> scanned g s0 s' k.
Proof.
  intros Hid (Hk & Hd & Hq & Hc & Hdir & Hm). split_and!; try done; try apply Hk.
  - by rewrite Hdir, (id_dir _ _ Hid).
  - by rewrite Hm, (idle_content _ _ _ Hid).
Qed.

Lemma wp_recover_loop_act {X} g sm (x : X) s0 s :
  disk g s -> idle s0 s -> quiet s -> g_pend g = false -> config_ok -> content s (gname (g_act g)) <> None ->
  gs_seq (g_act g) + 1 < 2 ^ 64 ->
  wp F ('(running, r) ← recover_loop src snap link (sealed_map g) [gs_seq (g_act g)]
         (gs_start (g_act g)) (bool_decide (g_closed g <> [])) (mkRecovered sm [] None 0 0 (base g) link snap);
      mret (mkRecovered (rc_sealed r) (rc_reseal r) (rc_active r) running
              (match rc_active r with Some a => u64 (seg_Seq a + 1) | None => u64 (gs_seq (g_act g) + 1) end)
              (rc_oldestGpidx r) link snap))
    (fun o x' s' => x' = x /\
       match o with
       | Ret r => rc_reseal r = [] /\ rc_sealed r = sm /\ rc_oldestGpidx r = base g /\ exists k, scanned g s0 s' k /\
           rc_active r = Some (gs_entry src false k (g_act g)) /\
           rc_head r = gs_start (g_act g) + Z.of_nat k /\ rc_nextSeq r = gs_seq (g_act g) + 1
       | Fail _ => False
       | Crashed => F FCrash /\ disk g s'
       end) x s.
Proof.
  intros Hd Hid Hq Hp Hc Hb Hs. pose proof Hd as [Hg _]. destruct (content s (gname (g_act g))) as [b|] eqn:Eb; [|done].
  cbn [recover_loop]. rewrite (sealed_map_act g Hg). rewrite (bool_decide_eq_true_2 ([] = [])) by done.
  assert ((if bool_decide (g_closed g <> []) then gs_start (g_act g) else 0) = gs_start (g_act g) /\
          (if bool_decide (g_closed g <> []) then base g else 0) = base g) as [-> ->].
  { case_bool_decide as Hcl; [done|]. destruct (ok_base _ _ _ Hg) as [?|[H0 _]]; [done|].
    split; [done|]. unfold base, g_segs. by rewrite Hcl, <-H0. }
  apply wp_bind, wp_bind. eapply wp_mono; [by apply (wp_scanSegment g x s b)|].
  destruct (act_ok snap link g Hg) as (Hq1 & _ & H0 & Hlen & Hend).
  intros [[v n]|e|] x' s' [-> H]; cbn [bind_post]; [|done..].
  destruct H as (k & -> & Hv & Hsc). apply wp_ret, wp_ret. split; [done|].
  cbn [rc_reseal rc_sealed rc_active rc_oldestGpidx rc_head rc_nextSeq seg_EndGpidx seg_Seq].
  pose proof (proj1 Hsc) as [_ Hk].
  assert (u64 (gs_start (g_act g) + Z.of_nat k) = gs_start (g_act g) + Z.of_nat k) as Hu.
  { apply u64_small. unfold gs_end, len in Hend. unfold is_uint. lia. }
  assert (i64 (GlobalHeaderLen + v) = gs_len (g_act g) k) as Hi.
  { rewrite Hv. apply i64_small. pose proof (gs_len_le (g_act g) k _ Hk) as Hlk. rewrite (gs_len_full snap link) in Hlk.
    pose proof (gs_len_nonneg (g_act g) k). unfold GlobalHeaderLen in *. lia. }
  rewrite Hu, Hi, u64_small by (destruct Hq1; unfold is_uint; lia).
  split_and!; [done..|]. exists k. split_and!; try done. by apply (scanned_from _ _ s).
Qed.

Lemma wp_recoverSpool {X} g (x : X) s :
  disk g s -> quiet s -> g_pend g = false -> config_ok -> man_whole g s -> gs_seq (g_act g) + 1 < 2 ^ 64 ->
  wp F (recoverSpool src snap link) (fun o x' s' => x' = x /\
    match o with
    | Ret r => recovered_post g s r s'
    | Fail _ => False
    | Crashed => F FCrash /\ disk g s'
    end) x s.
Proof.
  intros Hd Hq Hp Hc Hm Hs. pose proof Hd as [Hg Hinv].
  unfold recoverSpool. apply wp_bind. eapply wp_mono; [by apply (wp_loadManifest g); [|eapply dir_wf|]|].
  intros [l|e|] x' s1 (-> & Hid & Hl); cbn [bind_post]; [|done|split; [done|split; [done|split; [done|by eapply dir_idle]]]].
  subst l. assert (disk g s1) as Hd1 by (split; [done|by eapply dir_idle]).
  assert (map_Forall (fun q s => seg_Seq s = q) (sealed_map g)) as Hkeys by (by apply by_seq_map_keys).
  rewrite (by_seq_map_segments (sealed_map g) Hkeys).
  destruct (max_sealed (segments_by_seq (sealed_map g))) as [mq me] eqn:Emax.
  apply wp_bind. unfold listSegmentFiles, ReadDir.
  apply wp_bind, wp_sys; [intros Hfc; split; [done|split; [done|done]]|intros Hff; by apply no_failure|]. cbn [bind_post].
  apply wp_ret. cbn [bind_post]. rewrite (segment_seqs_present g s1 Hd1).
  assert (content s1 (gname (g_act g)) = content s (gname (g_act g))) as Hcont by (by apply idle_content).
  unfold recovered_post, present. rewrite Hcont.
  destruct (content s (gname (g_act g))) as [b|] eqn:Eb.
  - rewrite fmap_app. cbn [fmap list_fmap]. rewrite last_snoc. eapply wp_bind_ext; [exact (recover_loop_closed (X := X) g [gs_seq (g_act g)] Hg)|].
    apply (wp_recover_loop_act g _ x s s1); try done; [by eapply idle_quiet|by rewrite Hcont].
  - rewrite app_nil_r. unfold fresh_seq. rewrite fmap_last. destruct (last (g_closed g)) as [y|] eqn:El; cbn [fmap option_fmap option_map].
    + rewrite <-(app_nil_r (gs_seq <$> g_closed g)).
      eapply wp_bind_ext; [exact (recover_loop_closed (X := X) g [] Hg)|].
      cbn [recover_loop]. apply wp_ret. cbn. split; [done|]. split_and!; try done.
      apply u64_small. apply last_Some_elem_of in El.
      destruct (seg_ok snap link g y Hg (closed_in_segs _ _ El)) as ([? ?] & _).
      pose proof (proj1 (Forall_forall _ _) (proj2 (closed_seqs g Hg)) y El) as Hlt. cbn in Hlt. unfold is_uint. lia.
    + apply last_None in El. apply wp_ret. split; [done|]. cbn.
      destruct (ok_base _ _ _ Hg) as [?|[H0 Hgone]]; [done|].
      assert (segments_by_seq (sealed_map g) = []) as Hnil.
      { unfold sealed_map, man_lines, g_old. rewrite Hgone, El. apply segments_by_seq_nil. }
      rewrite Hnil in Emax |- *. injection Emax as <- <-. rewrite decide_True by done.
      unfold base, g_segs. rewrite El. cbn. split_and!; try done.
Qed.
End Recover.
