(* ===== verification/RestartProof.v ===== *)
(** * Restarting the writer (NewWriter)

    After a host crash [NewWriter] returns a writer that satisfies the invariant
    again, for a spool that lost no durable packet. *)

From S2P Require Import Prelude Bytes GoIO Pcapio Os Durable Dir Json Manifest Recover Spool SpoolSpec SpoolProof RecoverProof.

(** From [g] to [g'] only packets that were not durable are lost. *)
Definition restarts (g g' : ghost) : Prop :=
  hist g' `prefix_of` hist g /\ durable_end g <= durable_end g' /\ base g' = base g /\ seals g g'.

Lemma restarts_refl g : restarts g g.
Proof. repeat split; done. Qed.

Lemma restarts_trans g1 g2 g3 : restarts g1 g2 -> restarts g2 g3 -> restarts g1 g3.
Proof. intros (? & ? & ? & ?) (? & ? & ? & ?). repeat split; [by etrans|lia|congruence|by eapply seals_trans..]. Qed.

Lemma evolves_restarts g g' : evolves [] g g' -> restarts g g'.
Proof. intros (H1 & ? & ? & _ & _ & Hgr). repeat split; [by rewrite H1, app_nil_r|done|done|apply Hgr..]. Qed.

Section Restart.
Context (c : Config).

Abbreviation src := (SrcID c).
Abbreviation snap := (Snaplen c).
Abbreviation link := (LinkType c).
Abbreviation gname := (gs_name src).
Abbreviation gbytes := (gs_bytes snap link).
Abbreviation disk := (spool_disk src snap link).
Abbreviation lines := (man_lines src).

(** The crash cut no line of the manifest. *)
Definition untorn (s : fs) : Prop :=
  forall b, content s manifestName = Some b -> b = [] \/ last b = Some x0a.

(** The segment numbers in use leave room for two more. *)
Definition small_seqs (s : fs) : Prop :=
  forall n q, content s n <> None -> is_segment src n = true -> parseSegmentSeq n = Some q -> q + 2 < 2 ^ 64.

Lemma small_seqs_present g s x :
  disk g s -> small_seqs s -> x ∈ present c g s -> gs_seq x + 2 < 2 ^ 64.
Proof.
  intros Hd Hs Hx. pose proof (seg_ok snap link g x (proj1 Hd) (present_in c g s x Hx)) as Hok.
  apply (Hs (gname x)); [by apply (present_content c g)|by apply (gs_name_segment src snap link)|].
  apply parseSegmentSeq_segmentName, Hok.
Qed.

(** ** The spool as recovery will find it *)

Definition g_settled (g : ghost) : ghost :=
  Ghost (g_gone g) (g_closed g) (g_act g) (g_sync g) (g_absent g) (g_raw g) false (g_nomanifest g).

(** The active segment's file is not there: recovery creates one. *)
Definition g_fresh (g : ghost) : ghost :=
  Ghost (g_gone g) (g_closed g) (GSeg (fresh_seq g) (gs_start (g_act g)) []) 0 true true false (g_nomanifest g).

Definition g_named (g : ghost) : ghost :=
  Ghost (g_gone g) (g_closed g) (g_act g) (g_sync g) (g_absent g) (g_raw g) (g_pend g) false.

Lemma ghost_ok_settled g : ghost_ok snap link g -> ghost_ok snap link (g_settled g).
Proof. by intros []. Qed.

Lemma ghost_ok_named g : ghost_ok snap link g -> ghost_ok snap link (g_named g).
Proof. intros [Hs Hg Hc Hb Hk Hr Ha Hp Hne Hgo Hgs]. split; try done. intros (? & ? & ? & ? & ?)%Hp. by split_and!. Qed.

Lemma fresh_seq_above g x : ghost_ok snap link g -> x ∈ g_closed g -> gs_seq x < fresh_seq g.
Proof.
  intros Hg Hx. pose proof (ok_seqs _ _ _ Hg) as Hs. unfold g_segs in Hs. rewrite fmap_app in Hs.
  apply StronglySorted_app in Hs as (_ & Hs & _). unfold fresh_seq.
  destruct (g_closed g) as [|y l] using rev_ind; [by apply not_elem_of_nil in Hx|]. clear IHl.
  rewrite last_snoc. rewrite fmap_app in Hs. apply StronglySorted_app in Hs as (Hlt & _ & _).
  apply elem_of_app in Hx as [Hx| ->%list_elem_of_singleton]; [|lia].
  specialize (Hlt (gs_seq x) (gs_seq y)). cbn in Hlt.
  enough (gs_seq x < gs_seq y) by lia. apply Hlt; [by apply list_elem_of_fmap_2|by left].
Qed.

Lemma fresh_seq_le g : ghost_ok snap link g -> 0 <= fresh_seq g <= gs_seq (g_act g).
Proof.
  intros Hg. destruct (act_ok snap link g Hg) as ([? ?] & _). unfold fresh_seq.
  destruct (last (g_closed g)) as [x|] eqn:E; [|lia]. apply last_Some_elem_of in E.
  pose proof (proj1 (Forall_forall _ _) (proj2 (closed_seqs c g Hg)) x E) as Hlt. cbn in Hlt.
  destruct (seg_ok snap link g x Hg (closed_in_segs _ _ E)) as ([? ?] & _). lia.
Qed.

Lemma ghost_ok_fresh g : ghost_ok snap link g -> ghost_ok snap link (g_fresh g).
Proof.
  intros Hok. pose proof Hok as [Hs Hg [st Hc] Hb Hk Hr Ha Hp Hne Hgo Hgs].
  assert (g_segs (g_fresh g) = g_closed g ++ [GSeg (fresh_seq g) (gs_start (g_act g)) []]) as Hsegs by done.
  pose proof (fresh_seq_le g Hok) as Hf. destruct (act_ok snap link g Hok) as ([? ?] & _ & H0 & _ & He).
  split; try done; rewrite ?Hsegs.
  - unfold g_segs in Hs. rewrite fmap_app in *. apply StronglySorted_app in Hs as (_ & Hs & _).
    apply StronglySorted_app_2; [|done|by repeat constructor].
    intros a b Ha' ->%list_elem_of_singleton. apply list_elem_of_fmap in Ha' as (x & -> & Hx).
    by apply fresh_seq_above.
  - unfold g_segs in Hg. apply Forall_app in Hg as [Hg1 _]. apply Forall_app. split; [done|].
    apply Forall_singleton. unfold gseg_ok, is_uint, gs_end. cbn. change (len (@nil PcapRecord)) with 0.
    unfold gs_end in He. pose proof (len_nonneg (gs_recs (g_act g))). split_and!; try lia; [constructor|done].
  - exists st. unfold g_segs in Hc. apply contiguous_app in Hc as [Hc1 [Hc2 _]]. apply contiguous_app. done.
  - intros s x Hs' [Hx| ->%list_elem_of_singleton]%elem_of_app; [apply Hgs; [done|by apply closed_in_segs]|].
    cbn. destruct Hb as [Hb|[_ Hb]]; [|cbn in Hs'; rewrite Hb in Hs'; by apply not_elem_of_nil in Hs'].
    destruct (g_closed g) as [|y l] eqn:E; [done|].
    assert (y ∈ g_closed g) as Hy by (rewrite E; left).
    pose proof (Hgs s y Hs' (closed_in_segs _ _ Hy)). pose proof (fresh_seq_above g y Hok Hy).
    pose proof (Hgs s (g_act g) Hs' (act_in_segs g)). lia.
Qed.

Lemma evolves_fresh g :
  ghost_ok snap link g -> gs_recs (g_act g) = [] -> g_absent g = true -> evolves [] g (g_fresh g).
Proof.
  intros Hg He Habs. pose proof (ok_sync _ _ _ Hg) as Hk. rewrite He in Hk. cbn in Hk.
  unfold evolves, hist, durable_end, base, next_gpidx, gs_end, g_segs. cbn. rewrite He.
  change (len (@nil PcapRecord)) with 0. rewrite !fmap_app. cbn. rewrite He, app_nil_r.
  split_and!; [done|lia|by destruct (g_closed g)|lia| |done..].
  intros x j (Hj & [Hx|(_ & _ & _ & Ha)]); [|congruence]. exists x. split_and!; try done. split; [done|by left].
Qed.

Lemma disk_settled g s : disk g s -> quiet s -> man_whole c g s -> disk (g_settled g) s.
Proof.
  intros [Hg Hinv] Hq Hm. split; [by apply ghost_ok_settled|].
  apply (dir_quiet headName false _ _ _ _ _ Hinv Hq).
  - intros n Hn. apply spec_change; [done..|]. intros ->. unfold man_whole in Hm.
    destruct (content s manifestName) as [b|]; cbn; [|done]. intros _. exists []. rewrite app_nil_r. split; [done|by left].
  - intros b. apply head_spec_mono. intros seg (x & j & -> & H). by exists x, j.
Qed.

Lemma disk_fresh g s :
  disk g s -> quiet s -> g_pend g = false -> content s (gname (g_act g)) = None -> disk (g_fresh g) s.
Proof.
  intros [Hg Hinv] Hq Hp Hc. pose proof (ghost_ok_fresh g Hg) as Hg'. split; [done|].
  assert (g_absent g = true) as Ha.
  { pose proof (dir_content _ _ Hinv (gname (g_act g)) (act_not_touched _ _ _ _ Hg)) as Hsp.
    rewrite Hc in Hsp. by apply (sp_act _ _ _ _ _ _ Hsp). }
  apply (dir_quiet headName false _ _ _ _ _ Hinv Hq).
  - intros n Hn [H1 H2 H3 H4].
    assert (is_segment src n = true -> (forall x, x ∈ g_closed g -> n <> gname x) -> content s n = None) as Hnone.
    { intros Hs Hne. destruct (decide (n = gname (g_act g))) as [->|Hna]; [done|]. apply H3; [done|].
      intros x [Hx| ->%list_elem_of_singleton]%elem_of_app; [by apply Hne|done]. }
    split; cbn [g_fresh g_closed g_act].
    + done.
    + intros ->. cbn. rewrite Hnone; [done|by apply (gs_name_segment src snap link), (act_ok snap link (g_fresh g))|].
      intros x Hx Heq. symmetry in Heq. by apply (gs_name_ne src snap link (g_fresh g) x Hg' Hx).
    + intros Hs Hne. apply Hnone; [done|]. intros x Hx. by apply Hne, closed_in_segs.
    + intros ->. specialize (H4 eq_refl). destruct (content s manifestName) as [b|]; cbn; [|done].
      destruct H4 as (p & -> & [->|[? _]]); [|congruence]. exists []. split; [done|by left].
  - intros b. apply head_spec_mono. intros seg (x & j & -> & [?|(? & ? & ? & ?)]); [|congruence].
    exists x, j. split; [done|by left].
Qed.

Lemma disk_named g s : disk g s -> quiet s -> content s manifestName <> None -> disk (g_named g) s.
Proof.
  intros [Hg Hinv] Hq Hm. split; [by apply ghost_ok_named|].
  apply (dir_quiet headName false _ _ _ _ _ Hinv Hq).
  - intros n Hn. apply spec_change; [done..|]. intros ->. by destruct (content s manifestName).
  - intros b. apply head_spec_mono. intros seg (x & j & -> & H). by exists x, j.
Qed.

Lemma disk_rolled g s :
  disk g s -> quiet s -> g_pend g = true -> gs_seq (g_act g) + 1 < 2 ^ 64 ->
  content s manifestName = Some (manifest_lines (lines g) ++ manifest_line (gs_line src (g_act g))) ->
  disk (g_roll (gs_seq (g_act g) + 1) g) s.
Proof.
  intros [Hg Hinv] Hq Hp Hs Hc. destruct (ok_pend _ _ _ Hg Hp) as (Hk & Hr & Ha & Hn & Hrecs).
  set (q := gs_seq (g_act g) + 1) in *. destruct (act_ok snap link g Hg) as ([? ?] & _).
  assert (next_ok g q) as [Hqu Hql].
  { split; [unfold is_uint; lia|]. unfold g_segs. apply Forall_app.
    split; [|apply Forall_singleton; lia]. eapply Forall_impl; [apply (closed_seqs c g Hg)|]. cbn. intros; lia. }
  assert (ghost_ok snap link (g_roll q g)) as Hg' by (by apply ghost_ok_roll).
  split; [done|].
  apply (dir_quiet headName false _ _ _ _ _ Hinv Hq).
  - intros n Hnt Hsp. destruct (decide (n = manifestName)) as [->|Hne].
    + apply spec_man_intro; [done|]. rewrite Hc. exists []. split; [|by left].
      by rewrite (lines_roll c), manifest_lines_snoc, app_nil_r.
    + apply (spec_roll src snap link q g); try done. intros x. by apply (next_ok_name c g q).
  - intros b. apply head_spec_mono. intros. by eapply (advertised_roll src snap link q g).
Qed.

(** What recovery starts from. *)
Record restartable (g : ghost) (s : fs) : Prop := {
  rs_disk : disk g s;
  rs_quiet : quiet s;
  rs_pend : g_pend g = false;
  rs_whole : man_whole c g s;
  rs_here : content s (gname (g_act g)) = None ->
    g_absent g = true /\ g_raw g = true /\ gs_recs (g_act g) = [] /\ g_sync g = 0%nat /\
    gs_seq (g_act g) = fresh_seq g
}.

(** After a crash that cut no line of the manifest, the spool restarts from
    where it was. *)
Lemma restartable_crash g s :
  disk g s -> quiet s -> untorn s -> small_seqs s ->
  exists g', restartable g' s /\ evolves [] g g' /\ gs_seq (g_act g') + 1 < 2 ^ 64.
Proof.
  intros Hd Hq Hu Hs. pose proof Hd as [Hg Hinv]. pose proof (fun x => small_seqs_present g s x Hd Hs) as Hsmall.
  pose proof (dir_content _ _ Hinv manifestName manifest_not_touched) as Hm.
  apply (sp_man _ _ _ _ _ _) in Hm; [|done].
  assert (man_whole c g s \/ (g_pend g = true /\
    content s manifestName = Some (manifest_lines (lines g) ++ manifest_line (gs_line src (g_act g))))) as Hcase.
  { unfold man_whole. unfold untorn in Hu. unfold man_spec in Hm. destruct (content s manifestName) as [b|]; [|left; apply Hm].
    destruct Hm as (p & -> & [->|[Hp Hpre]]); [left; by rewrite app_nil_r|].
    apply prefix_snoc_inv in Hpre as [->|Hpre]; [by right|left].
    destruct p as [|x p] using rev_ind; [by rewrite app_nil_r|]. clear IHp.
    destruct (Hu _ eq_refl) as [Hnil|Hlast].
    - apply app_eq_nil in Hnil as [_ Hnil]. by destruct p.
    - rewrite app_assoc, last_snoc in Hlast. injection Hlast as ->. exfalso.
      destruct (gs_line_ok c (g_act g) (act_ok snap link g Hg)) as [Hw _].
      apply (Marshal_no_newline _ Hw). destruct Hpre as [r Hr]. rewrite Hr.
      rewrite !elem_of_app, list_elem_of_singleton. auto. }
  destruct Hcase as [Hwhole|[Hp Hc]].
  - pose proof (disk_settled g s Hd Hq Hwhole) as Hd1.
    destruct (content s (gname (g_act g))) as [b|] eqn:Eb.
    + exists (g_settled g). split; [split; try done|split; [by apply evolves_flags|]].
      * intros Hx. cbn in Hx. congruence.
      * cbn. enough (gs_seq (g_act g) + 2 < 2 ^ 64) by lia. apply Hsmall. unfold present. rewrite Eb.
        apply act_in_segs.
    + assert (g_absent g = true) as Habs.
      { pose proof (dir_content _ _ Hinv (gname (g_act g)) (act_not_touched _ _ _ _ Hg)) as Hsp.
        rewrite Eb in Hsp. by apply (sp_act _ _ _ _ _ _ Hsp). }
      pose proof (ok_absent _ _ _ Hg Habs) as He.
      exists (g_fresh (g_settled g)). split; [split|split].
      * by apply disk_fresh.
      * done.
      * done.
      * done.
      * done.
      * apply (evolves_trans [] [] _ (g_settled g)); [by apply evolves_flags|].
        by apply evolves_fresh; [apply ghost_ok_settled|..].
      * cbn. unfold fresh_seq. cbn. destruct (last (g_closed g)) as [y|] eqn:El; [|lia].
        apply last_Some_elem_of in El. enough (gs_seq y + 2 < 2 ^ 64) by lia. apply Hsmall. unfold present.
        rewrite elem_of_app. by left.
  - exists (g_roll (gs_seq (g_act g) + 1) g). destruct (ok_pend _ _ _ Hg Hp) as (Hk & Hraw & Habs & _ & Hrecs).
    assert (gs_seq (g_act g) + 2 < 2 ^ 64) as Hact.
    { apply Hsmall. unfold present.
      pose proof (dir_content _ _ Hinv (gname (g_act g)) (act_not_touched _ _ _ _ Hg)) as Hsp.
      apply (sp_act _ _ _ _ _ _) in Hsp; [|done]. unfold act_spec in Hsp.
      destruct (content s (gname (g_act g))); [apply act_in_segs|congruence]. }
    split; [split|split; [by apply evolves_roll|cbn; lia]].
    + apply disk_rolled; try done. lia.
    + done.
    + done.
    + unfold man_whole. rewrite Hc. by rewrite (lines_roll c), manifest_lines_snoc.
    + intros _. split_and!; try done. unfold fresh_seq. cbn. by rewrite last_snoc.
Qed.
(** ** The manifest is opened for append *)

Definition synced_dir (s : fs) : fs := Fs (fs_inodes s) (fs_dir s) [] (fs_fds s) (fs_next s).

(** After [OpenFile] and [SyncDir] the manifest exists for good. *)
Record manifest_open (g : ghost) (s s' : fs) (mf : nat) (d : fdesc) (i : inode) : Prop := {
  mo_disk : disk (g_named g) (synced_dir s');
  mo_quiet : quiet (synced_dir s');
  mo_open : open_file (synced_dir s') manifestName mf d i;
  mo_append : fd_append d = true;
  mo_data : i_data i = manifest_lines (lines g);
  mo_dir : forall n, n <> manifestName -> fs_dir s' !! n = fs_dir s !! n;
  mo_content : forall n, n <> manifestName -> content s' n = content s n
}.

Lemma open_manifest g s :
  disk g s -> quiet s -> man_whole c g s ->
  exists mf s' d i, open_call manifestName (OFlags true false false true) s = Ok (mf, s') /\
    disk g s' /\ manifest_open g s s' mf d i.
Proof.
  intros [Hg Hinv] Hq Hm.
  destruct (open_create manifestName (OFlags true false false true) s) as (mf & ino & i & s' & Hcall & Ho);
    [apply Hinv|done..|].
  pose proof (op_which _ _ _ _ _ _ _ Ho) as Hw. cbn [O_TRUNC] in Hw.
  pose proof (open_opened_self _ _ _ _ _ _ _ Ho) as Hof. cbn [O_APPEND] in Hof.
  pose proof (op_frame _ _ _ _ _ _ _ Ho (eq manifestName) eq_refl) as Hfr.
  assert (settled i /\ i_data i = manifest_lines (lines g) /\
    survives i (fun b => spool_spec src snap link g manifestName (Some b))) as (Hset & Hdat & Hsv).
  { unfold man_whole, content in Hm. pose proof (di_holds _ _ _ _ _ Hinv manifestName manifest_not_touched) as Hh.
    specialize (Hh (fs_dir s) ltac:(left)). destruct (fs_dir s !! manifestName) as [ino0|] eqn:En; cbn in Hm.
    - destruct Hw as (-> & i0 & Hi0 & -> & _). rewrite Hi0 in Hm, Hh. cbn in Hm.
      split_and!; [by apply (proj2 Hq manifestName ino0)|done|]. by destruct Hh as (? & [= <-] & ?).
    - destruct Hw as (_ & -> & _). split_and!; [done|by rewrite Hm|].
      intros b v ->%list_elem_of_singleton Hp _. apply prefix_nil_inv in Hp as ->.
      apply spec_man_intro; [done|]. exists []. rewrite Hm. split; [done|by left]. }
  assert (disk g s') as Hd'.
  { split; [done|]. by apply (dir_opened headName false Hinv _ _ _ _ _ _ Ho manifest_not_touched). }
  assert (forall n, n <> manifestName -> fs_dir s' !! n = fs_dir s !! n) as Hdir.
  { intros n Hn. by apply (fr_live _ _ _ Hfr). }
  assert (forall n, n <> manifestName -> content s' n = content s n) as Hcont.
  { intros n Hn. apply (content_frame (eq manifestName)); [apply Hinv|done|congruence|].
    intros t <-. apply (dir_apart headName false Hinv); [done|]. intros [Hx _]. by apply manifest_not_touched. }
  assert (quiet (synced_dir s')) as Hq'.
  { split; [done|]. intros n j k Hn Hj. cbn in *. destruct (decide (n = manifestName)) as [->|Hne].
    - destruct Hof as [Hl _ Hi]. cbn in *. congruence.
    - rewrite (Hdir n Hne) in Hn. rewrite (fr_inodes _ _ _ Hfr) in Hj; [by apply (proj2 Hq n j)| |].
      + by apply (dir_live_inode headName false Hinv n).
      + intros t <- Ht.
        destruct (di_private _ _ _ _ _ Hinv (fs_dir s) (fs_dir s) manifestName n j) as [?|[? _]]; try done; [left|left|by apply manifest_not_touched]. }
  exists mf, s', (Fdesc ino 0 true false), i. split; [done|]. split; [done|]. split; try done.
  - apply disk_named; [|done|].
    + split; [done|]. apply (dir_sync headName false (proj2 Hd')). done.
    + unfold content. cbn. destruct Hof as [Hl _ Hi]. cbn in *. by rewrite Hl; cbn; rewrite Hi.
  - by destruct Hof.
Qed.
(** The faults that happen: none that makes a call fail. *)
Context (F : fault -> Prop) (HF : ~ can_fail F).

(** ** NewWriter *)

Lemma wcore_nextSeq g w s n :
  wcore c g w s ->
  wcore c g (mkWriter (cfg w) (file w) (manifest w) (active w) n (sealed w) (head w) (oldestGpidx w)
               (fileOffset w) (durableLen w) (durableEnd w) (pendingBytes w) (segStart w) (lastSync w)) s.
Proof. by intros []. Qed.

(** What [NewWriter] leaves behind. *)
Definition restart_post (g : ghost) (o : outcome unit) (w' : Writer) (s' : fs) : Prop :=
  match o with
  | Ret _ => exists g', restarts g g' /\ winv c g' w' s' /\ oldestGpidx w' = base g'
  | Fail _ => False
  | Crashed => F FCrash /\ exists g', restarts g g' /\ disk g' s'
  end.

Lemma restart_post_from g g' o w' s' : restarts g g' -> restart_post g' o w' s' -> restart_post g o w' s'.
Proof.
  intros H. destruct o; [|done|].
  - intros (g2 & H2 & ?). exists g2. split; [by eapply restarts_trans|done].
  - intros (Hf & g2 & H2 & ?). split; [done|]. exists g2. split; [by eapply restarts_trans|done].
Qed.

Lemma broken_crashed g s (why : Prop) : broken c why [] g s -> why /\ exists g', restarts g g' /\ disk g' s.
Proof. intros (Hy & g' & Hd & [H|H]); (split; [done|]); exists g'; (split; [by apply evolves_restarts|done]). Qed.

(** The last step: the head pointer is published. *)
Lemma wp_finish g w s :
  wcore c g w s -> next_ok g (nextSeq w) -> oldestGpidx w = base g ->
  wp F (on_error publishHead (_ ← try Writer_Close; mret ())) (restart_post g) w s.
Proof.
  intros Hw Hn Hold. apply wp_on_error. eapply wp_mono; [by apply (wp_publishHead c)|].
  intros [[]|e|] w' s' H.
  - destruct H as (Hw' & Hn' & Ho'). exists g. split; [apply restarts_refl|]. split; [|congruence]. split; [done|by rewrite Hn'].
  - destruct H as [Hf _]. by apply (no_failure F HF).
  - by eapply broken_crashed.
Qed.

Lemma in_hand_all g w :
  sealed w = by_seq_map (gs_line src <$> g_closed g) ∅ -> oldestGpidx w = base g -> in_hand c g w.
Proof. intros Hs Ho. exists 0%nat. split_and!; [lia|done|done]. Qed.

(** The recovered segment becomes the active one again. *)
Lemma wp_resume g k w s mf d i t1 t2 sm old nx :
  disk (g_cut k g) s -> quiet s -> (k <= length (gs_recs (g_act g)))%nat ->
  content s (gname (g_act g)) = Some (gbytes (gs_cut k (g_act g))) ->
  open_file s manifestName mf d i -> fd_append d = true -> i_data i = manifest_lines (lines g) ->
  g_nomanifest g = false -> next_ok g nx -> sm = by_seq_map (gs_line src <$> g_closed g) ∅ -> old = base g ->
  w = mkWriter c None (Some mf) zero_Segment nx sm (gs_start (g_act g) + Z.of_nat k) old 0 0 0 0 t2 t1 ->
  wp F
    ((let a := gs_entry src false k (g_act g) in
      f ← on_error (OpenFile (seg_File a) O_plain) (Close mf);
      on_error (_ ← SeekStart f (seg_ValidLen a); mret ()) (Close f ;; Close mf) ;;
      modify (fun w => mkWriter (cfg w) (Some f) (manifest w) a (nextSeq w) (sealed w) (head w)
                         (oldestGpidx w) (seg_ValidLen a) (seg_ValidLen a) (seg_EndGpidx a)
                         (pendingBytes w) (segStart w) (lastSync w))) ;;
      on_error publishHead (_ ← try Writer_Close; mret ()))
    (restart_post (g_cut k g)) w s.
Proof.
  intros Hd Hq Hk Hc Hom Happ Hdat Hnm Hnx -> -> ->. pose proof Hd as [Hg Hinv]. pose proof (dir_wf _ _ Hinv) as Hwf.
  assert (exists g', restarts (g_cut k g) g' /\ disk g' s) as Hcr by (exists (g_cut k g); split; [apply restarts_refl|done]).
  destruct (fs_dir s !! gname (g_act g)) as [ino|] eqn:En; [|by unfold content in Hc; rewrite En in Hc].
  destruct (open_plain (gname (g_act g)) ino s false Hwf En) as (ia & s1 & Hop & Hid & Hof & Hia & Hca).
  rewrite Hc in Hca. injection Hca as Hca.
  apply wp_bind, wp_bind, wp_on_error, wp_sys; [by intros Hfc|intros Hff; by apply (no_failure F HF)|].
  change (seg_File (gs_entry src false k (g_act g))) with (gname (g_act g)).
  change (OFlags false false false false) with O_plain in Hop. rewrite Hop. cbn [bind_post].
  assert (disk (g_cut k g) s1) as Hd1 by (split; [done|by eapply dir_idle]).
  apply wp_bind, wp_on_error, wp_bind, wp_sys; [intros Hfc; split; [done|by exists (g_cut k g); split; [apply restarts_refl|]]|intros Hff; by apply (no_failure F HF)|].
  rewrite (open_file_with_fd _ _ _ _ _ _ Hof). change (seg_ValidLen (gs_entry src false k (g_act g))) with (gs_len (g_act g) k).
  pose proof (gs_len_nonneg (g_act g) k) as Hlen. unfold GlobalHeaderLen in Hlen.
  destruct (Z.ltb_spec (gs_len (g_act g) k) 0); [lia|]. cbn [bind_post fd_ino fd_append fd_shared]. apply wp_ret. cbn [bind_post].
  set (d' := Fdesc ino (Z.to_nat (gs_len (g_act g) k)) false false).
  set (s2 := set_fds <[fs_next s := d']> s1).
  assert (idle s s2) as Hid2.
  { eapply idle_trans; [exact Hid|]. apply idle_fd; [by eapply idle_wf|].
    destruct Hof as [_ Hf _]. by eapply (id_fds _ _ Hid). }
  assert (disk (g_cut k g) s2) as Hd2 by (split; [done|by eapply dir_idle]).
  assert (mf <> fs_next s) as Hne.
  { destruct (open_file_ok headName false Hinv _ _ _ _ Hom) as [_ ?]. lia. }
  apply wp_modify. cbn [bind_post cfg manifest nextSeq sealed head oldestGpidx pendingBytes segStart lastSync].
  apply wp_finish.
  - assert (gbytes (g_act (g_cut k g)) = i_data ia) as Hgb by done.
    assert (len (i_data ia) = gs_len (g_act g) k) as Hil by (rewrite <-Hca; by apply (len_gs_cut c)).
    assert (forall n ino', fs_dir s !! n = Some ino' -> bound_or s2 n ino' False) as Hb.
    { intros n ino' Hn d0 Hd0. left. rewrite (idle_versions _ _ Hid2) in Hd0. unfold versions in Hd0.
      rewrite (proj1 Hq) in Hd0. by apply list_elem_of_singleton in Hd0 as ->. }
    split; cbn [file manifest active head fileOffset durableLen durableEnd pendingBytes cfg]; try done.
    + exists (fs_next s), d', ia. split_and!; try done.
      * destruct Hof as [Hl _ Hi]. split; [done|apply lookup_insert_eq|done].
      * cbn. unfold len in Hil. lia.
      * by apply Hb.
    + exists mf, d, i. split_and!; try done; [|by apply Hb; destruct Hom].
      destruct Hom as [Hl Hf Hi]. split.
      * by rewrite (id_dir _ _ Hid2).
      * cbn. rewrite lookup_insert_ne by done. unfold open_call in Hop. rewrite En in Hop. cbn in Hop.
        injection Hop as <-. cbn. by rewrite lookup_insert_ne.
      * by rewrite (id_inodes _ _ Hid2).
    + unfold next_gpidx, gs_end, gs_cut. cbn. unfold len. rewrite length_take. lia.
    + change (g_sync (g_cut k g)) with k. change (g_act (g_cut k g)) with (gs_cut k (g_act g)).
      rewrite gs_len_cut by done. rewrite Hca, Hil. split_and!; try done. lia.
    + apply in_hand_all; [done|]. cbn [oldestGpidx]. unfold base, g_segs. by destruct g as [? []].
  - destruct Hnx as [Hu Hl]. split; [done|]. change (g_segs (g_cut k g)) with (g_closed g ++ [gs_cut k (g_act g)]).
    unfold g_segs in Hl. apply Forall_app in Hl as [H1 H2]. apply Forall_app. split; [done|].
    apply Forall_singleton. by apply (proj1 (Forall_singleton _ _)) in H2.
  - cbn [oldestGpidx]. unfold base, g_segs. by destruct g as [? []].
Qed.
Lemma disk_restarts g s : disk g s -> exists g', restarts g g' /\ disk g' s.
Proof. intros H. exists g. split; [apply restarts_refl|done]. Qed.

Lemma restarts_cut g k :
  (g_sync g <= k <= length (gs_recs (g_act g)))%nat -> restarts g (g_cut k g).
Proof.
  intros Hk. unfold restarts, hist, durable_end, base. split_and!.
  - change (g_segs (g_cut k g)) with (g_closed g ++ [gs_cut k (g_act g)]). unfold g_segs.
    rewrite !fmap_app, !concat_app. apply prefix_app. cbn. rewrite !app_nil_r. apply prefix_take.
  - cbn. lia.
  - change (g_segs (g_cut k g)) with (g_closed g ++ [gs_cut k (g_act g)]). unfold g_segs. by destruct (g_closed g).
  - done.
Qed.

Lemma next_ok_act g : ghost_ok snap link g -> gs_seq (g_act g) + 1 < 2 ^ 64 -> next_ok g (gs_seq (g_act g) + 1).
Proof.
  intros Hg Hs. destruct (act_ok snap link g Hg) as ([? ?] & _). split; [unfold is_uint; lia|].
  unfold g_segs. apply Forall_app. split; [|apply Forall_singleton; lia].
  eapply Forall_impl; [apply (closed_seqs c g Hg)|]. cbn. intros; lia.
Qed.

(** A segment is created when none was recovered. *)
Lemma wp_create g w s mf d i t1 t2 sm old :
  disk (g_named g) s -> quiet s -> g_pend g = false ->
  g_absent g = true -> g_raw g = true -> gs_recs (g_act g) = [] -> g_sync g = 0%nat ->
  content s (gname (g_act g)) = None -> gs_seq (g_act g) + 1 < 2 ^ 64 ->
  open_file s manifestName mf d i -> fd_append d = true -> i_data i = manifest_lines (lines g) ->
  sm = by_seq_map (gs_line src <$> g_closed g) ∅ -> old = base g ->
  w = mkWriter c None (Some mf) zero_Segment (gs_seq (g_act g)) sm (gs_start (g_act g)) old 0 0 0 0 t2 t1 ->
  wp F
    ((on_error (openNewSegment (gs_seq (g_act g)) (gs_start (g_act g))) (Close mf) ;;
      modify (fun w => mkWriter (cfg w) (file w) (manifest w) (active w) (u64 (gs_seq (g_act g) + 1))
                         (sealed w) (head w) (oldestGpidx w) (fileOffset w) (durableLen w)
                         (durableEnd w) (pendingBytes w) (segStart w) (lastSync w))) ;;
      on_error publishHead (_ ← try Writer_Close; mret ()))
    (restart_post g) w s.
Proof.
  intros Hd Hq Hp Ha Hr He Hk Hc Hs Hom Happ Hdat -> -> ->. pose proof Hd as [Hg Hinv].
  destruct (act_ok snap link _ Hg) as ([? ?] & _). change (g_act (g_named g)) with (g_act g) in *.
  assert (forall d0, d0 ∈ versions s -> d0 = fs_dir s) as Hv.
  { intros d0 Hd0. unfold versions in Hd0. rewrite (proj1 Hq) in Hd0. by apply list_elem_of_singleton in Hd0. }
  apply wp_bind, wp_bind, wp_on_error.
  eapply wp_mono; [apply (wp_openNewSegment c F (g_named g))|].
  - split; cbn; try done.
    + exists mf, d, i. split_and!; try done. intros d0 Hd0. left. rewrite (Hv d0 Hd0). apply Hom.
    + by apply (in_hand_all (g_named g)).
    + intros d0 Hd0. rewrite (Hv d0 Hd0). change (g_act (g_named g)) with (g_act g).
      unfold content in Hc. destruct (fs_dir s !! gname (g_act g)) as [ino|] eqn:En; [|done].
      destruct (wf_dirs s (dir_wf _ _ Hinv) (fs_dir s) _ _ ltac:(left) En) as [_ [i0 Hi0]]. cbn in Hc. by rewrite Hi0 in Hc.
  - done.
  - assert (restarts g (g_present (g_header (g_named g)))) as Hrs by (by apply evolves_restarts, evolves_flags).
    assert (restarts g (g_named g)) as Hrn by (by apply evolves_restarts, evolves_flags).
    intros [[]|e|] w' s' Hx; cbn [bind_post].
    + destruct Hx as (Hw' & Hn' & Ho'). apply wp_modify. cbn [bind_post].
      eapply wp_mono; [apply (wp_finish (g_present (g_header (g_named g))))|].
      * by apply wcore_nextSeq.
      * cbn [nextSeq]. rewrite u64_small by (unfold is_uint; lia).
        apply (next_ok_act (g_present (g_header (g_named g)))); [apply Hw'|done].
      * cbn [oldestGpidx]. rewrite Ho'. done.
      * intros o w2 s2. by apply restart_post_from.
    + destruct Hx as [Hf _]. by apply (no_failure F HF).
    + destruct (broken_crashed _ _ _ Hx) as (Hf & g' & H1 & H2). split; [done|]. exists g'. split; [by eapply restarts_trans|done].
Qed.

Lemma man_whole_content g g' s s' :
  man_whole c g s -> lines g' = lines g -> content s' manifestName = content s manifestName -> man_whole c g' s'.
Proof. unfold man_whole. by intros H -> ->. Qed.
End Restart.

Lemma wp_NewWriter_restartable F c0 g w s :
  let c := applyDefaults c0 in
  ~ can_fail F ->
  config_ok c -> restartable c g s -> gs_seq (g_act g) + 1 < 2 ^ 64 ->
  wp F (NewWriter c0) (restart_post c F g) w s.
Proof.
  intros c HF Hc [Hd Hq Hp Hm Hh] Hs. pose proof Hd as [Hg Hinv]. unfold NewWriter. fold c.
  assert (forall g' s', spool_disk (SrcID c) (Snaplen c) (LinkType c) g' s' -> restarts g g' ->
    F FCrash -> restart_post c F g Crashed w s') as Hcr by (intros g' s' ? ? ?; split; [done|by exists g']).
  apply wp_bind, wp_sys; [intros Hfc; by eapply Hcr; [done|apply restarts_refl|]|intros Hff; by apply (no_failure F HF)|]. cbn [bind_post].
  apply wp_bind. eapply wp_mono; [by apply (wp_recoverSpool c F HF g)|].
  intros [r|e|] x' s1 [-> H]; cbn [bind_post]; [|done|destruct H as [Hfc H]; by eapply Hcr; [exact H|apply restarts_refl|]].
  destruct H as (Hre & Hsm & Hold & Hrec).
  (* the recovered spool [g1], with or without an active file *)
  assert (exists g1, spool_disk (SrcID c) (Snaplen c) (LinkType c) g1 s1 /\ quiet s1 /\ man_whole c g1 s1 /\
    restarts g g1 /\ g_pend g1 = false /\ gs_seq (g_act g1) = gs_seq (g_act g) /\
    g_closed g1 = g_closed g /\ base g1 = base g /\
    ((rc_active r = None /\ rc_head r = gs_start (g_act g1) /\ rc_nextSeq r = gs_seq (g_act g1) /\
      g_absent g1 = true /\ g_raw g1 = true /\ gs_recs (g_act g1) = [] /\ g_sync g1 = 0%nat /\
      content s1 (gs_name (SrcID c) (g_act g1)) = None) \/
     (exists k, g1 = g_cut k g /\ (k <= length (gs_recs (g_act g)))%nat /\
      rc_active r = Some (gs_entry (SrcID c) false k (g_act g)) /\
      rc_head r = gs_start (g_act g) + Z.of_nat k /\ rc_nextSeq r = gs_seq (g_act g) + 1 /\
      content s1 (gs_name (SrcID c) (g_act g)) = Some (gs_bytes (Snaplen c) (LinkType c) (gs_cut k (g_act g))))))
    as (g1 & Hd1 & Hq1 & Hm1 & Hr1 & Hp1 & Hs1 & Hcl1 & Hb1 & Hcase).
  { destruct (content s (gs_name (SrcID c) (g_act g))) as [b|] eqn:Eb.
    - destruct Hrec as (k & (Hk & Hd1 & Hq1 & Hc1 & Hdir1 & Hm1) & Ha & Hhd & Hn). exists (g_cut k g).
      split_and!; try done; [by eapply man_whole_content|by apply restarts_cut|by apply (restarts_cut g k)|].
      right. exists k. split_and!; try done. lia.
    - destruct Hrec as (Hid & Ha & Hhd & Hn). destruct (Hh eq_refl) as (? & ? & ? & ? & Hfr). exists g.
      split_and!; try done.
      + split; [done|by eapply dir_idle].
      + by eapply idle_quiet.
      + eapply man_whole_content; [done..|]. by apply idle_content.
      + left. split_and!; try done; [congruence|]. by rewrite (idle_content _ _ _ Hid). }
  destruct (open_manifest c g1 s1 Hd1 Hq1 Hm1) as (mf & s2 & d & i & Hcall & Hd2 & [Hd3 Hq3 Hom Happ Hdat Hdir Hcont]).
  apply wp_bind, wp_sys; [intros Hfc; by eapply Hcr|intros Hff; by apply (no_failure F HF)|]. rewrite Hcall. cbn [bind_post].
  apply wp_bind, wp_on_error, wp_sys; [intros Hfc; by eapply Hcr|intros Hff; by apply (no_failure F HF)|]. cbn [bind_post].
  fold (synced_dir s2).
  apply wp_bind, wp_Now. intros t1. cbn [bind_post]. apply wp_bind, wp_Now. intros t2. cbn [bind_post].
  apply wp_bind, wp_modify. cbn [bind_post]. rewrite Hre. cbn [foldr].
  apply wp_bind, wp_on_error, wp_ret. cbn [bind_post].
  destruct Hcase as [(Ha & Hhd & Hn & Habs & Hraw & He & Hk & Hc1)|(k & -> & Hk & Ha & Hhd & Hn & Hc1)];
    rewrite Ha, Hhd, Hn.
  - eapply wp_mono; [eapply (wp_create c F HF g1 _ _ mf d i); try done|].
    + change (content s2 (gs_name (SrcID c) (g_act g1)) = None). rewrite Hcont; [done|].
      by apply (act_not_manifest (SrcID c) (Snaplen c) (LinkType c)), Hd1.
    + by rewrite Hs1.
    + by rewrite Hsm, Hold, Hcl1.
    + intros o w2 s3. by apply restart_post_from.
  - eapply wp_mono; [eapply (wp_resume c F HF (g_named g) k _ _ mf d i); try done|].
    + change (content s2 (gs_name (SrcID c) (g_act g)) =
        Some (gs_bytes (Snaplen c) (LinkType c) (gs_cut k (g_act g)))). rewrite Hcont; [done|].
      by apply (act_not_manifest (SrcID c) (Snaplen c) (LinkType c)).
    + apply (next_ok_act c (g_named g)); [by apply ghost_ok_named|done].
    + by rewrite Hold, Hb1.
    + intros o w2 s3. apply restart_post_from. eapply restarts_trans; [exact Hr1|].
      by apply evolves_restarts, evolves_flags.
Qed.

(** After a host crash that cut no line of the manifest [NewWriter] restores the
    spool, and a crash while it is at it leaves a spool to restore. *)
Lemma wp_NewWriter F c0 g w s0 s :
  let c := applyDefaults c0 in
  ~ can_fail F ->
  config_ok c -> spool_disk (SrcID c) (Snaplen c) (LinkType c) g s0 -> crash_fs s0 s -> untorn s ->
  small_seqs c s -> wp F (NewWriter c0) (restart_post c F g) w s.
Proof.
  intros c HF Hc [Hg Hinv] Hcr Hu Hs.
  assert (spool_disk (SrcID c) (Snaplen c) (LinkType c) g s) as Hd by (split; [done|by eapply dir_crash]).
  destruct (restartable_crash c g s Hd (quiet_crash _ _ Hcr) Hu Hs) as (g' & Hr & Hev & Hs').
  eapply wp_mono; [by apply (wp_NewWriter_restartable F c0 g')|].
  intros o w' s'. apply restart_post_from. by apply evolves_restarts.
Qed.
