(* ===== verification/SpoolProps.v ===== *)
(** * The spool as a durable log

    Runs of the writer (starts, packets, maintenance, failing calls, host crashes)
    refine an abstract log: gpidx are positions, crashes lose only packets that
    were not durable, and the advertised head covers durable packets only. *)

From S2P Require Import Prelude Bytes GoIO Pcapio Os Durable Dir Runs Json Manifest Recover Spool SpoolSpec SpoolProof RecoverProof RestartProof.

(** ** Runs of the writer *)

(** The process, if it runs, and the directory. *)
Record conf : Type := Conf { running : option Writer; directory : fs }.

Inductive event : Type :=
  | EvStart
  | EvWrite (r : PcapRecord) (gpidx : Z)
  | EvTick
  | EvCrash (adding : list PcapRecord).   (** with the packet that was being written *)

(** The counters do not overflow, and the packet fits the file format and the snap
    length, which recovery holds it against ([CaptureProps.long_packet_dropped]). *)
Definition room (c : Config) (w : Writer) (r : PcapRecord) : Prop :=
  wf_record (Snaplen (applyDefaults c)) (stored r) /\
  fileOffset w + PcapRecord_Size r < 2 ^ 62 /\ head w + 1 < 2 ^ 62 /\ nextSeq w + 1 < 2 ^ 64.

(** A directory that [NewWriter] can be started on: the crash before cut no line
    of the manifest, and segment numbers are not exhausted.  On a cut line it
    starts too, and damages the manifest ([Limits.torn_manifest_hides_packets]). *)
Definition startable (c : Config) (s : fs) : Prop :=
  untorn s /\ small_seqs (applyDefaults c) s.

(** A failing call ends the process, and the host is restarted. *)
Inductive step (c : Config) : conf -> event -> conf -> Prop :=
  | step_start s w0 faults clock rand w wd :
      startable c s -> Forall crash_only faults ->
      NewWriter c (w0, World s faults clock rand) = (Ret (), (w, wd)) ->
      step c (Conf None s) EvStart (Conf (Some w) (w_fs wd))
  | step_start_crash s w0 faults clock rand w wd s' :
      startable c s -> Forall crash_only faults ->
      NewWriter c (w0, World s faults clock rand) = (Crashed, (w, wd)) -> crash_fs (w_fs wd) s' ->
      step c (Conf None s) (EvCrash []) (Conf None s')
  | step_write w s faults clock rand r gpidx w' wd :
      room c w r -> WritePacket r (w, World s faults clock rand) = (Ret gpidx, (w', wd)) ->
      step c (Conf (Some w) s) (EvWrite r gpidx) (Conf (Some w') (w_fs wd))
  | step_write_fail w s faults clock rand r o w' wd s' :
      room c w r -> WritePacket r (w, World s faults clock rand) = (o, (w', wd)) ->
      (forall gpidx, o <> Ret gpidx) -> crash_fs (w_fs wd) s' ->
      step c (Conf (Some w) s) (EvCrash [stored r]) (Conf None s')
  | step_tick w s faults clock rand w' wd :
      nextSeq w + 1 < 2 ^ 64 -> Tick (w, World s faults clock rand) = (Ret (), (w', wd)) ->
      step c (Conf (Some w) s) EvTick (Conf (Some w') (w_fs wd))
  | step_tick_fail w s faults clock rand o w' wd s' :
      nextSeq w + 1 < 2 ^ 64 -> Tick (w, World s faults clock rand) = (o, (w', wd)) ->
      o <> Ret () -> crash_fs (w_fs wd) s' ->
      step c (Conf (Some w) s) (EvCrash []) (Conf None s')
  | step_crash w s s' :
      crash_fs s s' -> step c (Conf (Some w) s) (EvCrash []) (Conf None s').

(** ** The abstract log *)

Record log : Type := Log { l_packets : list PcapRecord; l_durable : Z }.

Definition log_ok (l : log) : Prop := l_durable l <= len (l_packets l).

(** What an event may do to the log; nothing durable is ever lost. *)
Inductive log_step : log -> event -> log -> Prop :=
  | log_start l ps d :
      ps `prefix_of` l_packets l -> l_durable l <= d <= len ps -> log_step l EvStart (Log ps d)
  | log_write l r d :
      l_durable l <= d <= len (l_packets l) + 1 ->
      log_step l (EvWrite r (len (l_packets l))) (Log (l_packets l ++ [stored r]) d)
  | log_tick l d :
      l_durable l <= d <= len (l_packets l) -> log_step l EvTick (Log (l_packets l) d)
  | log_crash l rs ps d :
      ps `prefix_of` l_packets l ++ rs -> l_durable l <= d <= len ps ->
      log_step l (EvCrash rs) (Log ps d).

(** ** Executing runs *)

(** Runs without faults, with crashes that lose nothing written. *)
Definition startable_b (s : fs) : bool :=
  match content s manifestName with
  | None => true
  | Some b => bool_decide (b = [] \/ last b = Some x0a)
  end &&
  forallb (fun n => match parseSegmentSeq n with Some q => q + 2 <? 2 ^ 64 | None => true end)
    (map_to_list (fs_dir s)).*1.

Definition room_b (c : Config) (w : Writer) (r : PcapRecord) : bool :=
  bool_decide (wf_record (Snaplen (applyDefaults c)) (stored r)) &&
  (fileOffset w + PcapRecord_Size r <? 2 ^ 62) && (head w + 1 <? 2 ^ 62) && (nextSeq w + 1 <? 2 ^ 64).

Definition new_object : Writer := mkWriter (mkConfig 0 0 0 0 0 0 0) None None zero_Segment 0 ∅ 0 0 0 0 0 0 0 0.

Definition exec (c : Config) (k : conf) (e : event) : option conf :=
  let run {A} (w : Writer) (m : M Writer A) := m (w, World (directory k) [] [] []) in
  match running k, e with
  | None, EvStart =>
      if startable_b (directory k) then
        match run new_object (NewWriter c) with
        | (Ret _, (w, wd)) => Some (Conf (Some w) (w_fs wd))
        | _ => None
        end
      else None
  | Some w, EvWrite r gpidx =>
      if room_b c w r then
        match run w (WritePacket r) with
        | (Ret gp, (w', wd)) => if decide (gp = gpidx) then Some (Conf (Some w') (w_fs wd)) else None
        | _ => None
        end
      else None
  | Some w, EvTick =>
      if nextSeq w + 1 <? 2 ^ 64 then
        match run w Tick with
        | (Ret _, (w', wd)) => Some (Conf (Some w') (w_fs wd))
        | _ => None
        end
      else None
  | Some _, EvCrash [] => if floors_ok (directory k) then Some (Conf None (flushed (directory k))) else None
  | _, _ => None
  end.

(** ** Lemmas *)

Lemma startable_b_spec c s : fs_wf s -> startable_b s = true -> startable c s.
Proof.
  intros Hwf [Hm Hn]%andb_true_iff. split.
  - intros b Hb. rewrite Hb in Hm. by apply bool_decide_eq_true in Hm.
  - intros n q Hc _ Hq. apply content_dom in Hc; [|done].
    rewrite forallb_forall in Hn. specialize (Hn n (proj1 (list_elem_of_In _ _) Hc)). rewrite Hq in Hn.
    by apply Z.ltb_lt in Hn.
Qed.

Lemma room_b_spec c w r : room_b c w r = true -> room c w r.
Proof.
  unfold room_b. rewrite !andb_true_iff, !Z.ltb_lt, bool_decide_eq_true. intros [[[? ?] ?] ?]. by split_and!.
Qed.

Section Refine.
Context (c0 : Config).
Abbreviation c := (applyDefaults c0).
Abbreviation disk := (spool_disk (SrcID c) (Snaplen c) (LinkType c)).

(** The log a spool holds. *)
Definition ghost_log (g : ghost) : log := Log (hist g) (durable_end g).

Definition rel (k : conf) (l : log) : Prop :=
  match k with
  | Conf (Some w) s => exists g, winv c g w s /\ base g = 0 /\ ghost_log g = l
  | Conf None s => exists g s0, disk g s0 /\ crash_fs s0 s /\ base g = 0 /\ ghost_log g = l
  end.

Lemma chain_end start l :
  contiguous start l -> foldl (fun _ => gs_end) start l = start + len (concat (gs_recs <$> l)).
Proof.
  revert start; induction l as [|x l IH]; intros start Hc; cbn [foldl fmap list_fmap concat].
  - unfold len. cbn. lia.
  - destruct Hc as [Hx Hc]. rewrite IH by done. rewrite len_app. unfold gs_end. lia.
Qed.

Lemma next_hist g : ghost_ok (Snaplen c) (LinkType c) g -> next_gpidx g = base g + len (hist g).
Proof.
  intros Hg. destruct (ok_chain _ _ _ Hg) as [start Hc]. unfold hist, base, next_gpidx.
  pose proof (chain_end _ _ Hc) as He. unfold g_segs in *. rewrite foldl_app in He. cbn in He. rewrite He.
  f_equal. destruct (g_closed g) as [|x t]; destruct Hc as [Hx _]; by rewrite <-Hx.
Qed.

Lemma ghost_log_ok g : ghost_ok (Snaplen c) (LinkType c) g -> base g = 0 -> log_ok (ghost_log g).
Proof.
  intros Hg Hb. pose proof (next_hist g Hg) as Hn. rewrite Hb, Z.add_0_l in Hn. unfold log_ok, ghost_log. cbn [l_packets l_durable].
  rewrite <-Hn. unfold durable_end, next_gpidx, gs_end, len. pose proof (ok_sync _ _ _ Hg). lia.
Qed.

Lemma log_crash_restarts g g' rs :
  ghost_ok (Snaplen c) (LinkType c) g' -> base g = 0 ->
  hist g' `prefix_of` hist g ++ rs -> durable_end g <= durable_end g' -> base g' = base g ->
  log_step (ghost_log g) (EvCrash rs) (ghost_log g').
Proof.
  intros Hg' Hb Hp Hd Hb'. apply log_crash; [done|]. split; [done|].
  apply ghost_log_ok; [done|congruence].
Qed.

Lemma broken_crash g rs s s' (why : Prop) :
  base g = 0 -> broken c why rs g s -> crash_fs s s' ->
  exists l', log_step (ghost_log g) (EvCrash rs) l' /\ rel (Conf None s') l'.
Proof.
  intros Hb (_ & g' & Hd & He) Hcr. exists (ghost_log g'). split.
  - destruct He as [(H1 & H2 & H3 & _)|(H1 & H2 & H3 & _)]; apply log_crash_restarts; try done; try apply Hd.
    + rewrite H1, app_nil_r. by apply prefix_app_r.
    + by rewrite H1.
  - exists g', s. split_and!; try done. destruct He as [(_ & _ & H & _)|(_ & _ & H & _)]; congruence.
Qed.

Lemma room_fits g w s r : winv c g w s -> room c0 w r -> fits c g r.
Proof.
  intros [[_ _ _ _ _ _ Hh Ho] _] (Hr & Hf & Hhd & _). split; [done|].
  assert (PcapRecord_Size (stored r) = PcapRecord_Size r) as ->.
  { unfold stored. by destruct (OrigLen r =? 0). }
  destruct Ho as (Ho & _). rewrite <-Ho. unfold next_gpidx in Hh. rewrite <-Hh. done.
Qed.

Lemma not_ret {A} (o : outcome A) (P : A -> Prop) (Q : Prop) :
  (forall a, o <> Ret a) -> match o with Ret a => P a | _ => Q end -> Q.
Proof. destruct o as [a| |]; [intros H; by destruct (H a)|done..]. Qed.

(** A step of the running writer. *)
Lemma running_step w s e w' s' g :
  step c0 (Conf (Some w) s) e (Conf (Some w') s') -> winv c g w s -> base g = 0 ->
  exists rs g', evolves rs g g' /\ winv c g' w' s' /\ log_step (ghost_log g) e (ghost_log g').
Proof.
  intros Hs Hw Hb.
  assert (forall rs g', evolves rs g g' -> winv c g' w' s' ->
    hist g' = hist g ++ rs /\ l_durable (ghost_log g) <= durable_end g' <= len (hist g ++ rs)) as Hl.
  { intros rs g' (H1 & H2 & H3 & _) Hw'. split; [done|].
    pose proof (ghost_log_ok g' ltac:(apply Hw') ltac:(congruence)) as Hl. unfold log_ok, ghost_log in Hl. cbn in Hl.
    by rewrite H1 in Hl. }
  inversion Hs as [| |? ? fl ck rn r gp ? wd Hroom Hrun| |? ? fl ck rn ? wd Hn Hrun| |]; subst.
  - pose proof (room_fits _ _ _ _ Hw Hroom) as Hfit.
    pose proof (wp_run _ _ _ _ (World s fl ck rn) _ _ _ (wp_WritePacket c any_fault g w s r Hw Hfit (proj2 (proj2 (proj2 Hroom))))
      eq_refl (any_fault_all _) Hrun) as (-> & g' & He & Hw').
    exists [stored r], g'. split_and!; [done..|]. destruct (Hl _ _ He Hw') as [H1 H2].
    rewrite (next_hist g), Hb, Z.add_0_l by apply Hw. unfold ghost_log at 2. rewrite H1.
    apply (log_write (ghost_log g) r). by rewrite len_app in H2.
  - pose proof (wp_run _ _ _ _ (World s fl ck rn) _ _ _ (wp_Tick c any_fault g w s Hw Hn) eq_refl (any_fault_all _) Hrun)
      as (g' & He & Hw').
    exists [], g'. split_and!; [done..|]. destruct (Hl _ _ He Hw') as [H1 H2]. rewrite app_nil_r in H1, H2.
    unfold ghost_log at 2. rewrite H1. by apply (log_tick (ghost_log g)).
Qed.

(** One step of the program is one step of the log. *)
Lemma step_log k e k' l :
  config_ok c -> step c0 k e k' -> rel k l -> exists l', log_step l e l' /\ rel k' l'.
Proof.
  intros Hc Hs Hr. pose proof Hs as Hs0. destruct Hs as [s w0 fl ck rn w wd [Hu Hq] Hfl Hrun|s w0 fl ck rn w wd s' [Hu Hq] Hfl Hrun Hcr|
    w s fl ck rn r gp w' wd Hroom Hrun|w s fl ck rn r o w' wd s' Hroom Hrun Ho Hcr|
    w s fl ck rn w' wd Hn Hrun|w s fl ck rn o w' wd s' Hn Hrun Ho Hcr|w s s' Hcr].
  - destruct Hr as (g & s0 & Hd & Hcr & Hb & <-).
    pose proof (wp_run _ _ _ _ (World s fl ck rn) _ _ _ (wp_NewWriter crash_only c0 g w0 s0 s crash_only_no_fail Hc Hd Hcr Hu Hq)
      eq_refl Hfl Hrun) as (g' & (H1 & H2 & H3 & _) & Hw & _).
    exists (ghost_log g'). split; [|by exists g'; split_and!; [|congruence|]].
    apply log_start; [done|]. split; [done|]. apply ghost_log_ok; [apply Hw|congruence].
  - destruct Hr as (g & s0 & Hd & Hcr0 & Hb & <-).
    pose proof (wp_run _ _ _ _ (World s fl ck rn) _ _ _ (wp_NewWriter crash_only c0 g w0 s0 s crash_only_no_fail Hc Hd Hcr0 Hu Hq)
      eq_refl Hfl Hrun) as (_ & g' & (H1 & H2 & H3 & _) & Hd').
    exists (ghost_log g'). split; [|by exists g', (w_fs wd); split_and!; [..|congruence|]].
    apply log_crash_restarts; try done; [apply Hd'|by rewrite app_nil_r].
  - destruct Hr as (g & Hw & Hb & <-). destruct (running_step _ _ _ _ _ _ Hs0 Hw Hb) as (rs & g' & He & Hw' & Hl).
    exists (ghost_log g'). split; [done|]. exists g'. split_and!; [done| |done]. rewrite <-Hb. apply He.
  - destruct Hr as (g & Hw & Hb & <-). pose proof (room_fits _ _ _ _ Hw Hroom) as Hfit.
    pose proof (wp_run _ _ _ _ (World s fl ck rn) _ _ _ (wp_WritePacket c any_fault g w s r Hw Hfit (proj2 (proj2 (proj2 Hroom))))
      eq_refl (any_fault_all _) Hrun) as H. apply (not_ret _ _ _ Ho) in H. by eapply broken_crash.
  - destruct Hr as (g & Hw & Hb & <-). destruct (running_step _ _ _ _ _ _ Hs0 Hw Hb) as (rs & g' & He & Hw' & Hl).
    exists (ghost_log g'). split; [done|]. exists g'. split_and!; [done| |done]. rewrite <-Hb. apply He.
  - destruct Hr as (g & Hw & Hb & <-).
    pose proof (wp_run _ _ _ _ (World s fl ck rn) _ _ _ (wp_Tick c any_fault g w s Hw Hn) eq_refl (any_fault_all _) Hrun) as H.
    assert (forall u, o <> Ret u) as Ho' by (by intros []). apply (not_ret _ _ _ Ho') in H. by eapply broken_crash.
  - destruct Hr as (g & Hw & Hb & <-). exists (ghost_log g). split.
    + apply log_crash_restarts; try done; [apply Hw|by rewrite app_nil_r].
    + exists g, s. split_and!; try done. apply Hw.
Qed.
End Refine.

(** ** What the head pointer says *)

(** The segment descriptor that a reader gets from the head pointer. *)
Definition head_pointer (s : fs) : option Segment := b ← content s headName; json_Unmarshal b.

Lemma contiguous_end start l x y k :
  contiguous start (l ++ y :: k) -> x ∈ l -> gs_end x <= gs_start y.
Proof.
  revert start; induction l as [|z l IH]; intros start Hc Hx; [by apply not_elem_of_nil in Hx|].
  destruct Hc as [Hz Hc]. apply elem_of_cons in Hx as [->|Hx]; [|by eapply IH].
  clear -Hc. revert Hc. generalize (gs_end z). induction l as [|u l IH]; intros e Hc.
  - destruct Hc as [-> _]. lia.
  - destruct Hc as [Hu Hc]. specialize (IH _ Hc). unfold gs_end in IH at 1.
    pose proof (len_nonneg (gs_recs u)). lia.
Qed.

Lemma advertised_bound src snap link g seg :
  ghost_ok snap link g -> advertised src g seg -> 0 <= seg_EndGpidx seg <= durable_end g /\ wf_segment seg.
Proof.
  intros Hg (x & j & -> & H). cbn.
  assert (gseg_ok snap link x /\ (j <= length (gs_recs x))%nat /\ gs_start x + Z.of_nat j <= durable_end g)
    as (Hok & Hj & Hd).
  { destruct H as [[[Hx|Hx]%elem_of_app Hj]|(-> & Hj & _)].
    - destruct (proj1 (Forall_forall _ _) (ok_gone _ _ _ Hg) x Hx) as [Hok _]. split_and!; [done..|].
      destruct (ok_gone_segs _ _ _ Hg x (g_act g) Hx (act_in_segs g)) as [_ He].
      unfold gs_end, len in He. unfold durable_end. lia.
    - split_and!; [by apply (seg_ok snap link g), closed_in_segs|done|]. destruct (ok_chain _ _ _ Hg) as [start Hc].
      pose proof (contiguous_end _ _ _ _ _ Hc Hx) as He. unfold gs_end, len in He. unfold durable_end. lia.
    - pose proof (ok_sync _ _ _ Hg). split_and!; [by apply act_ok|lia|]. unfold durable_end. lia. }
  destruct Hok as (Hq & _ & H0 & Hl & He).
  pose proof (gs_len_le x j _ Hj) as Hle. rewrite (gs_len_full snap link) in Hle.
  pose proof (gs_len_nonneg x j) as Hn. unfold GlobalHeaderLen in Hn. unfold gs_end, len in *.
  unfold gs_entry. cbn [seg_EndGpidx]. split; [lia|]. unfold wf_segment, is_uint. cbn. split_and!; try apply Hq; lia.
Qed.

Lemma head_pointer_disk src snap link g s seg :
  spool_disk src snap link g s -> head_pointer s = Some seg -> 0 <= seg_EndGpidx seg <= durable_end g.
Proof.
  intros [Hg Hinv] Hh.
  pose proof (holds_now _ _ _ (dir_wf _ _ Hinv) (rp_holds _ _ _ _ (di_head _ _ _ _ _ Hinv))) as Hc.
  unfold head_pointer in Hh. destruct (content s headName) as [b|]; [|done]. cbn in Hh, Hc.
  destruct Hc as (seg' & Ha & Hp). destruct (advertised_bound _ _ _ _ _ Hg Ha) as [Hb Hwf].
  by rewrite (Unmarshal_prefix seg' b seg Hwf Hp Hh).
Qed.

Lemma head_pointer_durable c0 k l seg :
  rel c0 k l -> head_pointer (directory k) = Some seg -> 0 <= seg_EndGpidx seg <= l_durable l.
Proof.
  intros Hr Hh. destruct k as [[w|] s]; cbn in *.
  - destruct Hr as (g & Hw & _ & <-). eapply head_pointer_disk; [apply Hw|done].
  - destruct Hr as (g & s0 & [Hg Hd] & Hcr & _ & <-).
    eapply head_pointer_disk; [split; [done|by eapply dir_crash]|done].
Qed.

(** ** Properties *)

(** The directory before the first start. *)
Definition first_conf : conf := Conf None empty_fs.

Lemma empty_spool c0 :
  rel c0 first_conf (Log [] 0).
Proof.
  set (c := applyDefaults c0). set (g := Ghost [] [] (GSeg 0 0 []) 0 true true false true).
  exists g, empty_fs. split_and!; [|by split_and!; [left|..]|done|done].
  split.
  - split; cbn; try done.
    + apply SSorted_cons; [apply SSorted_nil|apply Forall_nil_2].
    + apply Forall_singleton. unfold gseg_ok, is_uint. by split_and!.
    + by exists 0.
    + by right.
    + by intros s x Hs%not_elem_of_nil.
  - split; [by apply empty_replaceable| |].
    + intros n Hn d ->%list_elem_of_singleton. change (fs_dir empty_fs) with (∅ : gmap (list byte) nat).
      rewrite lookup_empty.
      split; [by intros x Hx%not_elem_of_nil|done|done|by split].
    + intros d d' n m ino ->%list_elem_of_singleton. change (fs_dir empty_fs) with (∅ : gmap (list byte) nat).
      by rewrite lookup_empty.
Qed.

Lemma steps_log c0 k es k' l :
  config_ok (applyDefaults c0) -> steps (step c0) k es k' -> rel c0 k l ->
  exists l', steps log_step l es l' /\ rel c0 k' l'.
Proof. intros Hc. apply (steps_sim (step c0) log_step (rel c0)). intros. by eapply step_log. Qed.

Lemma log_step_durable l e l' :
  log_step l e l' -> log_ok l ->
  log_ok l' /\ l_durable l <= l_durable l' /\
  forall n, Z.of_nat n <= l_durable l -> take n (l_packets l') = take n (l_packets l).
Proof.
  assert (forall (ps qs : list PcapRecord) n, (n <= length ps)%nat -> ps `prefix_of` qs -> take n ps = take n qs) as Hpre.
  { intros ps qs n Hn [k ->]. by rewrite take_app_le. }
  unfold log_ok, len. intros Hs Hl. destruct Hs as [l ps d Hp Hd|l r d Hd|l d Hd|l rs ps d Hp Hd]; cbn; unfold len in *.
  - split_and!; [lia|lia|]. intros n Hn. apply Hpre; [lia|done].
  - rewrite length_app. cbn. split_and!; [lia|lia|]. intros n Hn. rewrite take_app_le by lia. done.
  - split_and!; [lia|lia|done].
  - split_and!; [lia|lia|]. intros n Hn. rewrite (Hpre ps _ n) by (lia || done). rewrite take_app_le by lia. done.
Qed.

Lemma log_steps_durable l es l' :
  steps log_step l es l' -> log_ok l ->
  log_ok l' /\ l_durable l <= l_durable l' /\
  forall n, Z.of_nat n <= l_durable l -> take n (l_packets l') = take n (l_packets l).
Proof.
  induction 1 as [l|l e l1 es l' Hs Hss IH]; intros Hl; [by split_and!|].
  destruct (log_step_durable _ _ _ Hs Hl) as (Hl1 & Hd1 & Ht1). destruct (IH Hl1) as (Hl' & Hd' & Ht').
  split_and!; [done|lia|]. intros n Hn. rewrite Ht' by lia. by apply Ht1.
Qed.

Lemma rel_wf c0 k l : rel c0 k l -> fs_wf (directory k).
Proof.
  destruct k as [[w|] s]; cbn.
  - intros (g & Hw & _). apply Hw.
  - intros (g & s0 & [_ Hd] & Hcr & _). eapply crash_wf; [apply Hd|done].
Qed.

Lemma exec_step c k e k' : fs_wf (directory k) -> exec c k e = Some k' -> step c k e k'.
Proof.
  intros Hwf. destruct k as [[w|] s]; cbn; destruct e as [|r gp| |[|r rs]]; cbn; intros He; simplify_eq;
    try discriminate.
  - destruct (room_b c w r) eqn:Er; [|done]. destruct (WritePacket r _) as [[gp'|e|] [w' wd]] eqn:E; [|done..].
    case_decide; [|done]. simplify_eq. eapply step_write; [by apply room_b_spec|done].
  - destruct (Z.ltb_spec (nextSeq w + 1) (2 ^ 64)); [|done].
    destruct (Tick _) as [[[]|e|] [w' wd]] eqn:E; [|done..]. simplify_eq. by eapply step_tick.
  - destruct (floors_ok s) eqn:Ef; [|done]. simplify_eq. by apply step_crash, crash_flushed.
  - destruct (startable_b s) eqn:Es; [|done].
    destruct (NewWriter _ _) as [[[]|e|] [w' wd]] eqn:E; [|done..]. simplify_eq.
    eapply step_start; [by apply startable_b_spec|constructor|done].
Qed.

(** Executions are runs. *)
Lemma exec_runs c es k l k' :
  config_ok (applyDefaults c) -> rel c k l -> exec_all (exec c) k es = Some k' -> steps (step c) k es k'.
Proof.
  intros Hc Hr He. apply (exec_steps (step c) (fun k => exists l, rel c k l) (exec c)); [|eauto|done].
  intros k1 e k2 [l1 Hr1] E. pose proof (exec_step c k1 e k2 (rel_wf _ _ _ Hr1) E) as Hs. split; [done|].
  destruct (step_log c k1 e k2 l1 Hc Hs Hr1) as (l2 & _ & Hr2). eauto.
Qed.



(** Without faults the writer makes progress: from every reachable state it can be
    started, if the crash before cut no manifest line, accepts a packet that fits
    the snap length, and [Tick] returns. *)
Theorem spool_makes_progress c es k :
  config_ok (applyDefaults c) -> steps (step c) first_conf es k ->
  match running k with
  | None => startable c (directory k) -> forall w0 clock rand,
      exists w wd, NewWriter c (w0, World (directory k) [] clock rand) = (Ret (), (w, wd))
  | Some w => nextSeq w + 1 < 2 ^ 64 -> forall clock rand,
      (exists w' wd, Tick (w, World (directory k) [] clock rand) = (Ret (), (w', wd))) /\
      forall r, room c w r -> exists gpidx w' wd,
        WritePacket r (w, World (directory k) [] clock rand) = (Ret gpidx, (w', wd))
  end.
Proof.
  intros Hc Hs. destruct (steps_log c _ _ _ _ Hc Hs (empty_spool c)) as (l & _ & Hr).
  destruct k as [[w|] s]; cbn in *.
  - intros Hn ck rn. destruct Hr as (g & Hw & _). split.
    + pose proof (wp_Tick (applyDefaults c) no_faults g w s Hw Hn [] ck rn ltac:(constructor)) as H.
      destruct (Tick _) as [[[]|e|] [w' wd]]; [by eexists _, _|exfalso..]; destruct H as [[Hf _] _]; [by apply no_faults_no_fail|done].
    + intros r Hroom. pose proof (wp_WritePacket (applyDefaults c) no_faults g w s r Hw (room_fits c _ _ _ _ Hw Hroom)
        Hn [] ck rn ltac:(constructor)) as H.
      destruct (WritePacket _ _) as [[gp|e|] [w' wd]]; [by eexists _, _, _|exfalso..]; destruct H as [[Hf _] _]; [by apply no_faults_no_fail|done].
  - intros [Hu Hq] w0 ck rn. destruct Hr as (g & s0 & Hd & Hcr & _).
    pose proof (wp_NewWriter no_faults c g w0 s0 s no_faults_no_fail Hc Hd Hcr Hu Hq [] ck rn ltac:(constructor)) as H.
    destruct (NewWriter _ _) as [[[]|e|] [w' wd]]; [by eexists _, _|by destruct H..|exfalso].
    destruct H as [[Hf _] _]. done.
Qed.

(** A run with a rotation, a crash and a restart. *)
Definition example_config : Config := mkConfig 7 0 1 100 0 1 0.

Definition example_run : list event :=
  [EvStart; EvWrite (mkPcapRecord 1 2 0 [x61]) 0; EvWrite (mkPcapRecord 3 4 0 (replicate 90 x62)) 1; EvTick;
   EvWrite (mkPcapRecord 5 6 0 [x63]) 2; EvCrash []; EvStart; EvWrite (mkPcapRecord 7 8 0 [x64]) 3].

Definition example_end : conf := exec_end (exec example_config) first_conf example_run.

Lemma example_ok : exec_ok (exec example_config) first_conf example_run = true.
Proof. vm_compute. reflexivity. Qed.

Lemma example_steps : config_ok (applyDefaults example_config) /\ steps (step example_config) first_conf example_run example_end.
Proof.
  assert (config_ok (applyDefaults example_config)) as Hc by (apply (bool_decide_unpack _); vm_compute; exact I).
  split; [done|]. apply (exec_runs _ _ _ _ _ Hc (empty_spool _)).
  exact (exec_ok_end (exec example_config) first_conf example_run example_ok).
Qed.


(** The first session of the example, and the rest of it. *)
Definition example_first : list event := take 5 example_run.
Definition example_rest : list event := drop 5 example_run.
Definition example_mid : conf := exec_end (exec example_config) first_conf example_first.
Definition example_seg : Segment := default zero_Segment (head_pointer (directory example_mid)).

Lemma example_split :
  steps (step example_config) first_conf example_first example_mid /\
  steps (step example_config) example_mid example_rest example_end.
Proof.
  destruct example_steps as [Hc _].
  assert (exec_all (exec example_config) first_conf example_first = Some example_mid) as He
    by (apply (exec_ok_end (exec example_config) first_conf example_first); vm_compute; reflexivity).
  pose proof (exec_runs _ _ _ _ _ Hc (empty_spool _) He) as H1. split; [done|].
  destruct (steps_log _ _ _ _ _ Hc H1 (empty_spool _)) as (l & _ & Hr).
  apply (exec_runs _ _ _ _ _ Hc Hr). rewrite <-(exec_all_app _ _ _ _ example_rest He).
  exact (exec_ok_end (exec example_config) first_conf example_run example_ok).
Qed.


(** The example, as the last property sees it. *)
Lemma spool_makes_progress_witness :
  match running example_end with
  | None => startable example_config (directory example_end) -> forall w0 clock rand,
      exists w wd, NewWriter example_config (w0, World (directory example_end) [] clock rand) = (Ret (), (w, wd))
  | Some w => nextSeq w + 1 < 2 ^ 64 -> forall clock rand,
      (exists w' wd, Tick (w, World (directory example_end) [] clock rand) = (Ret (), (w', wd))) /\
      forall r, room example_config w r -> exists gpidx w' wd,
        WritePacket r (w, World (directory example_end) [] clock rand) = (Ret gpidx, (w', wd))
  end.
Proof.
  exact (spool_makes_progress example_config example_run example_end (proj1 example_steps) (proj2 example_steps)).
Defined.
