(* ===== verification/Blind.v ===== *)
(** * Names a program does not use

    A program that never opens, renames or lists certain names of a directory
    runs in the same way whether they exist or not.  Retention deletes such names
    under a running writer; what is known of the writer in the full directory
    therefore holds in the real one. *)

From S2P Require Import Prelude Bytes GoIO Os Durable Json Manifest Recover Spool.

(** The directory with the bindings [G] put back into every version. *)
Definition restored (G : gmap (list byte) nat) (s : fs) : fs :=
  Fs (fs_inodes s) (fs_dir s ∪ G) ((fun d => d ∪ G) <$> fs_olddirs s) (fs_fds s) (fs_next s).

Lemma versions_restored G s : versions (restored G s) = (fun d => d ∪ G) <$> versions s.
Proof. done. Qed.

Lemma restored_empty s : restored ∅ s = s.
Proof.
  destruct s as [i d o f n]. unfold restored. cbn. rewrite (right_id_L ∅ (∪)). f_equal.
  induction o as [|x o IH]; cbn; [done|]. by rewrite (right_id_L ∅ (∪)), IH.
Qed.

Section Blind.
Context (G : gmap (list byte) nat).

Definition unused (n : list byte) : Prop := G !! n = None.

(** The names of [G] are bound as they were: now, and in every version. *)
Definition agrees (d d' : gmap (list byte) nat) : Prop := forall n, is_Some (G !! n) -> d' !! n = d !! n.

Definition same_names (s s' : fs) : Prop :=
  agrees (fs_dir s) (fs_dir s') /\ forall d', d' ∈ versions s' -> exists d, d ∈ versions s /\ agrees d d'.

Lemma same_names_refl s : same_names s s.
Proof. split; [done|]. intros d' Hd. by exists d'. Qed.

Lemma same_names_trans s1 s2 s3 : same_names s1 s2 -> same_names s2 s3 -> same_names s1 s3.
Proof.
  intros [A1 B1] [A2 B2]. split.
  - intros n Hn. by rewrite A2, A1.
  - intros d3 Hd3. destruct (B2 d3 Hd3) as (d2 & Hd2 & E2). destruct (B1 d2 Hd2) as (d1 & Hd1 & E1).
    exists d1. split; [done|]. intros n Hn. by rewrite E2, E1.
Qed.

Definition restored_world (w : world) : world := set_fs (restored G (w_fs w)) w.

(** From an object in [P], [m] does the same in the full directory, and returns
    with an object in [Q]. *)
Definition blind {X A} (P : X -> Prop) (m : M X A) (Q : X -> Prop) : Prop :=
  forall x w, P x ->
    let '(o, (x', w')) := m (x, w) in
    m (x, restored_world w) = (o, (x', restored_world w')) /\ same_names (w_fs w) (w_fs w') /\
    (forall a, o = Ret a -> Q x').

Lemma blind_ret {X A} (P : X -> Prop) (a : A) : blind P (mret a) P.
Proof. intros x w Hx. split_and!; [done|apply same_names_refl|done]. Qed.

Lemma blind_fail {X A} (P Q : X -> Prop) e : blind (A := A) P (fail e) Q.
Proof. intros x w Hx. split_and!; [done|apply same_names_refl|done]. Qed.

Lemma blind_bind {X A B} (P Q R : X -> Prop) (m : M X A) (k : A -> M X B) :
  blind P m Q -> (forall a, blind Q (k a) R) -> blind P (m ≫= k) R.
Proof.
  intros Hm Hk x w Hx. specialize (Hm x w Hx). unfold mbind, M_bind.
  destruct (m (x, w)) as [[a|e|] [x' w']]; destruct Hm as (-> & Hs & HQ); [|by split_and!..].
  specialize (Hk a x' w' (HQ a eq_refl)). destruct (k a (x', w')) as [o [x2 w2]].
  destruct Hk as (-> & Hs2 & HR). split_and!; [done|by eapply same_names_trans|done].
Qed.

Lemma blind_get {X B} (P Q : X -> Prop) (k : X -> M X B) :
  (forall x, P x -> blind (eq x) (k x) Q) -> blind P (get ≫= k) Q.
Proof. intros Hk x w Hx. exact (Hk x Hx x w eq_refl). Qed.

Lemma blind_pre {X A} (P P' Q : X -> Prop) (m : M X A) :
  (forall x, P x -> P' x) -> blind P' m Q -> blind P m Q.
Proof. intros HP Hm x w Hx. by apply Hm, HP. Qed.

Lemma blind_post {X A} (P Q Q' : X -> Prop) (m : M X A) :
  (forall x, Q x -> Q' x) -> blind P m Q -> blind P m Q'.
Proof.
  intros HQ Hm x w Hx. specialize (Hm x w Hx). destruct (m (x, w)) as [o [x' w']].
  destruct Hm as (? & ? & H3). split_and!; [done|done|]. intros a Ha. by eapply HQ, H3.
Qed.

Lemma blind_modify {X} (P Q : X -> Prop) (f : X -> X) : (forall x, P x -> Q (f x)) -> blind P (modify f) Q.
Proof. intros Hf x w Hx. split_and!; [done|apply same_names_refl|]. intros a _. by apply Hf. Qed.

Lemma blind_try {X A} (P : X -> Prop) (m : M X A) : blind P m P -> (forall x w, P x -> P (m (x, w)).2.1) -> blind P (try m) P.
Proof.
  intros Hm Hp x w Hx. specialize (Hp x w Hx). specialize (Hm x w Hx). unfold try.
  destruct (m (x, w)) as [[a|e|] [x' w']]; destruct Hm as (-> & Hs & HQ); by split_and!.
Qed.

Lemma blind_on_error {X A} (P : X -> Prop) (m : M X A) (cl : M X unit) :
  blind P m P -> (forall x w, P x -> P (m (x, w)).2.1) -> blind P cl P -> blind P (on_error m cl) P.
Proof.
  intros Hm Hp Hc. eapply blind_bind; [by apply blind_try|]. intros [a|e]; [apply blind_ret|].
  eapply blind_bind; [done|]. intros _. apply blind_fail.
Qed.

Lemma blind_if {X A} (P Q : X -> Prop) (b : bool) (m1 m2 : M X A) :
  blind P m1 Q -> blind P m2 Q -> blind P (if b then m1 else m2) Q.
Proof. by destruct b. Qed.

Lemma next_fault_restored w : next_fault (restored_world w) = let '(f, w') := next_fault w in (f, restored_world w').
Proof. destruct w as [s [|f fl] ck rn]; done. Qed.

Lemma next_fault_fs w : w_fs (next_fault w).2 = w_fs w.
Proof. by destruct w as [s [|f fl] ck rn]. Qed.

(** A call that does the same in the full directory. *)
Definition blind_call {A} (call : fs -> res (A * fs)) : Prop :=
  forall s, match call s with
            | Ok (a, s') => call (restored G s) = Ok (a, restored G s') /\ same_names s s'
            | Err e => call (restored G s) = Err e
            end.

Lemma blind_sys {X A} (P : X -> Prop) (call : fs -> res (A * fs)) : blind_call call -> blind P (sys call) P.
Proof.
  intros Hc x w Hx. unfold sys. cbn [snd]. rewrite next_fault_restored. pose proof (next_fault_fs w) as Hw.
  destruct (next_fault w) as [f w1]. cbn [snd] in Hw. specialize (Hc (w_fs w1)).
  destruct f; try (split_and!; [done|rewrite <-Hw; apply same_names_refl|done]).
  change (w_fs (restored_world w1)) with (restored G (w_fs w1)).
  destruct (call (w_fs w1)) as [[a s']|e].
  - destruct Hc as [-> Hs]. split_and!; [done|by rewrite <-Hw|done].
  - rewrite Hc. split_and!; [done|rewrite <-Hw; apply same_names_refl|done].
Qed.

(** A call on a descriptor. *)
Lemma blind_with_fd {A} fd (k : fdesc -> inode -> fs -> res (A * fs)) :
  (forall d i, blind_call (k d i)) -> blind_call (with_fd fd k).
Proof.
  intros Hk s. unfold with_fd. change (fs_fds (restored G s)) with (fs_fds s).
  change (fs_inodes (restored G s)) with (fs_inodes s).
  destruct (fs_fds s !! fd) as [d|]; [|done]. destruct (fs_inodes s !! fd_ino d) as [i|]; [|done]. apply Hk.
Qed.

(** Files and descriptors change, names do not. *)
Definition nameless (f : fs -> fs) : Prop :=
  forall s, f (restored G s) = restored G (f s) /\ fs_dir (f s) = fs_dir s /\ fs_olddirs (f s) = fs_olddirs s.

Lemma nameless_same f s : nameless f -> same_names s (f s).
Proof.
  intros Hf. destruct (Hf s) as (_ & Hd & Ho). unfold same_names, versions. rewrite Hd, Ho.
  apply same_names_refl.
Qed.

Lemma blind_nameless {A} (a : A) f : nameless f -> blind_call (fun s => Ok (a, f s)).
Proof. intros Hf s. split; [by destruct (Hf s) as [-> _]|by apply nameless_same]. Qed.

Lemma blind_Write {X} (P : X -> Prop) fd buf : blind P (Write fd buf) P.
Proof.
  intros x w Hx. unfold Write. cbn [snd]. rewrite next_fault_restored. pose proof (next_fault_fs w) as Hw.
  destruct (next_fault w) as [f w1]. cbn [snd] in Hw.
  assert (forall b, blind_call (with_fd fd (fun d i s => Ok ((), write_fs fd d i b s)))) as Hst.
  { intros b. apply blind_with_fd. intros d i. apply blind_nameless. by intros s. }
  change (w_fs (restored_world w1)) with (restored G (w_fs w1)).
  destruct f as [| |n|]; try (split_and!; [done|rewrite <-Hw; apply same_names_refl|done]).
  - specialize (Hst buf (w_fs w1)). destruct (with_fd _ _ (w_fs w1)) as [[[] s']|e].
    + destruct Hst as [-> Hs]. split_and!; [done|by rewrite <-Hw|done].
    + rewrite Hst. split_and!; [done|rewrite <-Hw; apply same_names_refl|done].
  - specialize (Hst (take n buf) (w_fs w1)). destruct (with_fd _ _ (w_fs w1)) as [[[] s']|e].
    + destruct Hst as [-> Hs]. split_and!; [done|by rewrite <-Hw|done].
    + rewrite Hst. split_and!; [done|rewrite <-Hw; apply same_names_refl|done].
Qed.

Lemma blind_Close {X} (P : X -> Prop) fd : blind P (Close fd) P.
Proof. intros x w Hx. split_and!; [done|by apply (nameless_same (set_fds (delete fd)))|done]. Qed.

Lemma blind_Now {X B} (P Q : X -> Prop) (k : Z -> M X B) : (forall t, blind P (k t) Q) -> blind P (Now ≫= k) Q.
Proof.
  intros Hk. eapply (blind_bind P P); [|exact Hk]. intros x [s fl [|t ck] rn] Hx;
    (split_and!; [done|apply same_names_refl|done]).
Qed.

Lemma blind_Fdatasync {X} (P : X -> Prop) fd : blind P (Fdatasync fd) P.
Proof. apply blind_sys, blind_with_fd. intros d i. apply blind_nameless. by intros s. Qed.

Lemma blind_CloseErr {X} (P : X -> Prop) fd : blind P (CloseErr fd) P.
Proof. apply blind_sys, blind_nameless. by intros s. Qed.

Lemma blind_SyncDir {X} (P : X -> Prop) : blind P SyncDir P.
Proof.
  apply blind_sys. intros s. split; [done|]. split; [done|]. cbn.
  intros d' ->%list_elem_of_singleton. exists (fs_dir s). split; [left|done].
Qed.

Lemma lookup_restored d n : unused n -> (d ∪ G) !! n = d !! n.
Proof. intros Hn. rewrite lookup_union, Hn. by destruct (d !! n). Qed.

Lemma insert_restored d n ino : <[n := ino]> d ∪ G = <[n := ino]> (d ∪ G).
Proof. symmetry. apply insert_union_l. Qed.

Lemma delete_restored d n : unused n -> delete n d ∪ G = delete n (d ∪ G).
Proof.
  intros Hn. apply map_eq. intros m. rewrite lookup_union, !lookup_delete. case_decide as Hd.
  - subst m. by rewrite Hn.
  - by rewrite lookup_union.
Qed.

(** A new version of the directory that agrees with the last. *)
Lemma same_names_set_dir s d : agrees (fs_dir s) d -> same_names s (set_dir d s).
Proof.
  intros Ha. split; [done|]. intros d' [->|Hd]%elem_of_cons; [exists (fs_dir s); split; [left|done]|].
  exists d'. by split.
Qed.

Lemma agrees_insert d n ino : unused n -> agrees d (<[n := ino]> d).
Proof. intros Hn m [x Hm]. rewrite lookup_insert_ne; [done|]. intros ->. congruence. Qed.

Lemma blind_open_call name fl : unused name -> blind_call (open_call name fl).
Proof.
  intros Hn s. unfold open_call. change (fs_dir (restored G s)) with (fs_dir s ∪ G).
  rewrite lookup_restored by done. destruct (fs_dir s !! name) as [ino|] eqn:E.
  - destruct (O_EXCL fl); [done|]. split; [by destruct (O_TRUNC fl)|].
    destruct (O_TRUNC fl); (split; [done|]); intros d' Hd; by exists d'.
  - destruct (O_CREATE fl); [|done]. split.
    + unfold open_ino, restored. cbn. by rewrite insert_restored.
    + exact (same_names_set_dir s _ (agrees_insert _ name (fs_next s) Hn)).
Qed.

Lemma blind_OpenFile {X} (P : X -> Prop) name fl : unused name -> blind P (OpenFile name fl) P.
Proof. intros Hn. by apply blind_sys, blind_open_call. Qed.

Lemma blind_Rename {X} (P : X -> Prop) old new : unused old -> unused new -> blind P (Rename old new) P.
Proof.
  intros Ho Hn. apply blind_sys. intros s. change (fs_dir (restored G s)) with (fs_dir s ∪ G).
  rewrite lookup_restored by done. destruct (fs_dir s !! old) as [ino|]; [|done]. split.
  - unfold set_dir, restored. cbn. by rewrite insert_restored, delete_restored.
  - apply same_names_set_dir. intros m [x Hm]. rewrite lookup_insert_ne by congruence.
    apply lookup_delete_ne. congruence.
Qed.

(** System calls leave the object alone. *)
Lemma sys_object {X A} (call : fs -> res (A * fs)) x w : (sys (X := X) call (x, w)).2.1 = x.
Proof.
  unfold sys. cbn [snd fst]. destruct (next_fault w) as [[] w1]; [|done..]. by destruct (call (w_fs w1)) as [[a s']|e].
Qed.

Lemma Write_object {X} fd buf (x : X) w : (Write fd buf (x, w)).2.1 = x.
Proof.
  unfold Write. cbn [snd fst]. destruct (next_fault w) as [[] w1]; [|done| |done];
    by destruct (with_fd _ _ (w_fs w1)) as [[[] s']|e].
Qed.

Lemma blind_closing {X} (P : X -> Prop) (call : fs -> res (unit * fs)) fd :
  blind_call call -> blind P (on_error (sys call) (Close fd)) P.
Proof.
  intros Hc. apply blind_on_error; [by apply blind_sys| |apply blind_Close]. intros x w Hx. by rewrite sys_object.
Qed.

Lemma blind_closing_Write {X} (P : X -> Prop) buf f fd : blind P (on_error (Write f buf) (Close fd)) P.
Proof.
  apply blind_on_error; [apply blind_Write| |apply blind_Close]. intros x w Hx. by rewrite Write_object.
Qed.

(** ** The writer of the spool *)

Section Writer.
Context (c : Config) (q o : Z).
Hypothesis Hman : unused manifestName.
Hypothesis Hhead : unused headName.
Hypothesis Htmp : unused (tmp_name headName).
Hypothesis Hseg : unused (segmentName (SrcID c) q).

(** The writer's next segment is [q], and its oldest gpidx [o]. *)
Definition about (w : Writer) : Prop := cfg w = c /\ nextSeq w = q /\ oldestGpidx w = o.
Definition about_oldest (w : Writer) : Prop := cfg w = c /\ oldestGpidx w = o.

Lemma blind_writeHead (P : Writer -> Prop) seg : blind P (writeHead seg) P.
Proof.
  unfold writeHead, WriteFileAtomic. eapply blind_bind; [by apply blind_OpenFile|]. intros f.
  eapply blind_bind; [apply blind_closing_Write|]. intros _.
  eapply blind_bind; [apply blind_ret|]. intros _. eapply blind_bind; [apply blind_CloseErr|]. intros _.
  eapply blind_bind; [by apply blind_Rename|]. intros _. apply blind_SyncDir.
Qed.

Lemma blind_publishHead (P : Writer -> Prop) : blind P publishHead P.
Proof.
  unfold publishHead. apply blind_get. intros w Hw. eapply blind_post, blind_writeHead. by intros x <-.
Qed.

Lemma blind_on_file {A} (P : Writer -> Prop) (f : option nat) (k : nat -> M Writer A) :
  (forall fd, blind P (k fd) P) -> blind P (on_file f k) P.
Proof. intros Hk. destruct f; [apply Hk|apply blind_fail]. Qed.

Lemma blind_sync (P : Writer -> Prop) :
  (forall w w', P w -> cfg w' = cfg w -> nextSeq w' = nextSeq w -> oldestGpidx w' = oldestGpidx w -> P w') ->
  blind P sync P.
Proof.
  intros HP. unfold sync. apply blind_get. intros w Hw. eapply (blind_pre _ P); [by intros x <-|].
  eapply blind_bind; [apply blind_on_file; intros fd; apply blind_Fdatasync|]. intros _.
  apply blind_Now. intros t. eapply blind_bind; [apply (blind_modify P P); intros x Hx; by apply (HP x)|].
  intros _. apply blind_publishHead.
Qed.

Lemma blind_sealToManifest seg : blind about (sealToManifest seg) about.
Proof.
  unfold sealToManifest. apply blind_get. intros w Hw. eapply (blind_pre _ about); [by intros x <-|].
  eapply blind_bind; [apply blind_on_file; intros fd; apply blind_Write|]. intros _.
  eapply blind_bind; [apply blind_on_file; intros fd; apply blind_Fdatasync|]. intros _.
  by apply blind_modify.
Qed.

Lemma blind_openNewSegment start : blind about_oldest (openNewSegment q start) about_oldest.
Proof.
  unfold openNewSegment. apply blind_get. intros w [Hc Ho]. rewrite Hc.
  eapply (blind_pre _ about_oldest); [by intros x <-|].
  eapply blind_bind; [by apply blind_OpenFile|]. intros f.
  eapply blind_bind; [apply blind_closing_Write|]. intros _.
  eapply blind_bind; [apply blind_closing, blind_with_fd; intros d i; apply blind_nameless; by intros s|]. intros _.
  eapply blind_bind.
  { apply blind_closing. intros s. split; [done|]. split; [done|]. cbn.
    intros d' ->%list_elem_of_singleton. exists (fs_dir s). split; [left|done]. }
  intros _. eapply blind_bind; [destruct (file w); [apply blind_Close|apply blind_ret]|]. intros _.
  apply blind_Now. intros t. by apply blind_modify.
Qed.

Lemma blind_rotate : blind about rotate about_oldest.
Proof.
  unfold rotate. eapply blind_bind; [apply (blind_sync about); unfold about; intros w w' (? & ? & ?) ???; split_and!; congruence|]. intros _.
  apply blind_get. intros w Hw. eapply (blind_pre _ about); [by intros x <-|].
  eapply blind_bind; [apply blind_sealToManifest|]. intros _.
  apply blind_get. intros w1 (Hc & Hn & Ho). eapply (blind_pre _ about); [by intros x <-|]. rewrite Hn.
  eapply blind_bind; [apply (blind_modify about about_oldest); by intros x (? & ? & ?)|]. intros _.
  apply blind_get. intros w2 Hw2. eapply (blind_pre _ about_oldest); [by intros x <-|].
  eapply blind_bind; [apply blind_openNewSegment|]. intros _. apply blind_publishHead.
Qed.

Lemma blind_since t0 d : blind about (since t0 d) about.
Proof. apply blind_Now. intros t. apply blind_ret. Qed.

Lemma blind_sync_if (b : bool) : blind about (if b then sync else mret ()) about.
Proof.
  apply blind_if; [|apply blind_ret]. apply blind_sync. unfold about. intros w w' (? & ? & ?) ???; split_and!; congruence.
Qed.

Lemma blind_rotate_if (b : bool) : blind about (if b then rotate else mret ()) about_oldest.
Proof. apply blind_if; [apply blind_rotate|]. eapply blind_post, blind_ret. by intros x (? & ? & ?). Qed.

Lemma blind_WritePacket r : blind about (WritePacket r) about_oldest.
Proof.
  unfold WritePacket. apply blind_get. intros w Hw. eapply (blind_pre _ about); [by intros x <-|].
  eapply blind_bind; [apply blind_on_file; intros fd; apply blind_Write|]. intros _.
  eapply blind_bind; [by apply (blind_modify about about)|]. intros _.
  apply blind_get. intros w1 Hw1. eapply (blind_pre _ about); [by intros x <-|].
  eapply blind_bind; [apply blind_if; [apply blind_ret|apply blind_since]|]. intros due.
  eapply blind_bind; [apply blind_sync_if|]. intros _.
  apply blind_get. intros w2 Hw2. eapply (blind_pre _ about); [by intros x <-|].
  eapply blind_bind; [apply blind_if; [apply blind_ret|apply blind_since]|]. intros due2.
  eapply blind_bind; [apply blind_rotate_if|]. intros _. apply blind_ret.
Qed.

Lemma blind_Tick : blind about Tick about_oldest.
Proof.
  unfold Tick. apply blind_get. intros w Hw. eapply (blind_pre _ about); [by intros x <-|].
  eapply blind_bind; [apply blind_if; [apply blind_since|apply blind_ret]|]. intros due.
  eapply blind_bind; [apply blind_sync_if|]. intros _.
  apply blind_get. intros w1 Hw1. eapply (blind_pre _ about); [by intros x <-|].
  eapply blind_bind; [apply blind_if; [apply blind_since|apply blind_ret]|]. intros due2.
  apply blind_rotate_if.
Qed.
End Writer.
End Blind.
