(* ===== verification/Retention.v ===== *)
(** * Retention keeps the spool (internal/spool/janitor.go)

    Deleted segments under a running writer, and what a crash makes of them: the
    directory is the full one less some of the oldest sealed segments, the writer
    does not notice, and after a crash a suffix of the chain is there. *)

From S2P Require Import Prelude Bytes GoIO Pcapio Os Keeps Durable Dir Runs Json Manifest Recover Spool Janitor SpoolSpec SpoolProof RecoverProof RestartProof SpoolProps Blind.

Section Retention.
Context (c : Config).

Abbreviation src := (SrcID c).
Abbreviation snap := (Snaplen c).
Abbreviation link := (LinkType c).
Abbreviation gname := (gs_name src).
Abbreviation gbytes := (gs_bytes snap link).
Abbreviation disk := (spool_disk src snap link).
Abbreviation ok := (ghost_ok snap link).

(** ** The chain without its oldest segments *)

Definition g_drop (k : nat) (g : ghost) : ghost :=
  Ghost (g_gone g ++ take k (g_closed g)) (drop k (g_closed g)) (g_act g) (g_sync g) (g_absent g) (g_raw g)
    (g_pend g) (g_nomanifest g).

(** The first segment that is left is a sealed one, or nothing is dropped: what
    recovery needs to know where the chain starts. *)
Definition spares (k : nat) (g : ghost) : Prop := k = 0%nat \/ (k < length (g_closed g))%nat.

Lemma segs_drop k g : (k <= length (g_closed g))%nat -> g_segs (g_drop k g) = drop k (g_segs g).
Proof. intros Hk. unfold g_segs. by rewrite drop_app_le. Qed.

Lemma old_drop k g : g_old (g_drop k g) = g_old g.
Proof. unfold g_old, g_drop. cbn. by rewrite <-app_assoc, take_drop. Qed.

Lemma contiguous_drop start k l :
  contiguous start l -> contiguous (foldl (fun _ => gs_end) start (take k l)) (drop k l).
Proof. intros H. rewrite <-(take_drop k l) in H. by apply contiguous_app in H as [_ H]. Qed.

Lemma ghost_ok_drop k g : ok g -> spares k g -> ok (g_drop k g).
Proof.
  intros Hg Hsp. assert (k <= length (g_closed g))%nat as Hk by (destruct Hsp; lia).
  pose proof (segs_drop k g Hk) as Hsegs. pose proof Hg as [Hs Hf [st Hc] Hb Hy Hr Ha Hp Hne Hgo Hgs].
  assert (forall x, x ∈ take k (g_closed g) -> x ∈ g_closed g) as Htake.
  { intros x Hx. rewrite <-(take_drop k (g_closed g)), elem_of_app. by left. }
  split; try done; rewrite ?Hsegs.
  - rewrite fmap_drop. rewrite <-(take_drop k (gs_seq <$> g_segs g)) in Hs.
    by apply StronglySorted_app in Hs as (_ & _ & ?).
  - by apply Forall_drop.
  - eexists. by apply contiguous_drop.
  - destruct Hsp as [->|Hl].
    + cbn. by rewrite app_nil_r.
    + left. cbn. intros E. apply (f_equal length) in E. rewrite length_drop in E. cbn in E. lia.
  - cbn. by apply Forall_drop.
  - cbn. apply Forall_app. split; [done|]. apply Forall_forall. intros x Hx%Htake.
    split; [by apply (seg_ok snap link g), closed_in_segs|]. exact (proj1 (Forall_forall _ _) Hne x Hx).
  - intros x y Hx Hy'. cbn in Hx. apply elem_of_app in Hx as [Hx|Hx].
    + apply Hgs; [done|]. apply (subseteq_drop k). done.
    + unfold g_segs in Hy', Hs, Hc. rewrite drop_app_le in Hy' by done.
      rewrite <-(take_drop k (g_closed g)), <-app_assoc in Hs, Hc. split.
      * rewrite fmap_app in Hs. apply StronglySorted_app in Hs as (Hlt & _).
        apply Hlt; by apply list_elem_of_fmap_2.
      * apply list_elem_of_split in Hy' as (l1 & l2 & E). rewrite E, app_assoc in Hc.
        eapply contiguous_end; [exact Hc|]. rewrite elem_of_app. by left.
Qed.

(** The packets that go with them. *)
Lemma hist_drop k g :
  ok g -> (k <= length (g_closed g))%nat ->
  base (g_drop k g) = first_start (drop k (g_segs g)) /\
  base g <= base (g_drop k g) <= durable_end g /\
  hist (g_drop k g) = drop (Z.to_nat (base (g_drop k g) - base g)) (hist g).
Proof.
  intros Hg Hk. destruct (ok_chain _ _ _ Hg) as [st Hc]. pose proof (segs_drop k g Hk) as Hsegs.
  assert (base (g_drop k g) = first_start (drop k (g_segs g))) as Hb by (unfold base; by rewrite Hsegs).
  assert (g_segs g = take k (g_segs g) ++ drop k (g_segs g)) as Hsplit by (by rewrite take_drop).
  assert (base g = st) as Hst.
  { unfold base. destruct (g_segs g) as [|x l] eqn:E; [|by destruct Hc].
    unfold g_segs in E. by apply app_eq_nil in E as [_ ?]. }
  pose proof (contiguous_drop st k _ Hc) as Hc2.
  pose proof Hc as Hc1. rewrite Hsplit in Hc1. apply contiguous_app in Hc1 as [Hc1 _].
  pose proof (chain_end st _ Hc1) as He.
  assert (exists x l, drop k (g_segs g) = x :: l) as (x & l & E).
  { destruct (drop k (g_segs g)) as [|x l] eqn:E; [|eauto]. apply (f_equal length) in E.
    rewrite length_drop in E. unfold g_segs in E. rewrite length_app in E. cbn in E. lia. }
  rewrite E in Hc2. destruct Hc2 as [Hx _]. rewrite Hb, E. cbn [first_start]. rewrite Hx, He, Hst.
  split; [done|]. pose proof (len_nonneg (concat (gs_recs <$> take k (g_segs g)))) as Hn. split.
  - split; [lia|]. rewrite <-He, <-Hx. unfold durable_end.
    assert (x ∈ g_segs g) as Hin by (rewrite Hsplit, E, elem_of_app; right; left).
    unfold g_segs in Hin. apply elem_of_app in Hin as [Hin| ->%list_elem_of_singleton]; [|lia].
    assert (gs_end x <= gs_start (g_act g)) as Hle by (unfold g_segs in Hc; by eapply contiguous_end).
    unfold gs_end in Hle. pose proof (len_nonneg (gs_recs x)). lia.
  - assert (hist g = concat (gs_recs <$> take k (g_segs g)) ++ concat (gs_recs <$> drop k (g_segs g))) as ->
      by (unfold hist; by rewrite <-concat_app, <-fmap_app, take_drop).
    unfold hist. rewrite Hsegs.
    replace (Z.to_nat _) with (length (concat (gs_recs <$> take k (g_segs g)))) by (unfold len; lia).
    by rewrite drop_app_length.
Qed.

(** ** Deleted names *)

(** Of the sealed segments, exactly the [k] oldest are not in the directory [d]. *)
Definition missing (g : ghost) (k : nat) (d : gmap (list byte) nat) : Prop :=
  forall i x, g_closed g !! i = Some x -> d !! gname x = None <-> (i < k)%nat.

(** [G] names sealed segments only. *)
Definition sealed_names (g : ghost) (G : gmap (list byte) nat) : Prop :=
  forall n, is_Some (G !! n) -> exists x, x ∈ g_closed g /\ n = gname x.

(** The directory is the one of the chain [g] less the [k] oldest sealed segments;
    an older version of it lacks no more than that.  [G] holds what was deleted. *)
Record reaped (g : ghost) (G : gmap (list byte) nat) (k : nat) (s : fs) : Prop := {
  re_disk : disk g (restored G s);
  re_names : sealed_names g G;
  re_le : (k <= length (g_closed g))%nat;
  re_live : missing g k (fs_dir s);
  re_versions : forall d, d ∈ versions s -> exists j, (j <= k)%nat /\ missing g j d
}.

Lemma closed_name_inj g i j x y :
  ok g -> g_closed g !! i = Some x -> g_closed g !! j = Some y -> gname x = gname y -> i = j.
Proof.
  intros Hg Hx Hy Heq. apply gs_name_inj with (snap := snap) (link := link) in Heq.
  - eapply (NoDup_lookup _ _ _ (gs_seq x)); [apply (proj1 (closed_seqs c g Hg))|by rewrite list_lookup_fmap, Hx|].
    by rewrite list_lookup_fmap, Hy, Heq.
  - apply (seg_ok snap link g), closed_in_segs; [done|by eapply list_elem_of_lookup_2].
  - apply (seg_ok snap link g), closed_in_segs; [done|by eapply list_elem_of_lookup_2].
Qed.

Lemma closed_bound g s d x : disk g s -> d ∈ versions s -> x ∈ g_closed g -> is_Some (d !! gname x).
Proof.
  intros [Hg Hinv] Hd Hx.
  assert (~ touched headName (gname x)) as Hn.
  { by apply (segment_not_touched src), (gs_name_segment src snap link), (seg_ok snap link g), closed_in_segs. }
  pose proof (di_holds _ _ _ _ _ Hinv _ Hn d Hd) as H. destruct (d !! gname x); [by eexists|].
  by pose proof (sp_closed _ _ _ _ _ _ H x Hx eq_refl).
Qed.

(** A directory less the names in [G]. *)
Lemma dir_removed hd durable spec spec' (P P' : option (list byte) -> Prop) G s :
  dir_inv hd durable spec P (restored G s) -> (forall n, touched hd n -> unused G n) ->
  (forall c, P c -> P' c) ->
  (forall d n, d ∈ versions s -> ~ touched hd n ->
     (is_Some (d !! n) -> forall b, spec n b -> spec' n b) /\
     (d !! n = None -> (unused G n -> spec n None) -> spec' n None)) ->
  dir_inv hd durable spec' P' s.
Proof.
  intros [[[Hi Hd Hf] Hap Hh Ht Hsp] Hfs Hp] Hun HP Hs.
  assert (forall d, d ∈ versions s -> d ∪ G ∈ versions (restored G s)) as Hv.
  { intros d H. rewrite versions_restored. by apply (list_elem_of_fmap_2 (fun d => d ∪ G)). }
  assert (forall d n (ino : nat), d !! n = Some ino -> (d ∪ G) !! n = Some ino) as Hu.
  { intros d n ino H. by apply lookup_union_Some_l. }
  assert (forall n (Q Q' : option (list byte) -> Prop), unused G n -> (forall c, Q c -> Q' c) -> holds (restored G s) n Q -> holds s n Q') as Hhd.
  { intros n Q Q' Hn HQ H d Hd'. specialize (H _ (Hv d Hd')). cbv beta in H. rewrite lookup_restored in H by done.
    destruct (d !! n) as [ino|]; [|by apply HQ]. destruct H as (i & Hi0 & Hsv). exists i. split; [done|].
    eapply survives_mono; [done|]. intros b. apply HQ. }
  split; [split|..].
  - split; [done| |done]. intros d n ino Hd' H. by apply (Hd (d ∪ G) n ino (Hv d Hd')), Hu.
  - intros ino d Hn Hd' Hm. by apply (Hap ino (d ∪ G) (Hu _ _ _ Hn) (Hv d Hd')), Hu.
  - eapply (Hhd hd P); [apply Hun; by right|done|done].
  - eapply (Hhd (tmp_name hd)); [apply Hun; by left| |exact Ht]. intros [b|] [?|H]; cbn in *; auto.
  - intros d ino Hd' Hn Hm. by apply (Hsp (d ∪ G) ino (Hv d Hd') (Hu _ _ _ Hn)), Hu.
  - intros n Hn d Hd'. specialize (Hfs n Hn _ (Hv d Hd')). cbv beta in Hfs. destruct (Hs d n Hd' Hn) as [H1 H2].
    destruct (d !! n) as [ino|] eqn:E.
    + rewrite (Hu _ _ _ E) in Hfs. destruct Hfs as (i & Hi0 & Hsv). exists i. split; [done|].
      eapply survives_mono; [done|]. intros b. apply H1. by eexists.
    + apply H2; [done|]. intros Hg. by rewrite lookup_restored, E in Hfs.
  - intros d d' n m ino Hd1 Hd2 Hn Hm. apply (Hp (d ∪ G) (d' ∪ G) n m ino); auto.
Qed.

Lemma names_unused g G n : ok g -> sealed_names g G -> is_segment src n = false -> unused G n.
Proof.
  intros Hg HG Hn. unfold unused. destruct (G !! n) as [ino|] eqn:E; [|done].
  destruct (HG n) as (x & Hx & ->); [by eexists|].
  rewrite (gs_name_segment src snap link) in Hn; [done|]. by apply (seg_ok snap link g), closed_in_segs.
Qed.

Lemma touched_not_segment n : touched headName n -> is_segment src n = false.
Proof.
  intros Hn. destruct (is_segment src n) eqn:E; [|done]. by apply segment_not_touched in E.
Qed.

(** The spool of one version of the directory, after a crash. *)
Lemma reaped_disk g G k s :
  disk g (restored G s) -> sealed_names g G ->
  fs_olddirs s = [] -> missing g k (fs_dir s) -> spares k g -> disk (g_drop k g) s.
Proof.
  intros [Hg Hinv] HG Ho Hm Hsp. split; [by apply ghost_ok_drop|].
  pose proof (fun n => names_unused g G n Hg HG) as Hun.
  assert (unused G (gname (g_act g))) as Hact.
  { unfold unused. destruct (G !! gname (g_act g)) as [ino|] eqn:E; [|done].
    destruct (HG _ (ex_intro _ _ E)) as (x & Hx & Heq). symmetry in Heq. by apply (gs_name_ne src snap link g x) in Heq. }
  eapply (dir_removed headName false _ _ _ _ G); [exact Hinv|intros n Hn; by apply Hun, touched_not_segment|..].
  - intros b. apply head_spec_mono. intros seg (x & j & -> & H). exists x, j. by rewrite old_drop.
  - intros d n Hd Hn. unfold versions in Hd. rewrite Ho in Hd. apply list_elem_of_singleton in Hd as ->. split.
    + intros [ino Hl] b [H1 H2 H3 H4]. split.
      * intros x Hx. apply H1. by apply (subseteq_drop k).
      * exact H2.
      * intros Hs Hne. apply H3; [done|]. intros x Hx ->. apply elem_of_app in Hx as [Hx| ->%list_elem_of_singleton].
        -- apply list_elem_of_lookup in Hx as [i Hi]. destruct (Nat.lt_ge_cases i k) as [Hlt|Hge].
           ++ apply (Hm i x Hi) in Hlt. congruence.
           ++ apply (Hne x); [|done]. apply closed_in_segs. cbn. apply list_elem_of_lookup. exists (i - k)%nat.
              rewrite lookup_drop. by replace (k + (i - k))%nat with i by lia.
        -- by apply (Hne (g_act (g_drop k g))); [apply act_in_segs|].
      * unfold man_spec, man_lines. rewrite old_drop. exact H4.
    + intros Hl Hnone. split.
      * intros x Hx ->. cbn in Hx. apply list_elem_of_lookup in Hx as [i Hi]. rewrite lookup_drop in Hi.
        apply (Hm _ x Hi) in Hl. lia.
      * intros ->. exact (sp_act _ _ _ _ _ _ (Hnone Hact) eq_refl).
      * done.
      * intros ->. unfold man_spec, man_lines. rewrite old_drop.
        refine (sp_man _ _ _ _ _ _ (Hnone _) eq_refl). apply Hun.
        destruct (is_segment src manifestName) eqn:E; [|done]. by apply segment_not_manifest in E.
Qed.

Lemma restored_version G s d : d ∈ versions s -> d ∪ G ∈ versions (restored G s).
Proof. intros Hd. rewrite versions_restored. by apply (list_elem_of_fmap_2 (fun d => d ∪ G)). Qed.

Lemma crash_restored G s s' : crash_fs s s' -> crash_fs (restored G s) (restored G s').
Proof.
  intros (Hd & Ho & Hf & Hn & Hi). split_and!; [|by cbn; rewrite Ho|done..].
  change (fs_dir s' ∪ G ∈ versions (restored G s)). rewrite versions_restored.
  by apply (list_elem_of_fmap_2 (fun d => d ∪ G)).
Qed.

(** A second crash right after the first changes nothing. *)
Lemma crash_again s s' : crash_fs s s' -> crash_fs s' s'.
Proof.
  intros (_ & Ho & Hf & _ & Hi). split_and!; [left|done..|]. intros ino. specialize (Hi ino).
  destruct (fs_inodes s !! ino), (fs_inodes s' !! ino) as [i'|]; try done.
  destruct Hi as (_ & Hl & Hold & Hfl). split; [exists (i_data i'); split; [left|done]|]. split_and!; [lia|done|done].
Qed.

(** A crash may bring deleted files back, the newest of them first. *)
Lemma reaped_crash g G k s s' :
  reaped g G k s -> spares k g -> crash_fs s s' ->
  exists j, (j <= k)%nat /\ disk (g_drop j g) s' /\ crash_fs s' s'.
Proof.
  intros [[Hg Hd] HG Hk _ Hv] Hsp Hcr. destruct (Hv (fs_dir s')) as (j & Hj & Hm); [by apply Hcr|].
  exists j. split; [done|]. split; [|by eapply crash_again].
  eapply reaped_disk; [|done|apply Hcr|done|destruct Hsp; [left|right]; lia].
  split; [done|]. eapply dir_crash; [exact Hd|]. by apply crash_restored.
Qed.

(** The writer's steps keep what is known of the deleted names. *)
Lemma reaped_carried g G k s g2 s2 :
  reaped g G k s -> disk g2 (restored G s2) -> seals g g2 -> same_names G s s2 -> reaped g2 G k s2.
Proof.
  intros [Hd HG Hk Hl Hv] Hd2 [_ [t Ht]] [Ha Hsv].
  assert (forall j d d2, (j <= k)%nat -> d ∈ versions s -> d2 ∈ versions s2 -> agrees G d d2 -> missing g j d ->
    missing g2 j d2) as Hmove.
  { intros j d d2 Hj Hdv Hd2v Hag Hm i x Hi. split.
    - intros Hnone. destruct (closed_bound g2 _ (d2 ∪ G) x Hd2) as [ino Hb].
      { by apply restored_version. }
      { by eapply list_elem_of_lookup_2. }
      rewrite lookup_union_r in Hb by done. destruct (HG (gname x)) as (y & Hy & Heq); [by eexists|].
      apply list_elem_of_lookup in Hy as [i' Hi']. assert (i = i') as ->.
      { apply (closed_name_inj g2 i i' x y); [apply Hd2|done| |done]. rewrite Ht. by apply lookup_app_l_Some. }
      apply (Hm i' y Hi'). rewrite <-Heq, <-Hag by (by eexists). done.
    - intros Hlt. rewrite Ht, lookup_app_l in Hi by lia. pose proof (proj2 (Hm i x Hi) Hlt) as Hnone.
      destruct (closed_bound g _ (d ∪ G) x Hd) as [ino Hb].
      { by apply restored_version. }
      { by eapply list_elem_of_lookup_2. }
      rewrite lookup_union_r in Hb by done. by rewrite Hag by (by eexists). }
  split.
  - done.
  - intros n Hn. destruct (HG n Hn) as (x & Hx & ->). exists x. split; [|done]. rewrite Ht, elem_of_app. by left.
  - rewrite Ht, length_app. lia.
  - apply (Hmove k (fs_dir s)); [done|left|left|done|done].
  - intros d2 Hd2v. destruct (Hsv d2 Hd2v) as (d & Hdv & Hag). destruct (Hv d Hdv) as (j & Hj & Hm).
    exists j. split; [done|]. by apply (Hmove j d).
Qed.

(** ** The writer *)

Lemma first_start_lt g i j :
  ok g -> (i < j <= length (g_closed g))%nat ->
  first_start (drop i (g_segs g)) < first_start (drop j (g_segs g)).
Proof.
  intros Hg [Hij Hj].
  destruct (lookup_lt_is_Some_2 (g_closed g) i ltac:(lia)) as [x Hx].
  assert (g_segs g !! i = Some x) as Hxi by (by apply lookup_app_l_Some).
  destruct (lookup_lt_is_Some_2 (g_segs g) j) as [y Hy]; [unfold g_segs; rewrite length_app; cbn; lia|].
  rewrite (drop_S _ _ _ Hxi), (drop_S _ _ _ Hy). cbn.
  assert (gs_end x <= gs_start y) as He.
  { destruct (ok_chain _ _ _ Hg) as [st Hc]. rewrite <-(take_drop_middle _ _ _ Hy) in Hc.
    eapply contiguous_end; [exact Hc|]. apply list_elem_of_lookup. exists i. by rewrite lookup_take_lt. }
  assert (gs_recs x <> []) as Hne.
  { apply list_elem_of_lookup_2 in Hx. exact (proj1 (Forall_forall _ _) (ok_full _ _ _ Hg) x Hx). }
  unfold gs_end in He. destruct (gs_recs x) as [|r l]; [done|]. rewrite len_cons in He. pose proof (len_nonneg l). lia.
Qed.

(** The spool under a running writer. *)
Record retained (g : ghost) (G : gmap (list byte) nat) (k : nat) (w : Writer) (s : fs) : Prop := {
  rt_reaped : reaped g G k s;
  rt_winv : winv c g w (restored G s);
  rt_oldest : oldestGpidx w = first_start (drop k (g_segs g))
}.

Lemma retained_sealed g G k w s :
  retained g G k w s -> sealed w = by_seq_map (gs_line src <$> drop k (g_closed g)) ∅.
Proof.
  intros [Hr [Hw _] Ho]. destruct (wi_sealed _ _ _ _ Hw) as (j & Hj & Hs & Ho'). rewrite Hs.
  assert (j = k) as ->; [|done]. pose proof (re_le _ _ _ _ Hr) as Hk. pose proof (re_disk _ _ _ _ Hr) as [Hg _].
  rewrite Ho in Ho'. destruct (Nat.lt_trichotomy j k) as [Hlt|[?|Hlt]]; [|done|].
  - pose proof (first_start_lt g j k Hg ltac:(lia)). lia.
  - pose proof (first_start_lt g k j Hg ltac:(lia)). lia.
Qed.

Lemma retained_start g w s : winv c g w s -> oldestGpidx w = base g -> retained g ∅ 0 w s.
Proof.
  intros Hw Ho. pose proof (wi_disk _ _ _ _ (proj1 Hw)) as Hd.
  assert (forall d, d ∈ versions s -> missing g 0 d) as Hm.
  { intros d Hdv i x Hi. destruct (closed_bound g s d x Hd Hdv) as [ino Hb]; [by eapply list_elem_of_lookup_2|].
    rewrite Hb. split; [done|lia]. }
  split; [split|..]; rewrite ?restored_empty; try done.
  - intros n [ino Hn]. by rewrite lookup_empty in Hn.
  - lia.
  - apply Hm. left.
  - intros d Hdv. exists 0%nat. split; [lia|by apply Hm].
Qed.
End Retention.
