(* ===== verification/ReapProof.v ===== *)
(** * What Reap does (internal/spool/janitor.go)

    [Reap] deletes the oldest sealed segments, one after the other, never the
    active one and none that a reader holds a shared lock on. *)

From S2P Require Import Prelude Bytes GoIO Pcapio Os Keeps Durable Dir Runs Json Manifest Recover Spool Janitor SpoolSpec SpoolProof RecoverProof RestartProof SpoolProps Blind Retention.

(** ** Directories that differ in descriptors and repeated versions *)

Record shadows (s s' : fs) : Prop := {
  sh_inodes : fs_inodes s' = fs_inodes s;
  sh_dir : fs_dir s' = fs_dir s;
  sh_versions : forall d, d ∈ versions s' -> d ∈ versions s;
  sh_next : (fs_next s <= fs_next s')%nat;
  sh_new : forall fd d, fs_fds s' !! fd = Some d -> (fd < fs_next s')%nat;
  sh_old : forall fd, (fd < fs_next s)%nat -> fs_fds s' !! fd = fs_fds s !! fd
}.

Lemma shadows_trans s1 s2 s3 : shadows s1 s2 -> shadows s2 s3 -> shadows s1 s3.
Proof.
  intros [I1 D1 V1 N1 _ O1] [I2 D2 V2 N2 W2 O2]. split; [congruence|congruence|auto|lia|done|].
  intros fd Hl. rewrite O2 by lia. by apply O1.
Qed.

Lemma dir_shadows hd durable spec P s s' : dir_inv hd durable spec P s -> shadows s s' -> dir_inv hd durable spec P s'.
Proof.
  intros [[[Hi Hd Hf] Hap Hh Ht Hsp] Hfs Hp] [Ei Ed Ev En Hnew _].
  assert (forall n Q, holds s n Q -> holds s' n Q) as Hhold.
  { intros n Q H d Hd'. rewrite Ei. by apply H, Ev. }
  split; [split|..]; auto.
  - split; [|..|done].
    + intros ino i. rewrite Ei. intros H. destruct (Hi _ _ H). split; [lia|done].
    + intros d n ino Hd' H. rewrite Ei. destruct (Hd d n ino (Ev d Hd') H). split; [lia|done].
  - intros ino d Hn Hd'. rewrite Ed in Hn. by apply (Hap ino d Hn (Ev d Hd')).
  - intros d d' n m ino H1 H2. apply (Hp d d' n m ino); auto.
Qed.

Section Reap.
Context (c : Config) (F : fault -> Prop) (HF : ~ can_fail F).

Abbreviation src := (SrcID c).
Abbreviation snap := (Snaplen c).
Abbreviation link := (LinkType c).
Abbreviation gname := (gs_name src).
Abbreviation disk := (spool_disk src snap link).

Lemma winv_shadows g w s s' : winv c g w s -> shadows s s' -> winv c g w s'.
Proof.
  intros [[[Hg Hd] Hfl Hc (f & d & i & Hf & Hof & Ha) (mf & md & mi & Hm & Hom & Hb) Hact Hh Ho Hse] Hq] Hs.
  assert (forall n fd d i, open_file s n fd d i -> open_file s' n fd d i) as Hopen.
  { intros n fd d0 i0 Hx. destruct (open_file_ok _ _ Hd _ _ _ _ Hx) as [_ Hl]. destruct Hx as [H1 H2 H3].
    destruct Hs as [Ei Ed _ _ _ Eo]. split; [by rewrite Ed|by rewrite Eo|by rewrite Ei]. }
  assert (forall n ino may, bound_or s n ino may -> bound_or s' n ino may) as Hbound.
  { intros n ino may Hx d0 Hd0. by apply Hx, (sh_versions _ _ Hs). }
  split; [|done]. split; try done.
  - split; [done|]. by eapply dir_shadows.
  - exists f, d, i. destruct Ha as (A1 & A2 & A3 & A4). split_and!; auto.
  - exists mf, md, mi. destruct Hb as (B1 & B2 & B3). split_and!; auto.
Qed.

Lemma shadows_restored G s s' : shadows s s' -> shadows (restored G s) (restored G s').
Proof.
  intros [Ei Ed Ev En Hn Ho]. split; cbn; try done; [by rewrite Ed|].
  intros d. rewrite versions_restored. intros (d0 & -> & Hd0)%list_elem_of_fmap.
  apply restored_version. by apply Ev.
Qed.

Lemma reaped_shadows g G k s s' : reaped c g G k s -> shadows s s' -> reaped c g G k s'.
Proof.
  intros [[Hg Hd] HG Hk Hl Hv] Hs. split; try done.
  - split; [done|]. eapply dir_shadows; [exact Hd|]. by apply shadows_restored.
  - by rewrite (sh_dir _ _ Hs).
  - intros d Hd'. by apply Hv, (sh_versions _ _ Hs).
Qed.

Lemma retained_shadows g G k w s s' : retained c g G k w s -> shadows s s' -> retained c g G k w s'.
Proof.
  intros [Hr Hw Ho] Hs. split; [by eapply reaped_shadows| |done].
  eapply winv_shadows; [exact Hw|]. by apply shadows_restored.
Qed.

Lemma reaped_wf g G k s : reaped c g G k s -> fs_wf s.
Proof.
  intros [[_ Hd] _ _ _ _]. destruct (dir_wf _ _ Hd) as [Hi Hdir Hf]. split; [done| |done].
  intros d n ino Hd' Hn. apply (Hdir (d ∪ G) n ino); [by apply restored_version|]. by apply lookup_union_Some_l.
Qed.

(** ** The oldest segment that is left *)

(** Its file is there, with what the chain says. *)
Lemma next_reaped g G k s i x :
  reaped c g G k s -> g_closed g !! i = Some x -> (k <= i)%nat ->
  exists ino, fs_dir s !! gname x = Some ino /\ content s (gname x) = Some (gs_bytes snap link x).
Proof.
  intros Hr Hx Hi. pose proof (re_disk _ _ _ _ _ Hr) as [Hg Hd]. pose proof (list_elem_of_lookup_2 _ _ _ Hx) as Hin.
  destruct (fs_dir s !! gname x) as [ino|] eqn:E.
  - exists ino. split; [done|].
    assert (~ touched headName (gname x)) as Hn.
    { by apply (segment_not_touched src), (gs_name_segment src snap link), (seg_ok snap link g), closed_in_segs. }
    pose proof (dir_content _ _ Hd (gname x) Hn) as Hc. pose proof (sp_closed _ _ _ _ _ _ Hc x Hin eq_refl) as Hb.
    unfold content in *. cbn in Hb. rewrite E. by rewrite (lookup_union_Some_l _ _ _ _ E) in Hb.
  - apply (re_live _ _ _ _ _ Hr i x Hx) in E. lia.
Qed.

Lemma closed_drop_S g k x : g_closed g !! k = Some x -> drop k (g_closed g) = x :: drop (S k) (g_closed g).
Proof. apply drop_S. Qed.

Lemma first_start_S g k x :
  ghost_ok snap link g -> g_closed g !! k = Some x -> first_start (drop (S k) (g_segs g)) = gs_end x.
Proof.
  intros Hg Hx. destruct (ok_chain _ _ _ Hg) as [st Hc]. pose proof (lookup_lt_Some _ _ _ Hx) as Hk.
  assert (g_segs g !! k = Some x) as Hs by (by apply lookup_app_l_Some).
  rewrite <-(take_drop_middle _ _ _ Hs) in Hc. apply contiguous_app in Hc as [_ [_ Hc]].
  destruct (drop (S k) (g_segs g)) as [|y l] eqn:E; [|by destruct Hc].
  apply (f_equal length) in E. rewrite length_drop in E. unfold g_segs in E. rewrite length_app in E. cbn in E. lia.
Qed.

(** The name goes. *)
Lemma reaped_remove g G k s x ino :
  reaped c g G k s -> g_closed g !! k = Some x -> fs_dir s !! gname x = Some ino ->
  let s' := set_dir (delete (gname x) (fs_dir s)) s in
  reaped c g (<[gname x := ino]> G) (S k) s' /\ shadows (restored G s) (restored (<[gname x := ino]> G) s').
Proof.
  intros [[Hg Hd] HG Hk Hl Hv] Hx Hino s'. pose proof (list_elem_of_lookup_2 _ _ _ Hx) as Hin.
  assert (forall d, d ∈ versions s -> is_Some (d !! gname x)) as Hall.
  { intros d Hd'. destruct (Hv d Hd') as (j & Hj & Hm). destruct (d !! gname x) eqn:E; [by eexists|].
    apply (Hm k x Hx) in E. lia. }
  assert (forall d, d ∈ versions s -> d ∪ <[gname x := ino]> G = d ∪ G) as Hsame.
  { intros d Hd'. apply map_eq. intros n. rewrite !lookup_union, lookup_insert. case_decide as En; [subst n|done].
    destruct (Hall d Hd') as [i0 ->]. by destruct (G !! gname x). }
  assert (delete (gname x) (fs_dir s) ∪ <[gname x := ino]> G = fs_dir s ∪ G) as Hlive.
  { rewrite <-(Hsame (fs_dir s)) by left. apply map_eq. intros n. rewrite !lookup_union, lookup_insert, lookup_delete.
    case_decide as En; [subst n|done]. by rewrite Hino. }
  assert (shadows (restored G s) (restored (<[gname x := ino]> G) s')) as Hsh.
  { split; [done|exact Hlive| |done|intros fd d Hfd; by apply (wf_fds _ (dir_wf _ _ Hd) fd d)|done].
    intros d. rewrite versions_restored. intros (d0 & -> & [->|Hd0]%elem_of_cons)%list_elem_of_fmap.
    - change (delete (gname x) (fs_dir s) ∪ <[gname x := ino]> G ∈ versions (restored G s)). rewrite Hlive. left.
    - rewrite (Hsame d0) by done. by apply restored_version. }
  assert (missing c g (S k) (delete (gname x) (fs_dir s))) as Hless.
  { intros i y Hy. rewrite lookup_delete. case_decide as En.
    - split; [intros _|done]. rewrite (closed_name_inj c g k i x y Hg Hx Hy En). lia.
    - rewrite (Hl i y Hy). split; [lia|]. intros Hlt. destruct (decide (i = k)) as [->|]; [congruence|lia]. }
  split; [|done]. split.
  - split; [done|]. by eapply dir_shadows.
  - intros n. rewrite lookup_insert. case_decide as En; [subst n; intros _; by exists x|apply HG].
  - pose proof (lookup_lt_Some _ _ _ Hx). lia.
  - exact Hless.
  - intros d [->|Hd']%elem_of_cons; [by exists (S k)|].
    destruct (Hv d Hd') as (j & Hj & Hm). exists j. split; [lia|done].
Qed.

(** ** The calls *)

Lemma wp_StatSize {X} Φ (x : X) s n :
  fs_wf s -> (F FCrash -> Φ Crashed x s) ->
  match content s n with Some b => Φ (Ret (len b)) x s | None => forall e, Φ (Fail e) x s end ->
  wp F (StatSize n) Φ x s.
Proof.
  intros Hwf Hc Hn. apply wp_sys; [done|intros Hff; by apply (no_failure F HF)|]. unfold content in Hn.
  destruct (fs_dir s !! n) as [ino|] eqn:E; [|apply Hn].
  destruct (wf_dirs s Hwf (fs_dir s) n ino) as [_ [i Hi]]; [left|done|]. cbn in Hn. by rewrite Hi in Hn |- *.
Qed.

(** Nothing happened, unless the process died. *)
Definition reads {X A} (x : X) (s : fs) (Q : A -> Prop) (o : outcome A) (x' : X) (s' : fs) : Prop :=
  x' = x /\ s' = s /\ match o with Ret a => Q a | Fail _ => False | Crashed => F FCrash end.

Lemma wp_stat_total {X} id seqs (x : X) s : fs_wf s -> wp F (stat_total id seqs) (reads x s (fun _ => True)) x s.
Proof.
  intros Hwf. unfold stat_total. generalize 0. induction seqs as [|q seqs IH]; intros n; [by apply wp_ret|].
  cbn [foldr]. apply wp_bind, wp_try, wp_StatSize; [done|done|].
  destruct (content s _) as [b|]; [apply IH|intros e; apply IH].
Qed.

Lemma wp_spoolBytes (w : Writer) s : fs_wf s -> wp F spoolBytesLocked (reads w s (fun _ => True)) w s.
Proof.
  intros Hwf. unfold spoolBytesLocked. apply wp_bind, wp_get. cbn [bind_post]. apply wp_bind, wp_try.
  unfold listSegmentFiles, ReadDir. apply wp_bind, wp_sys; [done|intros Hff; by apply (no_failure F HF)|].
  cbn [bind_post]. apply wp_ret. cbn [bind_post]. by apply wp_stat_total.
Qed.

(** A sealed segment is a candidate if it is not active and its file exists. *)
Definition reapable (w : Writer) (s : fs) (kv : Z * Segment) : Prop :=
  kv.1 <> seg_Seq (active w) /\ is_Some (content s (segmentName (SrcID (cfg w)) kv.1)).

Lemma wp_candidates w0 (w : Writer) s :
  fs_wf s ->
  wp F (reap_candidates w0) (reads w s (fun l => l = (filter (reapable w0 s) (map_to_list (sealed w0))).*1)) w s.
Proof.
  intros Hwf. unfold reap_candidates. induction (map_to_list (sealed w0)) as [|kv l IH]; [by apply wp_ret|].
  assert (forall r : res Z, (match r with Ok _ => reapable w0 s kv | Err _ => ~ reapable w0 s kv end) ->
    wp F (t ← foldr (fun kv k => if decide (kv.1 = seg_Seq (active w0)) then k
                       else r ← try (StatSize (segmentName (SrcID (cfg w0)) kv.1)); t ← k;
                            mret (match r with Ok _ => kv.1 :: t | Err _ => t end)) (mret []) l;
          mret (match r with Ok _ => kv.1 :: t | Err _ => t end))
      (reads w s (fun t => t = (filter (reapable w0 s) (kv :: l)).*1)) w s) as Hrest.
  { intros r Hr. apply wp_bind. eapply wp_mono; [exact IH|]. intros [t|e|] w' s' (-> & -> & Ht); try done.
    apply wp_ret. split_and!; [done..|]. rewrite filter_cons, Ht.
    destruct r; [by rewrite decide_True|by rewrite decide_False]. }
  cbn [foldr]. destruct (decide (kv.1 = _)) as [He|He].
  - rewrite filter_cons, decide_False by (intros [? _]; done). exact IH.
  - apply wp_bind, wp_try, wp_StatSize; [done|done|].
    destruct (content s (segmentName (SrcID (cfg w0)) kv.1)) as [b|] eqn:Eb; [|intros e]; apply Hrest.
    + split; [done|]. by rewrite Eb.
    + intros [_ Hc]. rewrite Eb in Hc. by destruct Hc.
Qed.

(** One segment: deleted, or left because a reader holds it. *)
Lemma wp_tryReap g G k (w : Writer) s x :
  reaped c g G k s -> g_closed g !! k = Some x ->
  wp F (tryReap (gname x)) (fun o w' s' => w' = w /\
    match o with
    | Ret true => exists G', reaped c g G' (S k) s' /\ shadows (restored G s) (restored G' s')
    | Ret false => reaped c g G k s' /\ shadows s s'
    | Fail _ => False
    | Crashed => F FCrash /\ reaped c g G k s'
    end) w s.
Proof.
  intros Hr Hx. pose proof (reaped_wf _ _ _ _ Hr) as Hwf. destruct (next_reaped _ _ _ _ _ _ Hr Hx (le_n k)) as (ino & Hino & _).
  destruct (open_plain (gname x) ino s false Hwf Hino) as (i & s1 & Hop & Hid & Hof & _).
  change (OFlags false false false false) with O_plain in Hop.
  assert (shadows s s1 /\ fs_fds s1 = <[fs_next s := Fdesc ino 0 false false]> (fs_fds s)) as [Hs1 Hf1].
  { unfold open_call in Hop. rewrite Hino in Hop. injection Hop as <-. split; [|done]. split; cbn; try done; [lia|..].
    - intros fd d. rewrite lookup_insert. case_decide; [lia|]. intros Hfd. pose proof (wf_fds s Hwf fd d Hfd). lia.
    - intros fd Hlt. by rewrite lookup_insert_ne by lia. }
  unfold tryReap. apply wp_bind, wp_try, wp_sys; [intros Hfc|intros Hff; by apply (no_failure F HF)|rewrite Hop; cbn [bind_post]].
  { by split_and!. }
  pose proof (reaped_shadows _ _ _ _ _ Hr Hs1) as Hr1.
  set (sc := set_fds (delete (fs_next s)) s1).
  assert (shadows s sc) as Hsc.
  { destruct Hs1 as [Ei Ed Ev En Hn Ho]. split; cbn; try done.
    - intros fd d. rewrite lookup_delete. case_decide; [done|]. apply Hn.
    - intros fd Hlt. rewrite lookup_delete_ne by lia. by apply Ho. }
  apply wp_with_close, wp_bind, wp_try, wp_sys; [intros Hfc|intros Hff; by apply (no_failure F HF)|].
  { by split_and!. }
  rewrite (open_file_with_fd _ _ _ _ _ _ Hof). destruct (bool_decide _); cbn [bind_post].
  2: { apply wp_ret. split; [done|]. split; [exact (reaped_shadows _ _ _ _ _ Hr Hsc)|exact Hsc]. }
  apply wp_bind, wp_try, wp_sys; [intros Hfc|intros Hff; by apply (no_failure F HF)|].
  { by split_and!. }
  rewrite (sh_dir _ _ Hs1), Hino. cbn [bind_post]. apply wp_ret. split; [done|].
  assert (reaped c g G k sc) as Hrc by exact (reaped_shadows _ _ _ _ _ Hr Hsc).
  destruct (reaped_remove g G k sc x ino Hrc Hx) as [Hr2 Hs2]; [cbn; by rewrite (sh_dir _ _ Hs1)|].
  cbn in Hr2, Hs2. rewrite (sh_dir _ _ Hs1) in Hr2, Hs2. eexists. split; [exact Hr2|].
  eapply shadows_trans; [by apply shadows_restored|exact Hs2].
Qed.

(** ** The loop *)

Lemma retained_wf g G k w s : retained c g G k w s -> fs_wf s.
Proof. intros Hr. by eapply reaped_wf, rt_reaped. Qed.

Lemma by_seq_map_over l m1 m2 q : q ∈ seg_Seq <$> l -> by_seq_map l m1 !! q = by_seq_map l m2 !! q.
Proof.
  induction l as [|z l IH] using rev_ind; intros Hin; [by apply not_elem_of_nil in Hin|].
  rewrite !by_seq_map_app. cbn. rewrite !lookup_insert. case_decide; [done|]. apply IH.
  rewrite fmap_app, elem_of_app in Hin. destruct Hin as [?|Hin]; [done|]. by apply list_elem_of_singleton in Hin.
Qed.

Lemma delete_by_seq_map s l :
  seg_Seq s ∉ (seg_Seq <$> l) -> delete (seg_Seq s) (by_seq_map (s :: l) ∅) = by_seq_map l ∅.
Proof.
  intros Hn. apply map_eq. intros q. rewrite lookup_delete. change (by_seq_map (s :: l) ∅) with (by_seq_map l (<[seg_Seq s := s]> ∅)).
  case_decide as Hq; [subst q; by rewrite by_seq_map_notin, lookup_empty|].
  destruct (decide (q ∈ seg_Seq <$> l)) as [Hin|Hout].
  - by apply by_seq_map_over.
  - rewrite !by_seq_map_notin by done. by rewrite lookup_insert_ne.
Qed.

(** The writer's bookkeeping after a deletion. *)
Definition forgets (x : gseg) (w : Writer) : Writer :=
  mkWriter (cfg w) (file w) (manifest w) (active w) (nextSeq w) (delete (gs_seq x) (sealed w)) (head w)
    (if oldestGpidx w <? gs_end x then gs_end x else oldestGpidx w) (fileOffset w) (durableLen w)
    (durableEnd w) (pendingBytes w) (segStart w) (lastSync w).

Lemma retained_next g G k w s x G' s' :
  retained c g G k w s -> g_closed g !! k = Some x -> reaped c g G' (S k) s' ->
  shadows (restored G s) (restored G' s') -> retained c g G' (S k) (forgets x w) s'.
Proof.
  intros Hr Hx Hr' Hsh. pose proof (retained_sealed c g G k w s Hr) as Hse. destruct Hr as [Hr Hw Ho].
  pose proof (re_disk _ _ _ _ _ Hr) as [Hg _]. pose proof (re_le _ _ _ _ _ Hr') as Hk.
  pose proof (first_start_S g k x Hg Hx) as Hn.
  assert (oldestGpidx (forgets x w) = first_start (drop (S k) (g_segs g))) as Ho'.
  { pose proof (first_start_lt c g k (S k) Hg ltac:(lia)) as Hlt. rewrite <-Ho, Hn in Hlt. cbn.
    destruct (Z.ltb_spec (oldestGpidx w) (gs_end x)); [by rewrite Hn|lia]. }
  split; [done| |done]. destruct (winv_shadows _ _ _ _ Hw Hsh) as [[W1 W2 W3 W4 W5 W6 W7 W8 _] W10].
  split; [|exact W10]. split; try done. exists (S k). split_and!; [done| |done]. cbn. rewrite Hse.
  rewrite (closed_drop_S _ _ _ Hx). apply (delete_by_seq_map (gs_line src x)).
  rewrite lines_seqs. pose proof (proj1 (closed_seqs c g Hg)) as Hnd.
  rewrite <-(take_drop_middle _ _ _ Hx), fmap_app in Hnd. apply NoDup_app in Hnd as (_ & _ & Hnd).
  by apply NoDup_cons in Hnd as [? _].
Qed.

(** What [Reap] leaves: [n] more segments are gone. *)
Definition reap_post (g : ghost) (k : nat) (o : outcome Z) (deleted : Z) (w' : Writer) (s' : fs) : Prop :=
  exists G' k', (k <= k')%nat /\
    match o with
    | Ret n => n = deleted + Z.of_nat (k' - k) /\ retained c g G' k' w' s'
    | Fail _ => False
    | Crashed => F FCrash /\ reaped c g G' k' s'
    end.

Lemma wp_reap_loop g G k w s maxBytes l total deleted :
  retained c g G k w s -> l = drop k (g_closed g) ->
  wp F (reap_loop maxBytes (gs_seq <$> l) total deleted) (fun o w' s' => reap_post g k o deleted w' s') w s.
Proof.
  intros Hr Hl. revert G k w s total deleted Hr Hl. induction l as [|x l IH]; intros G k w s total deleted Hr Hl.
  { apply wp_ret. exists G, k. split_and!; [lia|lia|done]. }
  assert (g_closed g !! k = Some x) as Hx.
  { rewrite <-(Nat.add_0_r k), <-lookup_drop, <-Hl. done. }
  cbn [fmap list_fmap reap_loop]. destruct (total <=? maxBytes).
  { apply wp_ret. exists G, k. split_and!; [lia|lia|done]. }
  apply wp_bind, wp_get. cbn [bind_post].
  assert (sealed_at (sealed w) (gs_seq x) = gs_line src x) as Hat.
  { unfold sealed_at. rewrite (retained_sealed c g G k w s Hr), <-Hl. cbn [fmap list_fmap].
    rewrite (by_seq_map_in _ _ (gs_line src x)); [done| |left].
    rewrite <-fmap_cons, lines_seqs, Hl, fmap_drop.
    eapply sublist_NoDup; [apply (proj1 (closed_seqs c g (proj1 (re_disk _ _ _ _ _ (rt_reaped _ _ _ _ _ _ Hr)))))|apply sublist_drop]. }
  cbv zeta. rewrite Hat. change (seg_File (gs_line src x)) with (gname x). change (seg_EndGpidx (gs_line src x)) with (gs_end x).
  destruct (next_reaped _ _ _ _ _ _ (rt_reaped _ _ _ _ _ _ Hr) Hx (le_n k)) as (ino & _ & Hc).
  apply wp_bind, wp_try, wp_StatSize; [by eapply retained_wf|intros Hfc; exists G, k; split_and!; [lia|done|apply Hr]|].
  rewrite Hc. cbn [bind_post]. apply wp_bind. eapply wp_mono; [apply (wp_tryReap g G k w s x); [apply Hr|done]|].
  intros [[|]|e|] w1 s1 [-> H]; cbn [bind_post]; [| |done|].
  - destruct H as (G' & Hr' & Hsh). apply wp_bind, wp_modify. cbn [bind_post]. fold (forgets x w).
    eapply wp_mono; [apply (IH G' (S k))|].
    + by apply (retained_next g G k w s x).
    + rewrite (closed_drop_S _ _ _ Hx) in Hl. by injection Hl.
    + intros o w2 s2 (G2 & k2 & Hle & H2). exists G2, k2. split; [lia|]. destruct o; [|done..].
      destruct H2 as [-> ?]. split; [lia|done].
  - destruct H as [_ Hsh]. apply wp_ret. exists G, k. split_and!; [lia|lia|by eapply retained_shadows].
  - exists G, k. split; [lia|done].
Qed.

(** ** The candidates *)

#[local] Instance by_start_total m : Total (by_start m).
Proof. intros a b. unfold by_start. lia. Qed.

#[local] Instance by_start_trans m : Transitive (by_start m).
Proof. intros a b d. unfold by_start. lia. Qed.

Lemma start_lt g i j x y :
  ghost_ok snap link g -> g_closed g !! i = Some x -> g_closed g !! j = Some y -> (i < j)%nat -> gs_start x < gs_start y.
Proof.
  intros Hg Hx Hy Hij. pose proof (lookup_lt_Some _ _ _ Hy).
  pose proof (first_start_lt c g i j Hg ltac:(lia)) as Hlt.
  by rewrite (drop_S (g_segs g) x i), (drop_S (g_segs g) y j) in Hlt by (by apply lookup_app_l_Some).
Qed.

Lemma elem_of_drop_closed g k x : x ∈ drop k (g_closed g) <-> exists i, (k <= i)%nat /\ g_closed g !! i = Some x.
Proof.
  rewrite list_elem_of_lookup. split.
  - intros [i Hi]. rewrite lookup_drop in Hi. exists (k + i)%nat. split; [lia|done].
  - intros (i & Hi & Hx). exists (i - k)%nat. rewrite lookup_drop. by replace (k + (i - k))%nat with i by lia.
Qed.

Section Candidates.
Context (g : ghost) (G : gmap (list byte) nat) (k : nat) (w : Writer) (s : fs) (Hr : retained c g G k w s).

Let Hg : ghost_ok snap link g.
Proof. exact (proj1 (re_disk _ _ _ _ _ (rt_reaped _ _ _ _ _ _ Hr))). Qed.

Lemma retained_NoDup : NoDup (gs_seq <$> drop k (g_closed g)).
Proof. rewrite fmap_drop. eapply sublist_NoDup; [apply (proj1 (closed_seqs c g Hg))|apply sublist_drop]. Qed.

Lemma retained_lookup q seg :
  sealed w !! q = Some seg <-> exists x, x ∈ drop k (g_closed g) /\ q = gs_seq x /\ seg = gs_line src x.
Proof.
  rewrite (retained_sealed c g G k w s Hr). split.
  - intros Hq. assert (map_Forall (fun q s => seg_Seq s = q) (by_seq_map (gs_line src <$> drop k (g_closed g)) ∅)) as Hkeys
      by (by apply by_seq_map_keys). pose proof (Hkeys _ _ Hq) as Hk. cbn in Hk.
    apply by_seq_map_value in Hq as [(x & -> & Hx)%list_elem_of_fmap|Hq]; [|by rewrite lookup_empty in Hq].
    exists x. split_and!; [done|by rewrite <-Hk|done].
  - intros (x & Hx & -> & ->). apply (by_seq_map_in _ _ (gs_line src x)); [|by apply list_elem_of_fmap_2].
    rewrite lines_seqs. apply retained_NoDup.
Qed.

Lemma retained_at x : x ∈ drop k (g_closed g) -> sealed_at (sealed w) (gs_seq x) = gs_line src x.
Proof. intros Hx. unfold sealed_at. by rewrite (proj2 (retained_lookup (gs_seq x) (gs_line src x))) by eauto. Qed.

Lemma retained_reapable q seg : sealed w !! q = Some seg -> reapable w s (q, seg).
Proof.
  intros (x & Hx & -> & ->)%retained_lookup. destruct (rt_winv _ _ _ _ _ _ Hr) as [Hw _].
  destruct (proj1 (elem_of_drop_closed g k x) Hx) as (i & Hi & Hxi). unfold reapable. cbn [fst].
  rewrite (proj1 (wi_active _ _ _ _ Hw)), (wi_cfg _ _ _ _ Hw). split.
  - pose proof (proj1 (Forall_forall _ _) (proj2 (closed_seqs c g Hg)) x (list_elem_of_lookup_2 _ _ _ Hxi)) as Hlt. cbn in Hlt. lia.
  - destruct (next_reaped _ _ _ _ _ _ (rt_reaped _ _ _ _ _ _ Hr) Hxi Hi) as (_ & _ & Hc).
    change (segmentName src (gs_seq x)) with (gname x). by rewrite Hc.
Qed.

(** The sealed segments that are left, oldest first. *)
Lemma candidates_sorted :
  merge_sort (by_start (sealed w)) (filter (reapable w s) (map_to_list (sealed w))).*1 = gs_seq <$> drop k (g_closed g).
Proof.
  assert ((filter (reapable w s) (map_to_list (sealed w))).*1 ≡ₚ gs_seq <$> drop k (g_closed g)) as Hperm.
  { apply NoDup_Permutation.
    - eapply sublist_NoDup; [|apply fmap_sublist, sublist_filter]. apply NoDup_fst_map_to_list.
    - apply retained_NoDup.
    - intros q. rewrite !list_elem_of_fmap. split.
      + intros ([q' seg] & -> & [_ Hin]%list_elem_of_filter). apply elem_of_map_to_list in Hin.
        apply retained_lookup in Hin as (x & Hx & -> & _). by exists x.
      + intros (x & -> & Hx). exists (gs_seq x, gs_line src x). split; [done|]. apply list_elem_of_filter.
        assert (sealed w !! gs_seq x = Some (gs_line src x)) as Hl by (apply retained_lookup; eauto).
        split; [by apply retained_reapable|by apply elem_of_map_to_list]. }
  apply (StronglySorted_unique_strong (by_start (sealed w))).
  - intros q1 q2. rewrite merge_sort_Permutation, Hperm.
    intros (x & -> & Hx)%list_elem_of_fmap (y & -> & Hy)%list_elem_of_fmap. unfold by_start.
    rewrite (retained_at x Hx), (retained_at y Hy). change (gs_start x <= gs_start y -> gs_start y <= gs_start x -> gs_seq x = gs_seq y).
    apply elem_of_drop_closed in Hx as (i & _ & Hx). apply elem_of_drop_closed in Hy as (j & _ & Hy). intros H1 H2.
    destruct (Nat.lt_trichotomy i j) as [Hlt|[->|Hlt]]; [|congruence|].
    + pose proof (start_lt g i j x y Hg Hx Hy Hlt). lia.
    + pose proof (start_lt g j i y x Hg Hy Hx Hlt). lia.
  - apply StronglySorted_merge_sort; apply _.
  - assert (forall j l, (k <= j)%nat -> l = drop j (g_closed g) -> StronglySorted (by_start (sealed w)) (gs_seq <$> l)) as Hss.
    { intros j l. revert j. induction l as [|x l IH]; intros j Hj Hl; [constructor|].
      assert (g_closed g !! j = Some x) as Hx by (by rewrite <-(Nat.add_0_r j), <-lookup_drop, <-Hl).
      pose proof Hl as Hl'. rewrite (closed_drop_S _ _ _ Hx) in Hl'. injection Hl' as Hl'.
      cbn. constructor; [apply (IH (S j)); [lia|done]|]. rewrite Hl'. apply Forall_fmap, Forall_forall. intros y Hy. cbn.
      apply elem_of_drop_closed in Hy as (i & Hi & Hy). pose proof (start_lt g j i x y Hg Hx Hy ltac:(lia)).
      unfold by_start.
      rewrite (retained_at x) by (apply elem_of_drop_closed; by exists j).
      rewrite (retained_at y) by (apply elem_of_drop_closed; exists i; split; [lia|done]).
      change (gs_start x <= gs_start y). lia. }
    by apply (Hss k).
  - by rewrite merge_sort_Permutation.
Qed.
End Candidates.

(** ** Reap *)

Lemma wp_Reap g G k w s maxBytes :
  retained c g G k w s -> wp F (Reap maxBytes) (fun o w' s' => reap_post g k o 0 w' s') w s.
Proof.
  intros Hr. pose proof (retained_wf _ _ _ _ _ Hr) as Hwf.
  assert (forall n, n = 0 -> reap_post g k (Ret n) 0 w s) as Hnone.
  { intros n ->. exists G, k. split_and!; [lia|lia|done]. }
  unfold Reap. destruct (maxBytes <=? 0); [by apply wp_ret, Hnone|].
  apply wp_bind. eapply wp_mono; [by apply wp_spoolBytes|]. intros [total|e|] w1 s1 (-> & -> & H1); cbn [bind_post]; [|done|].
  2: { exists G, k. split_and!; [lia|done|apply Hr]. }
  destruct (total <=? maxBytes); [by apply wp_ret, Hnone|]. apply wp_bind, wp_get. cbn [bind_post].
  apply wp_bind. eapply wp_mono; [by apply wp_candidates|]. intros [l|e|] w1 s1 (-> & -> & H2); cbn [bind_post]; [|done|].
  2: { exists G, k. split_and!; [lia|done|apply Hr]. }
  subst l. rewrite (candidates_sorted g G k w s Hr). by eapply wp_reap_loop.
Qed.
End Reap.
