(* ===== verification/RetentionProps.v ===== *)
(** * The spool under retention

    Runs of the writer in which [Reap] deletes segments refine a log that loses
    packets at its old end only: nothing else that was durable is lost, and no
    gpidx is given twice, as long as one sealed segment is left. *)

From S2P Require Import Prelude Bytes GoIO Pcapio Os Durable Dir Runs Json Manifest Recover Spool Janitor SpoolSpec SpoolProof RecoverProof RestartProof SpoolProps Blind Retention ReapProof.

(** ** Runs *)

Inductive revent : Type :=
  | RSpool (e : event)
  | RReap (maxBytes n : Z)
  | RReapCrash (maxBytes : Z).   (** the host crashes while segments are deleted *)

(** One of the sealed segments that [w] knew is left, if it knew any. *)
Definition spared (c : Config) (w : Writer) (s : fs) : Prop :=
  sealed w = ∅ \/ exists q, is_Some (sealed w !! q) /\ is_Some (fs_dir s !! segmentName (SrcID c) q).

Inductive rstep (c : Config) : conf -> revent -> conf -> Prop :=
  | rstep_spool k e k' : step c k e k' -> rstep c k (RSpool e) k'
  | rstep_reap w s faults clock rand maxBytes n w' wd :
      Forall crash_only faults ->
      Reap maxBytes (w, World s faults clock rand) = (Ret n, (w', wd)) -> spared c w (w_fs wd) ->
      rstep c (Conf (Some w) s) (RReap maxBytes n) (Conf (Some w') (w_fs wd))
  | rstep_reap_crash w s faults clock rand maxBytes w' wd s' :
      Forall crash_only faults ->
      Reap maxBytes (w, World s faults clock rand) = (Crashed, (w', wd)) -> spared c w (w_fs wd) ->
      crash_fs (w_fs wd) s' ->
      rstep c (Conf (Some w) s) (RReapCrash maxBytes) (Conf None s').

(** ** The abstract log *)

(** The packets from gpidx [r_base] on; those below [r_oldest] may go at a crash. *)
Record rlog : Type := RLog { r_base : Z; r_oldest : Z; r_packets : list PcapRecord; r_durable : Z }.

Inductive rlog_step : rlog -> revent -> rlog -> Prop :=
  | rlog_start b o ps d ps' d' :
      ps' `prefix_of` ps -> d <= d' <= b + len ps' ->
      rlog_step (RLog b o ps d) (RSpool EvStart) (RLog b b ps' d')
  | rlog_write b o ps d r d' :
      d <= d' <= b + len ps + 1 ->
      rlog_step (RLog b o ps d) (RSpool (EvWrite r (b + len ps))) (RLog b o (ps ++ [stored r]) d')
  | rlog_tick b o ps d d' :
      d <= d' <= b + len ps -> rlog_step (RLog b o ps d) (RSpool EvTick) (RLog b o ps d')
  | rlog_crash b o ps d rs b' ps' d' :
      b <= b' <= o -> ps' `prefix_of` drop (Z.to_nat (b' - b)) (ps ++ rs) -> d <= d' <= b' + len ps' ->
      rlog_step (RLog b o ps d) (RSpool (EvCrash rs)) (RLog b' b' ps' d')
  | rlog_reap b o ps d maxBytes n o' :
      0 <= n -> (n = 0 -> o' = o) -> (0 < n -> 0 < maxBytes /\ o < o') -> o' <= d ->
      rlog_step (RLog b o ps d) (RReap maxBytes n) (RLog b o' ps d)
  | rlog_reap_crash b o ps d maxBytes b' ps' d' :
      b <= b' <= d -> ps' `prefix_of` drop (Z.to_nat (b' - b)) ps -> d <= d' <= b' + len ps' ->
      rlog_step (RLog b o ps d) (RReapCrash maxBytes) (RLog b' b' ps' d').

(** ** Lemmas *)

Section Refine.
Context (c0 : Config).
Abbreviation c := (applyDefaults c0).
Abbreviation src := (SrcID c).
Abbreviation disk := (spool_disk (SrcID c) (Snaplen c) (LinkType c)).

Definition ghost_rlog (g : ghost) (o : Z) : rlog := RLog (base g) o (hist g) (durable_end g).

Definition rrel (k : conf) (l : rlog) : Prop :=
  match k with
  | Conf (Some w) s => exists g G n, retained c g G n w s /\ spares n g /\ ghost_rlog g (oldestGpidx w) = l
  | Conf None s => exists g, disk g s /\ crash_fs s s /\ ghost_rlog g (base g) = l
  end.

Lemma durable_le g : ghost_ok (Snaplen c) (LinkType c) g -> durable_end g <= base g + len (hist g).
Proof.
  intros Hg. rewrite <-(next_hist c0 g Hg). unfold durable_end, next_gpidx, gs_end, len. pose proof (ok_sync _ _ _ Hg). lia.
Qed.

Lemma spares_le k g : spares k g -> (k <= length (g_closed g))%nat.
Proof. intros []; lia. Qed.

Lemma spares_seals k g g' : spares k g -> seals g g' -> spares k g'.
Proof. intros Hs [_ [t Ht]]. unfold spares in *. rewrite Ht, length_app. destruct Hs; [by left|right; lia]. Qed.

(** The oldest segment stays the oldest. *)
Lemma oldest_grows k g g' :
  spares k g -> seals g g' -> base g' = base g ->
  first_start (drop k (g_segs g')) = first_start (drop k (g_segs g)).
Proof.
  intros Hs [_ [t Ht]] Hb. destruct Hs as [->|Hk]; [exact Hb|].
  destruct (lookup_lt_is_Some_2 _ _ Hk) as [x Hx].
  rewrite (drop_S (g_segs g) x k) by (by apply lookup_app_l_Some).
  rewrite (drop_S (g_segs g') x k); [done|]. unfold g_segs. rewrite Ht. by do 2 apply lookup_app_l_Some.
Qed.

Lemma oldest_mono g j k :
  ghost_ok (Snaplen c) (LinkType c) g -> (j <= k <= length (g_closed g))%nat ->
  first_start (drop j (g_segs g)) <= first_start (drop k (g_segs g)).
Proof.
  intros Hg Hjk. destruct (decide (j = k)) as [->|Hne]; [lia|].
  pose proof (first_start_lt c g j k Hg ltac:(lia)). lia.
Qed.

(** What a crash leaves of a spool with deleted segments. *)
Lemma crash_dropped g G k s s' :
  reaped c g G k s -> spares k g -> crash_fs s s' ->
  exists b, base g <= b <= first_start (drop k (g_segs g)) /\ b <= durable_end g /\
    rrel (Conf None s') (RLog b b (drop (Z.to_nat (b - base g)) (hist g)) (durable_end g)) /\
    durable_end g <= b + len (drop (Z.to_nat (b - base g)) (hist g)).
Proof.
  intros Hr Hsp Hcr. pose proof (re_disk _ _ _ _ _ Hr) as [Hg _].
  destruct (reaped_crash c g G k s s' Hr Hsp Hcr) as (j & Hj & Hd & Hagain).
  pose proof (spares_le k g Hsp) as Hk. destruct (hist_drop c j g) as (Hb & Hbd & Hh); [done|lia|].
  pose proof (oldest_mono g j k Hg ltac:(lia)) as Hm. pose proof (durable_le _ (proj1 Hd)) as Hl. rewrite Hh in Hl.
  exists (base (g_drop j g)). split_and!; [lia|lia|lia| |exact Hl].
  exists (g_drop j g). split_and!; [done|done|]. unfold ghost_rlog. by rewrite Hh.
Qed.

Lemma drop_prefix {A} n (l l' : list A) : l `prefix_of` l' -> drop n l `prefix_of` drop n l'.
Proof. intros [t ->]. rewrite skipn_app. by apply prefix_app_r. Qed.

Lemma crash_log g g2 G k o rs s s' :
  reaped c g2 G k s -> spares k g -> seals g g2 -> crash_fs s s' -> base g2 = base g ->
  durable_end g <= durable_end g2 -> hist g2 `prefix_of` hist g ++ rs -> o = first_start (drop k (g_segs g)) ->
  exists l', rlog_step (ghost_rlog g o) (RSpool (EvCrash rs)) l' /\ rrel (Conf None s') l'.
Proof.
  intros Hr Hsp Hgr Hcr Hb Hd Hh ->.
  destruct (crash_dropped g2 G k s s' Hr (spares_seals _ _ _ Hsp Hgr) Hcr) as (b & H1 & H2 & H3 & H4).
  rewrite (oldest_grows k g g2 Hsp Hgr Hb), Hb in H1. rewrite Hb in *.
  eexists. split; [|exact H3]. apply rlog_crash; [done| |lia]. by apply drop_prefix.
Qed.

(** The writer runs as if nothing had been deleted. *)
Lemma retained_unused g G k w s :
  retained c g G k w s -> unused G manifestName /\ unused G headName /\ unused G (tmp_name headName) /\
  unused G (segmentName src (nextSeq w)).
Proof.
  intros [Hr [Hw Hq] _]. pose proof (re_disk _ _ _ _ _ Hr) as [Hg _]. pose proof (re_names _ _ _ _ _ Hr) as HG.
  assert (forall n, touched headName n -> unused G n) as Ht.
  { intros n Hn. apply (names_unused c g G n Hg HG). by apply touched_not_segment. }
  split_and!; [|by apply Ht; right|by apply Ht; left|].
  - apply (names_unused c g G _ Hg HG). destruct (is_segment src manifestName) eqn:E; [|done].
    by apply segment_not_manifest in E.
  - unfold unused. destruct (G !! segmentName src (nextSeq w)) as [ino|] eqn:E; [|done].
    destruct (HG _ (ex_intro _ _ E)) as (x & Hx & Heq). symmetry in Heq.
    by apply (next_ok_name c g (nextSeq w) x Hg Hq (closed_in_segs _ _ Hx)) in Heq.
Qed.

Section Blindly.
Context (g : ghost) (G : gmap (list byte) nat) (k : nat) (w : Writer) (s : fs).
Context {A : Type} (m : M Writer A) (faults : list fault) (clock : list Z) (rand : list byte).
Context (o : outcome A) (w' : Writer) (wd : world).
Hypothesis Hret : retained c g G k w s.
Hypothesis Hblind : blind G (about c (nextSeq w) (oldestGpidx w)) m (about_oldest c (oldestGpidx w)).
Hypothesis Hrun : m (w, World s faults clock rand) = (o, (w', wd)).

Lemma blind_run :
  m (w, World (restored G s) faults clock rand) = (o, (w', restored_world G wd)) /\
  same_names G s (w_fs wd) /\ (forall a, o = Ret a -> oldestGpidx w' = oldestGpidx w).
Proof.
  pose proof (Hblind w (World s faults clock rand)) as H. rewrite Hrun in H.
  destruct H as (H1 & H2 & H3).
  - split_and!; [|done|done]. apply (wi_cfg _ _ _ _ (proj1 (rt_winv _ _ _ _ _ _ Hret))).
  - split_and!; [done|done|]. intros a Ha. by apply (H3 a).
Qed.

(** It returns, and the spool is retained. *)
Lemma blind_returns a g' rs :
  spares k g -> o = Ret a -> evolves rs g g' -> winv c g' w' (restored G (w_fs wd)) ->
  retained c g' G k w' (w_fs wd) /\ oldestGpidx w' = oldestGpidx w.
Proof.
  intros Hsp Ho (_ & _ & Hb & _ & _ & Hgr) Hw'. destruct blind_run as (_ & Hsame & Hold). specialize (Hold a Ho).
  split; [|done]. split; [|done|].
  - eapply reaped_carried; [apply Hret|apply Hw'|done|done].
  - rewrite Hold, (oldest_grows k g g' Hsp Hgr Hb). apply Hret.
Qed.

(** It does not return, and the host crashes. *)
Lemma blind_breaks (why : Prop) rs s' :
  spares k g -> broken c why rs g (restored G (w_fs wd)) -> crash_fs (w_fs wd) s' ->
  exists l', rlog_step (ghost_rlog g (oldestGpidx w)) (RSpool (EvCrash rs)) l' /\ rrel (Conf None s') l'.
Proof.
  intros Hsp (_ & g2 & Hd2 & Hev) Hcr. destruct blind_run as (_ & Hsame & _).
  assert (seals g g2 /\ base g2 = base g /\ durable_end g <= durable_end g2 /\ hist g2 `prefix_of` hist g ++ rs)
    as (Hgr & Hb & Hde & Hh).
  { destruct Hev as [(H1 & H2 & H3 & _ & _ & H4)|(H1 & H2 & H3 & _ & _ & H4)]; (split_and!; [done..|]).
    - rewrite H1, app_nil_r. by apply prefix_app_r.
    - by rewrite H1. }
  eapply (crash_log g g2 G k); [|done..|apply Hret].
  eapply reaped_carried; [apply Hret|done..].
Qed.
End Blindly.

Lemma blind_retained_WritePacket g G k w s r :
  retained c g G k w s -> blind G (about c (nextSeq w) (oldestGpidx w)) (WritePacket r) (about_oldest c (oldestGpidx w)).
Proof. intros Hr. destruct (retained_unused _ _ _ _ _ Hr) as (H1 & H2 & H3 & H4). by apply blind_WritePacket. Qed.

Lemma blind_retained_Tick g G k w s :
  retained c g G k w s -> blind G (about c (nextSeq w) (oldestGpidx w)) Tick (about_oldest c (oldestGpidx w)).
Proof. intros Hr. destruct (retained_unused _ _ _ _ _ Hr) as (H1 & H2 & H3 & H4). by apply blind_Tick. Qed.

Lemma evolves_rlog g g' rs w s :
  evolves rs g g' -> winv c g' w s ->
  base g' = base g /\ hist g' = hist g ++ rs /\ durable_end g <= durable_end g' <= base g + len (hist g ++ rs).
Proof.
  intros (H1 & H2 & H3 & _) Hw. pose proof (durable_le g' (proj1 (wi_disk _ _ _ _ (proj1 Hw)))) as Hl.
  rewrite H3, H1 in Hl. by split_and!.
Qed.

(** An operation of the running writer. *)
Lemma retained_running g G k w s e w' s' :
  retained c g G k w s -> spares k g -> step c0 (Conf (Some w) s) e (Conf (Some w') s') ->
  exists rs g', evolves rs g g' /\ retained c g' G k w' s' /\ oldestGpidx w' = oldestGpidx w /\
    rlog_step (ghost_rlog g (oldestGpidx w)) (RSpool e) (ghost_rlog g' (oldestGpidx w')).
Proof.
  intros Hr Hsp Hs. pose proof (rt_winv _ _ _ _ _ _ Hr) as Hw.
  inversion Hs as [| |? ? fl ck rn r gp ? wd Hroom Hrun| |? ? fl ck rn ? wd Hn Hrun| |]; subst.
  - pose proof (blind_retained_WritePacket g G k w s r Hr) as Hb.
    destruct (blind_run g G k w s _ fl ck rn _ w' wd Hr Hb Hrun) as (Hrun' & _).
    pose proof (wp_run _ _ _ _ (World (restored G s) fl ck rn) _ _ _ (wp_WritePacket c any_fault g w _ r Hw (room_fits c0 _ _ _ _ Hw Hroom)
      (proj2 (proj2 (proj2 Hroom)))) eq_refl (any_fault_all _) Hrun') as (-> & g' & He & Hw').
    destruct (blind_returns g G k w s _ fl ck rn _ w' wd Hr Hb Hrun _ g' _ Hsp eq_refl He Hw') as [Hr' Ho'].
    destruct (evolves_rlog g g' _ _ _ He Hw') as (E1 & E2 & E3). eexists _, g'. split_and!; [exact He|done|done|].
    unfold ghost_rlog. rewrite (next_hist c0 g (proj1 (wi_disk _ _ _ _ (proj1 Hw)))), Ho', E1, E2.
    apply rlog_write. by rewrite len_app, Z.add_assoc in E3.
  - pose proof (blind_retained_Tick g G k w s Hr) as Hb.
    destruct (blind_run g G k w s _ fl ck rn _ w' wd Hr Hb Hrun) as (Hrun' & _).
    pose proof (wp_run _ _ _ _ (World (restored G s) fl ck rn) _ _ _ (wp_Tick c any_fault g w _ Hw Hn)
      eq_refl (any_fault_all _) Hrun') as (g' & He & Hw').
    destruct (blind_returns g G k w s _ fl ck rn _ w' wd Hr Hb Hrun _ g' _ Hsp eq_refl He Hw') as [Hr' Ho'].
    destruct (evolves_rlog g g' _ _ _ He Hw') as (E1 & E2 & E3). eexists _, g'. split_and!; [exact He|done|done|].
    rewrite app_nil_r in E2, E3. unfold ghost_rlog. rewrite Ho', E1, E2. by apply rlog_tick.
Qed.

(** Spool steps. *)
Lemma rstep_spool_log k e k' l :
  config_ok c -> step c0 k e k' -> rrel k l -> exists l', rlog_step l (RSpool e) l' /\ rrel k' l'.
Proof.
  intros Hc Hs Hr. destruct Hs as [s w0 fl ck rn w wd [Hu Hq] Hfl Hrun|s w0 fl ck rn w wd s' [Hu Hq] Hfl Hrun Hcr|
    w s fl ck rn r gp w' wd Hroom Hrun|w s fl ck rn r o w' wd s' Hroom Hrun Ho Hcr|
    w s fl ck rn w' wd Hn Hrun|w s fl ck rn o w' wd s' Hn Hrun Ho Hcr|w s s' Hcr].
  - destruct Hr as (g & Hd & Hcr & <-).
    pose proof (wp_run _ _ _ _ (World s fl ck rn) _ _ _ (wp_NewWriter crash_only c0 g w0 s s crash_only_no_fail Hc Hd Hcr Hu Hq)
      eq_refl Hfl Hrun) as (g' & (H1 & H2 & H3 & _) & Hw & Ho).
    exists (ghost_rlog g' (base g')). split.
    + unfold ghost_rlog. rewrite H3. apply rlog_start; [done|]. rewrite <-H3. split; [done|].
      apply durable_le. apply (wi_disk _ _ _ _ (proj1 Hw)).
    + exists g', ∅, 0%nat. split_and!; [by apply retained_start|by left|by rewrite Ho].
  - destruct Hr as (g & Hd & Hcr0 & <-).
    pose proof (wp_run _ _ _ _ (World s fl ck rn) _ _ _ (wp_NewWriter crash_only c0 g w0 s s crash_only_no_fail Hc Hd Hcr0 Hu Hq)
      eq_refl Hfl Hrun) as (_ & g' & (H1 & H2 & H3 & _) & [Hg' Hd']).
    exists (ghost_rlog g' (base g')). split.
    + unfold ghost_rlog. rewrite H3. pose proof (durable_le g' Hg') as Hl. rewrite H3 in Hl.
      apply rlog_crash; [lia| |done]. rewrite Z.sub_diag, app_nil_r. by rewrite drop_0.
    + exists g'. split_and!; [split; [done|by eapply dir_crash]|by eapply crash_again|done].
  - destruct Hr as (g & G & k & Hr & Hsp & <-).
    destruct (retained_running g G k w s _ w' (w_fs wd) Hr Hsp (step_write c0 w s fl ck rn r gp w' wd Hroom Hrun)) as (rs & g' & He & Hr' & _ & Hl).
    eexists. split; [exact Hl|]. exists g', G, k. split_and!; [done|eapply spares_seals; [done|apply He]|done].
  - destruct Hr as (g & G & k & Hr & Hsp & <-). pose proof (rt_winv _ _ _ _ _ _ Hr) as Hw.
    pose proof (blind_retained_WritePacket g G k w s r Hr) as Hb.
    destruct (blind_run g G k w s _ fl ck rn _ w' wd Hr Hb Hrun) as (Hrun' & _).
    pose proof (wp_run _ _ _ _ (World (restored G s) fl ck rn) _ _ _ (wp_WritePacket c any_fault g w _ r Hw (room_fits c0 _ _ _ _ Hw Hroom)
      (proj2 (proj2 (proj2 Hroom)))) eq_refl (any_fault_all _) Hrun') as H. apply (not_ret _ _ _ Ho) in H.
    by eapply (blind_breaks g G k w s _ fl ck rn _ w' wd Hr Hb Hrun).
  - destruct Hr as (g & G & k & Hr & Hsp & <-).
    destruct (retained_running g G k w s _ w' (w_fs wd) Hr Hsp (step_tick c0 w s fl ck rn w' wd Hn Hrun)) as (rs & g' & He & Hr' & _ & Hl).
    eexists. split; [exact Hl|]. exists g', G, k. split_and!; [done|eapply spares_seals; [done|apply He]|done].
  - destruct Hr as (g & G & k & Hr & Hsp & <-). pose proof (rt_winv _ _ _ _ _ _ Hr) as Hw.
    pose proof (blind_retained_Tick g G k w s Hr) as Hb.
    destruct (blind_run g G k w s _ fl ck rn _ w' wd Hr Hb Hrun) as (Hrun' & _).
    pose proof (wp_run _ _ _ _ (World (restored G s) fl ck rn) _ _ _ (wp_Tick c any_fault g w _ Hw Hn)
      eq_refl (any_fault_all _) Hrun') as H. assert (forall u, o <> Ret u) as Ho' by (by intros []). apply (not_ret _ _ _ Ho') in H.
    by eapply (blind_breaks g G k w s _ fl ck rn _ w' wd Hr Hb Hrun).
  - destruct Hr as (g & G & k & Hr & Hsp & <-).
    eapply (crash_log g g G k); [apply Hr|done|apply seals_refl|done|done|lia|by rewrite app_nil_r|apply Hr].
Qed.

(** ** Retention steps *)

Lemma spared_spares g G k w s G' k' s' :
  retained c g G k w s -> spares k g -> (k <= k')%nat -> reaped c g G' k' s' -> spared c w s' -> spares k' g.
Proof.
  intros Hr Hsp Hk Hr' Hs. pose proof (re_le _ _ _ _ _ Hr') as Hk'. destruct Hs as [He|(q & [seg Hq] & [ino Hf])].
  - assert (k' = k) as ->; [|done]. destruct (decide (k' = k)); [done|exfalso].
    destruct (lookup_lt_is_Some_2 (g_closed g) k ltac:(lia)) as [x Hx].
    assert (sealed w !! gs_seq x = Some (gs_line src x)) as Hl.
    { apply (retained_lookup c g G k w s Hr). exists x. split_and!; [|done..]. apply elem_of_drop_closed. by exists k. }
    by rewrite He, lookup_empty in Hl.
  - right. apply (retained_lookup c g G k w s Hr) in Hq as (x & (i & Hi & Hx)%elem_of_drop_closed & -> & _).
    pose proof (lookup_lt_Some _ _ _ Hx). destruct (Nat.lt_ge_cases i k') as [Hlt|?]; [|lia].
    apply (re_live _ _ _ _ _ Hr' i x Hx) in Hlt. unfold gs_name in Hlt. congruence.
Qed.

Lemma Reap_zero maxBytes w wd n w' wd' :
  maxBytes <= 0 -> Reap maxBytes (w, wd) = (Ret n, (w', wd')) -> n = 0.
Proof. intros Hm. unfold Reap. destruct (Z.leb_spec maxBytes 0); [|lia]. by intros [= <- _ _]. Qed.

(** [Reap] under the running writer. *)
Lemma retained_reaping g G k w s maxBytes n fl ck rn w' wd :
  retained c g G k w s -> spares k g -> Forall crash_only fl ->
  Reap maxBytes (w, World s fl ck rn) = (Ret n, (w', wd)) -> spared c w (w_fs wd) ->
  exists G' k', (k <= k')%nat /\ retained c g G' k' w' (w_fs wd) /\ spares k' g /\
    rlog_step (ghost_rlog g (oldestGpidx w)) (RReap maxBytes n) (ghost_rlog g (oldestGpidx w')).
Proof.
  intros Hr Hsp Hfl Hrun Hspd.
  pose proof (wp_run _ _ _ _ (World s fl ck rn) _ _ _ (wp_Reap c crash_only crash_only_no_fail g G k w s maxBytes Hr) eq_refl Hfl Hrun)
    as (G' & k' & Hk & -> & Hr'). rewrite Z.add_0_l in *.
  pose proof (re_disk _ _ _ _ _ (rt_reaped _ _ _ _ _ _ Hr)) as [Hg _].
  pose proof (re_le _ _ _ _ _ (rt_reaped _ _ _ _ _ _ Hr')) as Hk'.
  pose proof (spared_spares _ _ _ _ _ _ _ _ Hr Hsp Hk (rt_reaped _ _ _ _ _ _ Hr') Hspd) as Hsp'.
  exists G', k'. split_and!; [done..|].
  rewrite (rt_oldest _ _ _ _ _ _ Hr), (rt_oldest _ _ _ _ _ _ Hr'). apply rlog_reap; [lia|..].
  - intros Hz. by replace k' with k by lia.
  - intros Hn. split; [|apply (first_start_lt c); [done|lia]].
    destruct (Z.le_gt_cases maxBytes 0) as [Hm|?]; [|lia]. pose proof (Reap_zero _ _ _ _ _ _ Hm Hrun). lia.
  - destruct (hist_drop c k' g Hg Hk') as (<- & ? & _). lia.
Qed.

Lemma rstep_log k e k' l :
  config_ok c -> rstep c0 k e k' -> rrel k l -> exists l', rlog_step l e l' /\ rrel k' l'.
Proof.
  intros Hc Hs Hr. destruct Hs as [k e k' Hs|w s fl ck rn mx n w' wd Hfl Hrun Hspd|w s fl ck rn mx w' wd s' Hfl Hrun Hspd Hcr].
  - by eapply rstep_spool_log.
  - destruct Hr as (g & G & k & Hr & Hsp & <-).
    destruct (retained_reaping g G k w s mx n fl ck rn w' wd Hr Hsp Hfl Hrun Hspd) as (G' & k' & _ & Hr' & Hsp' & Hl).
    eexists. split; [exact Hl|]. by exists g, G', k'.
  - destruct Hr as (g & G & k & Hr & Hsp & <-).
    pose proof (wp_run _ _ _ _ (World s fl ck rn) _ _ _ (wp_Reap c crash_only crash_only_no_fail g G k w s mx Hr) eq_refl Hfl Hrun)
      as (G' & k' & Hk & _ & Hr').
    pose proof (spared_spares _ _ _ _ _ _ _ _ Hr Hsp Hk Hr' Hspd) as Hsp'.
    destruct (crash_dropped g G' k' _ s' Hr' Hsp' Hcr) as (b & H1 & H2 & H3 & H4).
    eexists. split; [|exact H3]. apply rlog_reap_crash; [lia|done|lia].
Qed.

Lemma empty_rrel : rrel first_conf (RLog 0 0 [] 0).
Proof.
  destruct (empty_spool c0) as (g & s0 & Hd & Hcr & Hb & Hl). unfold ghost_log in Hl. injection Hl as Hh Hde.
  exists g. split_and!; [split; [apply Hd|eapply dir_crash; [apply Hd|done]]|by eapply crash_again|].
  unfold ghost_rlog. by rewrite Hb, Hh, Hde.
Qed.

Lemma rsteps_log k es k' l :
  config_ok c -> steps (rstep c0) k es k' -> rrel k l -> exists l', steps rlog_step l es l' /\ rrel k' l'.
Proof. intros Hc. apply (steps_sim (rstep c0) rlog_step rrel). intros. by eapply rstep_log. Qed.

(** What readers and the writer say. *)
Lemma rrel_says k l :
  rrel k l ->
  (forall seg, head_pointer (directory k) = Some seg -> 0 <= seg_EndGpidx seg <= r_durable l) /\
  (forall w, running k = Some w -> oldestGpidx w = r_oldest l /\ head w = r_base l + len (r_packets l)).
Proof.
  destruct k as [[w|] s]; cbn [rrel].
  - intros (g & G & n & Hr & _ & <-). split.
    + intros seg. cbn [directory]. pose proof (retained_unused _ _ _ _ _ Hr) as (_ & Hu & _).
      assert (head_pointer s = head_pointer (restored G s)) as ->.
      { unfold head_pointer, content. cbn. by rewrite lookup_restored. }
      by eapply head_pointer_disk, (re_disk _ _ _ _ _ (rt_reaped _ _ _ _ _ _ Hr)).
    + intros w' [= <-]. split; [done|]. destruct (rt_winv _ _ _ _ _ _ Hr) as [Hw _].
      rewrite (wi_head _ _ _ _ Hw). apply (next_hist c0), (wi_disk _ _ _ _ Hw).
  - intros (g & Hd & _ & <-). split; [|done]. intros seg. by eapply head_pointer_disk.
Qed.
End Refine.

(** ** Executing runs *)

Definition spared_b (c : Config) (w : Writer) (s : fs) : bool :=
  bool_decide (sealed w = ∅) ||
  existsb (fun kv => bool_decide (is_Some (fs_dir s !! segmentName (SrcID c) kv.1))) (map_to_list (sealed w)).

Lemma spared_b_spec c w s : spared_b c w s = true -> spared c w s.
Proof.
  intros [H|H]%orb_true_iff; [left; by apply bool_decide_eq_true in H|right].
  apply existsb_exists in H as ([q seg] & Hin & Hb). apply bool_decide_eq_true in Hb. exists q. split; [|done].
  exists seg. by apply elem_of_map_to_list, list_elem_of_In.
Qed.

Definition rexec (c : Config) (k : conf) (e : revent) : option conf :=
  match e with
  | RSpool e => exec c k e
  | RReap maxBytes n =>
      w ← running k;
      match Reap maxBytes (w, World (directory k) [] [] []) with
      | (Ret n', (w', wd)) =>
          if decide (n' = n) then if spared_b c w (w_fs wd) then Some (Conf (Some w') (w_fs wd)) else None
          else None
      | _ => None
      end
  | RReapCrash _ => None
  end.

Lemma rrel_wf c0 k l : rrel c0 k l -> fs_wf (directory k).
Proof.
  destruct k as [[w|] s]; cbn.
  - intros (g & G & n & Hr & _). by eapply retained_wf.
  - intros (g & [_ Hd] & _). by eapply dir_wf.
Qed.

Lemma rexec_step c k e k' : fs_wf (directory k) -> rexec c k e = Some k' -> rstep c k e k'.
Proof.
  intros Hwf. destruct e as [e|mx n|mx]; cbn; [intros He; by apply rstep_spool, exec_step| |done].
  destruct k as [[w|] s]; cbn; [|done]. destruct (Reap mx _) as [[n'|e|] [w' wd]] eqn:E; [|done..].
  case_decide; [|done]. subst n'. destruct (spared_b c w (w_fs wd)) eqn:Es; [|done]. intros [= <-].
  eapply rstep_reap; [constructor|done|by apply spared_b_spec].
Qed.

Lemma rexec_runs c es k l k' :
  config_ok (applyDefaults c) -> rrel c k l -> exec_all (rexec c) k es = Some k' -> steps (rstep c) k es k'.
Proof.
  intros Hc Hr He. apply (exec_steps (rstep c) (fun k => exists l, rrel c k l) (rexec c)); [|eauto|done].
  intros k1 e k2 [l1 Hr1] E. pose proof (rexec_step c k1 e k2 (rrel_wf _ _ _ Hr1) E) as Hs. split; [done|].
  destruct (rstep_log c k1 e k2 l1 Hc Hs Hr1) as (l2 & _ & Hr2). eauto.
Qed.

(** ** Properties *)


(** Three segments, of which retention deletes the two oldest, and a crash. *)
Definition example_reaping : list revent :=
  [RSpool EvStart; RSpool (EvWrite (mkPcapRecord 1 2 0 (replicate 90 x61)) 0);
   RSpool (EvWrite (mkPcapRecord 1 3 0 (replicate 90 x62)) 1); RReap 1000 0;
   RSpool (EvWrite (mkPcapRecord 1 4 0 (replicate 90 x63)) 2); RReap 160 2; RSpool (EvCrash []);
   RSpool EvStart; RSpool (EvWrite (mkPcapRecord 1 5 0 [x64]) 3)].

Definition example_reaped : conf := exec_end (rexec example_config) first_conf example_reaping.

Lemma example_reaping_ok : exec_ok (rexec example_config) first_conf example_reaping = true.
Proof. vm_compute. reflexivity. Qed.


(** Two packets in one segment, which retention deletes; then a restart. *)
Definition example_sealing : list event :=
  [EvStart; EvWrite (mkPcapRecord 1 2 0 [x61]) 0; EvWrite (mkPcapRecord 1 3 0 (replicate 90 x62)) 1].
Definition example_sealed : conf := exec_end (exec example_config) first_conf example_sealing.
Definition example_reap :=
  Reap 1 (default new_object (running example_sealed), World (directory example_sealed) [] [] []).
Definition example_restart :=
  NewWriter example_config (new_object, World (flushed (w_fs example_reap.2.2)) [] [] []).

Lemma example_reap_facts :
  exec_ok (exec example_config) first_conf example_sealing = true /\
  is_Some (running example_sealed) /\ example_reap.1 = Ret 1 /\
  head example_reap.2.1 = 2 /\ floors_ok (w_fs example_reap.2.2) = true /\
  example_restart.1 = Ret () /\ (WritePacket (mkPcapRecord 1 4 0 [x63]) example_restart.2).1 = Ret 0.
Proof. split_and!; [|eexists|..]; vm_compute; reflexivity. Qed.

(** What the condition of the runs with retention excludes happens: once
    retention has deleted every sealed segment, a crash and a restart number the
    packets from 0 again, below the head the writer had reported. *)
Theorem reap_all_reissues_gpidx :
  exists w s w' wd s' w2 wd2 r,
    steps (step example_config) first_conf example_sealing (Conf (Some w) s) /\
    Reap 1 (w, World s [] [] []) = (Ret 1, (w', wd)) /\ head w' = 2 /\
    crash_fs (w_fs wd) s' /\
    NewWriter example_config (new_object, World s' [] [] []) = (Ret (), (w2, wd2)) /\
    (WritePacket r (w2, wd2)).1 = Ret 0.
Proof.
  destruct example_reap_facts as (Hok & [w Hrun] & Hr & Hh & Hf & Hn & Hw).
  pose proof (run_parts example_reap) as Er. rewrite Hr in Er. unfold example_reap in Er at 1. rewrite Hrun in Er.
  pose proof (run_parts example_restart) as En. rewrite Hn in En. unfold example_restart in En at 1.
  exists w, (directory example_sealed), example_reap.2.1, example_reap.2.2, (flushed (w_fs example_reap.2.2)),
    example_restart.2.1, example_restart.2.2, (mkPcapRecord 1 4 0 [x63]).
  split_and!; [|exact Er|exact Hh|by apply crash_flushed|exact En|by rewrite <-surjective_pairing].
  replace (Conf (Some w) (directory example_sealed)) with example_sealed by (by rewrite <-Hrun; destruct example_sealed).
  apply (exec_runs _ _ _ _ _ (proj1 example_steps) (empty_spool _)).
  exact (exec_ok_end (exec example_config) first_conf example_sealing Hok).
Qed.
