(* ===== verification/ReaderProof.v ===== *)
(** * The tailing reader returns durable packets

    What the reader does on a directory that satisfies the spool's invariant: its
    view holds durable segments only, and [Next] returns the packet at its
    position, or says that nothing advertised covers it. *)

From S2P Require Import Prelude Bytes GoIO Pcapio Os Durable Dir Runs Json Manifest Recover Spool SpoolSpec SpoolProof RecoverProof RestartProof SpoolProps Reader.

(** ** Skipping records *)

Lemma skip_records_run snap recs pre t n :
  is_uint 32 snap -> Forall (wf_record snap) recs -> (n <= length recs)%nat ->
  len pre + len (enc_records recs) < 2 ^ 63 ->
  skip_records (file_ReaderAt (pre ++ enc_records recs ++ t)) n (len pre) =
    (len pre + len (enc_records (take n recs)), None).
Proof.
  intros Hs Hrecs. revert pre n. induction Hrecs as [|r recs Hr Hrecs IH]; intros pre n Hn Hl.
  { cbn in Hn. replace n with 0%nat by lia. cbn. by rewrite Z.add_0_r. }
  destruct n as [|n]; [cbn; by rewrite Z.add_0_r|]. cbn [length] in Hn. cbn [skip_records take].
  rewrite !enc_records_cons. rewrite enc_records_cons, len_app in Hl. rewrite len_app.
  assert (file_ReaderAt (pre ++ (PcapRecord_bytes r ++ enc_records recs) ++ t) (len pre) 16%nat =
    Ok (PcapRecord_header r)) as ->.
  { unfold PcapRecord_bytes. rewrite <-!app_assoc. by apply file_ReaderAt_app. }
  rewrite (record_header_fields snap) by done. cbn [fst].
  pose proof (len_PcapRecord_bytes r) as Hb. unfold PcapRecord_Size, RecordHeaderLen in *.
  pose proof (len_nonneg pre). pose proof (len_nonneg (Data r)). pose proof (len_nonneg (enc_records recs)).
  rewrite i64_small by lia. specialize (IH (pre ++ PcapRecord_bytes r) n). rewrite len_app, Hb, <-!app_assoc in IH.
  rewrite <-app_assoc, IH by lia. pair_lia.
Qed.

#[export] Instance by_StartGpidx_total : Total by_StartGpidx.
Proof. intros x y. unfold by_StartGpidx. lia. Qed.

#[export] Instance by_StartGpidx_trans : Transitive by_StartGpidx.
Proof. intros x y z. unfold by_StartGpidx. lia. Qed.

(** ** Descriptors of others *)

(** Every open descriptor in [P] stays as it is. *)
Definition kept_fds (P : nat -> Prop) (s s' : fs) : Prop :=
  forall fd d, P fd -> fs_fds s !! fd = Some d -> fs_fds s' !! fd = Some d.

Lemma kept_fds_refl P s : kept_fds P s s.
Proof. by intros fd d. Qed.

#[local] Hint Resolve kept_fds_refl : core.

Lemma kept_fds_trans P s1 s2 s3 : kept_fds P s1 s2 -> kept_fds P s2 s3 -> kept_fds P s1 s3.
Proof. intros H1 H2 fd d Hp Hd. by apply H2, H1. Qed.

Lemma kept_fds_mono (P Q : nat -> Prop) s s' : (forall fd, Q fd -> P fd) -> kept_fds P s s' -> kept_fds Q s s'.
Proof. intros HQ Hk fd d Hp. by apply Hk, HQ. Qed.

Lemma kept_fds_all P s s' : kept_fds (fun _ => True) s s' -> kept_fds P s s'.
Proof. by apply kept_fds_mono. Qed.

Lemma kept_fds_open ino app s P : fs_wf s -> kept_fds P s (open_ino ino app s).2.
Proof.
  intros Hwf fd d _ Hd. cbn. rewrite lookup_insert_ne; [done|]. intros <-. apply (wf_fds s Hwf) in Hd. lia.
Qed.

Lemma kept_fds_close P s fd : ~ P fd -> kept_fds P s (set_fds (delete fd) s).
Proof. intros Hn fd' d HP Hd. cbn. rewrite lookup_delete_ne; [done|]. by intros ->. Qed.

(** The directory without the versions that a crash may bring back. *)
Definition current (s : fs) : fs := Fs (fs_inodes s) (fs_dir s) [] (fs_fds s) (fs_next s).

Lemma idle_current s s' : idle s s' -> idle (current s) (current s').
Proof. by intros []. Qed.

Lemma holds_current s n P : holds s n P -> holds (current s) n P.
Proof. intros H d Hd. apply list_elem_of_singleton in Hd as ->. apply H. left. Qed.

Lemma dir_current hd dur spec P s : dir_inv hd dur spec P s -> dir_inv hd dur spec P (current s).
Proof.
  assert (forall d, d ∈ versions (current s) -> d ∈ versions s) as Hv.
  { intros d Hd. apply list_elem_of_singleton in Hd as ->. left. }
  intros [[[Hi Hd Hf] Hap Hh Ht Hsp] Hfs Hp]. split; [split|..].
  - split; [done| |done]. intros d n ino H. by apply Hd, Hv.
  - intros ino d Hn H. by apply (Hap ino d Hn), Hv.
  - by apply holds_current.
  - by apply holds_current.
  - intros d ino H. by apply (Hsp d ino), Hv.
  - intros n Hn. by apply holds_current, Hfs.
  - intros d d' n m ino H1 H2. apply (Hp d d' n m ino); by apply Hv.
Qed.

Section Reader.
Context (c : Config) (F : fault -> Prop) (HF : ~ can_fail F).

Abbreviation src := (SrcID c).
Abbreviation snap := (Snaplen c).
Abbreviation link := (LinkType c).
Abbreviation gname := (gs_name src).
Abbreviation gbytes := (gs_bytes snap link).
Abbreviation disk := (spool_disk src snap link).

(** A directory as a running writer has it now, whatever a crash would make of it. *)
Definition served (g : ghost) (s : fs) : Prop := disk g (current s) /\ man_whole c g s /\ fs_wf s.

(** [seg] describes durable packets, at their place in the chain. *)
Definition shown (g : ghost) (seg : Segment) : Prop :=
  exists x j b, seg = gs_entry src b j x /\ durable_seg g x j.

Lemma durable_in g x j : durable_seg g x j -> x ∈ g_segs g.
Proof. intros (_ & [Hx|(-> & _)]); [by apply closed_in_segs|apply act_in_segs]. Qed.

Lemma served_idle g s s' : served g s -> idle s s' -> served g s'.
Proof.
  intros ([Hg Hd] & Hm & Hwf) Hid. split; [split; [done|by eapply dir_idle, idle_current]|].
  split; [|by eapply idle_wf]. unfold man_whole in *. by rewrite (idle_content _ _ _ Hid).
Qed.

Lemma served_wf g s : served g s -> fs_wf s.
Proof. by intros (_ & _ & ?). Qed.

Lemma served_content g s n : served g s -> ~ touched headName n -> spool_spec src snap link g n (content s n).
Proof. intros [[_ Hinv] _]. exact (dir_content _ _ Hinv n). Qed.

Lemma served_seqs g s : served g s -> segment_seqs src (map_to_list (fs_dir s)).*1 = gs_seq <$> present c g s.
Proof. intros [Hd _]. exact (segment_seqs_present c g (current s) Hd). Qed.

(** Durable packets are in their file. *)
Lemma durable_content g s x j :
  served g s -> durable_seg g x j ->
  exists b, content s (gname x) = Some b /\ gh_bytes snap link ++ enc_records (take j (gs_recs x)) `prefix_of` b.
Proof.
  intros Hs Hx. pose proof Hs as [[Hg _] _]. pose proof (durable_in _ _ _ Hx) as Hin. destruct Hx as [Hj Hx].
  pose proof (served_content g s (gname x) Hs) as Hsp.
  specialize (Hsp ltac:(by apply (segment_not_touched src), (gs_name_segment src snap link), (seg_ok snap link g))).
  assert (gh_bytes snap link ++ enc_records (take j (gs_recs x)) `prefix_of` gbytes x) as Hpre.
  { apply prefix_app. rewrite <-(firstn_all (gs_recs x)) at 2. by apply enc_records_prefix_mono. }
  destruct Hx as [Hx|(-> & Hk & Hr & Ha)].
  - exists (gbytes x). split; [by apply (sp_closed _ _ _ _ _ _ Hsp)|done].
  - pose proof (sp_act _ _ _ _ _ _ Hsp eq_refl) as Hact. unfold act_spec in Hact.
    destruct (content s (gname (g_act g))) as [b|]; [|congruence]. destruct Hact as [Hp [?|Hl]]; [congruence|].
    exists b. split; [done|]. pose proof (gs_len_le (g_act g) j (g_sync g) Hk) as Hle.
    destruct (prefix_weak_total _ _ _ Hpre Hp) as [?|Hb]; [done|].
    assert (b = gh_bytes snap link ++ enc_records (take j (gs_recs (g_act g)))) as ->; [|done].
    apply prefix_length_eq; [done|]. unfold gs_len in Hle. unfold gs_len, len, GlobalHeaderLen in *.
    rewrite length_app. assert (length (gh_bytes snap link) = 24%nat) as -> by done. unfold gs_len, GlobalHeaderLen in Hl. unfold len in Hl. lia.
Qed.

(** ** The view *)

Definition covers (gp : Z) (seg : Segment) : Prop := seg_StartGpidx seg <= gp < seg_EndGpidx seg.

Definition fresh_view (g : ghost) (s : fs) : list Segment :=
  build_view (gs_seq <$> present c g s) (segments_by_seq (sealed_map c g)) (head_pointer s).

(** The map the view is sorted from. *)
Definition view_map (g : ghost) (s : fs) : gmap Z Segment :=
  let seqs := gs_seq <$> present c g s in
  let bySeq := by_seq_map (filter (fun s => seg_Seq s ∈ seqs) (segments_by_seq (sealed_map c g))) ∅ in
  match head_pointer s with
  | Some a => if decide (seg_Seq a ∈ seqs) then <[seg_Seq a := a]> bySeq else bySeq
  | None => bySeq
  end.

Lemma elem_of_view g s seg : seg ∈ fresh_view g s <-> exists q, view_map g s !! q = Some seg.
Proof.
  unfold fresh_view, build_view. fold (view_map g s). rewrite merge_sort_Permutation, list_elem_of_fmap. split.
  - intros ([q y] & -> & Hin%elem_of_map_to_list). by exists q.
  - intros (q & Hq). exists (q, seg). split; [done|]. by apply elem_of_map_to_list.
Qed.

Lemma view_map_key g s q seg : view_map g s !! q = Some seg -> seg_Seq seg = q.
Proof.
  assert (forall l, map_Forall (fun q s => seg_Seq s = q) (by_seq_map l ∅)) as Hk by (intros l; by apply by_seq_map_keys).
  unfold view_map. destruct (head_pointer s) as [a|]; [|apply Hk].
  case_decide; [|apply Hk]. rewrite lookup_insert. case_decide; [|apply Hk]. intros; by simplify_eq.
Qed.

(** The head pointer speaks about durable packets, or about a deleted segment. *)
Lemma head_shown g s a :
  served g s -> head_pointer s = Some a ->
  exists x j, a = gs_entry src false j x /\ (durable_seg g x j \/ (x ∈ g_gone g /\ (j <= length (gs_recs x))%nat)).
Proof.
  intros [[Hg Hinv] _] Ha.
  pose proof (holds_now _ _ _ (dir_wf _ _ Hinv) (rp_holds _ _ _ _ (di_head _ _ _ _ _ Hinv))) as Hc.
  change (content (current s) headName) with (content s headName) in Hc.
  unfold head_pointer in Ha. destruct (content s headName) as [b|]; [|done]. cbn in Ha, Hc.
  destruct Hc as (seg & Hadv & Hp). destruct (advertised_bound _ _ _ _ _ Hg Hadv) as [_ Hwf].
  rewrite (Unmarshal_prefix seg b a Hwf Hp Ha). destruct Hadv as (x & j & -> & Hx).
  pose proof (ok_sync _ _ _ Hg). exists x, j. split; [done|].
  destruct Hx as [[[Hx|Hx]%elem_of_app Hj]|(-> & Hj & Hr & Hab)]; [by right|left..]; (split; [done||lia|]); [by left|by right].
Qed.

Lemma durable_present g s x j : served g s -> durable_seg g x j -> gs_seq x ∈ (gs_seq <$> present c g s).
Proof.
  intros Hs Hx. apply list_elem_of_fmap_2. unfold present. rewrite elem_of_app.
  pose proof (durable_content g s x j Hs Hx) as (b & Hb & _). destruct Hx as [_ [Hx|(-> & _)]]; [by left|right].
  rewrite Hb. by left.
Qed.

(** A deleted segment has no file. *)
Lemma gone_absent g s x :
  ghost_ok snap link g -> x ∈ g_gone g -> gs_seq x ∉ (gs_seq <$> present c g s).
Proof.
  intros Hg Hx (y & Hy & Hin%present_in)%list_elem_of_fmap.
  pose proof (ok_gone_segs _ _ _ Hg x y Hx Hin). lia.
Qed.

Lemma view_shown g s : served g s -> Forall (shown g) (fresh_view g s).
Proof.
  intros Hs. pose proof Hs as [[Hg _] _]. apply Forall_forall. intros seg (q & Hq)%elem_of_view.
  assert (forall seg, by_seq_map (filter (fun s0 => seg_Seq s0 ∈ (gs_seq <$> present c g s))
    (segments_by_seq (sealed_map c g))) ∅ !! q = Some seg -> shown g seg) as Hsealed.
  { intros y Hy. apply by_seq_map_value in Hy as [Hy|Hy]; [|by rewrite lookup_empty in Hy].
    apply list_elem_of_filter in Hy as [Hpres Hy]. unfold segments_by_seq in Hy.
    rewrite merge_sort_Permutation in Hy. apply list_elem_of_fmap in Hy as ([q' z] & -> & Hz%elem_of_map_to_list).
    cbn in Hpres |- *. unfold sealed_map in Hz. apply by_seq_map_value in Hz as [Hz|Hz]; [|by rewrite lookup_empty in Hz].
    unfold man_lines in Hz. apply list_elem_of_fmap in Hz as (x & -> & [Hz|Hx]%elem_of_app).
    - by apply (gone_absent g s x) in Hpres.
    - exists x, (length (gs_recs x)), true.
      split; [done|]. split; [done|by left]. }
  unfold view_map in Hq. destruct (head_pointer s) as [a|] eqn:Ea; [|by apply Hsealed].
  destruct (head_shown g s a Hs Ea) as (x & j & -> & Hx).
  case_decide as Hp; [|by apply Hsealed]. rewrite lookup_insert in Hq. case_decide; [|by apply Hsealed].
  simplify_eq. destruct Hx as [Hx|[Hx _]]; [by exists x, j, false|]. by apply (gone_absent g s x) in Hp.
Qed.

Lemma view_head g s a :
  head_pointer s = Some a -> seg_Seq a ∈ (gs_seq <$> present c g s) -> a ∈ fresh_view g s.
Proof.
  intros Ha Hp. apply elem_of_view. exists (seg_Seq a). unfold view_map. rewrite Ha.
  rewrite decide_True by done. by rewrite lookup_insert_eq.
Qed.

(** A sealed segment is in the view, unless the head pointer speaks about it. *)
Lemma view_closed g s x :
  served g s -> x ∈ g_closed g ->
  exists seg, seg ∈ fresh_view g s /\ seg_Seq seg = gs_seq x /\
    (seg = gs_line src x \/ head_pointer s = Some seg).
Proof.
  intros Hs Hx. pose proof Hs as [[Hg _] _].
  assert (durable_seg g x (length (gs_recs x))) as Hdx by (split; [done|by left]).
  assert (by_seq_map (filter (fun s0 => seg_Seq s0 ∈ (gs_seq <$> present c g s))
    (segments_by_seq (sealed_map c g))) ∅ !! gs_seq x = Some (gs_line src x)) as Hm.
  { apply (by_seq_map_in _ _ (gs_line src x)).
    - assert (map_Forall (fun q s => seg_Seq s = q) (sealed_map c g)) as Hkeys by (by apply by_seq_map_keys).
      eapply sublist_NoDup; [|apply fmap_sublist, sublist_filter]. unfold segments_by_seq.
      rewrite (merge_sort_Permutation by_seq). 
      assert (seg_Seq <$> (map_to_list (sealed_map c g)).*2 = (map_to_list (sealed_map c g)).*1) as ->.
      { rewrite <-list_fmap_compose. apply list_fmap_ext. intros i [q z] Hi. cbn.
        apply (Hkeys q z). apply elem_of_map_to_list. by eapply list_elem_of_lookup_2. }
      apply NoDup_fst_map_to_list.
    - apply list_elem_of_filter. split; [by eapply durable_present|]. unfold segments_by_seq.
      rewrite merge_sort_Permutation. apply list_elem_of_fmap. exists (gs_seq x, gs_line src x).
      split; [done|]. apply elem_of_map_to_list. by apply sealed_map_closed. }
  destruct (head_pointer s) as [a|] eqn:Ea.
  - destruct (decide (seg_Seq a = gs_seq x)) as [He|He].
    + exists a. split; [|split; [done|by right]].
      apply view_head; [done|]. rewrite He. by eapply durable_present.
    + exists (gs_line src x). split; [|split; [done|by left]]. apply elem_of_view. exists (gs_seq x).
      unfold view_map. rewrite Ea. case_decide; [by rewrite lookup_insert_ne|done].
  - exists (gs_line src x). split; [|split; [done|by left]]. apply elem_of_view. exists (gs_seq x).
    unfold view_map. by rewrite Ea.
Qed.

(** ** The chain *)

Lemma chain_order start l x y :
  contiguous start l -> x ∈ l -> y ∈ l -> x = y \/ gs_end x <= gs_start y \/ gs_end y <= gs_start x.
Proof.
  intros Hc Hx Hy. apply list_elem_of_split in Hx as (l1 & l2 & ->).
  apply elem_of_app in Hy as [Hy|[->|Hy]%elem_of_cons]; [|by left|].
  - right; right. by eapply contiguous_end.
  - right; left. apply list_elem_of_split in Hy as (l3 & l4 & ->).
    replace (l1 ++ x :: l3 ++ y :: l4) with ((l1 ++ x :: l3) ++ y :: l4) in Hc by (by rewrite <-app_assoc).
    eapply contiguous_end; [exact Hc|]. rewrite elem_of_app. right. by left.
Qed.

Lemma segs_order g x y :
  ghost_ok snap link g -> x ∈ g_segs g -> y ∈ g_segs g -> x = y \/ gs_end x <= gs_start y \/ gs_end y <= gs_start x.
Proof. intros Hg. destruct (ok_chain _ _ _ Hg) as [st Hc]. by apply (chain_order st). Qed.

Lemma segs_seq_inj g x y :
  ghost_ok snap link g -> x ∈ g_segs g -> y ∈ g_segs g -> gs_seq x = gs_seq y -> x = y.
Proof.
  intros Hg Hx Hy Heq. pose proof (sorted_NoDup _ (ok_seqs _ _ _ Hg)) as Hnd.
  apply list_elem_of_lookup_1 in Hx as [i1 H1]. apply list_elem_of_lookup_1 in Hy as [i2 H2].
  assert (i1 = i2) as ->; [|congruence].
  eapply (NoDup_lookup _ _ _ (gs_seq x)); [exact Hnd|by rewrite list_lookup_fmap, H1|by rewrite list_lookup_fmap, H2, Heq].
Qed.

Lemma act_last g x : ghost_ok snap link g -> x ∈ g_closed g -> gs_end x <= gs_start (g_act g).
Proof.
  intros Hg Hx. destruct (ok_chain _ _ _ Hg) as [st Hc]. unfold g_segs in Hc. by eapply contiguous_end.
Qed.

Lemma closed_pos g x : ghost_ok snap link g -> x ∈ g_closed g -> gs_start x < gs_end x.
Proof.
  intros Hg Hx. pose proof (proj1 (Forall_forall _ _) (ok_full _ _ _ Hg) x Hx) as Hne. cbn beta in Hne. unfold gs_end.
  destruct (gs_recs x) as [|r l]; [done|]. rewrite len_cons. pose proof (len_nonneg l). lia.
Qed.

Lemma base_le g x : ghost_ok snap link g -> x ∈ g_segs g -> base g <= gs_start x.
Proof.
  intros Hg. destruct (ok_chain _ _ _ Hg) as [st Hc]. unfold base. destruct (g_segs g) as [|y l] eqn:E; [by intros ?%not_elem_of_nil|].
  intros [->|Hx]%elem_of_cons; [lia|]. apply list_elem_of_split in Hx as (l3 & l4 & ->).
  pose proof (contiguous_end st (y :: l3) y x l4 Hc ltac:(left)) as He. unfold gs_end in He.
  pose proof (len_nonneg (gs_recs y)). lia.
Qed.

Lemma base_range g : ghost_ok snap link g -> 0 <= base g <= durable_end g.
Proof.
  intros Hg. pose proof (base_le g (g_act g) Hg (act_in_segs g)) as Hle. unfold durable_end. split; [|lia].
  unfold base. destruct (g_segs g) as [|y l] eqn:E; [done|].
  apply (seg_ok snap link g y Hg). rewrite E. left.
Qed.

(** A gpidx of the chain is in a segment. *)
Lemma chain_covers start l gp :
  contiguous start l -> start <= gp < foldl (fun _ => gs_end) start l ->
  exists x, x ∈ l /\ gs_start x <= gp < gs_end x.
Proof.
  revert start; induction l as [|x l IH]; intros start Hc Hgp; cbn in *; [lia|].
  destruct Hc as [Hx Hc]. destruct (Z.lt_ge_cases gp (gs_end x)) as [Hl|Hl].
  - exists x. split; [left|lia].
  - destruct (IH _ Hc ltac:(lia)) as (y & Hy & ?). exists y. split; [by right|done].
Qed.

(** ** Lookups in the view *)

Lemma shown_range g x j : durable_seg g x j -> 0 <= Z.of_nat j <= len (gs_recs x).
Proof. intros [Hj _]. unfold len. lia. Qed.

(** What the reader computes from the sorted view. *)
Lemma view_bounds g s r seg :
  served g s -> seg ∈ fresh_view g s -> covers (gpidx r) seg ->
  let r' := set_view (fresh_view g s) r in oldest r' <= gpidx r < rd_head r'.
Proof.
  intros Hs Hin Hcov. pose proof Hs as [[Hg _] _]. pose proof (view_shown g s Hs) as Hall.
  assert (StronglySorted by_StartGpidx (fresh_view g s)) as Hsort.
  { apply StronglySorted_merge_sort; apply _. }
  rewrite Forall_forall in Hall. cbn zeta. unfold set_view. cbn [oldest rd_head]. split.
  - destruct (fresh_view g s) as [|y l]; [by apply not_elem_of_nil in Hin|].
    inversion Hsort as [|? ? _ Hle]; subst. apply elem_of_cons in Hin as [->|Hin]; [apply Hcov|].
    pose proof (proj1 (Forall_forall _ _) Hle _ Hin) as H. unfold by_StartGpidx in H. destruct Hcov. lia.
  - destruct (last (fresh_view g s)) as [y|] eqn:El.
    2: { apply last_None in El. rewrite El in Hin. by apply not_elem_of_nil in Hin. }
    apply last_Some in El as [l El].
    assert (y = seg \/ seg_StartGpidx seg <= seg_StartGpidx y) as Hle.
    { rewrite El in Hin, Hsort. apply elem_of_app in Hin as [Hin| ->%list_elem_of_singleton]; [right|by left].
      apply StronglySorted_app in Hsort as (H & _ & _). apply (H seg y Hin). by left. }
    destruct Hle as [->|Hle]; [apply Hcov|].
    assert (y ∈ fresh_view g s) as Hy by (rewrite El, elem_of_app; right; by left).
    destruct (Hall seg Hin) as (x1 & j1 & b1 & -> & Hx1). destruct (Hall y Hy) as (x2 & j2 & b2 & -> & Hx2).
    pose proof (shown_range _ _ _ Hx1). pose proof (shown_range _ _ _ Hx2).
    unfold covers, gs_entry in *. cbn in *.
    destruct (segs_order g x1 x2 Hg (durable_in _ _ _ Hx1) (durable_in _ _ _ Hx2)) as [->|[He|He]].
    + apply elem_of_view in Hin as (q1 & Hq1). apply elem_of_view in Hy as (q2 & Hq2).
      pose proof (view_map_key _ _ _ _ Hq1) as Hk1. pose proof (view_map_key _ _ _ _ Hq2) as Hk2. cbn in Hk1, Hk2.
      rewrite <-Hk1 in Hq1. rewrite <-Hk2 in Hq2. rewrite Hq1 in Hq2. injection Hq2 as Hj. lia.
    + unfold gs_end in He. lia.
    + unfold gs_end in He. destruct Hx2 as [_ [Hx2|(-> & _)]].
      * pose proof (closed_pos g x2 Hg Hx2) as Hpos. unfold gs_end in Hpos. lia.
      * destruct Hx1 as [? [Hx1|(-> & _)]]; [|lia].
        pose proof (act_last g x1 Hg Hx1) as Hl. unfold gs_end in Hl. lia.
Qed.

Lemma owning_Some r gp seg : owning r gp = Some seg -> seg ∈ view r /\ covers gp seg.
Proof.
  unfold owning. intros [Hin Hc]%find_some. apply list_elem_of_In in Hin. unfold covers.
  apply andb_true_iff in Hc as [?%Z.leb_le ?%Z.ltb_lt]. done.
Qed.

Lemma owning_None r gp : owning r gp = None -> Forall (fun seg => ~ covers gp seg) (view r).
Proof.
  unfold owning. intros Hn. apply Forall_forall. intros seg Hin [H1 H2]. apply list_elem_of_In in Hin.
  apply (find_none _ _ Hn seg) in Hin. by rewrite (proj2 (Z.leb_le _ _) H1), (proj2 (Z.ltb_lt _ _) H2) in Hin.
Qed.

(** ** The reader's state *)

(** [seg] describes packets that are durable, or were when their segment was deleted:
    a view may be older than the directory. *)
Definition seen (g : ghost) (seg : Segment) : Prop :=
  exists x j b, seg = gs_entry src b j x /\
    (durable_seg g x j \/ (x ∈ g_gone g /\ (j <= length (gs_recs x))%nat)).

Lemma shown_seen g seg : shown g seg -> seen g seg.
Proof. intros (x & j & b & Hseg & Hx). exists x, j, b. auto. Qed.

(** A deleted segment is below the chain, and has no file. *)
Lemma gone_below g x : ghost_ok snap link g -> x ∈ g_gone g -> gs_end x <= base g.
Proof.
  intros Hg Hx. pose proof (ok_gone_segs _ _ _ Hg x) as He. unfold base.
  destruct (g_segs g) as [|y l] eqn:E; [by apply app_nil in E as [_ ?]|]. by apply He; [|left].
Qed.

Lemma gone_no_file g s x : served g s -> x ∈ g_gone g -> fs_dir s !! gname x = None.
Proof.
  intros Hs Hx. pose proof Hs as [[Hg _] _].
  destruct (proj1 (Forall_forall _ _) (ok_gone _ _ _ Hg) x Hx) as [Hok _]. cbn in Hok.
  pose proof (gs_name_segment src snap link x Hok) as Hn.
  pose proof (sp_other _ _ _ _ _ _ (served_content g s _ Hs (segment_not_touched _ _ Hn)) Hn) as Hc.
  assert (content s (gname x) = None) as Hnone.
  { apply Hc. intros y Hy Heq. apply (gs_name_inj src snap link) in Heq; [|done|by apply (seg_ok snap link g)].
    destruct (ok_gone_segs _ _ _ Hg x y Hx Hy) as [? _]. lia. }
  unfold content in Hnone. destruct (fs_dir s !! gname x) as [ino|] eqn:E; [|done].
  destruct (wf_dirs s (served_wf g s Hs) (fs_dir s) (gname x) ino) as [_ [i Hi]]; [left|done|].
  cbn in Hnone. by rewrite Hi in Hnone.
Qed.

(** The open file, which is locked, and the offset belong to the position. *)
Definition rfile (g : ghost) (r : Reader) (s : fs) : Prop :=
  match rd_file r with
  | None => True
  | Some fd => exists x k d i, durable_seg g x k /\ open_file s (gname x) fd d i /\ fd_shared d = true /\
      fileSeq r = gs_seq x /\ gpidx r = gs_start x + Z.of_nat k /\ offset r = gs_len x k
  end.

Record rinv (g : ghost) (r : Reader) (s : fs) : Prop := {
  ri_src : srcID r = src;
  ri_snap : snaplen r = snap;
  ri_view : Forall (seen g) (view r);
  ri_oldest : oldest r <= base g;
  ri_pos : 0 <= gpidx r <= durable_end g;
  ri_file : rfile g r s
}.

(** Descriptors that are not the reader's. *)
Definition foreign (r : Reader) (fd : nat) : Prop := rd_file r <> Some fd.

Lemma rfile_kept g r s s' :
  fs_dir s' = fs_dir s -> fs_inodes s' = fs_inodes s -> kept_fds (fun _ => True) s s' -> rfile g r s -> rfile g r s'.
Proof.
  intros Hd Hi Hk Hf. unfold rfile in *. destruct (rd_file r) as [fd|]; [|done].
  destruct Hf as (x & k & d & i & Hx & [Hl Hfd Hino] & Hrest). exists x, k, d, i. split; [done|]. split; [|done].
  split; [by rewrite Hd|by apply Hk|by rewrite Hi].
Qed.

Lemma wp_loadManifest_fds {X} (x : X) s :
  fs_wf s -> wp F loadManifest (fun _ _ s' => kept_fds (fun _ => True) s s') x s.
Proof.
  intros Hwf. assert (forall P : Prop, can_fail F -> P) as Hno by (intros P Hf; by apply HF in Hf).
  unfold loadManifest. apply wp_bind, wp_try, wp_sys; [intros _; apply kept_fds_refl|intros Hf; by apply Hno|].
  destruct (fs_dir s !! manifestName) as [ino|] eqn:En.
  - destruct (open_plain manifestName ino s false Hwf En) as (i & s1 & Hop & Hid1 & Hof & Hi & _).
    change (OFlags false false false false) with O_plain in Hop.
    pose proof Hop as Hop'. unfold open_call in Hop'. rewrite En in Hop'. injection Hop' as Hs1.
    rewrite Hop. cbn [bind_post].
    assert (kept_fds (fun _ => True) s s1) as Hk1 by (rewrite <-Hs1; by apply kept_fds_open).
    apply wp_bind, (wp_FileStream _ _ _ _ (Fdesc ino 0 false false) i); [apply Hof|apply Hof|by intros _|intros n Hf; by apply Hno|].
    cbn [bind_post]. apply wp_bind, wp_Close. cbn [bind_post]. apply wp_ret.
    intros fd d _ Hd. cbn. rewrite lookup_delete_ne; [by apply Hk1|]. intros <-. apply (wf_fds s Hwf) in Hd. lia.
  - unfold open_call. rewrite En. cbn [O_CREATE O_plain bind_post]. rewrite decide_True by done. apply wp_ret, kept_fds_refl.
Qed.

Context (Hcfg : config_ok c) (g : ghost).

(** The oldest packet of the view is the first of the chain: recovery and retention
    leave a sealed segment in front of an active one that does not begin at 0. *)
Lemma view_oldest s r : served g s -> oldest (set_view (fresh_view g s) r) = base g.
Proof.
  intros Hs. pose proof Hs as [[Hg _] _]. pose proof (view_shown g s Hs) as Hall. rewrite Forall_forall in Hall.
  assert (forall seg, seg ∈ fresh_view g s -> base g <= seg_StartGpidx seg) as Hpos.
  { intros seg Hin. destruct (Hall seg Hin) as (x & j & b & -> & Hx). cbn.
    apply base_le; [done|by eapply durable_in]. }
  assert (StronglySorted by_StartGpidx (fresh_view g s)) as Hsort by (apply StronglySorted_merge_sort; apply _).
  assert (fresh_view g s = [] -> base g = 0) as Hnil.
  { intros Hv. destruct (ok_base _ _ _ Hg) as [Hne|[H0 _]].
    - destruct (g_closed g) as [|x0 cl] eqn:Ec; [done|].
      destruct (view_closed g s x0 Hs) as (seg & Hin & _); [rewrite Ec; left|]. rewrite Hv in Hin. by apply not_elem_of_nil in Hin.
    - unfold base, g_segs. destruct (g_closed g) as [|x0 cl] eqn:Ec; [done|].
      destruct (view_closed g s x0 Hs) as (seg & Hin & _); [rewrite Ec; left|]. rewrite Hv in Hin. by apply not_elem_of_nil in Hin. }
  unfold set_view. cbn [oldest]. destruct (fresh_view g s) as [|y l] eqn:E; [by rewrite Hnil|].
  inversion Hsort as [|? ? _ Hle]; subst. specialize (Hpos y ltac:(left)) as Hy0.
  assert (exists z, z ∈ y :: l /\ seg_StartGpidx z = base g) as (z & Hz & Hz0).
  { unfold base, g_segs. destruct (g_closed g) as [|x0 cl] eqn:Ec; cbn.
    - exists y. split; [left|]. rewrite <-E in Hall. destruct (Hall y) as (x & j & b & -> & Hx); [rewrite E; left|].
      destruct Hx as [_ [Hx|(-> & _)]]; [rewrite Ec in Hx; by apply not_elem_of_nil in Hx|done].
    - destruct (view_closed g s x0 Hs) as (seg & Hin & Hseq & _); [rewrite Ec; left|].
      rewrite E in Hin. exists seg. split; [done|]. rewrite <-E in Hall. destruct (Hall seg) as (x & j & b & -> & Hx); [by rewrite E|].
      change (gs_seq x = gs_seq x0) in Hseq. change (gs_start x = gs_start x0).
      rewrite (segs_seq_inj g x x0); [done|done|by eapply durable_in|apply closed_in_segs; rewrite Ec; left|done]. }
  apply elem_of_cons in Hz as [->|Hz]; [lia|].
  pose proof (proj1 (Forall_forall _ _) Hle _ Hz) as H. unfold by_StartGpidx in H. lia.
Qed.

(** A refresh shows what the directory says. *)
Lemma wp_refresh_view r s :
  served g s -> srcID r = src ->
  wp F refresh (fun o r' s' =>
    idle s s' /\ kept_fds (fun _ => True) s s' /\
    match o with
    | Ret _ => r' = set_view (fresh_view g s) r
    | Fail _ => False
    | Crashed => F FCrash
    end) r s.
Proof.
  intros Hs Hr. pose proof (served_wf _ _ Hs) as Hwf. pose proof (idle_refl s Hwf) as Hid.
  assert (forall P : Prop, can_fail F -> P) as Hno by (intros P Hf; by apply HF in Hf).
  unfold refresh. apply wp_bind, wp_get. cbn [bind_post]. rewrite Hr.
  unfold listSegmentFiles. apply wp_bind, wp_bind, wp_sys; [done|intros Hf; by apply Hno|]. cbn [bind_post].
  apply wp_ret. cbn [bind_post]. rewrite (served_seqs g s Hs).
  apply wp_bind. eapply wp_mono; [apply wp_conj; [by apply (wp_loadManifest c F HF g r s); apply Hs|by apply wp_loadManifest_fds]|].
  cbn. intros [l|e|] r' s1 [(-> & Hid1 & Hl) Hk1]; cbn [bind_post]; [|done|done]. subst l.
  apply wp_bind. unfold readHead. apply wp_bind, wp_try.
  assert (fs_wf s1) as Hwf1 by (by eapply idle_wf).
  assert (content s1 headName = content s headName) as Hch by (by apply idle_content).
  assert (wp F (ReadFile headName) (fun o r' s' => r' = r /\ s' = s1 /\
    match o with
    | Ret b => content s headName = Some b
    | Fail e => e = os_ErrNotExist /\ content s headName = None
    | Crashed => F FCrash
    end) r s1) as Hread.
  { apply wp_sys; [done|intros Hf; by apply Hno|]. unfold content in Hch at 1.
    destruct (fs_dir s1 !! headName) as [ino|] eqn:E; cbn in Hch; [|done].
    destruct (wf_dirs s1 Hwf1 (fs_dir s1) headName ino) as [_ [i Hi]]; [left|done|]. rewrite Hi in *. done. }
  eapply wp_mono; [exact Hread|]. intros o r' s2 (-> & -> & Ho).
  assert (forall (hp : option Segment), hp = head_pointer s ->
    wp F (modify (set_view (build_view (gs_seq <$> present c g s) (segments_by_seq (sealed_map c g)) hp)))
     (fun o r' s' => idle s s' /\ kept_fds (fun _ => True) s s' /\
        match o with
        | Ret _ => r' = set_view (fresh_view g s) r
        | Fail _ => False
        | Crashed => F FCrash
        end) r s1) as Hend.
  { intros hp ->. fold (fresh_view g s). by apply wp_modify. }
  destruct o as [b|e|]; cbn [bind_post].
  - apply wp_ret. cbn [bind_post]. apply Hend. unfold head_pointer. by rewrite Ho.
  - destruct Ho as [-> Ho]. rewrite decide_True by done. apply wp_ret. cbn [bind_post]. apply Hend.
    unfold head_pointer. by rewrite Ho.
  - done.
Qed.

Lemma rinv_refresh r s s' :
  served g s -> idle s s' -> kept_fds (fun _ => True) s s' -> rinv g r s -> rinv g (set_view (fresh_view g s) r) s'.
Proof.
  intros Hs Hid Hk [H1 H2 H3 H4 H5 H6]. split; try done.
  - eapply Forall_impl; [by apply view_shown|apply shown_seen].
  - by rewrite view_oldest.
  - apply (rfile_kept g _ s); [by apply Hid|by apply Hid|done|done].
Qed.

Lemma wp_refresh r s :
  served g s -> rinv g r s ->
  wp F refresh (fun o r' s' =>
    idle s s' /\ kept_fds (fun _ => True) s s' /\
    match o with
    | Ret _ => r' = set_view (fresh_view g s) r /\ rinv g r' s'
    | Fail _ => False
    | Crashed => F FCrash
    end) r s.
Proof.
  intros Hs Hr. eapply wp_mono; [apply wp_refresh_view; [done|apply Hr]|].
  intros [[]|e|] r' s' (Hid & Hk & Ho); (split; [done|split; [done|]]); try done.
  subst r'. split; [done|by apply rinv_refresh].
Qed.

(** What an operation leaves of the file system. *)
Definition outside (r : Reader) (s s' : fs) : Prop := idle s s' /\ kept_fds (foreign r) s s'.

Lemma durable_mono x j k : (k <= j)%nat -> durable_seg g x j -> durable_seg g x k.
Proof. intros Hk [Hj Hx]. split; [lia|]. destruct Hx as [?|(? & ? & ? & ?)]; [by left|right]. split_and!; try done. lia. Qed.

Lemma durable_below x j : ghost_ok snap link g -> durable_seg g x j -> gs_start x + Z.of_nat j <= durable_end g.
Proof.
  intros Hg [Hj [Hx|(-> & Hk & _)]]; unfold durable_end; [|lia].
  pose proof (act_last g x Hg Hx) as Hl. unfold gs_end, len in Hl. lia.
Qed.

Lemma wp_position r s x j b :
  served g s -> rinv g r s -> durable_seg g x j -> gs_start x <= gpidx r < gs_start x + Z.of_nat j ->
  wp F (position (gs_entry src b j x) (gpidx r)) (fun o r' s' =>
    outside r s s' /\
    match o with
    | Ret _ => exists fd, rd_file r' = Some fd /\ fileSeq r' = gs_seq x /\ gpidx r' = gpidx r /\ rinv g r' s'
    | Fail _ => False
    | Crashed => F FCrash
    end) r s.
Proof.
  intros Hs Hr Hx Hgp. pose proof (served_wf _ _ Hs) as Hwf. pose proof (idle_refl s Hwf) as Hid.
  assert (forall P : Prop, can_fail F -> P) as Hno by (intros P Hf; by apply HF in Hf).
  assert (outside r s s) as Hout by (by split).
  pose proof Hs as [[Hg _] _]. destruct (durable_content g s x j Hs Hx) as (dat & Hdat & Hpre).
  set (k := Z.to_nat (gpidx r - gs_start x)). assert (k < j)%nat as Hkj by lia.
  unfold position. change (seg_File (gs_entry src b j x)) with (gname x).
  change (seg_StartGpidx (gs_entry src b j x)) with (gs_start x). change (seg_Seq (gs_entry src b j x)) with (gs_seq x).
  fold k.
  apply wp_bind, wp_sys; [done|intros Hf; by apply Hno|].
  destruct (fs_dir s !! gname x) as [ino|] eqn:En; [|by unfold content in Hdat; rewrite En in Hdat].
  destruct (open_plain (gname x) ino s false Hwf En) as (i & s1 & Hop & Hid1 & Hof & Hi & Hc).
  change (OFlags false false false false) with O_plain in Hop.
  pose proof Hop as Hop'. unfold open_call in Hop'. rewrite En in Hop'. injection Hop' as Hs1.
  rewrite Hop. cbn [bind_post]. rewrite Hc in Hdat. injection Hdat as <-.
  assert (kept_fds (fun _ => True) s s1) as Hk1 by (rewrite <-Hs1; by apply kept_fds_open).
  assert (outside r s s1) as Hout1 by (split; [done|by apply kept_fds_all]).
  set (f := fs_next s) in *. assert (fs_wf s1) as Hwf1 by (by eapply idle_wf).
  assert (forall fd d, fs_fds s !! fd = Some d -> fd <> f) as Hfresh by (intros fd d Hd ->; apply (wf_fds s Hwf) in Hd; lia).
  unfold FlockShared. apply wp_bind, wp_bind, wp_try, wp_sys; [done|intros Hf; by apply Hno|].
  rewrite (open_file_with_fd _ _ _ _ _ _ Hof). cbn [bind_post fd_ino fd_pos fd_append]. apply wp_ret. cbn [bind_post].
  set (d2 := Fdesc ino 0 false true). set (s2 := set_fds <[f := d2]> s1).
  assert (f < fs_next s1)%nat as Hfl by (apply (wf_fds s1 Hwf1 f (Fdesc ino 0 false false)), Hof).
  assert (idle s s2) as Hid2 by (eapply idle_trans; [exact Hid1|by apply idle_fd]).
  assert (open_file s2 (gname x) f d2 i) as Hof2 by (destruct Hof; split; cbn; [done|apply lookup_insert_eq|done]).
  assert (kept_fds (fun _ => True) s s2) as Hk2.
  { intros fd d _ Hd. cbn. rewrite lookup_insert_ne; [by apply Hk1|]. intros <-. by apply (Hfresh f d Hd). }
  apply wp_bind, wp_get. cbn [bind_post]. apply wp_bind.
  assert (exists s3, wp F (match rd_file r with Some old => Close old | None => mret () end)
    (fun o r' s' => o = Ret () /\ r' = r /\ s' = s3) r s2 /\ outside r s s3 /\ open_file s3 (gname x) f d2 i) as (s3 & Hw3 & Ho3 & Hof3).
  { pose proof (ri_file _ _ _ Hr) as Hrf. unfold rfile in Hrf. unfold outside, foreign. destruct (rd_file r) as [old|].
    - destruct Hrf as (y & ? & d & iy & _ & Hoy & _). exists (set_fds (delete old) s2).
      split; [by apply wp_Close|]. split; [split|].
      + eapply idle_trans; [exact Hid2|]. apply idle_close. by apply (idle_wf s).
      + apply (kept_fds_trans _ _ s2); [by apply kept_fds_all|]. apply kept_fds_close. intros Hn. by apply Hn.
      + destruct Hof2. split; cbn; [done| |done]. rewrite lookup_delete_ne; [done|].
        apply (Hfresh _ d), Hoy.
    - exists s2. split; [by apply wp_ret|]. split; [|done]. split; [done|]. by apply kept_fds_all. }
  eapply wp_mono; [exact Hw3|]. intros o r' s' (-> & -> & ->). cbn [bind_post].
  apply wp_bind, wp_modify. cbn [bind_post].
  apply wp_bind, wp_sys; [done|intros Hf; by apply Hno|].
  rewrite (open_file_with_fd _ _ _ _ _ _ Hof3). cbn [bind_post].
  destruct (seg_ok snap link g x Hg (durable_in _ _ _ Hx)) as (_ & Hrecs & H0 & Hlen & _).
  assert (skip_records (file_ReaderAt (i_data i)) k GlobalHeaderLen = (gs_len x k, None)) as ->.
  { destruct Hpre as [t ->]. rewrite <-app_assoc.
    change GlobalHeaderLen with (len (gh_bytes snap link)).
    destruct Hx as [Hj _]. unfold gs_bytes in Hlen. rewrite len_app in Hlen.
    pose proof (enc_records_prefix_mono (gs_recs x) j _ Hj) as Hpm. rewrite firstn_all in Hpm. apply prefix_length in Hpm.
    rewrite (skip_records_run snap).
    - unfold gs_len. rewrite take_take, Nat.min_l by lia. done.
    - apply Hcfg.
    - by apply Forall_take.
    - rewrite length_take. lia.
    - unfold len in *. lia. }
  apply wp_bind, wp_modify. cbn [bind_post]. apply wp_ret. split; [done|].
  exists f. cbn. split_and!; [done..|]. destruct Hr as [R1 R2 R3 R4 R5 R6]. split; cbn; try done.
  exists x, k, d2, i. split; [by eapply durable_mono; [|exact Hx]; lia|]. split; [done|]. split; [done|]. split; [done|].
  split; [lia|done].
Qed.

(** The segment was deleted since the view was built. *)
Lemma wp_position_gone r s x j b :
  served g s -> x ∈ g_gone g ->
  wp F (position (gs_entry src b j x) (gpidx r)) (fun o r' s' => r' = r /\ s' = s /\
    match o with Ret _ => False | Fail e => e = os_ErrNotExist | Crashed => F FCrash end) r s.
Proof.
  intros Hs Hx. unfold position. change (seg_File (gs_entry src b j x)) with (gname x).
  apply wp_bind, wp_sys; [done|intros Hf; by apply HF in Hf|]. unfold open_call. by rewrite (gone_no_file g s x Hs Hx).
Qed.

(** ** Next *)

Lemma hist_lookup x k rec :
  ghost_ok snap link g -> x ∈ g_segs g -> gs_recs x !! k = Some rec ->
  hist g !! Z.to_nat (gs_start x + Z.of_nat k - base g) = Some rec.
Proof.
  intros Hg Hx Hk. destruct (ok_chain _ _ _ Hg) as [st Hc].
  assert (base g = st) as ->.
  { revert Hc Hx. unfold base. destruct (g_segs g); [by intros _ ?%not_elem_of_nil|]. by intros [-> _] _. }
  unfold hist. revert Hc Hx.
  assert (forall l start, contiguous start l -> x ∈ l ->
    concat (gs_recs <$> l) !! Z.to_nat (gs_start x + Z.of_nat k - start) = Some rec) as H.
  { induction l as [|y l IH]; intros start Hc Hx; [by apply not_elem_of_nil in Hx|]. destruct Hc as [Hy Hc]. cbn.
    apply elem_of_cons in Hx as [->|Hx].
    - replace (Z.to_nat (gs_start y + Z.of_nat k - start)) with k by lia. by apply lookup_app_l_Some.
    - specialize (IH _ Hc Hx). assert (gs_end y <= gs_start x) as Hle.
      { apply list_elem_of_split in Hx as (l1 & l2 & ->). eapply (contiguous_end (gs_start y) (y :: l1)); [by split|left]. }
      unfold gs_end, len in *. rewrite lookup_app_r by lia.
      rewrite <-IH. f_equal. lia. }
  intros Hc Hx. exact (H _ _ Hc Hx).
Qed.

Lemma outside_refl r s : fs_wf s -> outside r s s.
Proof. intros Hwf. split; [by apply idle_refl|done]. Qed.

Lemma fresh_idle s s' : served g s -> idle s s' -> fresh_view g s' = fresh_view g s.
Proof.
  intros Hs Hid. unfold fresh_view, head_pointer, present. by rewrite !(idle_content _ _ _ Hid).
Qed.

(** The record at the position is read and the reader moves on. *)
Lemma wp_hit {A} seg (K : option PcapRecord -> M Reader A) Φ r s :
  served g s -> rinv g r s -> owning r (gpidx r) = Some seg ->
  (forall s', outside r s s' -> F FCrash -> forall r', Φ Crashed r' s') ->
  (gpidx r < base g -> Φ (Fail os_ErrNotExist) r s) ->
  (forall r' s' rec, outside r s s' -> gpidx r' = gpidx r -> rinv g (set_gpidx (gpidx r + 1) r') s' ->
     base g <= gpidx r < durable_end g -> hist g !! Z.to_nat (gpidx r - base g) = Some rec -> wp F (K (Some rec)) Φ r' s') ->
  wp F ((if decide (rd_file r = None \/ fileSeq r <> seg_Seq seg) then position seg (gpidx r) else mret ()) ;;
        o ← readAt seg; K o) Φ r s.
Proof.
  intros Hs Hr Hown Hcr Hgone HK. pose proof Hs as [[Hg _] _]. pose proof (served_wf _ _ Hs) as Hwf.
  apply owning_Some in Hown as [Hin Hcov].
  destruct (proj1 (Forall_forall _ _) (ri_view _ _ _ Hr) seg Hin) as (x & j & b & -> & Hx).
  unfold covers in Hcov. change (gs_start x <= gpidx r < gs_start x + Z.of_nat j) in Hcov.
  change (seg_Seq (gs_entry src b j x)) with (gs_seq x).
  destruct Hx as [Hx|[Hx Hj]].
  2: { pose proof (gone_below g x Hg Hx) as Hbelow. rewrite decide_True.
    - apply wp_bind. eapply wp_mono; [by apply wp_position_gone|].
      intros [[]|e|] r1 s1 (-> & -> & He); cbn [bind_post]; [done|subst e; apply Hgone|by apply Hcr; [apply outside_refl|]].
      unfold gs_end, len in Hbelow. lia.
    - pose proof (ri_file _ _ _ Hr) as Hf. unfold rfile in Hf. destruct (rd_file r) as [fd|]; [right|by left].
      destruct Hf as (y & k & d & i & Hy & _ & _ & -> & _).
      destruct (ok_gone_segs _ _ _ Hg x y Hx (durable_in _ _ _ Hy)). lia. }
  apply wp_bind.
  assert (wp F (if decide (rd_file r = None \/ fileSeq r <> gs_seq x) then position (gs_entry src b j x) (gpidx r)
    else mret ()) (fun o r' s' => outside r s s' /\
      match o with
      | Ret _ => exists fd, rd_file r' = Some fd /\ fileSeq r' = gs_seq x /\ gpidx r' = gpidx r /\ rinv g r' s'
      | Fail _ => False
      | Crashed => F FCrash
      end) r s) as Hpos.
  { case_decide as Hd; [by apply wp_position|]. apply wp_ret. split; [by apply outside_refl|].
    destruct (rd_file r) as [fd|] eqn:Efd; [|by destruct Hd; left]. exists fd.
    split_and!; try done. destruct (decide (fileSeq r = gs_seq x)); [done|]. destruct Hd. by right. }
  eapply wp_mono; [exact Hpos|]. intros [[]|e|] r1 s1 [Hout Hp]; cbn [bind_post]; [|done|by apply (Hcr s1)].
  destruct Hp as (fd & Hfd & Hseq & Hgp & Hr1). pose proof (ri_file _ _ _ Hr1) as Hf. unfold rfile in Hf.
  rewrite Hfd in Hf. destruct Hf as (y & k & d & i & Hy & Hof & Hlk & Hsy & Hgy & Hoff).
  assert (y = x) as -> by (apply (segs_seq_inj g); [done|by eapply durable_in|by eapply durable_in|congruence]).
  rewrite Hgp in Hgy. assert (k < j)%nat as Hkj by lia.
  assert (served g s1) as Hs1 by (eapply served_idle; [done|apply Hout]).
  destruct (durable_content g s1 x j Hs1 Hx) as (dat & Hdat & Hpre).
  destruct Hof as [Hl Hfd1 Hi]. unfold content in Hdat. rewrite Hl in Hdat. cbn in Hdat. rewrite Hi in Hdat. injection Hdat as <-.
  destruct (seg_ok snap link g x Hg (durable_in _ _ _ Hx)) as (_ & Hrecs & H0 & Hlen & Hend).
  destruct (lookup_lt_is_Some_2 (gs_recs x) k) as [rec Hrec]; [destruct Hx as [Hj _]; lia|].
  pose proof (gs_len_le x (S k) (length (gs_recs x)) ltac:(destruct Hx as [Hj _]; lia)) as Hb1.
  pose proof (gs_len_le x (S k) j ltac:(lia)) as Hb2. rewrite (gs_len_full snap link) in Hb1.
  assert (gs_len x (S k) = gs_len x k + PcapRecord_Size rec) as Hstep.
  { unfold gs_len. rewrite (take_S_r _ _ rec) by done. by rewrite enc_records_snoc, len_app, len_PcapRecord_bytes, Z.add_assoc. }
  apply wp_bind. unfold readAt. apply wp_bind, wp_get. cbn [bind_post]. rewrite Hfd.
  apply wp_bind, wp_sys; [intros Hc; by apply (Hcr s1)|intros Hc; by apply HF in Hc|].
  unfold with_fd. rewrite Hfd1, Hi. cbn [bind_post]. rewrite Hoff, (ri_snap _ _ _ Hr1).
  change (seg_ValidLen (gs_entry src b j x)) with (gs_len x j).
  assert (ReadRecordAt (file_ReaderAt (i_data i)) (gs_len x k) (gs_len x j) snap = (rec, gs_len x (S k), true, None)) as ->.
  { destruct Hpre as [t ->]. rewrite <-(take_drop k (take j (gs_recs x))), enc_records_app, take_take, Nat.min_l by lia.
    assert (drop k (take j (gs_recs x)) = rec :: drop (S k) (take j (gs_recs x))) as ->.
    { apply drop_S. by rewrite lookup_take_lt. }
    rewrite enc_records_cons, <-!app_assoc, (app_assoc (gh_bytes snap link)).
    assert (gs_len x k = len (gh_bytes snap link ++ enc_records (take k (gs_recs x)))) as -> by (rewrite len_app; done).
    rewrite (ReadRecordAt_at _ rec _ _ snap); [|apply Hcfg|by apply (Forall_lookup_1 _ _ _ _ Hrecs Hrec)|].
    - rewrite len_app. change (len (gh_bytes snap link)) with GlobalHeaderLen. fold (gs_len x k). rewrite <-Hstep.
      by rewrite (proj2 (Z.leb_le _ _)) by lia.
    - rewrite len_app. change (len (gh_bytes snap link)) with GlobalHeaderLen. fold (gs_len x k). lia. }
  apply wp_bind, wp_modify. cbn [bind_post]. apply wp_ret. cbn [bind_post].
  pose proof (durable_below x j Hg Hx) as Hbelow.
  apply HK; try done.
  - destruct Hr1 as [R1 R2 R3 R4 R5 R6]. split; cbn; try done; [lia|].
    unfold rfile. cbn. rewrite Hfd. exists x, (S k), d, i. split; [by eapply durable_mono; [|exact Hx]; lia|].
    split; [by split|]. split; [done|]. split; [done|]. split; [lia|done].
  - pose proof (base_le g x Hg (durable_in _ _ _ Hx)). lia.
  - rewrite Hgy. apply hist_lookup; [done|by eapply durable_in|done].
Qed.

(** A packet, or nothing more is advertised, or retention went past the position. *)
Definition next_post (r : Reader) (s : fs) (o : outcome (option (PcapRecord * Z))) (r' : Reader) (s' : fs) : Prop :=
  outside r s s' /\
  match o with
  | Ret (Some (rec, gp)) => gp = gpidx r /\ gpidx r' = gp + 1 /\ rinv g r' s' /\ base g <= gp < durable_end g /\
      hist g !! Z.to_nat (gp - base g) = Some rec
  | Ret None => False
  | Fail e => rinv g r' s' /\ gpidx r' = gpidx r /\
      ((e = spool_ErrNoData /\ Forall (fun seg => ~ covers (gpidx r) seg) (fresh_view g s)) \/
       ((e = spool_ErrReaped \/ e = os_ErrNotExist) /\ gpidx r < base g))
  | Crashed => F FCrash
  end.

(** After a refresh. *)
Lemma next_post_after r s r1 s1 o r' s' :
  served g s -> idle s s1 -> kept_fds (fun _ => True) s s1 -> rd_file r1 = rd_file r -> gpidx r1 = gpidx r ->
  next_post r1 s1 o r' s' -> next_post r s o r' s'.
Proof.
  intros Hs Hid Hk Hf Hg [[Hid1 Hk1] Ho]. split.
  - split; [by eapply idle_trans|]. apply (kept_fds_trans _ _ s1); [by apply kept_fds_all|].
    eapply kept_fds_mono; [|exact Hk1]. intros fd. unfold foreign. by rewrite Hf.
  - rewrite <-(fresh_idle s s1), <-Hg by done. exact Ho.
Qed.

Lemma wp_advance r s seg :
  served g s -> rinv g r s -> owning r (gpidx r) = Some seg ->
  forall fuel, wp F ((if decide (rd_file r = None \/ fileSeq r <> seg_Seq seg) then position seg (gpidx r) else mret ()) ;;
    o ← readAt seg;
    match o with
    | None => refresh ;; r ← get; if rd_head r <=? gpidx r then fail spool_ErrNoData else Next fuel
    | Some rec => r ← get; let gp := gpidx r in modify (set_gpidx (u64 (gp + 1))) ;; mret (Some (rec, gp))
    end) (next_post r s) r s.
Proof.
  intros Hs Hr Hown fuel. pose proof Hs as [[Hg _] _]. pose proof (served_wf _ _ Hs) as Hwf. apply wp_hit; try done.
  { intros Hlt. split; [by apply outside_refl|]. split; [done|]. split; [done|]. auto. }
  intros r' s' rec Hout Hgp Hr' Hlt Hrec. apply wp_bind, wp_get. cbn [bind_post]. rewrite Hgp.
  assert (durable_end g < 2 ^ 62) as Hd.
  { destruct (act_ok snap link g Hg) as (_ & _ & _ & _ & He). pose proof (ok_sync _ _ _ Hg). unfold durable_end, gs_end, len in *. lia. }
  pose proof (ri_pos _ _ _ Hr). pose proof (base_range g Hg). rewrite u64_small by (unfold is_uint; lia).
  apply wp_bind, wp_modify. cbn [bind_post]. apply wp_ret. split; [done|]. by split_and!; try lia.
Qed.

Lemma wp_Next_fresh fuel r s seg :
  served g s -> rinv g r s -> r = set_view (fresh_view g s) r -> owning r (gpidx r) = Some seg ->
  wp F (Next (S fuel)) (next_post r s) r s.
Proof.
  intros Hs Hr Hfr Hown. pose proof (owning_Some _ _ _ Hown) as [Hin Hcov].
  assert (seg ∈ fresh_view g s) as Hin' by (by rewrite Hfr in Hin).
  pose proof (view_bounds g s r seg Hs Hin' Hcov) as Hb. cbn zeta in Hb. rewrite <-Hfr in Hb.
  cbn [Next]. apply wp_bind, wp_get. cbn [bind_post].
  rewrite (proj2 (Z.ltb_ge _ _)), (proj2 (Z.leb_gt (rd_head r) (gpidx r))) by lia.
  apply wp_bind, wp_ret. cbn [bind_post]. apply wp_bind, wp_get. cbn [bind_post]. rewrite Hown. by apply wp_advance.
Qed.

(** The second half of a round, from any view. *)
Lemma wp_round fuel r s :
  served g s -> rinv g r s ->
  wp F (r ← get;
    match owning r (gpidx r) with
    | None =>
        refresh ;;
        r ← get;
        match owning r (gpidx r) with None => fail spool_ErrNoData | Some _ => Next (S fuel) end
    | Some seg =>
        (if decide (rd_file r = None \/ fileSeq r <> seg_Seq seg) then position seg (gpidx r) else mret ()) ;;
        o ← readAt seg;
        match o with
        | None => refresh ;; r ← get; if rd_head r <=? gpidx r then fail spool_ErrNoData else Next (S fuel)
        | Some rec => r ← get; let gp := gpidx r in modify (set_gpidx (u64 (gp + 1))) ;; mret (Some (rec, gp))
        end
    end) (next_post r s) r s.
Proof.
  intros Hs Hr. apply wp_bind, wp_get. cbn [bind_post].
  destruct (owning r (gpidx r)) as [seg|] eqn:Hown; [by apply wp_advance|].
  apply wp_bind. eapply wp_mono; [by apply wp_refresh|].
  intros [[]|e|] r1 s1 (Hid & Hk & Ho); cbn [bind_post]; [|done|].
  2: { split; [split; [done|by apply kept_fds_all]|done]. }
  destruct Ho as [-> Hr1]. apply wp_bind, wp_get. cbn [bind_post].
  destruct (owning (set_view (fresh_view g s) r) _) as [seg|] eqn:Ho1.
  - eapply wp_mono; [apply (wp_Next_fresh _ _ _ seg)|]; [by eapply served_idle|done|by rewrite (fresh_idle s s1)|done|].
    intros o r2 s2. by apply next_post_after.
  - apply wp_fail. split; [split; [done|by apply kept_fds_all]|]. split_and!; try done.
    left. split; [done|]. by apply owning_None in Ho1.
Qed.

Lemma wp_Next fuel r s : served g s -> rinv g r s -> wp F (Next (S (S fuel))) (next_post r s) r s.
Proof.
  intros Hs Hr. pose proof (ri_pos _ _ _ Hr) as Hpos. pose proof (ri_oldest _ _ _ Hr) as Hold.
  cbn [Next]. apply wp_bind, wp_get. cbn [bind_post].
  destruct (Z.ltb_spec (gpidx r) (oldest r)) as [Hb|Hb].
  { apply wp_fail. split; [by apply outside_refl, (served_wf g)|]. split; [done|]. split; [done|]. right. split; [auto|lia]. }
  apply wp_bind. destruct (Z.leb_spec (rd_head r) (gpidx r)) as [Hle|Hgt]; [|apply wp_ret; cbn [bind_post]; by apply wp_round].
  apply wp_bind. eapply wp_mono; [by apply wp_refresh|].
  intros [[]|e|] r1 s1 (Hid & Hk & Ho); cbn [bind_post]; [|done|].
  2: { split; [split; [done|by apply kept_fds_all]|done]. }
  destruct Ho as [-> Hr1]. apply wp_bind, wp_get. cbn [bind_post].
  rewrite (view_oldest s r Hs). change (gpidx (set_view (fresh_view g s) r)) with (gpidx r).
  assert (outside r s s1) as Hout by (split; [done|by apply kept_fds_all]).
  destruct (Z.ltb_spec (gpidx r) (base g)) as [Hb1|Hb1].
  { apply wp_fail. cbn [bind_post]. split; [done|]. split; [done|]. split; [done|]. auto. }
  destruct (Z.leb_spec (rd_head (set_view (fresh_view g s) r)) (gpidx r)) as [Hle1|Hgt1].
  - apply wp_fail. cbn [bind_post]. split; [done|]. split_and!; try done. left. split; [done|].
    apply Forall_forall. intros seg Hin Hcov. pose proof (view_bounds g s r seg Hs Hin Hcov) as Hvb.
    cbn zeta in Hvb. cbn in Hvb, Hle1. lia.
  - apply wp_ret. cbn [bind_post].
    eapply wp_mono; [apply wp_round; [by eapply served_idle|done]|]. intros o r2 s2. by apply next_post_after.
Qed.
End Reader.
