(* ===== verification/TailProof.v ===== *)
(** * A reader beside the writer

    The serve process reads the spool directory that the capture process writes.
    Here both run on one directory, one operation at a time, with host crashes:
    the packets the reader returns are those of the log, in order, and durable. *)

From S2P Require Import Prelude Bytes GoIO Pcapio Os Keeps Durable Dir Runs Json Manifest Recover Spool SpoolSpec SpoolProof RecoverProof RestartProof SpoolProps Reader ReaderProof.

(** ** What a bystander sees of the writer's operations *)

(** [fd] is open on the file [n]. *)
Definition bystander (fd : nat) (n : list byte) (d : fdesc) (s : fs) : Prop :=
  fs_fds s !! fd = Some d /\ fs_dir s !! n = Some (fd_ino d) /\ (fd < fs_next s)%nat.

Section Calm.
Context (F : fault -> Prop) (fd : nat) (n : list byte) (d : fdesc).
Context {X : Type} (own : X -> Prop).

(** [m] leaves the bystander's file open and bound. *)
Abbreviation calm := (keeps F (fun x s => own x /\ bystander fd n d s)).

Lemma calm_get {B} (k : X -> M X B) : (forall x, own x -> calm (k x)) -> calm (get ≫= k).
Proof. intros Hk. apply keeps_get. intros x s [Hx Hb]. by apply Hk. Qed.

Lemma calm_modify (f : X -> X) : (forall x, own x -> own (f x)) -> calm (modify f).
Proof. intros Hf. apply keeps_modify. intros x s [Hx Hb]. split; [by apply Hf|done]. Qed.

Lemma calm_sys {A} (call : fs -> res (A * fs)) :
  (forall s a s', bystander fd n d s -> call s = Ok (a, s') -> bystander fd n d s') -> calm (sys call).
Proof. intros Hc. apply keeps_sys. intros x s a s' [Hx Hb] E. split; [done|by eapply Hc]. Qed.

Lemma calm_Write f buf : f <> fd -> calm (Write f buf).
Proof.
  intros Hf x s [Hx Hb] fl ck rn HFl. unfold Write. cbn [snd].
  destruct (next_fault _) as [ft w] eqn:E. destruct (next_fault_F _ _ _ _ _ _ HFl E) as (_ & Hw & HF').
  assert (forall b, match with_fd f (fun d i s0 => Ok ((), write_fs f d i b s0)) (w_fs w) with
    | Ok (_, s') => bystander fd n d s' | Err _ => True end) as Hst.
  { intros b. rewrite Hw. cbn. unfold with_fd. destruct (fs_fds s !! f) as [d0|]; [|done].
    destruct (fs_inodes s !! fd_ino d0); [|done]. destruct Hb as (Hb1 & Hb2 & Hb3). split_and!; cbn; [|done..].
    by rewrite lookup_insert_ne. }
  assert (bystander fd n d (w_fs w)) as Hb' by (by rewrite Hw).
  destruct ft as [| |k|]; cbn; try done.
  - specialize (Hst buf). by destruct (with_fd _ _ _) as [[[] s']|e].
  - specialize (Hst (take k buf)). by destruct (with_fd _ _ _) as [[[] s']|e].
Qed.

Lemma calm_Close f : f <> fd -> calm (Close f).
Proof.
  intros Hf x s [Hx (Hb1 & Hb2 & Hb3)]. apply wp_Close. split; [done|]. split_and!; cbn; [|done..].
  by rewrite lookup_delete_ne.
Qed.

Lemma calm_Fdatasync f : calm (Fdatasync f).
Proof. apply keeps_with_fd. intros x d0 i s a s' Hb [= <- <-]. exact Hb. Qed.

Lemma calm_CloseErr f : f <> fd -> calm (CloseErr f).
Proof.
  intros Hf. apply calm_sys. intros s a s' (Hb1 & Hb2 & Hb3) [= <- <-]. split_and!; cbn; [|done..]. by rewrite lookup_delete_ne.
Qed.

Lemma calm_SyncDir : calm SyncDir.
Proof. apply calm_sys. intros s a s' Hb [= <- <-]. exact Hb. Qed.

Lemma calm_Rename old new : n <> old -> n <> new -> calm (Rename old new).
Proof.
  intros Ho Hn. apply calm_sys. intros s a s' (Hb1 & Hb2 & Hb3). destruct (fs_dir s !! old); [|done].
  intros [= <- <-]. split_and!; cbn; [done| |done]. by rewrite lookup_insert_ne, lookup_delete_ne.
Qed.

(** The new descriptor is another one. *)
Lemma calm_OpenFile {B} name fl (k : nat -> M X B) :
  (forall f, f <> fd -> calm (k f)) -> calm (OpenFile name fl ≫= k).
Proof.
  intros Hk x s [Hx Hb]. apply wp_bind, wp_sys; [by intros _|by intros _|].
  destruct (open_call name fl s) as [[f s']|e] eqn:E; [|done]. cbn [bind_post].
  assert (f <> fd /\ bystander fd n d s') as [Hf Hb']; [|by apply Hk].
  destruct Hb as (Hb1 & Hb2 & Hb3). unfold open_call in E. destruct (fs_dir s !! name) as [ino|] eqn:En.
  - destruct (O_EXCL fl); [done|]. injection E as <- <-. destruct (O_TRUNC fl); cbn; (split; [lia|]);
      (split_and!; cbn; [rewrite lookup_insert_ne by lia; done|done|lia]).
  - destruct (O_CREATE fl); [|done]. injection E as <- <-. cbn. split; [lia|].
    split_and!; cbn; [rewrite lookup_insert_ne by lia; done| |lia].
    rewrite lookup_insert_ne; [done|]. intros ->. congruence.
Qed.
End Calm.

#[local] Hint Resolve calm_Fdatasync calm_SyncDir calm_Write calm_Close calm_CloseErr calm_Rename : keeps.

Section Writer.
Context (F : fault -> Prop) (fd : nat) (n : list byte) (d : fdesc) (Hn : ~ touched headName n).

Abbreviation calm own := (keeps F (fun x s => own x /\ bystander fd n d s)).

Definition not_own (w : Writer) : Prop := file w <> Some fd /\ manifest w <> Some fd.

Lemma calm_writeHead {X} (own : X -> Prop) seg : calm own (writeHead seg).
Proof.
  unfold writeHead, WriteFileAtomic. apply calm_OpenFile. intros f Hf.
  assert (n <> tmp_name headName /\ n <> headName) as [H1 H2] by (split; intros ->; apply Hn; unfold touched; auto).
  repeat (apply keeps_bind; [|intros _]); auto using keeps_on_error with keeps.
Qed.

Lemma calm_publishHead : calm not_own publishHead.
Proof. apply calm_get. intros w Hw. apply calm_writeHead. Qed.

Lemma calm_on_file {A} w (f : option nat) (k : nat -> M Writer A) :
  not_own w -> f = file w \/ f = manifest w -> (forall f, f <> fd -> calm not_own (k f)) ->
  calm not_own (on_file f k).
Proof.
  intros [H1 H2] Hf Hk. unfold on_file. destruct f as [f|]; [|apply keeps_fail]. apply Hk.
  intros ->. destruct Hf; congruence.
Qed.

Lemma calm_sync : calm not_own sync.
Proof.
  apply calm_get. intros w Hw. apply keeps_bind; [apply (calm_on_file w); auto with keeps|]. intros _.
  apply keeps_Now. intros t. apply keeps_bind; [by apply calm_modify|]. intros _. apply calm_publishHead.
Qed.

Lemma calm_sealToManifest seg : calm not_own (sealToManifest seg).
Proof.
  apply calm_get. intros w Hw. repeat (apply keeps_bind; [apply (calm_on_file w); auto with keeps|intros _]).
  by apply calm_modify.
Qed.

Lemma calm_openNewSegment seq start : calm not_own (openNewSegment seq start).
Proof.
  apply calm_get. intros w Hw. apply calm_OpenFile. intros f Hf.
  do 3 (apply keeps_bind; [auto using keeps_on_error with keeps|intros _]).
  apply keeps_bind.
  { unfold close_file. destruct (file w) as [f0|] eqn:E; [|apply keeps_ret]. apply calm_Close. intros ->. by apply (proj1 Hw). }
  intros _. apply keeps_Now. intros t. apply calm_modify. intros w' [H1 H2]. split; cbn; [congruence|done].
Qed.

Lemma calm_rotate : calm not_own rotate.
Proof.
  apply keeps_bind; [apply calm_sync|]. intros _. apply calm_get. intros w _.
  apply keeps_bind; [apply calm_sealToManifest|]. intros _. apply calm_get. intros w1 _.
  apply keeps_bind; [by apply calm_modify|]. intros _. apply calm_get. intros w2 _.
  apply keeps_bind; [apply calm_openNewSegment|]. intros _. apply calm_publishHead.
Qed.

Lemma calm_since t0 dt : calm not_own (since t0 dt).
Proof. apply keeps_Now. intros t. apply keeps_ret. Qed.

#[local] Hint Resolve calm_sync calm_rotate calm_since : keeps.

Lemma calm_WritePacket r : calm not_own (WritePacket r).
Proof.
  apply calm_get. intros w Hw. apply keeps_bind; [apply (calm_on_file w); auto with keeps|]. intros _.
  apply keeps_bind; [by apply calm_modify|]. intros _.
  do 2 (apply calm_get; intros ? _; apply keeps_bind; [auto with keeps|intros ?]; apply keeps_bind; [auto with keeps|intros _]).
  auto with keeps.
Qed.

Lemma calm_Tick : calm not_own Tick.
Proof.
  apply calm_get. intros w _. apply keeps_bind; [auto with keeps|]. intros due. apply keeps_bind; [auto with keeps|]. intros _.
  apply calm_get. intros w1 _. apply keeps_bind; [auto with keeps|]. intros due1. auto with keeps.
Qed.
End Writer.

(** ** The reader's descriptor *)

Section Own.
Context (F : fault -> Prop) (n0 : nat) (old : option nat).

(** The open file is the old one or was opened since. *)
Definition own_fd (r : Reader) (s : fs) : Prop :=
  (n0 <= fs_next s)%nat /\ forall fd, rd_file r = Some fd -> old = Some fd \/ (n0 <= fd)%nat.

Lemma own_sys {A} (call : fs -> res (A * fs)) :
  (forall s a s', call s = Ok (a, s') -> (fs_next s <= fs_next s')%nat) -> keeps F own_fd (sys call).
Proof. intros Hc. apply keeps_sys. intros r s a s' [H1 H2] E. split; [|done]. specialize (Hc _ _ _ E). lia. Qed.

Lemma own_with_fd {A} f (k : fdesc -> inode -> fs -> res (A * fs)) :
  (forall d i s a s', k d i s = Ok (a, s') -> fs_next s' = fs_next s) -> keeps F own_fd (sys (with_fd f k)).
Proof. intros Hk. apply keeps_with_fd. intros r d i s a s' [H1 H2] E. split; [by rewrite (Hk _ _ _ _ _ E)|done]. Qed.

Lemma own_modify (f : Reader -> Reader) : (forall r, rd_file (f r) = rd_file r) -> keeps F own_fd (modify f).
Proof. intros Hf. apply keeps_modify. intros r s [H1 H2]. split; [done|by rewrite Hf]. Qed.

Lemma own_OpenFile {B} name (k : nat -> M Reader B) :
  (forall f, (n0 <= f)%nat -> keeps F own_fd (k f)) -> keeps F own_fd (OpenFile name O_plain ≫= k).
Proof.
  intros Hk r s [H1 H2]. apply wp_bind, wp_sys; [by intros _|by intros _|]. unfold open_call.
  destruct (fs_dir s !! name) as [ino|]; cbn; [|done]. apply Hk; [done|]. split; cbn; [lia|done].
Qed.

Lemma own_open name : keeps F own_fd (OpenFile name O_plain).
Proof.
  apply own_sys. intros s a s' E. unfold open_call in E. destruct (fs_dir s !! name); [|done]. injection E as <- <-. cbn. lia.
Qed.

Lemma own_ReadFile name : keeps F own_fd (ReadFile name).
Proof.
  apply own_sys. intros s a s' E. destruct (fs_dir s !! name) as [ino|]; [|done].
  destruct (fs_inodes s !! ino); [|done]. by injection E as _ ->.
Qed.

Lemma own_ReadDir : keeps F own_fd ReadDir.
Proof. apply own_sys. by intros s a s' [= _ ->]. Qed.

Lemma own_FileStream f : keeps F own_fd (FileStream f).
Proof.
  intros r s Hr fl ck rn HFl. unfold FileStream. cbn [snd fst].
  destruct (next_fault _) as [ft w] eqn:E. destruct (next_fault_F _ _ _ _ _ _ HFl E) as (_ & Hw & HF').
  assert (own_fd r (w_fs w)) as Hr' by (by rewrite Hw).
  destruct (with_fd _ _ _) as [[b ?]|e]; [destruct ft|]; done.
Qed.

Lemma own_FileReaderAt f : keeps F own_fd (FileReaderAt f).
Proof. apply own_with_fd. by intros d i s a s' [= _ ->]. Qed.

Lemma own_Close f : keeps F own_fd (Close f).
Proof. intros r s Hr. by apply wp_Close. Qed.

Lemma own_FlockShared f : keeps F own_fd (FlockShared f).
Proof.
  apply keeps_bind; [|intros _; apply keeps_ret]. apply keeps_try, own_with_fd. by intros d i s a s' [= _ <-].
Qed.

#[local] Hint Resolve own_open own_ReadFile own_ReadDir own_FileStream own_FileReaderAt own_Close own_FlockShared own_modify keeps_try : keeps.

Lemma own_refresh : keeps F own_fd refresh.
Proof.
  apply keeps_get_any. intros r. unfold listSegmentFiles, loadManifest, readHead.
  apply keeps_bind; [apply keeps_bind; auto with keeps|]. intros seqs.
  apply keeps_bind; [apply keeps_bind; [auto with keeps|]|intros sealed].
  { intros [f|e]; [|case_decide; auto with keeps]. apply keeps_bind; [auto with keeps|]. intros st.
    apply keeps_bind; auto with keeps. }
  apply keeps_bind; [apply keeps_bind; [auto with keeps|]|intros act; auto with keeps].
  intros [f|e]; [|case_decide]; auto with keeps.
Qed.

Lemma own_position seg gp : keeps F own_fd (position seg gp).
Proof.
  apply own_OpenFile. intros f Hf. apply keeps_bind; [auto with keeps|]. intros _. apply keeps_get_any. intros r.
  apply keeps_bind; [destruct (rd_file r); auto with keeps|]. intros _.
  apply keeps_bind.
  { apply keeps_modify. intros r' s [H1 H2]. split; [done|]. cbn. intros fd [= <-]. by right. }
  intros _. apply keeps_bind; [auto with keeps|]. intros ra. destruct (skip_records _ _ _) as [off [e|]];
    (apply keeps_bind; [auto with keeps|intros _]); auto with keeps.
Qed.

Lemma own_readAt seg : keeps F own_fd (readAt seg).
Proof.
  apply keeps_get_any. intros r. destruct (rd_file r) as [f|]; [|auto with keeps]. apply keeps_bind; [auto with keeps|].
  intros ra. destruct (ReadRecordAt _ _ _ _) as [[[rec next] [|]] [e|]]; auto with keeps.
  apply keeps_bind; auto with keeps.
Qed.

#[local] Hint Resolve own_refresh own_position own_readAt : keeps.

Lemma own_Next fuel : keeps F own_fd (Next fuel).
Proof.
  induction fuel as [|fuel IH]; cbn [Next]; [apply keeps_ret|]. apply keeps_get_any. intros r.
  apply keeps_if; [apply keeps_fail|]. apply keeps_bind.
  { apply keeps_if; [|apply keeps_ret]. apply keeps_bind; [apply own_refresh|]. intros _. apply keeps_get_any. intros r1. auto with keeps. }
  intros _. apply keeps_get_any. intros r1. destruct (owning _ _) as [seg|].
  - apply keeps_bind; [case_decide; auto with keeps|]. intros _. apply keeps_bind; [auto with keeps|]. intros [rec|].
    + apply keeps_get_any. intros r2. apply keeps_bind; auto with keeps.
    + apply keeps_bind; [auto with keeps|]. intros _. apply keeps_get_any. intros r2. auto with keeps.
  - apply keeps_bind; [auto with keeps|]. intros _. apply keeps_get_any. intros r2. destruct (owning _ _); auto with keeps.
Qed.
End Own.

Lemma own_OpenReader F src snap from r s : wp F (OpenReader src snap from) (fun _ => own_fd (fs_next s) None) r s.
Proof.
  apply wp_bind, wp_modify. cbn [bind_post].
  assert (keeps F (own_fd (fs_next s) None) (refresh ;; r ← get;
    let '(from, reaped) := if from <? oldest r then (oldest r, true) else (from, false) in
    let from := if rd_head r <? from then oldest r else from in
    modify (set_gpidx from) ;; mret (from, reaped))) as Hk.
  { apply keeps_bind; [apply own_refresh|]. intros _. apply keeps_get_any. intros r1. destruct (if from <? _ then _ else _) as [f b].
    apply keeps_bind; [by apply own_modify|]. intros _. apply keeps_ret. }
  by apply Hk.
Qed.
