(* ===== verification/TailProps.v ===== *)
(** * The writer and the tailing reader on one directory

    The capture process writes the spool and the serve process reads it, one
    operation at a time, with failing calls and host crashes: the packets the
    reader returns are those of the log, in order and durable, and it does not
    get stuck below the advertised end. *)

From S2P Require Import Prelude Bytes GoIO Pcapio Os Durable Dir Runs Json Manifest Recover Spool SpoolSpec SpoolProof RecoverProof RestartProof SpoolProps Reader ReaderProof TailProof.

(** ** The system *)

(** The capture process and the reader of the serve process, if they run, and
    the directory. *)
Record tconf : Type := TConf { t_writer : option Writer; t_reader : option Reader; t_dir : fs }.

Inductive tevent : Type :=
  | TWriter (e : event)
  | TOpen (from at_ : Z)                       (** a reader starts at [at_] *)
  | TNext (o : option (PcapRecord * Z))        (** a packet and its gpidx, or [ErrNoData] *)
  | TClose.

(** The reader of a connection is opened while the writer runs; a host crash ends
    both processes, also in the middle of an operation of the reader. *)
Inductive tstep (c : Config) : tconf -> tevent -> tconf -> Prop :=
  | tstep_running w r s e w' s' :
      step c (Conf (Some w) s) e (Conf (Some w') s') ->
      tstep c (TConf (Some w) r s) (TWriter e) (TConf (Some w') r s')
  | tstep_start s e w' s' :
      step c (Conf None s) e (Conf w' s') -> tstep c (TConf None None s) (TWriter e) (TConf w' None s')
  | tstep_stop w r s e s' :
      step c (Conf (Some w) s) e (Conf None s') -> tstep c (TConf (Some w) r s) (TWriter e) (TConf None None s')
  | tstep_open w s from r0 faults clock rand at_ reaped r wd :
      is_uint 64 from -> Forall crash_only faults ->
      OpenReader (SrcID (applyDefaults c)) (Snaplen (applyDefaults c)) from (r0, World s faults clock rand) =
        (Ret (at_, reaped), (r, wd)) ->
      tstep c (TConf (Some w) None s) (TOpen from at_) (TConf (Some w) (Some r) (w_fs wd))
  | tstep_open_crash w s from r0 faults clock rand r wd s' :
      is_uint 64 from -> Forall crash_only faults ->
      OpenReader (SrcID (applyDefaults c)) (Snaplen (applyDefaults c)) from (r0, World s faults clock rand) =
        (Crashed, (r, wd)) -> crash_fs (w_fs wd) s' ->
      tstep c (TConf (Some w) None s) (TWriter (EvCrash [])) (TConf None None s')
  | tstep_next w r s fuel faults clock rand o r' wd :
      Forall crash_only faults ->
      Next (S (S fuel)) (r, World s faults clock rand) = (o, (r', wd)) ->
      o <> Crashed ->
      tstep c (TConf (Some w) (Some r) s)
        (TNext (match o with Ret x => x | _ => None end)) (TConf (Some w) (Some r') (w_fs wd))
  | tstep_next_crash w r s fuel faults clock rand r' wd s' :
      Forall crash_only faults ->
      Next (S (S fuel)) (r, World s faults clock rand) = (Crashed, (r', wd)) -> crash_fs (w_fs wd) s' ->
      tstep c (TConf (Some w) (Some r) s) (TWriter (EvCrash [])) (TConf None None s')
  | tstep_close w r s faults clock rand o r' wd :
      Forall crash_only faults ->
      Reader_Close (r, World s faults clock rand) = (o, (r', wd)) -> o <> Crashed ->
      tstep c (TConf (Some w) (Some r) s) TClose (TConf (Some w) None (w_fs wd)).

(** The abstract tail: a log and the position of the reader. *)
Inductive tail_step : log * option Z -> tevent -> log * option Z -> Prop :=
  | tail_writer l e l' p :
      log_step l e l' -> tail_step (l, p) (TWriter e) (l', p)
  | tail_stop l e l' p :
      log_step l e l' -> tail_step (l, p) (TWriter e) (l', None)
  | tail_open l from at_ :
      at_ = from \/ at_ = 0 -> 0 <= at_ <= l_durable l -> tail_step (l, None) (TOpen from at_) (l, Some at_)
  | tail_packet l p rec :
      0 <= p < l_durable l -> l_packets l !! Z.to_nat p = Some rec ->
      tail_step (l, Some p) (TNext (Some (rec, p))) (l, Some (p + 1))
  | tail_idle l p : tail_step (l, Some p) (TNext None) (l, Some p)
  | tail_close l p : tail_step (l, Some p) TClose (l, None).

(** ** Lemmas *)

Section Tail.
Context (c0 : Config).
Abbreviation c := (applyDefaults c0).
Abbreviation src := (SrcID c).
Abbreviation snap := (Snaplen c).
Abbreviation link := (LinkType c).
Abbreviation gname := (gs_name src).
Context (Hcfg : config_ok c).

Lemma winv_served g w s : winv c g w s -> served c g s.
Proof.
  intros [[Hd _ _ _ (f & d & i & _ & Hof & _ & Hl & _) _ _ _ _] _].
  split; [split; [apply Hd|apply dir_current, Hd]|]. split; [|eapply dir_wf, Hd].
  unfold man_whole, content. rewrite (of_live _ _ _ _ _ Hof). cbn. by rewrite (of_inode _ _ _ _ _ Hof).
Qed.

Lemma open_idle s s' n fd d i :
  idle s s' -> fs_fds s' !! fd = Some d -> open_file s n fd d i -> open_file s' n fd d i.
Proof. intros Hid Hfd [H1 _ H3]. split; [by rewrite (id_dir _ _ Hid)|done|by rewrite (id_inodes _ _ Hid)]. Qed.

(** The writer does not notice the reader. *)
Lemma winv_outside g w r s s' :
  winv c g w s -> (forall fd, rd_file r = Some fd -> not_own fd w) -> outside r s s' -> winv c g w s'.
Proof.
  intros [[W1 W2 W3 (f & d & i & F1 & F2 & F3) (m & dm & im & M1 & M2 & M3) W6 W7 W8] Hn] Hown [Hid Hk].
  assert (forall n ino, bound_or s n ino False -> bound_or s' n ino False) as Hb.
  { intros n ino Hb dd. rewrite (idle_versions _ _ Hid). apply Hb. }
  split; [|done]. split; try done.
  - destruct W1 as [Hg Hd]. split; [done|by eapply dir_idle].
  - exists f, d, i. split; [done|]. split.
    + eapply open_idle; [done| |done]. apply Hk; [|apply F2]. intros Hr. by apply (proj1 (Hown _ Hr)).
    + destruct F3 as (A1 & A2 & A3 & A4). split_and!; try done. by apply Hb.
  - exists m, dm, im. split; [done|]. split.
    + eapply open_idle; [done| |done]. apply Hk; [|apply M2]. intros Hr. by apply (proj2 (Hown _ Hr)).
    + destruct M3 as (A1 & A2 & A3). split_and!; try done. by apply Hb.
Qed.

Lemma gs_len_take x y k : take k (gs_recs x) = take k (gs_recs y) -> gs_len x k = gs_len y k.
Proof. unfold gs_len. by intros ->. Qed.

Lemma seen_keeps g g' seg : keeps_segs g g' -> g_gone g' = g_gone g -> seen c g seg -> seen c g' seg.
Proof.
  intros Hk Hgo (x & j & b & -> & [Hx|Hx]).
  - destruct (Hk x j Hx) as (x' & Hx' & H1 & H2 & H3).
    exists x', j, b. split; [|by left]. unfold gs_entry. rewrite (gs_len_take x' x j) by done. unfold gs_name. by rewrite H1, H2.
  - exists x, j, b. split; [done|]. right. by rewrite Hgo.
Qed.

Lemma segment_untouched g x : ghost_ok snap link g -> x ∈ g_segs g -> ~ touched headName (gname x).
Proof.
  intros Hg Hx. by apply (segment_not_touched src), (gs_name_segment src snap link), (seg_ok snap link g).
Qed.

(** What the reader holds stays true while the writer goes on. *)
Lemma rinv_keeps g g' r s s' :
  rinv c g r s -> durable_end g <= durable_end g' -> base g' = base g -> keeps_segs g g' -> g_gone g' = g_gone g ->
  fs_wf s -> fs_wf s' ->
  (forall fd n d, rd_file r = Some fd -> bystander fd n d s -> ~ touched headName n -> bystander fd n d s') ->
  ghost_ok snap link g -> rinv c g' r s'.
Proof.
  intros [R1 R2 R3 R4 R5 R6] Hd Hb Hk Hgo Hwf Hwf' Hby Hg.
  split; try done; [|by rewrite Hb|lia|].
  - eapply Forall_impl; [exact R3|]. intros seg. by apply seen_keeps.
  - unfold rfile in *. destruct (rd_file r) as [fd|]; [|done].
    destruct R6 as (x & k & d & i & Hx & Hof & Hlk & Hs & Hgp & Ho).
    destruct (Hk x k Hx) as (x' & Hx' & H1 & H2 & H3).
    destruct (Hby fd (gname x) d) as (B1 & B2 & B3); [done| |by eapply segment_untouched, durable_in|].
    { destruct Hof as [O1 O2 O3]. split_and!; [done..|]. by eapply (wf_fds s Hwf). }
    destruct (wf_dirs s' Hwf' (fs_dir s') (gname x) (fd_ino d)) as [_ [i' Hi']]; [left|done|].
    exists x', k, d, i'. split; [done|]. split; [|split_and!; [done|congruence|congruence|by rewrite (gs_len_take x' x k)]].
    split; [|done..]. unfold gs_name in *. by rewrite H1.
Qed.

Lemma rinv_step g g' r w' s s' rs :
  rinv c g r s -> evolves rs g g' -> winv c g' w' s' -> fs_wf s ->
  (forall fd n d, rd_file r = Some fd -> bystander fd n d s -> ~ touched headName n -> bystander fd n d s') ->
  ghost_ok snap link g -> rinv c g' r s'.
Proof.
  intros Hr (_ & Hd & Hb & _ & Hk & Hgo & _) Hw' Hwf Hby Hg. eapply (rinv_keeps g); try done.
  by apply (served_wf c g'), (winv_served g' w').
Qed.

Lemma running_bystander w s e w' s' fd n d :
  step c0 (Conf (Some w) s) e (Conf (Some w') s') -> ~ touched headName n ->
  not_own fd w -> bystander fd n d s -> not_own fd w' /\ bystander fd n d s'.
Proof.
  intros Hs Hn Hw Hb. inversion Hs as [| |? ? fl ck rn r gp ? wd Hroom Hrun| |? ? fl ck rn ? wd Hq Hrun| |]; subst.
  - exact (wp_run _ _ _ _ (World s fl ck rn) _ _ _ (calm_WritePacket any_fault fd n d Hn r w s (conj Hw Hb)) eq_refl (any_fault_all _) Hrun).
  - exact (wp_run _ _ _ _ (World s fl ck rn) _ _ _ (calm_Tick any_fault fd n d Hn w s (conj Hw Hb)) eq_refl (any_fault_all _) Hrun).
Qed.

(** ** Opening and closing *)

Lemma view_head_le g s r : served c g s -> rd_head (set_view (fresh_view c g s) r) <= durable_end g.
Proof.
  intros Hs. pose proof Hs as [[Hg _] _]. pose proof (view_shown c g s Hs) as Hall.
  pose proof (base_range c g Hg) as H0. unfold set_view. cbn [rd_head]. destruct (last (fresh_view c g s)) as [seg|] eqn:El; [|lia].
  apply last_Some in El as [l El]. rewrite El, Forall_app, Forall_singleton in Hall.
  destruct Hall as [_ (x & j & b & -> & Hx)]. exact (durable_below c g x j Hg Hx).
Qed.

(** A position below the oldest packet is raised to it and reported; one above
    all that the reader sees starts over. *)
Definition opened (F : fault -> Prop) (g : ghost) (from : Z) (s : fs) (o : outcome (Z * bool)) (r' : Reader) (s' : fs) : Prop :=
  idle s s' /\ kept_fds (fun _ => True) s s' /\
  match o with
  | Ret (at_, reaped) => reaped = (from <? base g) /\
      at_ = (if (from <? base g) || (rd_head r' <? from) then base g else from) /\ gpidx r' = at_ /\ rinv c g r' s'
  | Fail _ => False
  | Crashed => F FCrash
  end.

Lemma wp_OpenReader F (HF : ~ can_fail F) g from r s :
  served c g s -> is_uint 64 from -> wp F (OpenReader src snap from) (opened F g from s) r s.
Proof.
  intros Hs Hfrom. pose proof Hs as [[Hg _] _]. pose proof (base_range c g Hg) as H0.
  unfold OpenReader. apply wp_bind, wp_modify. cbn [bind_post].
  set (r0 := mkReader src snap [] 0 0 0 None (2 ^ 64 - 1) 0).
  apply wp_bind. eapply wp_mono; [by apply (wp_refresh_view c F HF g r0 s Hs)|].
  intros [[]|e|] r1 s1 (Hid & Hk & Ho); cbn [bind_post]; [|done|by split_and!].
  subst r1. apply wp_bind, wp_get. cbn [bind_post].
  rewrite (view_oldest c g s r0 Hs). pose proof (view_head_le g s r0 Hs) as Hle. unfold is_uint in Hfrom.
  assert (forall at_, base g <= at_ <= durable_end g -> rinv c g (set_gpidx at_ (set_view (fresh_view c g s) r0)) s1) as Hri.
  { intros at_ Hat. split; try done; [|exact (Z.eq_le_incl _ _ (view_oldest c g s r0 Hs))|cbn; lia].
    eapply Forall_impl; [by apply view_shown|apply shown_seen]. }
  unfold opened. destruct (Z.ltb_spec from (base g)) as [Hlt|Hge]; cbn [orb].
  - apply wp_bind, wp_modify. cbn [bind_post]. apply wp_ret.
    assert ((if rd_head (set_view (fresh_view c g s) r0) <? base g then base g else base g) = base g) as -> by (by destruct (_ <? _)).
    split_and!; try done. apply Hri. lia.
  - apply wp_bind, wp_modify. cbn [bind_post]. apply wp_ret. split_and!; try done. apply Hri.
    cbn [set_gpidx rd_head]. destruct (Z.ltb_spec (rd_head (set_view (fresh_view c g s) r0)) from); lia.
Qed.

Lemma outside_Close r s : fs_wf s -> wp crash_only Reader_Close (fun _ _ s' => outside r s s') r s.
Proof.
  intros Hwf. unfold Reader_Close. apply wp_bind, wp_get. cbn [bind_post].
  destruct (rd_file r) as [fd|] eqn:E; [|by apply wp_ret, outside_refl].
  apply wp_bind, wp_try, wp_sys; [by intros _; apply outside_refl|by intros []%crash_only_no_fail|]. cbn [bind_post].
  apply wp_bind, wp_modify. cbn [bind_post]. apply wp_ret. split; [by apply idle_close|].
  apply kept_fds_close. intros Hf. by apply Hf.
Qed.

Lemma wp_Reader_Close g w r s :
  winv c g w s -> (forall fd, rd_file r = Some fd -> not_own fd w) ->
  wp crash_only Reader_Close (fun _ _ s' => winv c g w s') r s.
Proof.
  intros Hw Hown. eapply wp_mono; [apply outside_Close; by eapply served_wf, winv_served|].
  intros o r' s'. by apply (winv_outside g w r).
Qed.

(** ** The refinement *)

Definition not_shared (w : Writer) (r : Reader) : Prop := forall fd, rd_file r = Some fd -> not_own fd w.

Definition trel (k : tconf) (a : log * option Z) : Prop :=
  match k with
  | TConf (Some w) (Some r) s => exists g, winv c g w s /\ base g = 0 /\ rinv c g r s /\ not_shared w r /\
      a = (ghost_log g, Some (gpidx r))
  | TConf w None s => rel c0 (Conf w s) a.1 /\ a.2 = None
  | TConf None (Some _) _ => False
  end.

Lemma own_not_shared g w r r' s s' :
  winv c g w s -> not_shared w r -> own_fd (fs_next s) (rd_file r) r' s' -> not_shared w r'.
Proof.
  intros Hw Hn [_ Ho] fd Hfd. assert (fs_wf s) as Hwf by (by apply (served_wf c g), (winv_served g w)).
  destruct Hw as [[_ _ _ (f & d & i & F1 & [_ F2 _] & _) (m & dm & im & M1 & [_ M2 _] & _) _ _ _] _].
  destruct (Ho fd Hfd) as [?|Hle]; [by apply Hn|].
  apply (wf_fds s Hwf) in F2, M2. split; rewrite ?F1, ?M1; intros [= ->]; lia.
Qed.

Lemma crash_reader g w s s1 s' :
  winv c g w s -> base g = 0 -> idle s s1 -> crash_fs s1 s' ->
  exists l, log_step (ghost_log g) (EvCrash []) l /\ rel c0 (Conf None s') l.
Proof.
  intros [[[Hg Hd] _ _ _ _ _ _ _] _] Hb Hid Hcr. exists (ghost_log g). split.
  - apply (log_crash_restarts c0); try done. by rewrite app_nil_r.
  - exists g, s1. split_and!; try done. split; [done|by eapply dir_idle].
Qed.

Lemma tstep_tail k e k' a :
  tstep c0 k e k' -> trel k a -> exists a', tail_step a e a' /\ trel k' a'.
Proof.
  intros Ht Hr. destruct Ht as [w r s e w' s' Hs|s e w' s' Hs|w r s e s' Hs|w s from r0 fl ck rn at_ rp r wd Hf HF Hrun|
    w s from r0 fl ck rn r wd s' Hf HF Hrun Hcr|w r s fuel fl ck rn o r' wd HF Hrun Ho|
    w r s fuel fl ck rn r' wd s' HF Hrun Hcr|w r s fl ck rn o r' wd HF Hrun Ho].
  - destruct r as [r|].
    + destruct Hr as (g & Hw & Hb & Hri & Hn & ->).
      destruct (running_step c0 w s e w' s' g Hs Hw Hb) as (rs & g' & He & Hw' & Hl).
      exists (ghost_log g', Some (gpidx r)). split; [by constructor|]. exists g'.
      split; [done|]. split; [rewrite <-Hb; apply He|]. pose proof (winv_served _ _ _ Hw) as Hsv.
      assert (fs_wf s) as Hwf by (by apply (served_wf c g)).
      assert (ghost_ok snap link g) as Hg by apply Hsv.
      split; [|split; [|done]].
      * eapply rinv_step; try done. intros fd n d Hfd Hby Ht. exact (proj2 (running_bystander _ _ _ _ _ _ _ _ Hs Ht (Hn _ Hfd) Hby)).
      * intros fd Hfd. pose proof (ri_file _ _ _ _ Hri) as Hrf. unfold rfile in Hrf. rewrite Hfd in Hrf.
        destruct Hrf as (x & j & d & i & Hx & [O1 O2 O3] & _).
        eapply (running_bystander w s e w' s' fd (gname x) d); [done|by eapply segment_untouched, durable_in|by apply Hn|].
        split_and!; [done..|by eapply (wf_fds s Hwf)].
    + destruct a as [l p]. destruct Hr as [Hr Hp]. cbn in Hr, Hp. subst p.
      destruct (step_log _ _ _ _ _ Hcfg Hs Hr) as (l' & Hl & Hr'). exists (l', None). split; [by constructor|done].
  - destruct a as [l p]. destruct Hr as [Hr Hp]. cbn in Hr, Hp. subst p.
    destruct (step_log _ _ _ _ _ Hcfg Hs Hr) as (l' & Hl & Hr'). exists (l', None). split; [by constructor|].
    by destruct w'.
  - assert (exists l p, a = (l, p) /\ rel c0 (Conf (Some w) s) l) as (l & p & -> & Hl).
    { destruct r as [r|]; [|destruct a as [l p]; by exists l, p; split; [|apply Hr]].
      destruct Hr as (g & Hw & Hb & _ & _ & ->). eexists _, _. split; [done|]. by exists g. }
    destruct (step_log _ _ _ _ _ Hcfg Hs Hl) as (l' & Hl' & Hr'). exists (l', None). split; [by apply tail_stop|done].
  - destruct a as [l p], Hr as [Hr Hp]. cbn in Hr, Hp. subst p. destruct Hr as (g & Hw & Hb & <-). pose proof (winv_served _ _ _ Hw) as Hsv.
    pose proof (wp_run _ _ _ _ (World s fl ck rn) _ _ _ (wp_OpenReader crash_only crash_only_no_fail g from r0 s Hsv Hf) eq_refl HF Hrun)
      as (Hid & Hk & _ & Hat & Hgp & Hri).
    pose proof (wp_run _ _ _ _ (World s fl ck rn) _ _ _ (own_OpenReader any_fault src snap from r0 s) eq_refl (any_fault_all _) Hrun) as Hown.
    exists (ghost_log g, Some at_). split.
    + pose proof (ri_pos _ _ _ _ Hri) as Hpos. apply tail_open; [|cbn; lia].
      rewrite Hat, Hb. destruct (from <? 0), (rd_head r <? from); auto.
    + exists g. set (rn0 := mkReader src snap [] 0 0 0 None 0 0).
      assert (not_shared w rn0) as Hn0 by done. split_and!; try done.
      * eapply (winv_outside g w rn0); [done|done|]. split; [done|by apply kept_fds_all].
      * by apply (own_not_shared g w rn0 r s (w_fs wd)).
      * by rewrite Hgp.
  - destruct a as [l p], Hr as [Hr Hp]. cbn in Hr, Hp. subst p. destruct Hr as (g & Hw & Hb & <-). pose proof (winv_served _ _ _ Hw) as Hsv.
    pose proof (wp_run _ _ _ _ (World s fl ck rn) _ _ _ (wp_OpenReader crash_only crash_only_no_fail g from r0 s Hsv Hf) eq_refl HF Hrun)
      as (Hid & _).
    destruct (crash_reader g w s _ s' Hw Hb Hid Hcr) as (l' & Hl & Hr'). exists (l', None). split; [by constructor|done].
  - destruct Hr as (g & Hw & Hb & Hri & Hn & ->). pose proof (winv_served _ _ _ Hw) as Hsv.
    pose proof (wp_run _ _ _ _ (World s fl ck rn) _ _ _
      (wp_Next c crash_only crash_only_no_fail Hcfg g fuel r s Hsv Hri) eq_refl HF Hrun) as [Hout Hp].
    pose proof (wp_run _ _ _ _ (World s fl ck rn) _ _ _
      (own_Next any_fault (fs_next s) (rd_file r) (S (S fuel)) r s (conj (Nat.le_refl _) (fun fd H => or_introl H)))
      eq_refl (any_fault_all _) Hrun) as Hown.
    assert (winv c g w (w_fs wd)) as Hw' by (by eapply winv_outside).
    assert (not_shared w r') as Hn' by (by apply (own_not_shared g w r r' s (w_fs wd))).
    destruct o as [[[rec gp]|]|e|]; [|done| |done].
    + destruct Hp as (-> & Hg' & Hri' & Hlt & Hrec). exists (ghost_log g, Some (gpidx r + 1)). split.
      * rewrite Hb, Z.sub_0_r in Hrec. apply tail_packet; [cbn; lia|done].
      * exists g. split_and!; try done. by rewrite Hg'.
    + destruct Hp as (Hri' & Hg' & _). exists (ghost_log g, Some (gpidx r)). split; [constructor|].
      exists g. split_and!; try done. by rewrite Hg'.
  - destruct Hr as (g & Hw & Hb & Hri & Hn & ->). pose proof (winv_served _ _ _ Hw) as Hsv.
    pose proof (wp_run _ _ _ _ (World s fl ck rn) _ _ _
      (wp_Next c crash_only crash_only_no_fail Hcfg g fuel r s Hsv Hri) eq_refl HF Hrun) as [[Hid _] _].
    destruct (crash_reader g w s _ s' Hw Hb Hid Hcr) as (l' & Hl & Hr'). exists (l', None). split; [by apply tail_stop|done].
  - destruct Hr as (g & Hw & Hb & Hri & Hn & ->).
    pose proof (wp_run _ _ _ _ (World s fl ck rn) _ _ _ (wp_Reader_Close g w r s Hw Hn) eq_refl HF Hrun) as Hw'.
    exists (ghost_log g, None). split; [constructor|]. split; [|done]. by exists g.
Qed.
End Tail.

(** ** Executing the system *)

Definition first_tconf : tconf := TConf None None empty_fs.
Definition new_reader : Reader := mkReader 0 0 [] 0 0 0 None 0 0.

(** One event without faults; crashes lose nothing. *)
Definition texec (c : Config) (k : tconf) (e : tevent) : option tconf :=
  let w0 := World (t_dir k) [] [] [] in
  match t_writer k, t_reader k, e with
  | w, None, TWriter e =>
      k' ← exec c (Conf w (t_dir k)) e;
      Some (TConf (running k') None (directory k'))
  | Some w, Some r, TWriter e =>
      k' ← exec c (Conf (Some w) (t_dir k)) e;
      Some (match running k' with
            | Some w' => TConf (Some w') (Some r) (directory k')
            | None => TConf None None (directory k')
            end)
  | Some w, None, TOpen from at_ =>
      if decide (is_uint 64 from) then
        match OpenReader (SrcID (applyDefaults c)) (Snaplen (applyDefaults c)) from (new_reader, w0) with
        | (Ret (a, _), (r, wd)) => if a =? at_ then Some (TConf (Some w) (Some r) (w_fs wd)) else None
        | _ => None
        end
      else None
  | Some w, Some r, TNext o =>
      match Next 2 (r, w0) with
      | (Ret o', (r', wd)) => if decide (o' = o) then Some (TConf (Some w) (Some r') (w_fs wd)) else None
      | (Fail _, (r', wd)) => if decide (o = None) then Some (TConf (Some w) (Some r') (w_fs wd)) else None
      | _ => None
      end
  | Some w, Some r, TClose =>
      match Reader_Close (r, w0) with
      | (Crashed, _) => None
      | (_, (_, wd)) => Some (TConf (Some w) None (w_fs wd))
      end
  | _, _, _ => None
  end.

Lemma trel_wf c k a : trel c k a -> fs_wf (t_dir k).
Proof.
  destruct k as [[w|] [r|] s]; [|intros [Hr _]; exact (rel_wf c (Conf _ s) a.1 Hr)|done|intros [Hr _]; exact (rel_wf c (Conf _ s) a.1 Hr)].
  intros (g & Hw & _). apply Hw.
Qed.

Lemma texec_step c k e k' : fs_wf (t_dir k) -> texec c k e = Some k' -> tstep c k e k'.
Proof.
  intros Hwf. unfold texec. destruct k as [[w|] [r|] s]; cbn [t_writer t_reader t_dir] in *;
    destruct e as [e|from at_|o|]; try discriminate; intros E.
  - destruct (exec _ _ _) as [[w' s']|] eqn:Ex; [|done]. injection E as <-. apply exec_step in Ex; [|done].
    cbn [running directory]. destruct w'; by constructor.
  - destruct (Next 2 _) as [[o'|er|] [r' wd]] eqn:En; [case_decide as Ho|case_decide as Ho|]; try done; simplify_eq.
    + by eapply (tstep_next c w r s 0 [] [] [] (Ret _)).
    + by eapply (tstep_next c w r s 0 [] [] [] (Fail _)).
  - destruct (Reader_Close _) as [[o'|er|] [r' wd]] eqn:En; [| |done]; simplify_eq.
    + by eapply (tstep_close c w r s [] [] [] (Ret _)).
    + by eapply (tstep_close c w r s [] [] [] (Fail _)).
  - destruct (exec _ _ _) as [[w' s']|] eqn:Ex; [|done]. injection E as <-. apply exec_step in Ex; [|done].
    cbn [running directory]. destruct w'; by constructor.
  - case_decide; [|done]. destruct (OpenReader _ _ _ _) as [[[a b]|er|] [r' wd]] eqn:En; [|done..].
    destruct (Z.eqb_spec a at_) as [->|]; [|done]. injection E as <-. by eapply (tstep_open c w s from _ [] [] []).
  - destruct (exec _ _ _) as [[w' s']|] eqn:Ex; [|done]. injection E as <-. apply exec_step in Ex; [|done].
    by constructor.
Qed.

Lemma tail_run c es k :
  config_ok (applyDefaults c) -> steps (tstep c) first_tconf es k ->
  exists a, steps tail_step (Log [] 0, None) es a /\ trel c k a.
Proof.
  intros Hc Hs. apply (steps_sim (tstep c) tail_step (trel c)) with (k := first_tconf); [|done|].
  - intros. by eapply tstep_tail.
  - split; [|done]. exact (empty_spool c).
Qed.

Lemma texec_runs c es k' :
  config_ok (applyDefaults c) -> exec_all (texec c) first_tconf es = Some k' -> steps (tstep c) first_tconf es k'.
Proof.
  intros Hc He. apply (exec_steps (tstep c) (fun k => exists a, trel c k a) (texec c)); [| |done].
  - intros k1 e k2 [a Hr] E. pose proof (texec_step c k1 e k2 (trel_wf _ _ _ Hr) E) as Hs. split; [done|].
    destruct (tstep_tail c Hc k1 e k2 a Hs Hr) as (a' & _ & Hr'). eauto.
  - exists (Log [] 0, None). split; [exact (empty_spool c)|done].
Qed.

(** ** The advertised packets are in the view *)

Lemma view_covers c g s seg gp :
  served c g s -> head_pointer s = Some seg -> base g <= gp < seg_EndGpidx seg ->
  exists y, y ∈ fresh_view c g s /\ covers gp y.
Proof.
  intros Hs Hh Hgp. pose proof Hs as [[Hg _] _].
  destruct (head_shown c g s seg Hs Hh) as (x & j & -> & Hx).
  change (base g <= gp < gs_start x + Z.of_nat j) in Hgp.
  destruct Hx as [Hx|[Hx Hj]].
  2: { pose proof (ok_gone_segs _ _ _ Hg x) as He. unfold base in Hgp. destruct (g_segs g) as [|y l] eqn:E; [by apply app_nil in E as [_ ?]|].
    destruct (He y Hx ltac:(left)) as [_ Hle]. unfold gs_end, len in Hle. lia. }
  destruct (Z.lt_ge_cases gp (gs_start x)) as [Hlt|Hge].
  2: { exists (gs_entry (SrcID c) false j x). split; [apply view_head; [done|by eapply durable_present]|].
    unfold covers, gs_entry. cbn. lia. }
  destruct (ok_chain _ _ _ Hg) as [st Hc].
  assert (base g = st) as Hst.
  { revert Hc. unfold base, g_segs. destruct (g_closed g ++ [g_act g]) as [|y l] eqn:E; [by apply app_nil in E as [_ ?]|].
    by intros [? _]. }
  destruct (chain_covers st (g_segs g) gp Hc) as (y & Hy & Hcov).
  { pose proof (durable_in _ _ _ Hx) as Hin. pose proof (chain_end _ _ Hc) as He.
    apply list_elem_of_split in Hin as (l1 & l2 & El). rewrite El in Hc |- *.
    rewrite foldl_app. cbn. split; [lia|].
    assert (forall l e, contiguous e l -> e <= foldl (fun _ => gs_end) e l) as Hmono.
    { induction l as [|z l IH]; intros e Hcl; cbn; [lia|]. destruct Hcl as [Hz Hcl]. specialize (IH _ Hcl).
      unfold gs_end in *. pose proof (len_nonneg (gs_recs z)). lia. }
    assert (contiguous (gs_end x) l2) as Hc2.
    { clear -Hc. revert Hc. generalize st. induction l1 as [|z l1 IH]; intros e; cbn; [by intros [_ ?]|intros [_ ?]; by eapply IH]. }
    specialize (Hmono _ _ Hc2). unfold gs_end in Hmono at 1. pose proof (len_nonneg (gs_recs x)). lia. }
  assert (y ∈ g_closed g) as Hyc.
  { unfold g_segs in Hy. apply elem_of_app in Hy as [?| ->%list_elem_of_singleton]; [done|].
    destruct Hx as [_ [Hx|(-> & _)]]; [|lia]. pose proof (act_last c g x Hg Hx) as Hl. unfold gs_end in Hl, Hcov.
    pose proof (len_nonneg (gs_recs x)). lia. }
  destruct (view_closed c g s y Hs Hyc) as (z & Hz & Hseq & [->|Hhz]).
  - exists (gs_line (SrcID c) y). split; [done|]. unfold covers, gs_line, gs_entry. cbn. unfold gs_end, len in Hcov. lia.
  - rewrite Hh in Hhz. injection Hhz as <-. change (gs_seq x = gs_seq y) in Hseq.
    rewrite (segs_seq_inj c g x y Hg (durable_in _ _ _ Hx)) in Hlt by (done || by apply closed_in_segs). lia.
Qed.

(** ** Properties *)


(** The reader does not get stuck: in every state such runs reach, as long as its
    position is below the end that the head pointer advertises, a call of [Next]
    without faults returns the packet at the position, with two rounds of its loop. *)
Theorem reader_makes_progress c es w r s seg :
  config_ok (applyDefaults c) -> steps (tstep c) first_tconf es (TConf (Some w) (Some r) s) ->
  head_pointer s = Some seg -> gpidx r < seg_EndGpidx seg ->
  forall clock rand, exists rec r' wd,
    Next 2 (r, World s [] clock rand) = (Ret (Some (rec, gpidx r)), (r', wd)) /\ gpidx r' = gpidx r + 1.
Proof.
  intros Hc Hs Hh Hlt ck rn. destruct (tail_run c es _ Hc Hs) as ([l p] & _ & g & Hw & Hb & Hri & _).
  pose proof (winv_served c g w s Hw) as Hsv.
  pose proof (wp_Next (applyDefaults c) no_faults no_faults_no_fail Hc g 0 r s Hsv Hri [] ck rn ltac:(constructor)) as H.
  destruct (Next 2 _) as [[[[rec gp]|]|e|] [r' wd]]; destruct H as [[_ H] _]; [|done| |done].
  - destruct H as (-> & Hg' & _). by exists rec, r', wd.
  - pose proof (ri_pos _ _ _ _ Hri) as Hpos. destruct H as (_ & _ & [[_ Hnc]|[_ Hlow]]); [|lia].
    destruct (view_covers _ g s seg (gpidx r) Hsv Hh) as (y & Hy & Hcov); [lia|].
    by destruct (proj1 (Forall_forall _ _) Hnc y Hy).
Qed.

(** A reader that starts before the first packet, tails over a rotation, and
    resumes after a crash. *)
Definition example_tail : list tevent :=
  let p1 := mkPcapRecord 1 2 1 [x61] in
  let p2 := mkPcapRecord 3 4 90 (replicate 90 x62) in
  let p3 := mkPcapRecord 5 6 1 [x63] in
  [TWriter EvStart; TOpen 0 0; TNext None; TWriter (EvWrite p1 0); TNext (Some (p1, 0)); TWriter (EvWrite p2 1);
   TNext (Some (p2, 1)); TWriter EvTick; TWriter (EvWrite p3 2); TNext (Some (p3, 2)); TNext None; TClose; TOpen 1 1;
   TWriter (EvCrash []); TWriter EvStart; TOpen 2 2].

Definition example_tail_end : tconf := exec_end (texec example_config) first_tconf example_tail.

Lemma example_tail_ok : exec_ok (texec example_config) first_tconf example_tail = true.
Proof. vm_compute. reflexivity. Qed.


(** The example, before the first packet is read. *)
Definition example_tail_mid : tconf := exec_end (texec example_config) first_tconf (take 4 example_tail).
Definition example_tail_writer : Writer := default new_object (t_writer example_tail_mid).
Definition example_tail_reader : Reader := default new_reader (t_reader example_tail_mid).
Definition example_tail_dir : fs := t_dir example_tail_mid.
Definition example_tail_seg : Segment := default zero_Segment (head_pointer example_tail_dir).

Lemma example_tail_mid_ok :
  exec_ok (texec example_config) first_tconf (take 4 example_tail) = true /\
  example_tail_mid = TConf (Some example_tail_writer) (Some example_tail_reader) example_tail_dir.
Proof. split; [vm_compute; reflexivity|]. unfold example_tail_writer, example_tail_reader, example_tail_dir. vm_compute. reflexivity. Qed.

Lemma reader_makes_progress_witness :
  exists rec r' wd, Next 2 (example_tail_reader, World example_tail_dir [] [] []) =
    (Ret (Some (rec, gpidx example_tail_reader)), (r', wd)) /\ gpidx r' = gpidx example_tail_reader + 1.
Proof.
  apply (reader_makes_progress example_config (take 4 example_tail) example_tail_writer example_tail_reader
    example_tail_dir example_tail_seg).
  - exact (proj1 example_steps).
  - rewrite <-(proj2 example_tail_mid_ok). apply texec_runs; [exact (proj1 example_steps)|].
    exact (exec_ok_end _ _ _ (proj1 example_tail_mid_ok)).
  - vm_compute. reflexivity.
  - vm_compute. reflexivity.
Defined.
