(* ===== verification/Lag.v ===== *)
(** * A reader under retention (internal/spool/reader.go, janitor.go)

    What a tailing reader and [Reap] do to each other on one directory: a segment
    that the reader has open is locked, so it is not deleted; everything else of
    the reader's view may be older than the directory. *)

From S2P Require Import Prelude Bytes GoIO Pcapio Os Keeps Durable Dir Runs Json Manifest Recover Spool Janitor SpoolSpec SpoolProof RecoverProof RestartProof SpoolProps Blind Retention ReapProof RetentionProps Reader ReaderProof TailProof TailProps.

(** ** A locked file is not deleted *)

Section Locked.
Context (F : fault -> Prop) (fd : nat) (n : list byte) (d : fdesc) (Hlock : fd_shared d = true).

Abbreviation calm := (keeps F (fun w s => not_own fd w /\ bystander fd n d s)).

Lemma calm_StatSize name : calm (StatSize name).
Proof.
  apply keeps_sys. intros w s a s' Hb. destruct (fs_dir s !! name) as [ino|]; [|done].
  destruct (fs_inodes s !! ino); [|done]. by intros [= _ <-].
Qed.

Lemma calm_ReadDir : calm ReadDir.
Proof. apply keeps_sys. by intros w s a s' Hb [= _ <-]. Qed.

#[local] Hint Resolve calm_StatSize calm_ReadDir keeps_try : keeps.

Lemma calm_tryReap path : calm (tryReap path).
Proof.
  intros w s [Hw (Hb1 & Hb2 & Hb3)]. unfold tryReap. apply wp_bind, wp_try, wp_sys; [by intros _|by intros _; apply wp_ret|].
  unfold open_call. destruct (fs_dir s !! path) as [ino|] eqn:Ep; cbn [O_CREATE O_EXCL O_TRUNC O_APPEND O_plain bind_post].
  2: { by apply wp_ret. }
  set (f := fs_next s). assert (fd <> f) as Hf by lia. change (open_ino ino false s) with (f, (open_ino ino false s).2).
  set (s1 := (open_ino ino false s).2). cbn [bind_post].
  assert (bystander fd n d s1) as Hb by (split_and!; cbn; [by rewrite lookup_insert_ne|done|lia]).
  assert (forall s2, bystander fd n d s2 -> bystander fd n d (set_fds (delete f) s2)) as Hclose.
  { intros s2 (C1 & C2 & C3). split_and!; cbn; [by rewrite lookup_delete_ne|done..]. }
  apply wp_with_close, wp_bind, wp_try, wp_sys; [by intros _|intros _; apply wp_ret; split; [done|by apply Hclose]|].
  unfold with_fd. assert (fs_fds s1 !! f = Some (Fdesc ino 0 false false)) as -> by apply lookup_insert_eq.
  cbn [fd_ino]. change (fs_inodes s1) with (fs_inodes s).
  destruct (fs_inodes s !! ino) as [i|]; cbn [bind_post]; [|apply wp_ret; split; [done|by apply Hclose]].
  destruct (bool_decide _) eqn:El; cbn [bind_post]; [|apply wp_ret; split; [done|by apply Hclose]].
  apply bool_decide_eq_true in El. apply wp_bind, wp_try, wp_sys; [by intros _|intros _; apply wp_ret; split; [done|by apply Hclose]|].
  change (fs_dir s1) with (fs_dir s). rewrite Ep. cbn [bind_post]. apply wp_ret. split; [done|]. apply Hclose.
  destruct Hb as (C1 & C2 & C3). split_and!; cbn; [done| |done]. rewrite lookup_delete_ne; [done|]. intros ->.
  destruct (El fd d C1) as [?|[?|?]]; [done| |congruence]. congruence.
Qed.

#[local] Hint Resolve calm_tryReap : keeps.

Lemma calm_reap_loop maxBytes seqs total deleted : calm (reap_loop maxBytes seqs total deleted).
Proof.
  revert total deleted. induction seqs as [|q seqs IH]; intros total deleted; cbn [reap_loop]; [apply keeps_ret|].
  apply keeps_if; [apply keeps_ret|]. apply keeps_get_any. intros w. apply keeps_bind; [auto with keeps|]. intros [size|e]; [|apply IH].
  apply keeps_bind; [auto with keeps|]. intros [|]; [|apply keeps_ret].
  apply keeps_bind; [by apply keeps_modify|]. intros _. apply IH.
Qed.

Lemma calm_Reap maxBytes : calm (Reap maxBytes).
Proof.
  apply keeps_if; [apply keeps_ret|]. apply keeps_bind.
  { apply keeps_get_any. intros w. apply keeps_bind; [apply keeps_try, keeps_bind; auto with keeps|]. intros [seqs|e]; [|apply keeps_ret].
    unfold stat_total. generalize 0. induction seqs as [|q seqs IH]; intros t; [apply keeps_ret|].
    cbn [foldr]. apply keeps_bind; [auto with keeps|]. intros r. apply IH. }
  intros total. apply keeps_if; [apply keeps_ret|]. apply keeps_get_any. intros w. apply keeps_bind.
  { unfold reap_candidates. induction (map_to_list (sealed w)) as [|kv l IH]; [apply keeps_ret|]. cbn [foldr].
    case_decide; [apply IH|]. apply keeps_bind; [auto with keeps|]. intros r. apply keeps_bind; [apply IH|]. intros t. apply keeps_ret. }
  intros cands. apply calm_reap_loop.
Qed.
End Locked.

(** ** The directory a reader sees *)

Section Lag.
Context (c0 : Config).
Abbreviation c := (applyDefaults c0).
Abbreviation src := (SrcID c).
Abbreviation snap := (Snaplen c).
Abbreviation link := (LinkType c).
Abbreviation gname := (gs_name src).

(** It is the one of the chain without the deleted segments. *)
Lemma retained_served g G k w s : retained c g G k w s -> spares k g -> served c (g_drop k g) s.
Proof.
  intros Hr Hsp. pose proof (retained_unused c0 g G k w s Hr) as (Hm & _). pose proof (retained_wf _ _ _ _ _ _ Hr) as Hwf.
  pose proof (winv_served c0 g w _ (rt_winv _ _ _ _ _ _ Hr)) as (Hd & Hman & _).
  destruct Hr as [Hr _ _]. split; [|split; [|done]].
  - apply (reaped_disk c g G k (current s)); [exact Hd|apply Hr|done|apply Hr|done].
  - unfold man_whole, man_lines in *. rewrite old_drop. unfold content in *. cbn in Hman |- *. by rewrite lookup_restored in Hman.
Qed.

(** Its packets, as the log numbers them. *)
Lemma retained_base g G k w s : retained c g G k w s -> spares k g -> base (g_drop k g) = oldestGpidx w.
Proof.
  intros Hr Hsp. rewrite (rt_oldest _ _ _ _ _ _ Hr).
  by apply (hist_drop c); [apply (re_disk _ _ _ _ _ (rt_reaped _ _ _ _ _ _ Hr))|apply spares_le].
Qed.

Lemma retained_hist g G k w s gp rec :
  retained c g G k w s -> spares k g -> base (g_drop k g) <= gp ->
  hist (g_drop k g) !! Z.to_nat (gp - base (g_drop k g)) = Some rec -> hist g !! Z.to_nat (gp - base g) = Some rec.
Proof.
  intros Hr Hsp Hgp. destruct (hist_drop c k g) as (_ & Hb & ->);
    [apply (re_disk _ _ _ _ _ (rt_reaped _ _ _ _ _ _ Hr))|by apply spares_le|].
  rewrite lookup_drop. intros <-. f_equal. lia.
Qed.

(** ** The reader's steps *)

Lemma retained_outside g G k w r s s' :
  retained c g G k w s -> not_shared w r -> outside r s s' -> retained c g G k w s'.
Proof.
  intros [Hr Hw Ho] Hn [Hid Hk]. assert (idle (restored G s) (restored G s')) as Hid'.
  { destruct Hid as [I1 I2 I3 I4 I5]. split; cbn; try done; [by rewrite I2|by rewrite I3]. }
  split; [|by apply (winv_outside c0 g w r (restored G s))|done].
  destruct Hr as [[Hg Hd] R2 R3 R4 R5]. split; try done.
  - split; [done|]. by eapply dir_idle.
  - by rewrite (id_dir _ _ Hid).
  - intros d. rewrite (idle_versions _ _ Hid). apply R5.
Qed.

Lemma own_not_shared_retained g G k w r r' s s' :
  retained c g G k w s -> not_shared w r -> own_fd (fs_next s) (rd_file r) r' s' -> not_shared w r'.
Proof.
  intros [_ Hw _] Hn [H1 H2]. apply (own_not_shared c0 g w r r' (restored G s) (restored G s') Hw Hn). by split.
Qed.

(** ** The writer's steps *)

(** Durable packets stay, also in the chain without the deleted segments. *)
Lemma keeps_drop k g g' :
  ghost_ok snap link g -> spares k g -> keeps_segs g g' -> seals g g' -> keeps_segs (g_drop k g) (g_drop k g').
Proof.
  intros Hg Hsp Hk [_ [t Ht]] x j [Hj Hx]. pose proof (spares_le k g Hsp) as Hle.
  assert (forall y, y ∈ drop k (g_closed g) -> y ∈ drop k (g_closed g')) as Hclosed.
  { intros y Hy. rewrite Ht, drop_app_le by done. rewrite elem_of_app. by left. }
  destruct Hx as [Hx|(-> & Hs & Hr & Ha)]; cbn in *.
  { exists x. split; [split; [done|left; by apply Hclosed]|done]. }
  destruct (Hk (g_act g) j) as (x' & [Hj' Hx'] & H1 & H2 & H3); [split; [exact Hj|by right]|].
  exists x'. split; [split; [done|]|done]. destruct Hx' as [Hx'|Hx']; [left|by right]. cbn.
  rewrite <-(take_drop k (g_closed g')) in Hx'. apply elem_of_app in Hx' as [Hx'|?]; [exfalso|done].
  rewrite Ht, take_app_le in Hx' by done. apply subseteq_take in Hx'.
  pose proof (proj1 (Forall_forall _ _) (proj2 (closed_seqs c g Hg)) x' Hx') as Hlt. cbn in Hlt. lia.
Qed.

Lemma rinv_writer g g' G k w w' r s s' e :
  config_ok c -> retained c g G k w s -> spares k g -> rinv c (g_drop k g) r s -> not_shared w r ->
  step c0 (Conf (Some w) s) e (Conf (Some w') s') ->
  (exists rs, evolves rs g g') -> retained c g' G k w' s' -> oldestGpidx w' = oldestGpidx w ->
  rinv c (g_drop k g') r s' /\ not_shared w' r.
Proof.
  intros Hc Hr Hsp Hri Hn Hs (rs & He) Hr' Ho. destruct He as (_ & Hd & _ & _ & Hk & Hse).
  assert (spares k g') as Hsp' by (by eapply spares_seals).
  pose proof (retained_wf _ _ _ _ _ _ Hr) as Hwf. pose proof (retained_served g G k w s Hr Hsp) as [[Hg _] _].
  split.
  - apply (rinv_keeps c0 (g_drop k g) (g_drop k g') r s s'); try done.
    + by rewrite (retained_base g' G k w' s'), (retained_base g G k w s).
    + apply keeps_drop; try done. apply (re_disk _ _ _ _ _ (rt_reaped _ _ _ _ _ _ Hr)).
    + cbn. destruct Hse as [-> [t ->]]. by rewrite take_app_le by (by apply spares_le).
    + by eapply retained_wf.
    + intros fd n d Hfd Hby Ht. exact (proj2 (running_bystander _ _ _ _ _ _ _ _ _ Hs Ht (Hn _ Hfd) Hby)).
  - intros fd Hfd. pose proof (ri_file _ _ _ _ Hri) as Hrf. unfold rfile in Hrf. rewrite Hfd in Hrf.
    destruct Hrf as (x & j & d & i & Hx & [O1 O2 O3] & _).
    eapply (running_bystander c0 w s e w' s' fd (gname x) d); [done|by eapply segment_untouched, durable_in|by apply Hn|].
    split_and!; [done..|by eapply (wf_fds s Hwf)].
Qed.

(** ** Retention's steps *)

Lemma durable_dropped g k k' x j :
  (k <= k')%nat -> durable_seg (g_drop k g) x j ->
  durable_seg (g_drop k' g) x j \/ (x ∈ g_gone (g_drop k' g) /\ (j <= length (gs_recs x))%nat).
Proof.
  intros Hk [Hj [(i & Hi & Hx)%elem_of_drop_closed|Hx]]; [|left; by split; [|right]].
  destruct (Nat.lt_ge_cases i k') as [Hlt|Hge].
  - right. split; [|done]. cbn. rewrite elem_of_app. right. apply elem_of_take. by exists i.
  - left. split; [done|left]. apply elem_of_drop_closed. by exists i.
Qed.

Lemma seen_dropped g k k' seg : (k <= k')%nat -> seen c (g_drop k g) seg -> seen c (g_drop k' g) seg.
Proof.
  intros Hk (x & j & b & -> & [Hx|[Hx Hj]]); exists x, j, b; (split; [done|]).
  - by apply (durable_dropped g k).
  - right. split; [|done]. cbn in *. apply elem_of_app in Hx as [Hx|Hx]; rewrite elem_of_app; [by left|right].
    apply elem_of_take in Hx as (i & Hx & Hi). apply elem_of_take. exists i. split; [done|lia].
Qed.

(** What was deleted was not open. *)
Lemma rinv_reaping g G k w r s G' k' w' s' :
  retained c g G k w s -> spares k g -> rinv c (g_drop k g) r s ->
  retained c g G' k' w' s' -> spares k' g -> (k <= k')%nat ->
  (forall fd n d, rd_file r = Some fd -> fd_shared d = true -> bystander fd n d s -> bystander fd n d s') ->
  rinv c (g_drop k' g) r s'.
Proof.
  intros Hr Hsp [R1 R2 R3 R4 R5 R6] Hr' Hsp' Hk Hby. pose proof (retained_wf _ _ _ _ _ _ Hr) as Hwf.
  pose proof (retained_wf _ _ _ _ _ _ Hr') as Hwf'.
  split; try done.
  - eapply Forall_impl; [exact R3|]. intros seg. by apply seen_dropped.
  - rewrite (retained_base g G' k' w' s') by done. rewrite (retained_base g G k w s) in R4 by done.
    rewrite (rt_oldest _ _ _ _ _ _ Hr) in R4. rewrite (rt_oldest _ _ _ _ _ _ Hr').
    pose proof (oldest_mono c0 g k k' (proj1 (re_disk _ _ _ _ _ (rt_reaped _ _ _ _ _ _ Hr))) (conj Hk (spares_le _ _ Hsp'))). lia.
  - unfold rfile in *. destruct (rd_file r) as [fd|] eqn:Efd; [|done].
    destruct R6 as (x & j & d & i & Hx & [O1 O2 O3] & Hlk & Hs & Hgp & Ho).
    destruct (Hby fd (gname x) d) as (B1 & B2 & B3); [done..|split_and!; [done..|by eapply (wf_fds s Hwf)]|].
    destruct (wf_dirs s' Hwf' (fs_dir s') (gname x) (fd_ino d)) as [_ [i' Hi']]; [left|done|].
    exists x, j, d, i'. split; [|by split_and!].
    destruct (durable_dropped g k k' x j Hk Hx) as [?|[Hg _]]; [done|exfalso].
    pose proof (gone_no_file c _ s' x (retained_served g G' k' w' s' Hr' Hsp') Hg). congruence.
Qed.
End Lag.
