(* ===== verification/LagProps.v ===== *)
(** * The writer, retention and a tailing reader on one directory

    The capture process writes the spool and deletes its oldest segments, the
    serve process reads it, one operation at a time and with host crashes: what the
    reader returns are the packets of the log in order, or that retention went past
    its position, and only when it did. *)

From S2P Require Import Prelude Bytes GoIO Pcapio Os Keeps Durable Dir Runs Json Manifest Recover Spool Janitor SpoolSpec SpoolProof RecoverProof RestartProof SpoolProps Blind Retention ReapProof RetentionProps Reader ReaderProof TailProof TailProps Lag.

(** ** The system *)

Inductive levent : Type :=
  | LWriter (e : revent)
  | LOpen (from at_ : Z) (reaped : bool)       (** what [OpenReader] returns *)
  | LNext (o : res (option (PcapRecord * Z)))  (** what [Next] returns; [None] out of rounds *)
  | LClose.

Definition next_result (o : outcome (option (PcapRecord * Z))) : option (res (option (PcapRecord * Z))) :=
  match o with
  | Ret x => Some (Ok x)
  | Fail e => Some (Err e)
  | Crashed => None
  end.

(** As [TailProps.tstep], with a writer that reaps. *)
Inductive lstep (c : Config) : tconf -> levent -> tconf -> Prop :=
  | lstep_running w r s e w' s' :
      rstep c (Conf (Some w) s) e (Conf (Some w') s') ->
      lstep c (TConf (Some w) r s) (LWriter e) (TConf (Some w') r s')
  | lstep_start s e w' s' :
      rstep c (Conf None s) e (Conf w' s') -> lstep c (TConf None None s) (LWriter e) (TConf w' None s')
  | lstep_stop w r s e s' :
      rstep c (Conf (Some w) s) e (Conf None s') -> lstep c (TConf (Some w) r s) (LWriter e) (TConf None None s')
  | lstep_open w s from r0 faults clock rand at_ reaped r wd :
      is_uint 64 from -> Forall crash_only faults ->
      OpenReader (SrcID (applyDefaults c)) (Snaplen (applyDefaults c)) from (r0, World s faults clock rand) =
        (Ret (at_, reaped), (r, wd)) ->
      lstep c (TConf (Some w) None s) (LOpen from at_ reaped) (TConf (Some w) (Some r) (w_fs wd))
  | lstep_open_crash w s from r0 faults clock rand r wd s' :
      is_uint 64 from -> Forall crash_only faults ->
      OpenReader (SrcID (applyDefaults c)) (Snaplen (applyDefaults c)) from (r0, World s faults clock rand) =
        (Crashed, (r, wd)) -> crash_fs (w_fs wd) s' ->
      lstep c (TConf (Some w) None s) (LWriter (RSpool (EvCrash []))) (TConf None None s')
  | lstep_next w r s fuel faults clock rand o x r' wd :
      Forall crash_only faults ->
      Next (S (S fuel)) (r, World s faults clock rand) = (o, (r', wd)) -> next_result o = Some x ->
      lstep c (TConf (Some w) (Some r) s) (LNext x) (TConf (Some w) (Some r') (w_fs wd))
  | lstep_next_crash w r s fuel faults clock rand r' wd s' :
      Forall crash_only faults ->
      Next (S (S fuel)) (r, World s faults clock rand) = (Crashed, (r', wd)) -> crash_fs (w_fs wd) s' ->
      lstep c (TConf (Some w) (Some r) s) (LWriter (RSpool (EvCrash []))) (TConf None None s')
  | lstep_close w r s faults clock rand o r' wd :
      Forall crash_only faults ->
      Reader_Close (r, World s faults clock rand) = (o, (r', wd)) -> o <> Crashed ->
      lstep c (TConf (Some w) (Some r) s) LClose (TConf (Some w) None (w_fs wd)).

(** The log that loses packets at its old end, and the position of the reader;
    [Next] does not run out of rounds. *)
Inductive lag_step : rlog * option Z -> levent -> rlog * option Z -> Prop :=
  | lag_writer l e l' p :
      rlog_step l e l' -> lag_step (l, p) (LWriter e) (l', p)
  | lag_stop l e l' p :
      rlog_step l e l' -> lag_step (l, p) (LWriter e) (l', None)
  | lag_open l from at_ :
      at_ = from \/ at_ = r_oldest l -> r_oldest l <= at_ <= r_durable l ->
      lag_step (l, None) (LOpen from at_ (from <? r_oldest l)) (l, Some at_)
  | lag_packet l p rec :
      r_oldest l <= p < r_durable l -> r_packets l !! Z.to_nat (p - r_base l) = Some rec ->
      lag_step (l, Some p) (LNext (Ok (Some (rec, p)))) (l, Some (p + 1))
  | lag_idle l p : lag_step (l, Some p) (LNext (Err spool_ErrNoData)) (l, Some p)
  | lag_behind l p e :
      e = spool_ErrReaped \/ e = os_ErrNotExist -> p < r_oldest l ->
      lag_step (l, Some p) (LNext (Err e)) (l, Some p)
  | lag_close l p : lag_step (l, Some p) LClose (l, None).

(** ** The refinement *)

Section LagSystem.
Context (c0 : Config).
Abbreviation c := (applyDefaults c0).
Abbreviation src := (SrcID c).
Abbreviation snap := (Snaplen c).
Context (Hcfg : config_ok c).

Definition lrel (k : tconf) (a : rlog * option Z) : Prop :=
  match k with
  | TConf (Some w) (Some r) s => exists g G n, retained c g G n w s /\ spares n g /\
      rinv c (g_drop n g) r s /\ not_shared w r /\ a = (ghost_rlog g (oldestGpidx w), Some (gpidx r))
  | TConf w None s => rrel c0 (Conf w s) a.1 /\ a.2 = None
  | TConf None (Some _) _ => False
  end.

(** The host dies while the reader runs. *)
Lemma lag_crash g G n w r s s1 s' :
  retained c g G n w s -> spares n g -> not_shared w r -> outside r s s1 -> crash_fs s1 s' ->
  exists l', rlog_step (ghost_rlog g (oldestGpidx w)) (RSpool (EvCrash [])) l' /\ rrel c0 (Conf None s') l'.
Proof.
  intros Hr Hsp Hn Hout Hcr. pose proof (retained_outside c0 g G n w r s s1 Hr Hn Hout) as Hr1.
  apply (rstep_log c0 (Conf (Some w) s1) _ (Conf None s') _ Hcfg); [by apply rstep_spool, step_crash|].
  by exists g, G, n.
Qed.

Lemma lag_running g G n w r s e w' s' :
  retained c g G n w s -> spares n g -> rinv c (g_drop n g) r s -> not_shared w r ->
  rstep c0 (Conf (Some w) s) e (Conf (Some w') s') ->
  exists a', lag_step (ghost_rlog g (oldestGpidx w), Some (gpidx r)) (LWriter e) a' /\ lrel (TConf (Some w') (Some r) s') a'.
Proof.
  intros Hr Hsp Hri Hn Hs. inversion Hs as [? e' ? Hs'|? ? fl ck rn mx nn ? wd Hfl Hrun Hspd|]; subst.
  - destruct (retained_running c0 g G n w s e' w' s' Hr Hsp Hs') as (rs & g' & He & Hr' & Ho & Hl).
    eexists. split; [by apply lag_writer|]. exists g', G, n.
    destruct (rinv_writer c0 g g' G n w w' r s s' e' Hcfg Hr Hsp Hri Hn Hs' (ex_intro _ rs He) Hr' Ho) as [Hri' Hn'].
    split_and!; try done. eapply spares_seals; [done|apply He].
  - destruct (retained_reaping c0 g G n w s mx nn fl ck rn w' wd Hr Hsp Hfl Hrun Hspd) as (G' & k' & Hk & Hr' & Hsp' & Hl).
    assert (forall fd nm d, rd_file r = Some fd -> fd_shared d = true -> bystander fd nm d s ->
      not_own fd w' /\ bystander fd nm d (w_fs wd)) as Hby.
    { intros fd nm d Hfd Hlk Hb.
      exact (wp_run _ _ _ _ (World s fl ck rn) _ _ _ (calm_Reap any_fault fd nm d Hlk mx w s (conj (Hn _ Hfd) Hb)) eq_refl (any_fault_all _) Hrun). }
    eexists. split; [by apply lag_writer|]. exists g, G', k'. split_and!; try done.
    + eapply (rinv_reaping c0 g G n w); try done. intros fd nm d Hfd Hlk Hb. by apply Hby.
    + intros fd Hfd. pose proof (ri_file _ _ _ _ Hri) as Hrf. unfold rfile in Hrf. rewrite Hfd in Hrf.
      destruct Hrf as (x & j & d & i & Hx & [O1 O2 O3] & Hlk & _). eapply (Hby fd _ d); [done..|].
      split_and!; [done..|]. by eapply (wf_fds s (retained_wf _ _ _ _ _ _ Hr)).
Qed.

Lemma lstep_lag k e k' a :
  lstep c0 k e k' -> lrel k a -> exists a', lag_step a e a' /\ lrel k' a'.
Proof.
  intros Ht Hr. destruct Ht as [w r s e w' s' Hs|s e w' s' Hs|w r s e s' Hs|w s from r0 fl ck rn at_ rp r wd Hf HF Hrun|
    w s from r0 fl ck rn r wd s' Hf HF Hrun Hcr|w r s fuel fl ck rn o x r' wd HF Hrun Ho|
    w r s fuel fl ck rn r' wd s' HF Hrun Hcr|w r s fl ck rn o r' wd HF Hrun Ho].
  - destruct r as [r|].
    + destruct Hr as (g & G & n & Hr & Hsp & Hri & Hn & ->). by eapply lag_running.
    + destruct a as [l p], Hr as [Hr Hp]. cbn in Hr, Hp. subst p.
      destruct (rstep_log c0 _ _ _ _ Hcfg Hs Hr) as (l' & Hl & Hr'). exists (l', None). split; [by apply lag_writer|done].
  - destruct a as [l p], Hr as [Hr Hp]. cbn in Hr, Hp. subst p.
    destruct (rstep_log c0 _ _ _ _ Hcfg Hs Hr) as (l' & Hl & Hr'). exists (l', None). split; [by apply lag_writer|by destruct w'].
  - assert (exists l p, a = (l, p) /\ rrel c0 (Conf (Some w) s) l) as (l & p & -> & Hl).
    { destruct r as [r|]; [|destruct a as [l p]; by exists l, p; split; [|apply Hr]].
      destruct Hr as (g & G & n & Hr & Hsp & _ & _ & ->). eexists _, _. split; [done|]. by exists g, G, n. }
    destruct (rstep_log c0 _ _ _ _ Hcfg Hs Hl) as (l' & Hl' & Hr'). exists (l', None). split; [by apply lag_stop|done].
  - destruct a as [l p], Hr as [Hr Hp]. cbn in Hr, Hp. subst p. destruct Hr as (g & G & n & Hr & Hsp & <-).
    pose proof (retained_served c0 g G n w s Hr Hsp) as Hsv. pose proof (retained_base c0 g G n w s Hr Hsp) as Hb.
    pose proof (wp_run _ _ _ _ (World s fl ck rn) _ _ _ (wp_OpenReader c0 crash_only crash_only_no_fail _ from r0 s Hsv Hf) eq_refl HF Hrun)
      as (Hid & Hk & -> & Hat & Hgp & Hri).
    pose proof (wp_run _ _ _ _ (World s fl ck rn) _ _ _ (own_OpenReader any_fault src snap from r0 s) eq_refl (any_fault_all _) Hrun) as Hown.
    pose proof (ri_pos _ _ _ _ Hri) as Hpos. pose proof (base_range c _ (proj1 (proj1 Hsv))) as Hrange. rewrite Hb in *.
    exists (ghost_rlog g (oldestGpidx w), Some at_). split.
    + apply lag_open; cbn.
      * rewrite Hat. destruct (from <? oldestGpidx w), (rd_head r <? from); auto.
      * change (durable_end g) with (durable_end (g_drop n g)). split; [|lia]. rewrite Hat.
        destruct (Z.ltb_spec from (oldestGpidx w)), (rd_head r <? from); cbn; lia.
    + set (rn0 := mkReader src snap [] 0 0 0 None 0 0). assert (not_shared w rn0) as Hn0 by done.
      exists g, G, n. split_and!; try done; [|by apply (own_not_shared_retained c0 g G n w rn0 r s (w_fs wd))|by rewrite Hgp].
      eapply (retained_outside c0 g G n w rn0); [done|done|]. split; [done|by apply kept_fds_all].
  - destruct a as [l p], Hr as [Hr Hp]. cbn in Hr, Hp. subst p. destruct Hr as (g & G & n & Hr & Hsp & <-).
    pose proof (wp_run _ _ _ _ (World s fl ck rn) _ _ _ (wp_OpenReader c0 crash_only crash_only_no_fail _ from r0 s
      (retained_served c0 g G n w s Hr Hsp) Hf) eq_refl HF Hrun) as (Hid & Hk & _).
    set (rn0 := mkReader src snap [] 0 0 0 None 0 0).
    destruct (lag_crash g G n w rn0 s (w_fs wd) s' Hr Hsp) as (l' & Hl & Hr'); [done|split; [done|by apply kept_fds_all]|done|].
    exists (l', None). split; [by apply lag_stop|done].
  - destruct Hr as (g & G & n & Hr & Hsp & Hri & Hn & ->).
    pose proof (retained_served c0 g G n w s Hr Hsp) as Hsv. pose proof (retained_base c0 g G n w s Hr Hsp) as Hb.
    pose proof (wp_run _ _ _ _ (World s fl ck rn) _ _ _
      (wp_Next c crash_only crash_only_no_fail Hcfg _ fuel r s Hsv Hri) eq_refl HF Hrun) as [Hout Hp].
    pose proof (wp_run _ _ _ _ (World s fl ck rn) _ _ _
      (own_Next any_fault (fs_next s) (rd_file r) (S (S fuel)) r s (conj (Nat.le_refl _) (fun fd H => or_introl H)))
      eq_refl (any_fault_all _) Hrun) as Hown.
    assert (retained c g G n w (w_fs wd)) as Hr' by (by eapply retained_outside).
    assert (not_shared w r') as Hn' by (by apply (own_not_shared_retained c0 g G n w r r' s (w_fs wd))).
    destruct o as [[[rec gp]|]|e|]; [|done| |done]; injection Ho as <-.
    + destruct Hp as (-> & Hg' & Hri' & Hlt & Hrec). exists (ghost_rlog g (oldestGpidx w), Some (gpidx r + 1)). split.
      * apply lag_packet; [rewrite <-Hb; exact Hlt|]. exact (retained_hist c0 g G n w s (gpidx r) rec Hr Hsp (proj1 Hlt) Hrec).
      * exists g, G, n. split_and!; try done. by rewrite Hg'.
    + destruct Hp as (Hri' & Hg' & Hwhy). exists (ghost_rlog g (oldestGpidx w), Some (gpidx r)). split.
      * destruct Hwhy as [[-> _]|[He Hlow]]; [apply lag_idle|apply lag_behind; [done|]]. by rewrite Hb in Hlow.
      * exists g, G, n. split_and!; try done. by rewrite Hg'.
  - destruct Hr as (g & G & n & Hr & Hsp & Hri & Hn & ->).
    pose proof (wp_run _ _ _ _ (World s fl ck rn) _ _ _
      (wp_Next c crash_only crash_only_no_fail Hcfg _ fuel r s (retained_served c0 g G n w s Hr Hsp) Hri) eq_refl HF Hrun) as [Hout _].
    destruct (lag_crash g G n w r s (w_fs wd) s' Hr Hsp Hn Hout Hcr) as (l' & Hl & Hr').
    exists (l', None). split; [by apply lag_stop|done].
  - destruct Hr as (g & G & n & Hr & Hsp & Hri & Hn & ->).
    assert (outside r s (w_fs wd)) as Hout.
    { refine (wp_run _ _ _ _ (World s fl ck rn) _ _ _ (outside_Close r s _) eq_refl HF Hrun). by eapply retained_wf. }
    exists (ghost_rlog g (oldestGpidx w), None). split; [constructor|]. split; [|done]. exists g, G, n.
    split_and!; try done. by eapply retained_outside.
Qed.
End LagSystem.

(** ** Executing the system *)

Definition lexec (c : Config) (k : tconf) (e : levent) : option tconf :=
  let w0 := World (t_dir k) [] [] [] in
  match t_writer k, t_reader k, e with
  | w, None, LWriter e =>
      k' ← rexec c (Conf w (t_dir k)) e;
      Some (TConf (running k') None (directory k'))
  | Some w, Some r, LWriter e =>
      k' ← rexec c (Conf (Some w) (t_dir k)) e;
      Some (match running k' with
            | Some w' => TConf (Some w') (Some r) (directory k')
            | None => TConf None None (directory k')
            end)
  | Some w, None, LOpen from at_ reaped =>
      if decide (is_uint 64 from) then
        match OpenReader (SrcID (applyDefaults c)) (Snaplen (applyDefaults c)) from (new_reader, w0) with
        | (Ret (a, b), (r, wd)) => if decide ((a, b) = (at_, reaped)) then Some (TConf (Some w) (Some r) (w_fs wd)) else None
        | _ => None
        end
      else None
  | Some w, Some r, LNext o =>
      match Next 2 (r, w0), o with
      | (Ret x, (r', wd)), Ok y => if decide (x = y) then Some (TConf (Some w) (Some r') (w_fs wd)) else None
      | (Fail x, (r', wd)), Err y => if decide (x = y) then Some (TConf (Some w) (Some r') (w_fs wd)) else None
      | _, _ => None
      end
  | Some w, Some r, LClose =>
      match Reader_Close (r, w0) with
      | (Crashed, _) => None
      | (_, (_, wd)) => Some (TConf (Some w) None (w_fs wd))
      end
  | _, _, _ => None
  end.

Lemma lrel_wf c k a : lrel c k a -> fs_wf (t_dir k).
Proof.
  destruct k as [[w|] [r|] s]; [|intros [Hr _]; exact (rrel_wf c (Conf _ s) a.1 Hr)|done|intros [Hr _]; exact (rrel_wf c (Conf _ s) a.1 Hr)].
  intros (g & G & n & Hr & _). by eapply retained_wf.
Qed.

Lemma lexec_step c k e k' : fs_wf (t_dir k) -> lexec c k e = Some k' -> lstep c k e k'.
Proof.
  intros Hwf. unfold lexec. destruct k as [[w|] [r|] s]; cbn [t_writer t_reader t_dir] in *;
    destruct e as [e|from at_ rp|o|]; try discriminate; intros E.
  - destruct (rexec _ _ _) as [[w' s']|] eqn:Ex; [|done]. injection E as <-. apply rexec_step in Ex; [|done].
    cbn [running directory]. destruct w'; by constructor.
  - destruct (Next 2 _) as [[x|er|] [r' wd]] eqn:En; destruct o as [y|er']; try done; (case_decide; [|done]); simplify_eq.
    + by eapply (lstep_next c w r s 0 [] [] [] (Ret y)).
    + by eapply (lstep_next c w r s 0 [] [] [] (Fail er')).
  - destruct (Reader_Close _) as [[o'|er|] [r' wd]] eqn:En; [| |done]; simplify_eq.
    + by eapply (lstep_close c w r s [] [] [] (Ret _)).
    + by eapply (lstep_close c w r s [] [] [] (Fail _)).
  - destruct (rexec _ _ _) as [[w' s']|] eqn:Ex; [|done]. injection E as <-. apply rexec_step in Ex; [|done].
    cbn [running directory]. destruct w'; by constructor.
  - case_decide; [|done]. destruct (OpenReader _ _ _ _) as [[[a b]|er|] [r' wd]] eqn:En; [|done..].
    case_decide; [|done]. simplify_eq. by eapply (lstep_open c w s from _ [] [] []).
  - destruct (rexec _ _ _) as [[w' s']|] eqn:Ex; [|done]. injection E as <-. apply rexec_step in Ex; [|done].
    by constructor.
Qed.

Lemma lag_run c es k :
  config_ok (applyDefaults c) -> steps (lstep c) first_tconf es k ->
  exists a, steps lag_step (RLog 0 0 [] 0, None) es a /\ lrel c k a.
Proof.
  intros Hc Hs. apply (steps_sim (lstep c) lag_step (lrel c)) with (k := first_tconf); [|done|].
  - intros. by eapply lstep_lag.
  - split; [|done]. exact (empty_rrel c).
Qed.

Lemma lexec_runs c es k' :
  config_ok (applyDefaults c) -> exec_all (lexec c) first_tconf es = Some k' -> steps (lstep c) first_tconf es k'.
Proof.
  intros Hc He. apply (exec_steps (lstep c) (fun k => exists a, lrel c k a) (lexec c)); [| |done].
  - intros k1 e k2 [a Hr] E. pose proof (lexec_step c k1 e k2 (lrel_wf _ _ _ Hr) E) as Hs. split; [done|].
    destruct (lstep_lag c Hc k1 e k2 a Hs Hr) as (a' & _ & Hr'). eauto.
  - exists (RLog 0 0 [] 0, None). split; [exact (empty_rrel c)|done].
Qed.

(** ** Properties *)



(** Retention stops at the segment that a reader has open and goes on when it has
    moved; a second reader starts behind it and is overtaken before it reads. *)
Definition example_packet (n : Z) (x : Byte.byte) : PcapRecord := mkPcapRecord 1 n 0 (replicate 90 x).
Definition example_lag : list levent :=
  [LWriter (RSpool EvStart); LWriter (RSpool (EvWrite (example_packet 2 x61) 0));
   LWriter (RSpool (EvWrite (example_packet 3 x62) 1)); LWriter (RSpool (EvWrite (example_packet 4 x63) 2));
   LOpen 0 0 false; LNext (Ok (Some (stored (example_packet 2 x61), 0))); LWriter (RReap 100 0);
   LNext (Ok (Some (stored (example_packet 3 x62), 1))); LWriter (RReap 300 1); LClose;
   LOpen 0 1 true; LWriter (RReap 160 1); LNext (Err os_ErrNotExist); LClose;
   LOpen 1 2 true; LNext (Ok (Some (stored (example_packet 4 x63), 2))); LNext (Err spool_ErrNoData);
   LWriter (RSpool (EvCrash [])); LWriter (RSpool EvStart); LOpen 1 2 true].
Definition example_lag_end : tconf := exec_end (lexec example_config) first_tconf example_lag.

Lemma example_lag_ok : exec_ok (lexec example_config) first_tconf example_lag = true.
Proof. vm_compute. reflexivity. Qed.


(** The example, when the second reader has been overtaken. *)
Definition example_behind : tconf := exec_end (lexec example_config) first_tconf (take 12 example_lag).
Definition example_behind_writer : Writer := default new_object (t_writer example_behind).
Definition example_behind_reader : Reader := default new_reader (t_reader example_behind).
Definition example_behind_seg : Segment := default zero_Segment (head_pointer (t_dir example_behind)).

Lemma example_behind_ok :
  exec_ok (lexec example_config) first_tconf (take 12 example_lag) = true /\
  example_behind = TConf (Some example_behind_writer) (Some example_behind_reader) (t_dir example_behind).
Proof. split; [vm_compute; reflexivity|]. unfold example_behind_writer, example_behind_reader. vm_compute. reflexivity. Qed.


(** [Next] fails with the error of [os.Open], not with [ErrReaped], when retention
    deletes the segment of its position after the view was built. *)
Lemma overtaken_reader_open_error :
  exists w r s r' wd,
    steps (lstep example_config) first_tconf (take 12 example_lag) (TConf (Some w) (Some r) s) /\
    gpidx r < oldestGpidx w /\ Next 2 (r, World s [] [] []) = (Fail os_ErrNotExist, (r', wd)).
Proof.
  exists example_behind_writer, example_behind_reader, (t_dir example_behind),
    (Next 2 (example_behind_reader, World (t_dir example_behind) [] [] [])).2.1,
    (Next 2 (example_behind_reader, World (t_dir example_behind) [] [] [])).2.2.
  split; [|split].
  - rewrite <-(proj2 example_behind_ok). apply lexec_runs; [exact (proj1 example_steps)|].
    exact (exec_ok_end _ _ _ (proj1 example_behind_ok)).
  - vm_compute. reflexivity.
  - assert ((Next 2 (example_behind_reader, World (t_dir example_behind) [] [] [])).1 = Fail os_ErrNotExist) as H
      by (vm_compute; reflexivity).
    by rewrite <-H, <-run_parts.
Qed.
