(* ===== verification/Keylog.v ===== *)
(** * TLS keylog lines (internal/keylog, internal/collector/keylog.go)

    Validation of NSS keylog lines and the collector's keylog file. *)

From S2P Require Import Prelude Bytes GoIO Os Durable Dir.

(** ** Validation *)

Definition MaxLineLen : Z := 256.

Definition labels : list (list byte) :=
  [ str "CLIENT_RANDOM";
    str "CLIENT_EARLY_TRAFFIC_SECRET";
    str "CLIENT_HANDSHAKE_TRAFFIC_SECRET";
    str "SERVER_HANDSHAKE_TRAFFIC_SECRET";
    str "CLIENT_TRAFFIC_SECRET_0";
    str "SERVER_TRAFFIC_SECRET_0";
    str "EARLY_EXPORTER_SECRET";
    str "EXPORTER_SECRET" ].

Definition in_range (lo hi c : byte) : bool :=
  (Z_of_byte lo <=? Z_of_byte c) && (Z_of_byte c <=? Z_of_byte hi).

Definition isHex (b : list byte) : bool :=
  match b with
  | [] => false
  | _ => forallb (fun c => in_range x30 x39 c || in_range x61 x66 c || in_range x41 x46 c) b
  end.

Definition Valid (line : list byte) : bool :=
  let line := TrimSpace line in
  if (len line =? 0) || (MaxLineLen <? len line) then false
  else match Fields line with
       | [f0; f1; f2] =>
           bool_decide (f0 ∈ labels) &&
           (isHex f1 && (len f1 <=? 64) && isHex f2 && (len f2 <=? 96))
       | _ => false
       end.

(** ** The keylog file of the collector *)

Record KeylogSink : Type := mkKeylogSink {
  ks_f : nat;
  seen : gset (list byte)
}.

(** Every round takes a byte at least, so the bytes left are fuel enough. *)
Fixpoint discardLine (fuel : nat) (br : stream) : stream :=
  match fuel with
  | O => br
  | S fuel =>
      match ReadSlice br x0a with
      | (_, Some bufio_ErrBufferFull, br) => discardLine fuel br
      | (_, _, br) => br
      end
  end.

Fixpoint prime (fuel : nat) (br : stream) (seen : gset (list byte)) : gset (list byte) :=
  match fuel with
  | O => seen
  | S fuel =>
      let '(line, rerr, br) := ReadSlice br x0a in
      let seen := if Valid line then {[ TrimSpace line ]} ∪ seen else seen in
      match rerr with
      | None => prime fuel br seen
      | Some bufio_ErrBufferFull => prime fuel (discardLine (length (st_data br)) br) seen
      | Some _ => seen
      end
  end.

(** The object becomes the sink. *)
Definition OpenKeylogSink (path : list byte) : M KeylogSink unit :=
  existing ← try (OpenFile path O_plain);
  seen ← (match existing with
          | Err _ => mret ∅
          | Ok fd =>
              br ← FileStream fd;
              Close fd ;;
              mret (prime (S (length (st_data br))) br ∅)
          end);
  f ← OpenFile path (OFlags true false false true);
  modify (fun _ => mkKeylogSink f seen).

Definition KeylogSink_Write (line : list byte) : M KeylogSink unit :=
  if negb (Valid line) then mret ()
  else
    let key := TrimSpace line in
    s ← get;
    if bool_decide (key ∈ seen s) then mret ()
    else
      modify (fun s => mkKeylogSink (ks_f s) ({[ key ]} ∪ seen s)) ;;
      Write (ks_f s) (key ++ [x0a]).

Definition KeylogSink_Close : M KeylogSink unit :=
  s ← get; CloseErr (ks_f s).

(** ** Lemmas: trimming *)

Lemma HasPrefix_spec s p : HasPrefix s p = true <-> p `prefix_of` s.
Proof.
  unfold HasPrefix. rewrite bool_decide_eq_true. split.
  - intros <-. exists (drop (length p) s). by rewrite take_drop.
  - intros [k ->]. apply take_app_length.
Qed.

Lemma HasSuffix_spec s p : HasSuffix s p = true <-> p `suffix_of` s.
Proof.
  unfold HasSuffix. rewrite bool_decide_eq_true. split.
  - intros [Hl <-]. exists (take (length s - length p) s). by rewrite take_drop.
  - intros [k ->]. rewrite length_app. split; [lia|].
    rewrite Nat.add_sub. apply drop_app_length.
Qed.

Lemma space_encodings_ne : Forall (fun e => e <> []) space_encodings.
Proof. repeat constructor; discriminate. Qed.

Lemma space_prefix_pos s :
  match space_prefix s with
  | O => Forall (fun e => ~ e `prefix_of` s) space_encodings
  | n => exists e, e ∈ space_encodings /\ e `prefix_of` s /\ n = length e
  end.
Proof.
  unfold space_prefix. destruct (List.find _ _) as [e|] eqn:E.
  - apply find_some in E as [He%list_elem_of_In Hp%HasPrefix_spec].
    pose proof (proj1 (Forall_forall _ _) space_encodings_ne e He) as Hne.
    destruct e; [done|]. cbn [length]. eauto.
  - apply Forall_forall. intros e He Hp%HasPrefix_spec.
    apply find_none with (x := e) in E; [congruence|]. by apply list_elem_of_In.
Qed.

Lemma space_suffix_pos s :
  match space_suffix s with
  | O => Forall (fun e => ~ e `suffix_of` s) space_encodings
  | n => exists e, e ∈ space_encodings /\ e `suffix_of` s /\ n = length e
  end.
Proof.
  unfold space_suffix. destruct (List.find _ _) as [e|] eqn:E.
  - apply find_some in E as [He%list_elem_of_In Hp%HasSuffix_spec].
    pose proof (proj1 (Forall_forall _ _) space_encodings_ne e He) as Hne.
    destruct e; [done|]. cbn [length]. eauto.
  - apply Forall_forall. intros e He Hp%HasSuffix_spec.
    apply find_none with (x := e) in E; [congruence|]. by apply list_elem_of_In.
Qed.

(** Neither end is white space. *)
Definition trimmed (s : list byte) : Prop := space_prefix s = O /\ space_suffix s = O.

Lemma space_prefix_None s :
  Forall (fun e => ~ e `prefix_of` s) space_encodings -> space_prefix s = O.
Proof.
  intros H. pose proof (space_prefix_pos s) as Hp. destruct (space_prefix s); [done|].
  destruct Hp as (e & He & Hp & _). by destruct (proj1 (Forall_forall _ _) H e He).
Qed.

Lemma space_suffix_None s :
  Forall (fun e => ~ e `suffix_of` s) space_encodings -> space_suffix s = O.
Proof.
  intros H. pose proof (space_suffix_pos s) as Hp. destruct (space_suffix s); [done|].
  destruct Hp as (e & He & Hp & _). by destruct (proj1 (Forall_forall _ _) H e He).
Qed.

Lemma space_prefix_mono s t : t `prefix_of` s -> space_prefix s = O -> space_prefix t = O.
Proof.
  intros Ht Hs. pose proof (space_prefix_pos s) as Hp. rewrite Hs in Hp.
  apply space_prefix_None. eapply Forall_impl; [exact Hp|]. cbn.
  intros e He Hx. apply He. by etrans.
Qed.

Lemma trim_left_done fuel s :
  (length s <= fuel)%nat -> space_prefix (trim_left_fuel fuel s) = O.
Proof.
  revert s; induction fuel as [|fuel IH]; intros s Hl; cbn.
  { destruct s; [done|cbn in Hl; lia]. }
  pose proof (space_prefix_pos s) as Hp.
  destruct (space_prefix s) as [|n] eqn:E; [done|]. destruct Hp as (e & He & [k ->] & Hn).
  apply IH. rewrite length_drop. rewrite length_app in *. lia.
Qed.

Lemma trim_right_prefix fuel s : trim_right_fuel fuel s `prefix_of` s.
Proof.
  revert s; induction fuel as [|fuel IH]; intros s; cbn; [done|].
  destruct (space_suffix s); [done|]. etrans; [apply IH|]. apply prefix_take.
Qed.

Lemma trim_right_done fuel s :
  (length s <= fuel)%nat -> space_suffix (trim_right_fuel fuel s) = O.
Proof.
  revert s; induction fuel as [|fuel IH]; intros s Hl; cbn.
  { destruct s; [done|cbn in Hl; lia]. }
  pose proof (space_suffix_pos s) as Hp.
  destruct (space_suffix s) as [|n] eqn:E; [done|]. destruct Hp as (e & He & [k ->] & Hn).
  apply IH. rewrite length_take. rewrite length_app in *. lia.
Qed.

Lemma TrimSpace_trimmed s : trimmed (TrimSpace s).
Proof.
  unfold TrimSpace. cbn zeta. split; [|by apply trim_right_done].
  eapply space_prefix_mono; [apply trim_right_prefix|]. by apply trim_left_done.
Qed.

Lemma trim_left_fix fuel s : space_prefix s = O -> trim_left_fuel fuel s = s.
Proof. intros H. destruct fuel; cbn; by rewrite ?H. Qed.

Lemma trim_right_fix fuel s : space_suffix s = O -> trim_right_fuel fuel s = s.
Proof. intros H. destruct fuel; cbn; by rewrite ?H. Qed.

Lemma TrimSpace_fix s : trimmed s -> TrimSpace s = s.
Proof. intros [Hp Hs]. unfold TrimSpace. by rewrite trim_left_fix, trim_right_fix. Qed.

Lemma elem_of_snoc {A} (l : list A) x : x ∈ l ++ [x].
Proof. apply elem_of_app; right; left. Qed.

(** The encodings that hold a newline. *)
Lemma space_newline e : e ∈ space_encodings -> x0a ∈ e -> e = [x0a].
Proof.
  assert (forallb (fun e => negb (bool_decide (x0a ∈ e)) || bool_decide (e = [x0a])) space_encodings = true)
    as H by (vm_compute; reflexivity).
  rewrite forallb_forall in H. intros He%list_elem_of_In Hn. specialize (H e He).
  rewrite (bool_decide_true (x0a ∈ e)) in H by done. by apply bool_decide_eq_true in H.
Qed.

Lemma TrimSpace_newline k : trimmed k -> k <> [] -> TrimSpace (k ++ [x0a]) = k.
Proof.
  intros [Hp Hs] Hne. unfold TrimSpace. cbn zeta. rewrite trim_left_fix.
  - rewrite length_app, Nat.add_comm. cbn [length Nat.add trim_right_fuel].
    pose proof (space_suffix_pos (k ++ [x0a])) as H.
    destruct (space_suffix (k ++ [x0a])) as [|n] eqn:E.
    + exfalso. refine (proj1 (Forall_forall _ _) H [x0a] _ _); [|by exists k].
      unfold space_encodings. set_solver.
    + destruct H as (e & He & Hsuf & ->).
      apply suffix_snoc_inv in Hsuf as [->|(e' & -> & _)];
        [by destruct (proj1 (Forall_forall _ _) space_encodings_ne [] He)|].
      rewrite (space_newline _ He) by apply elem_of_snoc. cbn [length].
      rewrite length_app. cbn. rewrite Nat.add_sub, take_app_length. by apply trim_right_fix.
  - apply space_prefix_None, Forall_forall. intros e He [->|Hpre]%prefix_snoc_inv.
    + pose proof (space_newline _ He (elem_of_snoc k x0a)) as Hx.
      apply (f_equal length) in Hx. rewrite length_app in Hx. destruct k; [done|]. cbn in Hx. lia.
    + pose proof (space_prefix_pos k) as Hk. rewrite Hp in Hk.
      by apply (proj1 (Forall_forall _ _) Hk e He).
Qed.

(** ** Lemmas: keys *)

(** A line as the file stores it: valid, trimmed, without a line break. *)
Definition canonical (k : list byte) : Prop :=
  Valid k = true /\ TrimSpace k = k /\ x0a ∉ k.

#[export] Instance canonical_dec k : Decision (canonical k).
Proof. unfold canonical; apply _. Defined.

(** The file that holds the keys [ks]. *)
Definition key_file (ks : list (list byte)) : list byte := concat ((fun k => k ++ [x0a]) <$> ks).

Lemma TrimSpace_idem l : TrimSpace (TrimSpace l) = TrimSpace l.
Proof. apply TrimSpace_fix, TrimSpace_trimmed. Qed.

Lemma Valid_TrimSpace l k : TrimSpace l = TrimSpace k -> Valid l = Valid k.
Proof. unfold Valid. by intros ->. Qed.

Lemma Valid_length k : Valid k = true -> (0 < length (TrimSpace k) <= 256)%nat.
Proof.
  unfold Valid, MaxLineLen, len. cbv zeta.
  destruct (Z.eqb_spec (Z.of_nat (length (TrimSpace k))) 0); [done|].
  destruct (Z.ltb_spec 256 (Z.of_nat (length (TrimSpace k)))); [done|]. lia.
Qed.

Lemma canonical_line k :
  canonical k -> Valid (k ++ [x0a]) = true /\ TrimSpace (k ++ [x0a]) = k /\ (length k <= 256)%nat.
Proof.
  intros (Hv & Ht & _). pose proof (Valid_length k Hv) as Hl. rewrite Ht in Hl.
  assert (trimmed k) as Htr by (rewrite <-Ht; apply TrimSpace_trimmed).
  assert (TrimSpace (k ++ [x0a]) = k) as E.
  { apply TrimSpace_newline; [done|]. intros ->. cbn in Hl. lia. }
  split_and!; [|done|lia]. rewrite <-Hv. apply Valid_TrimSpace. congruence.
Qed.

Lemma IndexByte_app l c t : c ∉ l -> IndexByte (l ++ c :: t) c = Some (length l).
Proof.
  induction l as [|b l IH]; intros Hn; cbn; [by rewrite decide_True|].
  apply not_elem_of_cons in Hn as [Hb Hn]. rewrite decide_False by congruence. by rewrite IH.
Qed.

Lemma IndexByte_None l c : c ∉ l -> IndexByte l c = None.
Proof.
  induction l as [|b l IH]; intros Hn; cbn; [done|].
  apply not_elem_of_cons in Hn as [Hb Hn]. rewrite decide_False by congruence. by rewrite IH.
Qed.

Lemma ReadSlice_line l t e :
  x0a ∉ l -> (length l < 4096)%nat ->
  ReadSlice (Stream (l ++ x0a :: t) e) x0a = (l ++ [x0a], None, Stream t e).
Proof.
  intros Hn Hl. unfold ReadSlice, bufio_size. cbn [st_data st_end].
  rewrite take_app_ge by lia. destruct (4096 - length l)%nat eqn:E; [lia|]. cbn [take].
  rewrite IndexByte_app by done.
  replace (S (length l)) with (length (l ++ [x0a])) by (rewrite length_app; cbn; lia).
  change (x0a :: t) with ([x0a] ++ t). rewrite app_assoc. by rewrite take_app_length, drop_app_length.
Qed.

Lemma prime_keys ks fuel S :
  Forall canonical ks -> (length (key_file ks) < fuel)%nat ->
  prime fuel (Stream (key_file ks) io_EOF) S = list_to_set ks ∪ S.
Proof.
  revert fuel S; induction ks as [|k ks IH]; intros fuel S Hc Hf.
  - destruct fuel; [lia|]. cbn. set_solver.
  - inversion Hc as [|? ? Hk Hks]; subst. pose proof (canonical_line k Hk) as (Hv & Ht & Hl).
    unfold key_file in *. cbn [fmap list_fmap concat] in *. rewrite <-!app_assoc in *. cbn [app] in *.
    destruct fuel; [lia|]. cbn [prime]. rewrite ReadSlice_line by (try apply Hk; lia).
    rewrite Hv, Ht. rewrite IH; [set_solver|done|]. rewrite length_app in Hf. cbn in Hf. lia.
Qed.

(** ** The file over a run *)

(** What the lines [ws] add to a file that has the keys [ks]. *)
Fixpoint fresh_keys (ks : list (list byte)) (ws : list (list byte)) : list (list byte) :=
  match ws with
  | [] => []
  | w :: ws =>
      let key := TrimSpace w in
      if decide (Valid w = true /\ key ∉ ks) then key :: fresh_keys (ks ++ [key]) ws
      else fresh_keys ks ws
  end.

(** A process that opens the sink and writes [ws]. *)
Definition sink_run (path : list byte) (ws : list (list byte)) : M KeylogSink unit :=
  OpenKeylogSink path ;; foldr (fun w k => KeylogSink_Write w ;; k) (mret ()) ws.

(** A line that breaks nowhere inside. *)
Definition single_line (w : list byte) : Prop := x0a ∉ TrimSpace w.

#[export] Instance single_line_dec w : Decision (single_line w).
Proof. unfold single_line; apply _. Defined.

(** The open sink on a file that holds [ks]. *)
Record sink_inv (path : list byte) (ks : list (list byte)) (k : KeylogSink) (s : fs) : Prop := {
  sk_file : exists s0 d i, editing s0 s path (ks_f k) d i /\ fd_append d = true /\ i_data i = key_file ks;
  sk_seen : seen k = list_to_set ks
}.

(** What the file may hold: the keys, or no file at all. *)
Definition keys_at (s : fs) (path : list byte) (ks : list (list byte)) : Prop :=
  content s path = Some (key_file ks) \/ (content s path = None /\ ks = []).

Lemma sink_content path ks k s : sink_inv path ks k s -> content s path = Some (key_file ks).
Proof.
  intros [(s0 & d & i & He & _ & Hd) _]. unfold content. rewrite (ed_live _ _ _ _ _ _ He). cbn.
  rewrite (ed_inode _ _ _ _ _ _ He). cbn. congruence.
Qed.

Lemma key_file_app ks ks' : key_file (ks ++ ks') = key_file ks ++ key_file ks'.
Proof. unfold key_file. by rewrite fmap_app, concat_app. Qed.

Lemma overwrite_append data buf : overwrite (length data) buf data = data ++ buf.
Proof.
  unfold overwrite. rewrite firstn_all, Nat.sub_diag, drop_ge by lia. cbn. by rewrite app_nil_r.
Qed.

Section Run.
Context (path : list byte) (F : fault -> Prop) (HF : ~ can_fail F).

(** Opening: the keys in the file are known, nothing changes. *)
Lemma wp_OpenKeylogSink ks k s :
  fs_wf s -> keys_at s path ks -> Forall canonical ks ->
  wp F (OpenKeylogSink path)
     (fun o k' s' => match o with
                     | Ret _ => sink_inv path ks k' s'
                     | Fail _ => False
                     | Crashed => keys_at s' path ks
                     end) k s.
Proof.
  intros Hwf Hk Hc. unfold OpenKeylogSink.
  assert (forall s1 S, idle s s1 -> S = list_to_set ks ->
    wp F (f ← OpenFile path (OFlags true false false true); modify (fun _ => mkKeylogSink f S))
     (fun o k' s' => match o with
                     | Ret _ => sink_inv path ks k' s'
                     | Fail _ => False
                     | Crashed => keys_at s' path ks
                     end) k s1) as Hrest.
  { intros s1 S Hid ->. pose proof (idle_wf _ _ Hwf Hid) as Hwf1.
    pose proof (idle_content _ _ path Hid) as Hcon.
    apply wp_bind, wp_sys; [intros _; cbn; unfold keys_at; by rewrite Hcon|done|].
    destruct (open_create path (OFlags true false false true) s1) as (fd & ino & i & s2 & -> & Ho); [done..|].
    apply wp_modify. split; [|done]. cbn [ks_f]. exists s1, (Fdesc ino 0 true false), i.
    split; [by apply (editing_opened _ _ _ _ _ _ _ Ho)|split; [done|]].
    pose proof (op_which _ _ _ _ _ _ _ Ho) as Hw. unfold keys_at in Hk. rewrite <-Hcon in Hk. unfold content in Hk.
    destruct (fs_dir s1 !! path) as [ino0|] eqn:E; cbn in Hk.
    - destruct Hw as (-> & i0 & Hi0 & -> & _). cbn. rewrite Hi0 in Hk. cbn in Hk. naive_solver congruence.
    - destruct Hw as (_ & -> & _). destruct Hk as [|[_ ->]]; done. }
  apply wp_bind, wp_try, wp_sys; [by intros _|done|].
  change O_plain with (OFlags false false false false).
  destruct (fs_dir s !! path) as [ino|] eqn:E.
  - destruct (open_plain path ino s false Hwf E) as (i & s1 & -> & Hid & Ho & Hi & Hcon).
    cbn [bind_post]. apply wp_bind. apply wp_bind.
    apply (wp_FileStream _ _ _ _ _ _ (of_fd _ _ _ _ _ Ho) (of_inode _ _ _ _ _ Ho)); cbn [bind_post].
    + intros _. unfold keys_at. by rewrite (idle_content _ _ path Hid).
    + by intros n Hn.
    + apply wp_bind, wp_Close. cbn [bind_post]. apply wp_ret. cbn [bind_post]. apply Hrest.
      * eapply idle_trans; [exact Hid|]. apply idle_close. by eapply idle_wf.
      * destruct Hk as [Hk|[Hk _]]; rewrite Hcon in Hk; [injection Hk as Hk|done].
        cbn [fd_pos drop st_data]. rewrite drop_0, Hk. rewrite prime_keys by (try done; lia). set_solver.
  - unfold open_call at 1. rewrite E. cbn [bind_post O_CREATE O_plain]. apply wp_bind, wp_ret.
    cbn [bind_post]. apply Hrest; [by apply idle_refl|].
    unfold keys_at, content in Hk. rewrite E in Hk. cbn in Hk. destruct Hk as [|[_ ->]]; done.
Qed.

Lemma wp_KeylogSink_Write w ks k s :
  sink_inv path ks k s ->
  wp F (KeylogSink_Write w)
     (fun o k' s' => match o with
                     | Ret _ => sink_inv path (ks ++ fresh_keys ks [w]) k' s'
                     | Fail _ => False
                     | Crashed => content s' path = Some (key_file ks)
                     end) k s.
Proof.
  intros Hinv. pose proof Hinv as [(s0 & d & i & He & Ha & Hd) Hs]. unfold KeylogSink_Write. cbn [fresh_keys].
  destruct (Valid w) eqn:Hv; cbn [negb].
  2: { rewrite decide_False by naive_solver. apply wp_ret. by rewrite app_nil_r. }
  apply wp_bind, wp_get. cbn [bind_post]. rewrite Hs.
  case_bool_decide as Hin; rewrite elem_of_list_to_set in Hin.
  { rewrite decide_False by naive_solver. apply wp_ret. by rewrite app_nil_r. }
  rewrite decide_True by done. apply wp_bind, wp_modify. cbn [bind_post].
  apply (wp_Write _ _ _ _ _ d i); [apply He|apply He|intros _; by apply (sink_content _ _ k)|done..|].
  destruct (editing_write _ _ _ _ _ _ (TrimSpace w ++ [x0a]) He) as (d' & i' & He' & _ & Ha' & _ & _ & _ & Hd').
  split; cbn [ks_f seen].
  - exists s0, d', i'. split; [done|split; [congruence|]]. rewrite Ha in Hd'. rewrite Hd', overwrite_append, Hd.
    rewrite key_file_app. unfold key_file at 3. cbn. by rewrite app_nil_r.
  - rewrite Hs, list_to_set_app_L. cbn. set_solver.
Qed.

Lemma fresh_keys_cons ks w ws :
  fresh_keys ks (w :: ws) = fresh_keys ks [w] ++ fresh_keys (ks ++ fresh_keys ks [w]) ws.
Proof. cbn [fresh_keys]. case_decide; [done|]. cbn. by rewrite app_nil_r. Qed.

Lemma wp_sink_writes ws ks k s :
  sink_inv path ks k s ->
  wp F (foldr (fun w k => KeylogSink_Write w ;; k) (mret ()) ws)
     (fun o k' s' => match o with
                     | Ret _ => content s' path = Some (key_file (ks ++ fresh_keys ks ws))
                     | Fail _ => False
                     | Crashed => exists ks', ks' `prefix_of` fresh_keys ks ws /\
                                   content s' path = Some (key_file (ks ++ ks'))
                     end) k s.
Proof.
  revert ks k s; induction ws as [|w ws IH]; intros ks k s Hinv.
  - apply wp_ret. rewrite app_nil_r. by eapply sink_content.
  - cbn [foldr]. rewrite fresh_keys_cons. apply wp_bind. eapply wp_mono; [by apply wp_KeylogSink_Write|].
    intros [[]|e|] k' s' H; cbn [bind_post]; [|done|exists []; split; [apply prefix_nil|by rewrite app_nil_r]].
    eapply wp_mono; [by apply IH|]. intros [[]|e|] k2 s2; rewrite <-?app_assoc; [done..|].
    intros (ks' & Hp & Hc). exists (fresh_keys ks [w] ++ ks'). rewrite <-app_assoc in Hc.
    split; [by apply prefix_app|done].
Qed.
End Run.

(** Keys the file gets are canonical and new. *)
Lemma fresh_keys_canonical ks ws :
  Forall canonical ks -> NoDup ks -> Forall single_line ws ->
  Forall canonical (ks ++ fresh_keys ks ws) /\ NoDup (ks ++ fresh_keys ks ws).
Proof.
  revert ks; induction ws as [|w ws IH]; intros ks Hc Hn Hw; [by rewrite app_nil_r|].
  inversion Hw as [|? ? Hsw Hws]; subst. cbn [fresh_keys]. case_decide as Hd; [|by apply IH].
  destruct Hd as [Hv Hin]. rewrite (cons_middle _ ks), app_assoc. apply IH; [| |done].
  - apply Forall_app; split; [done|]. apply Forall_singleton. split_and!; [|apply TrimSpace_idem|done].
    rewrite <-Hv. apply Valid_TrimSpace, TrimSpace_idem.
  - apply NoDup_app. split_and!; [done| |apply NoDup_singleton]. intros x Hx ->%list_elem_of_singleton. done.
Qed.

(** ** Properties *)

(** C30: a process that opens the keylog file and receives the lines [ws], none
    broken inside, leaves exactly the keys that were there followed by the first
    occurrence of each new valid key; killed at any point it leaves a prefix of
    those, so the file never holds a malformed, oversized or repeated key. *)
Theorem KeylogSink_keys path ks ws x w o x' w' :
  fs_wf (w_fs w) -> keys_at (w_fs w) path ks -> Forall canonical ks -> NoDup ks -> Forall single_line ws ->
  Forall crash_only (w_faults w) ->
  sink_run path ws (x, w) = (o, (x', w')) ->
  exists ks', ks' `prefix_of` fresh_keys ks ws /\ (o = Ret () -> ks' = fresh_keys ks ws) /\
    keys_at (w_fs w') path (ks ++ ks') /\ (forall e, o <> Fail e) /\
    Forall canonical (ks ++ ks') /\ NoDup (ks ++ ks').
Proof.
  intros Hwf Hk Hc Hn Hsl Hfl Hrun. destruct (fresh_keys_canonical ks ws Hc Hn Hsl) as [Hc' Hn'].
  assert (forall ks', ks' `prefix_of` fresh_keys ks ws -> Forall canonical (ks ++ ks') /\ NoDup (ks ++ ks')) as Hpre.
  { intros ks' [t Ht]. rewrite Ht, app_assoc in Hc', Hn'. apply Forall_app in Hc' as [? _].
    by apply NoDup_app in Hn' as (? & _). }
  refine (wp_run _ (fun o _ s' => exists ks', ks' `prefix_of` fresh_keys ks ws /\
    (o = Ret () -> ks' = fresh_keys ks ws) /\ keys_at s' path (ks ++ ks') /\ (forall e, o <> Fail e) /\
    Forall canonical (ks ++ ks') /\ NoDup (ks ++ ks')) x (w_fs w) w o x' w' _ eq_refl Hfl Hrun).
  apply wp_bind. eapply wp_mono; [by apply (wp_OpenKeylogSink path _ crash_only_no_fail ks)|].
  intros [[]|e|] k1 s1 H1; cbn [bind_post]; [|done|].
  - eapply wp_mono; [by apply (wp_sink_writes path _ crash_only_no_fail ws ks)|].
    intros [[]|e|] k2 s2 H2; [|done|].
    + exists (fresh_keys ks ws). split_and!; [done..|by left|done|by apply Hpre|by apply Hpre].
    + destruct H2 as (ks' & Hp & H2). exists ks'. split_and!; [done..|by left|done|by apply Hpre|by apply Hpre].
  - exists []. rewrite app_nil_r. split_and!; [apply prefix_nil|done..].
Qed.

(** A TLS 1.2 key, and what a hook might emit next to it. *)
Definition sample_key : list byte := str "CLIENT_RANDOM 0a1b 2C3D".

Lemma KeylogSink_keys_witness :
  let ws := [sample_key ++ [x0a]; str "CLIENT_RANDOM 00"; sample_key] in
  let w := World empty_fs [] [] [] in
  let r := sink_run (str "keys.log") ws (mkKeylogSink 0 ∅, w) in
  exists ks', ks' `prefix_of` fresh_keys [] ws /\ keys_at (w_fs r.2.2) (str "keys.log") ks'.
Proof.
  intros ws w r.
  destruct (KeylogSink_keys (str "keys.log") [] ws (mkKeylogSink 0 ∅) w r.1 r.2.1 r.2.2) as (ks' & H1 & _ & H2 & _).
  - split; [done| |done]. by intros d n ino ->%list_elem_of_singleton.
  - by right.
  - constructor.
  - constructor.
  - apply (bool_decide_unpack _). vm_compute. exact I.
  - constructor.
  - subst r. by destruct (sink_run _ _ _) as [? [? ?]].
  - by exists ks'.
Defined.
