(* ===== verification/Conn.v ===== *)
(** * The writing side of a connection

    A connection whose writes may fail, and [bufio.Writer] on it.  What was handed
    to the writer arrives in order, and a write error is final. *)

From S2P Require Import Prelude Bytes GoIO Os.

(** The writing side of a connection: what was sent, and how the next writes go. *)
Record conn : Type := mkConn { sent : list byte; conn_faults : list fault }.

Definition conn_Write (b : list byte) (c : conn) : bool * conn :=
  match conn_faults c with
  | [] => (true, mkConn (sent c ++ b) [])
  | FOk :: fs => (true, mkConn (sent c ++ b) fs)
  | FShort n :: fs => (false, mkConn (sent c ++ take n b) fs)
  | FErr :: fs | FCrash :: fs => (false, mkConn (sent c) fs)
  end.

(** [bufio.Writer] of 256 KiB, as the agent makes it. *)
Definition bufwriter_size : Z := 256 * 2 ^ 10.

Record bufwriter : Type := mkBuf { bw_buf : list byte; bw_err : bool; bw_conn : conn }.

(** One [Write] of the connection with what the buffer holds; after an error the
    writer keeps it and fails for good. *)
Definition bufio_Flush (b : bufwriter) : bool * bufwriter :=
  if bw_err b then (false, b)
  else match bw_buf b with
  | [] => (true, b)
  | _ =>
      let '(ok, c) := conn_Write (bw_buf b) (bw_conn b) in
      (ok, if ok then mkBuf [] false c else mkBuf (bw_buf b) true c)
  end.

(** With an empty buffer a large slice is written directly. *)
Definition bufio_direct (p : list byte) (b : bufwriter) : bool * bufwriter :=
  let '(ok, c) := conn_Write p (bw_conn b) in (ok, mkBuf [] (negb ok) c).

Definition bufio_Write (p : list byte) (b : bufwriter) : bool * bufwriter :=
  if bw_err b then (false, b)
  else
    let available := bufwriter_size - len (bw_buf b) in
    if len p <=? available then (true, mkBuf (bw_buf b ++ p) false (bw_conn b))
    else match bw_buf b with
    | [] => bufio_direct p b
    | _ =>
        let n := Z.to_nat available in
        match bufio_Flush (mkBuf (bw_buf b ++ take n p) false (bw_conn b)) with
        | (false, b) => (false, b)
        | (true, b) =>
            let rest := drop n p in
            if len rest <=? bufwriter_size then (true, mkBuf rest false (bw_conn b)) else bufio_direct rest b
        end
    end.

(** ** What arrives *)

Lemma conn_Write_spec p c ok c' :
  conn_Write p c = (ok, c') ->
  exists q, sent c' = sent c ++ q /\ q `prefix_of` p /\ (ok = true -> q = p).
Proof.
  unfold conn_Write. destruct (conn_faults c) as [|[| |n|] fs]; intros [= <- <-]; cbn.
  1,2: by exists p.
  1,3: exists []; rewrite app_nil_r; split; [done|split; [apply prefix_nil|done]].
  exists (take n p). split; [done|]. split; [|done]. exists (drop n p). by rewrite take_drop.
Qed.

(** The bytes [l] were handed to the writer: all are sent or in the buffer, or a
    prefix was sent when a write failed. *)
Definition carries (b : bufwriter) (l : list byte) : Prop :=
  if bw_err b then sent (bw_conn b) `prefix_of` l else sent (bw_conn b) ++ bw_buf b = l.

Lemma carries_prefix b l : carries b l -> sent (bw_conn b) `prefix_of` l.
Proof. unfold carries. destruct (bw_err b); [done|]. intros <-. by apply prefix_app_r. Qed.

Lemma bufio_Flush_spec b l ok b' :
  carries b l -> bufio_Flush b = (ok, b') ->
  carries b' l /\ ok = negb (bw_err b') /\ (ok = true -> bw_buf b' = [] /\ sent (bw_conn b') = l).
Proof.
  unfold carries, bufio_Flush. destruct b as [buf err c]. cbn. destruct err.
  { by intros Hl [= <- <-]. }
  intros Hl. destruct buf as [|x buf]; [intros [= <- <-]; cbn; by rewrite app_nil_r in *|].
  destruct (conn_Write (x :: buf) c) as [ok' c'] eqn:E. apply conn_Write_spec in E as (q & Hq & Hp & Hok).
  intros [= <- <-]. destruct ok'; cbn.
  - specialize (Hok eq_refl) as ->. by rewrite app_nil_r, Hq.
  - rewrite Hq, <-Hl. split; [|done]. by apply prefix_app.
Qed.

Lemma bufio_direct_spec p b l ok b' :
  sent (bw_conn b) = l -> bufio_direct p b = (ok, b') -> carries b' (l ++ p) /\ ok = negb (bw_err b').
Proof.
  unfold carries, bufio_direct. intros <-. destruct (conn_Write p (bw_conn b)) as [ok' c'] eqn:E.
  apply conn_Write_spec in E as (q & Hq & Hp & Hok). intros [= <- <-]. cbn. destruct ok'; cbn.
  - specialize (Hok eq_refl) as ->. by rewrite app_nil_r.
  - rewrite Hq. split; [|done]. by apply prefix_app.
Qed.

Lemma bufio_Write_spec p b l ok b' :
  carries b l -> bufio_Write p b = (ok, b') -> carries b' (l ++ p) /\ ok = negb (bw_err b').
Proof.
  intros Hl. pose proof Hl as Hc. unfold carries in Hl. unfold bufio_Write. destruct (bw_err b) eqn:Ee.
  { intros [= <- <-]. unfold carries. rewrite Ee. split; [by apply prefix_app_r|done]. }
  destruct (_ <=? _). { intros [= <- <-]. unfold carries. cbn. by rewrite app_assoc, Hl. }
  destruct (bw_buf b) as [|x buf] eqn:Eb.
  { intros E. eapply bufio_direct_spec; [|done]. by rewrite app_nil_r in Hl. }
  set (n := Z.to_nat _). destruct (bufio_Flush _) as [ok1 b1] eqn:E1.
  apply (bufio_Flush_spec _ (l ++ take n p)) in E1 as (H1 & H2 & H3).
  2: { unfold carries. cbn [bw_err bw_conn bw_buf]. by rewrite <-Hl, app_assoc. }
  destruct ok1.
  - destruct (H3 eq_refl) as [Hb1 Hs1]. destruct (_ <=? _).
    + intros [= <- <-]. unfold carries. cbn. by rewrite Hs1, <-app_assoc, take_drop.
    + intros E. rewrite <-(take_drop n p), app_assoc. by eapply bufio_direct_spec.
  - intros [= <- <-]. split; [|done]. unfold carries in *. destruct (bw_err b1); [|done].
    rewrite <-(take_drop n p), app_assoc. by apply prefix_app_r.
Qed.

(** Nothing failed, and nothing will. *)
Definition quiet_line (b : bufwriter) : Prop := bw_err b = false /\ conn_faults (bw_conn b) = [].

Lemma conn_Write_quiet p c : conn_faults c = [] -> conn_Write p c = (true, mkConn (sent c ++ p) []).
Proof. unfold conn_Write. by intros ->. Qed.

Lemma bufio_Flush_quiet b : quiet_line b -> exists b', bufio_Flush b = (true, b') /\ quiet_line b'.
Proof.
  intros [He Hf]. unfold bufio_Flush. rewrite He. destruct (bw_buf b) eqn:Eb; [by exists b|].
  rewrite conn_Write_quiet by done. by eexists.
Qed.

Lemma bufio_direct_quiet p b : quiet_line b -> exists b', bufio_direct p b = (true, b') /\ quiet_line b'.
Proof. intros [_ Hf]. unfold bufio_direct. rewrite conn_Write_quiet by done. by eexists. Qed.

Lemma bufio_Write_quiet p b : quiet_line b -> exists b', bufio_Write p b = (true, b') /\ quiet_line b'.
Proof.
  intros Hq. pose proof Hq as [He Hf]. unfold bufio_Write. rewrite He. destruct (_ <=? _); [by eexists|].
  destruct (bw_buf b); [by apply bufio_direct_quiet|].
  destruct (bufio_Flush_quiet (mkBuf (b0 :: l ++ take (Z.to_nat (bufwriter_size - len (b0 :: l))) p) false (bw_conn b)))
    as (b1 & E1 & [He1 Hf1]); [by split|].
  cbn [app] in *. rewrite E1. destruct (_ <=? _); [by eexists|]. by apply bufio_direct_quiet.
Qed.

(** What was sent stays sent. *)
Lemma conn_Write_sent p c : sent c `prefix_of` sent (conn_Write p c).2.
Proof.
  destruct (conn_Write p c) as [ok c'] eqn:E. cbn [snd]. apply conn_Write_spec in E as (q & -> & _). by apply prefix_app_r.
Qed.

Lemma bufio_Flush_sent b : sent (bw_conn b) `prefix_of` sent (bw_conn (bufio_Flush b).2).
Proof.
  unfold bufio_Flush. destruct (bw_err b); [done|]. destruct (bw_buf b) as [|x buf]; [done|].
  pose proof (conn_Write_sent (x :: buf) (bw_conn b)) as H. destruct (conn_Write _ _) as [[] c']; exact H.
Qed.

Lemma bufio_direct_sent p b : sent (bw_conn b) `prefix_of` sent (bw_conn (bufio_direct p b).2).
Proof.
  unfold bufio_direct. pose proof (conn_Write_sent p (bw_conn b)) as H. by destruct (conn_Write _ _).
Qed.

Lemma bufio_Write_sent p b : sent (bw_conn b) `prefix_of` sent (bw_conn (bufio_Write p b).2).
Proof.
  unfold bufio_Write. destruct (bw_err b); [done|]. destruct (_ <=? _); [done|].
  destruct (bw_buf b) as [|x buf]; [apply bufio_direct_sent|].
  set (n := Z.to_nat _).
  pose proof (bufio_Flush_sent (mkBuf ((x :: buf) ++ take n p) false (bw_conn b))) as H.
  destruct (bufio_Flush _) as [[] b2]; [|exact H].
  destruct (_ <=? _); [exact H|]. etrans; [exact H|apply bufio_direct_sent].
Qed.
