(* ===== verification/Noise.v ===== *)
(** * The link transport (internal/transport/noise.go)

    Handshake and secure stream over a raw connection.  The Noise library is a
    parameter: its cipher states and handshake states are objects, an operation
    returns the object it leaves. *)

From S2P Require Import Prelude Bytes GoIO Os Conn.

(** ** Parameters *)

(** [transport.Keypair]. *)
Record Keypair : Type := mkKeypair { Private : list byte; Public : list byte }.

(** What the code sets of [noise.Config]; the pattern is IK and the cipher suite
    the fixed one.  [h_random] is what the random reader will deliver. *)
Record HandshakeConfig : Type := mkHandshakeConfig {
  h_random : list byte;
  h_Initiator : bool;
  h_StaticKeypair : Keypair;
  h_PeerStatic : list byte
}.

Class NoiseLib : Type := {
  CipherState : Type;
  Encrypt : CipherState -> list byte -> res (list byte) * CipherState;
  Decrypt : CipherState -> list byte -> res (list byte) * CipherState;
  HandshakeState : Type;
  NewHandshakeState : HandshakeConfig -> res HandshakeState;
  (* the message, or nothing for the payload of the peer, and the two cipher
     states of [Split]; [nil] is a cipher state too *)
  WriteMessage : HandshakeState -> res (list byte * CipherState * CipherState) * HandshakeState;
  ReadMessage : HandshakeState -> list byte -> res (CipherState * CipherState) * HandshakeState;
  PeerStatic : HandshakeState -> list byte
}.

(** ** The raw connection *)

(** The two directions of a [net.Conn]. *)
Record rawconn : Type := mkRaw { raw_in : stream; raw_out : conn }.

Definition raw_Write (b : list byte) (r : rawconn) : bool * rawconn :=
  let '(ok, o) := conn_Write b (raw_out r) in (ok, mkRaw (raw_in r) o).

Definition raw_ReadFull (n : nat) (r : rawconn) : res (list byte) * rawconn :=
  let '(b, i) := ReadFull (raw_in r) n in (b, mkRaw i (raw_out r)).

Definition maxNoiseMsg : Z := 65535.
Definition maxPlaintext : Z := maxNoiseMsg - 16.
Definition KeyLen : Z := 32.

(** ** Handshake *)

Definition keyAllowed (allowed : list (list byte)) (peer : list byte) : bool :=
  existsb (fun k => bool_decide (k = peer)) allowed.

Definition writeHandshakeMsg (msg : list byte) (r : rawconn) : res unit * rawconn :=
  if maxNoiseMsg <? len msg then (Err transport_err, r)
  else
    let '(ok, r) := raw_Write (be_enc 2 (u16 (len msg)) ++ msg) r in
    (if ok : bool then Ok () else Err os_err, r).

Definition readHandshakeMsg (r : rawconn) : res (list byte) * rawconn :=
  match raw_ReadFull 2 r with
  | (Err e, r) => (Err e, r)
  | (Ok hdr, r) => raw_ReadFull (Z.to_nat (be_dec hdr)) r
  end.

Section Transport.
Context `{NoiseLib}.

(** The secure stream; [c_buf] is decrypted and not yet read. *)
Record secure : Type := mkSecure {
  c_raw : rawconn;
  c_send : CipherState;
  c_recv : CipherState;
  c_peer : list byte;
  c_buf : list byte
}.

Definition newConn (raw : rawconn) (send recv : CipherState) (peer : list byte) : secure :=
  mkSecure raw send recv peer [].

Definition RemoteKey (c : secure) : list byte := c_peer c.

(** [random] is what the random reader delivers. *)
Definition ServerHandshake (random : list byte) (local : Keypair) (allowed : list (list byte)) (raw : rawconn) :
    res secure * rawconn :=
  match NewHandshakeState (mkHandshakeConfig random false local []) with
  | Err e => (Err e, raw)
  | Ok hs =>
      match readHandshakeMsg raw with
      | (Err e, raw) => (Err e, raw)
      | (Ok msg1, raw) =>
          match ReadMessage hs msg1 with
          | (Err e, _) => (Err e, raw)
          | (Ok _, hs) =>
              let peer := PeerStatic hs in
              if negb (keyAllowed allowed peer) then (Err transport_ErrUnauthorized, raw)
              else
                match WriteMessage hs with
                | (Err e, _) => (Err e, raw)
                | (Ok (msg2, csR2I, csI2R), _) =>
                    match writeHandshakeMsg msg2 raw with
                    | (Err e, raw) => (Err e, raw)
                    | (Ok _, raw) => (Ok (newConn raw csI2R csR2I peer), raw)
                    end
                end
          end
      end
  end.

Definition clientHandshake (random : list byte) (local : Keypair) (peerPub : list byte) (raw : rawconn) :
    res secure * rawconn :=
  if negb (len peerPub =? KeyLen) then (Err fmt_err, raw)
  else
    match NewHandshakeState (mkHandshakeConfig random true local peerPub) with
    | Err e => (Err e, raw)
    | Ok hs =>
        match WriteMessage hs with
        | (Err e, _) => (Err e, raw)
        | (Ok (msg1, _, _), hs) =>
            match writeHandshakeMsg msg1 raw with
            | (Err e, raw) => (Err e, raw)
            | (Ok _, raw) =>
                match readHandshakeMsg raw with
                | (Err e, raw) => (Err e, raw)
                | (Ok msg2, raw) =>
                    match ReadMessage hs msg2 with
                    | (Err e, _) => (Err e, raw)
                    | (Ok (csI2R, csR2I), _) => (Ok (newConn raw csI2R csR2I peerPub), raw)
                    end
                end
            end
        end
    end.

(** [Dial]: [dialled] is the connection, unless connecting fails; the deadlines
    of the code end a stalled handshake with an error of the stream. *)
Definition Dial (random : list byte) (local : Keypair) (peerPub : list byte) (dialled : res rawconn) : res secure :=
  raw ← dialled;
  (clientHandshake random local peerPub raw).1.

(** ** Stream *)

Definition set_send (r : rawconn) (s : CipherState) (c : secure) : secure :=
  mkSecure r s (c_recv c) (c_peer c) (c_buf c).
Definition set_recv (r : rawconn) (s : CipherState) (buf : list byte) (c : secure) : secure :=
  mkSecure r (c_send c) s (c_peer c) buf.

(** The loop of [Write], which takes at least one byte a round: [fuel] is the
    number of bytes.  The result is what [Write] returns. *)
Fixpoint write_loop (fuel : nat) (p : list byte) (total : Z) (c : secure) : (Z * option goerror) * secure :=
  match fuel, p with
  | O, _ | _, [] => ((total, None), c)
  | S fuel, _ =>
      let chunk := if maxPlaintext <? len p then take (Z.to_nat maxPlaintext) p else p in
      match Encrypt (c_send c) chunk with
      | (Err e, s) => ((total, Some e), set_send (c_raw c) s c)
      | (Ok ct, s) =>
          let '(ok, r) := raw_Write (be_enc 2 (u16 (len ct)) ++ ct) (c_raw c) in
          let c := set_send r s c in
          if ok : bool then write_loop fuel (drop (length chunk) p) (total + len chunk) c
          else ((total, Some os_err), c)
      end
  end.

Definition secure_Write (p : list byte) (c : secure) : (Z * option goerror) * secure :=
  write_loop (length p) p 0 c.

(** [Read] into a buffer of [n] bytes. *)
Definition secure_Read (n : nat) (c : secure) : res (list byte) * secure :=
  let filled : res unit * secure :=
    match c_buf c with
    | _ :: _ => (Ok (), c)
    | [] =>
        match raw_ReadFull 2 (c_raw c) with
        | (Err e, r) => (Err e, set_recv r (c_recv c) [] c)
        | (Ok hdr, r) =>
            match raw_ReadFull (Z.to_nat (be_dec hdr)) r with
            | (Err e, r) => (Err e, set_recv r (c_recv c) [] c)
            | (Ok ct, r) =>
                match Decrypt (c_recv c) ct with
                | (Err _, s) => (Err fmt_err, set_recv r s [] c)
                | (Ok pt, s) => (Ok (), set_recv r s pt c)
                end
            end
        end
    end in
  match filled with
  | (Err e, c) => (Err e, c)
  | (Ok _, c) => (Ok (take n (c_buf c)), set_recv (c_raw c) (c_recv c) (drop n (c_buf c)) c)
  end.

End Transport.
