(* ===== verification/Keys.v ===== *)
(** * Keys of the link (internal/transport/keys.go, keygen in cmd/ipcap/main.go)

    Static keypairs as base64 text: [encoding/base64] of the standard library,
    the parsers, the key file, and the command that makes one. *)

From S2P Require Import Prelude Bytes Keylog Noise.

(** ** base64.StdEncoding *)

Definition b64_alphabet : list byte :=
  str "ABCDEFGHIJKLMNOPQRSTUVWXYZabcdefghijklmnopqrstuvwxyz0123456789+/".

Definition b64_char (z : Z) : byte := default x3d (b64_alphabet !! Z.to_nat z).

(** The decoding table. *)
Definition b64_value (b : byte) : option Z :=
  let z := Z_of_byte b in
  if (65 <=? z) && (z <=? 90) then Some (z - 65)
  else if (97 <=? z) && (z <=? 122) then Some (z - 71)
  else if (48 <=? z) && (z <=? 57) then Some (z + 4)
  else if z =? 43 then Some 62
  else if z =? 47 then Some 63
  else None.

(** The [i]-th group of six bits of a 24-bit value, from the top. *)
Definition sextet (v i : Z) : Z := Z.land (Z.shiftr v (18 - 6 * i)) 63.

Fixpoint b64_encode (l : list byte) : list byte :=
  match l with
  | [] => []
  | [a] => let v := be_dec [a; x00; x00] in [b64_char (sextet v 0); b64_char (sextet v 1); x3d; x3d]
  | [a; b] =>
      let v := be_dec [a; b; x00] in
      [b64_char (sextet v 0); b64_char (sextet v 1); b64_char (sextet v 2); x3d]
  | a :: b :: c :: l =>
      let v := be_dec [a; b; c] in
      [b64_char (sextet v 0); b64_char (sextet v 1); b64_char (sextet v 2); b64_char (sextet v 3)] ++ b64_encode l
  end.

(** The quanta of text without line breaks.  Padding ends the text; the bits of a
    padded quantum that belong to no byte are not looked at. *)
Fixpoint b64_quanta (l : list byte) : option (list byte) :=
  match l with
  | [] => Some []
  | a :: b :: c :: d :: l =>
      va ← b64_value a;
      vb ← b64_value b;
      let v := va * 2 ^ 18 + vb * 2 ^ 12 in
      if decide (c = x3d) then
        if decide (d = x3d /\ l = []) then Some (take 1 (be_enc 3 v)) else None
      else
        vc ← b64_value c;
        let v := v + vc * 2 ^ 6 in
        if decide (d = x3d) then
          if decide (l = []) then Some (take 2 (be_enc 3 v)) else None
        else
          vd ← b64_value d;
          rest ← b64_quanta l;
          Some (be_enc 3 (v + vd) ++ rest)
  | _ => None
  end.

(** [DecodeString]: line breaks are ignored wherever they are. *)
Definition b64_decode (s : list byte) : option (list byte) :=
  b64_quanta (List.filter (fun b => negb (bool_decide (b = x0a \/ b = x0d))) s).

(** [strings.Split(s, c)] for a separator of one byte. *)
Fixpoint split_byte (c : byte) (s cur : list byte) : list (list byte) :=
  match s with
  | [] => [cur]
  | b :: s => if decide (b = c) then cur :: split_byte c s [] else split_byte c s (cur ++ [b])
  end.

Definition Split (s : list byte) (c : byte) : list (list byte) := split_byte c s [].

(** ** keys.go *)

(** Curve25519: a fresh keypair from what the random reader delivers, and the
    multiplication of the base point. *)
Class CurveLib : Type := {
  GenerateKeypair : list byte -> res Keypair;
  X25519_Basepoint : list byte -> res (list byte)
}.

Section Keys.
Context `{CurveLib}.

Definition Generate (random : list byte) : res Keypair :=
  k ← GenerateKeypair random;
  Ok (mkKeypair (Private k) (Public k)).

Definition PublicB64 (k : Keypair) : list byte := b64_encode (Public k).
Definition PrivateB64 (k : Keypair) : list byte := b64_encode (Private k).

Definition keypairFromPrivate (priv : list byte) : res Keypair :=
  if negb (len priv =? KeyLen) then Err fmt_err
  else
    pub ← X25519_Basepoint priv;
    Ok (mkKeypair priv pub).

Definition ParsePrivateKey (b64 : list byte) : res Keypair :=
  match b64_decode (TrimSpace b64) with
  | None => Err fmt_err
  | Some priv => keypairFromPrivate priv
  end.

Definition ParsePublicKey (b64 : list byte) : res (list byte) :=
  match b64_decode (TrimSpace b64) with
  | None => Err fmt_err
  | Some pub => if negb (len pub =? KeyLen) then Err fmt_err else Ok pub
  end.

Fixpoint ParsePublicKeys (b64s : list (list byte)) : res (list (list byte)) :=
  match b64s with
  | [] => Ok []
  | s :: b64s =>
      let s := TrimSpace s in
      if bool_decide (s = []) then ParsePublicKeys b64s
      else
        pub ← ParsePublicKey s;
        out ← ParsePublicKeys b64s;
        Ok (pub :: out)
  end.

(** The loop over the lines of a key file. *)
Fixpoint first_key (lines : list (list byte)) : res Keypair :=
  match lines with
  | [] => Err transport_err
  | line :: lines =>
      let line := TrimSpace line in
      if bool_decide (line = []) || HasPrefix line (str "#") then first_key lines
      else ParsePrivateKey line
  end.

(** [content] is what reading the file returns. *)
Definition LoadPrivateKeyFile (content : res (list byte)) : res Keypair :=
  b ← content;
  first_key (Split b x0a).

(** ** keygen *)

(** What the command leaves: the file [out], if one is named and could be
    [written], and the standard output. *)
Definition keygenCmd (random out : list byte) (written : res unit) : res (option (list byte) * list byte) :=
  k ← Generate random;
  if bool_decide (out <> []) then
    _ ← written;
    Ok (Some (PrivateB64 k ++ [x0a]), str "public key: " ++ PublicB64 k ++ [x0a])
  else Ok (None, str "private: " ++ PrivateB64 k ++ [x0a] ++ str "public:  " ++ PublicB64 k ++ [x0a]).

End Keys.

(** ** base64 round trip *)

Lemma b64_value_char z : 0 <= z < 64 -> b64_value (b64_char z) = Some z.
Proof.
  intros Hz. assert (forallb (fun n => bool_decide (b64_value (b64_char (Z.of_nat n)) = Some (Z.of_nat n))) (seq 0 64) = true)
    as H by (vm_compute; reflexivity).
  rewrite forallb_forall in H. specialize (H (Z.to_nat z)). rewrite Z2Nat.id in H by lia.
  apply (bool_decide_eq_true_1 _), H, in_seq. lia.
Qed.

(** Plain characters: no white space, no line break, no comment sign. *)
Definition plain (b : byte) : bool := (0x24 <=? Z_of_byte b) && (Z_of_byte b <? 0x80).

Lemma b64_char_plain z : plain (b64_char z) = true /\ b64_char z <> x0a /\ b64_char z <> x0d.
Proof.
  unfold b64_char. destruct (b64_alphabet !! Z.to_nat z) as [b|] eqn:E; [|done]. cbn [default].
  assert (forallb (fun b => plain b && negb (bool_decide (b = x0a \/ b = x0d))) b64_alphabet = true) as H by (vm_compute; reflexivity).
  rewrite forallb_forall in H. apply list_elem_of_lookup_2, list_elem_of_In, H in E as [? E]%andb_true_iff.
  apply negb_true_iff, bool_decide_eq_false in E. naive_solver.
Qed.

Lemma sextet_range v i : 0 <= sextet v i < 64.
Proof. unfold sextet. change 63 with (Z.ones 6). rewrite Z.land_ones by lia. apply Z.mod_pos_bound. lia. Qed.

Lemma sextet_div v i : 0 <= i <= 3 -> sextet v i = v / 2 ^ (18 - 6 * i) mod 64.
Proof.
  intros. unfold sextet. change 63 with (Z.ones 6). rewrite Z.land_ones, Z.shiftr_div_pow2 by lia. done.
Qed.

(** Four groups make the value. *)
Lemma sextets v :
  0 <= v < 2 ^ 24 -> sextet v 0 * 2 ^ 18 + sextet v 1 * 2 ^ 12 + sextet v 2 * 2 ^ 6 + sextet v 3 = v.
Proof.
  intros Hv. rewrite !sextet_div by lia. cbn [Z.mul Z.sub Z.add Pos.mul Z.opp Z.pos_sub]. 
  change (2 ^ (18 - 6 * 0)) with 262144. change (2 ^ (18 - 6 * 1)) with 4096. change (2 ^ (18 - 6 * 2)) with 64.
  change (2 ^ (18 - 6 * 3)) with 1. change (2 ^ 18) with 262144. change (2 ^ 12) with 4096. change (2 ^ 6) with 64.
  change (2 ^ 24) with 16777216 in Hv. Z.to_euclidean_division_equations. lia.
Qed.

Lemma b64_char_pad z : 0 <= z < 64 -> b64_char z <> x3d.
Proof. intros Hz E. pose proof (b64_value_char z Hz) as H. by rewrite E in H. Qed.

Lemma be_dec3 a b c : be_dec [a; b; c] = Z_of_byte a * 2 ^ 16 + Z_of_byte b * 2 ^ 8 + Z_of_byte c.
Proof. unfold be_dec. cbn [reverse rev_append le_dec]. unfold reverse. cbn [rev_append le_dec]. lia. Qed.

Lemma be_dec3_range a b c : 0 <= be_dec [a; b; c] < 2 ^ 24.
Proof. rewrite be_dec3. pose proof (Z_of_byte_range a). pose proof (Z_of_byte_range b). pose proof (Z_of_byte_range c). lia. Qed.

Lemma be_enc_dec3 a b c : be_enc 3 (be_dec [a; b; c]) = [a; b; c].
Proof. apply (be_enc_dec [a; b; c]). Qed.

(** The groups of bytes that are not there are zero. *)
Lemma sextets_one a : sextet (be_dec [a; x00; x00]) 0 * 2 ^ 18 + sextet (be_dec [a; x00; x00]) 1 * 2 ^ 12 = be_dec [a; x00; x00].
Proof.
  pose proof (sextets _ (be_dec3_range a x00 x00)) as H. revert H. rewrite !sextet_div, be_dec3 by lia.
  change (Z_of_byte x00) with 0. pose proof (Z_of_byte_range a).
  change (2 ^ (18 - 6 * 2)) with 64. change (2 ^ (18 - 6 * 3)) with 1. intros H'.
  rewrite <-H' at 3. change (2 ^ 16) with 65536. change (2 ^ 8) with 256. Z.to_euclidean_division_equations. lia.
Qed.

Lemma sextets_two a b :
  sextet (be_dec [a; b; x00]) 0 * 2 ^ 18 + sextet (be_dec [a; b; x00]) 1 * 2 ^ 12 + sextet (be_dec [a; b; x00]) 2 * 2 ^ 6 =
    be_dec [a; b; x00].
Proof.
  pose proof (sextets _ (be_dec3_range a b x00)) as H. revert H. rewrite !sextet_div, be_dec3 by lia.
  change (Z_of_byte x00) with 0. pose proof (Z_of_byte_range a). pose proof (Z_of_byte_range b).
  change (2 ^ (18 - 6 * 3)) with 1. intros H'.
  rewrite <-H' at 4. change (2 ^ 16) with 65536. change (2 ^ 8) with 256. Z.to_euclidean_division_equations. lia.
Qed.

Lemma b64_quanta_encode_upto n l : (length l <= n)%nat -> b64_quanta (b64_encode l) = Some l.
Proof.
  revert l. induction n as [|n IH]; intros [|a [|b [|c l]]] Hl; cbn [length] in Hl; try lia; try done;
    cbn [b64_encode app b64_quanta]; rewrite ?b64_value_char by apply sextet_range; cbn [mbind option_bind].
  - rewrite !decide_True by done. by rewrite sextets_one, be_enc_dec3.
  - rewrite decide_False by apply b64_char_pad, sextet_range. rewrite !decide_True by done. cbn [mbind option_bind].
    by rewrite sextets_two, be_enc_dec3.
  - rewrite !decide_False by apply b64_char_pad, sextet_range. rewrite IH by lia. cbn [mbind option_bind].
    by rewrite sextets, be_enc_dec3 by apply be_dec3_range.
Qed.

Lemma b64_encode_plain_upto n l :
  (length l <= n)%nat -> Forall (fun b => plain b = true /\ b <> x0a /\ b <> x0d) (b64_encode l).
Proof.
  revert l. induction n as [|n IH]; intros [|a [|b [|c l]]] Hl; cbn [length] in Hl; try lia;
    cbn [b64_encode app]; repeat (constructor; [first [apply b64_char_plain|done]|]); try constructor.
  apply IH. lia.
Qed.

Lemma b64_encode_plain l : Forall (fun b => plain b = true /\ b <> x0a /\ b <> x0d) (b64_encode l).
Proof. by eapply b64_encode_plain_upto. Qed.

Lemma b64_decode_encode l : b64_decode (b64_encode l) = Some l.
Proof.
  unfold b64_decode. rewrite forallb_filter_id; [by eapply b64_quanta_encode_upto|].
  apply forallb_forall. intros b Hb%list_elem_of_In. apply negb_true_iff, bool_decide_eq_false.
  pose proof (proj1 (Forall_forall _ _) (b64_encode_plain l) b Hb). naive_solver.
Qed.

(** ** Text of keys *)

Lemma plain_trimmed t : Forall (fun b => plain b = true) t -> trimmed t.
Proof.
  intros Ht. assert (forallb (fun e => negb (forallb plain e)) space_encodings = true) as Hs by (vm_compute; reflexivity).
  rewrite forallb_forall in Hs.
  assert (forall e, e ∈ space_encodings -> e ⊆ t -> False) as Hno.
  { intros e He%list_elem_of_In Hsub. specialize (Hs e He). apply negb_true_iff in Hs.
    assert (forallb plain e = true); [|congruence]. apply forallb_forall. intros b Hb%list_elem_of_In.
    rewrite Forall_forall in Ht. by apply Ht, Hsub. }
  split.
  - apply space_prefix_None, Forall_forall. intros e He [k ->]. apply (Hno e He). set_solver.
  - apply space_suffix_None, Forall_forall. intros e He [k ->]. apply (Hno e He). set_solver.
Qed.

Lemma b64_encode_trimmed l : trimmed (b64_encode l).
Proof. apply plain_trimmed. eapply Forall_impl; [apply b64_encode_plain|]. naive_solver. Qed.

Lemma TrimSpace_b64 l : TrimSpace (b64_encode l) = b64_encode l.
Proof. apply TrimSpace_fix, b64_encode_trimmed. Qed.

Lemma b64_encode_nonempty l : l <> [] -> b64_encode l <> [].
Proof. by destruct l as [|a [|b [|c l]]]. Qed.

(** Lines. *)
Lemma split_byte_line c line rest cur :
  c ∉ line -> split_byte c (line ++ c :: rest) cur = (cur ++ line) :: split_byte c rest [].
Proof.
  revert cur. induction line as [|b line IH]; intros cur Hc; cbn [split_byte app].
  - by rewrite decide_True, app_nil_r.
  - apply not_elem_of_cons in Hc as [Hb Hc]. rewrite decide_False by congruence. rewrite IH by done. by rewrite <-app_assoc.
Qed.

Definition text_lines (ls : list (list byte)) : list byte := concat ((fun l => l ++ [x0a]) <$> ls).

(** Lines that a key file may have in front of the key. *)
Definition skipped (line : list byte) : Prop :=
  (x0a ∉ line) /\ (TrimSpace line = [] \/ HasPrefix (TrimSpace line) (str "#") = true).

(** What Curve25519 promises. *)
Class CurveLaws `{CurveLib} : Prop := {
  Generate_sizes rd k : GenerateKeypair rd = Ok k -> len (Private k) = KeyLen /\ len (Public k) = KeyLen;
  Generate_public rd k : GenerateKeypair rd = Ok k -> X25519_Basepoint (Private k) = Ok (Public k)
}.

Section Props.
Context `{CurveLaws}.

Lemma ParsePrivateKey_B64 rd k : GenerateKeypair rd = Ok k -> ParsePrivateKey (PrivateB64 k) = Ok k.
Proof.
  intros Hg. destruct (Generate_sizes rd k Hg) as [Hs _]. unfold ParsePrivateKey, PrivateB64, keypairFromPrivate.
  rewrite TrimSpace_b64, b64_decode_encode, Hs, (Generate_public rd k Hg). by destruct k.
Qed.

Lemma ParsePublicKey_B64 k : len (Public k) = KeyLen -> ParsePublicKey (PublicB64 k) = Ok (Public k).
Proof. intros Hs. unfold ParsePublicKey, PublicB64. by rewrite TrimSpace_b64, b64_decode_encode, Hs. Qed.

Lemma first_key_skipped pre rest :
  Forall skipped pre -> first_key (Split (text_lines pre ++ rest) x0a) = first_key (Split rest x0a).
Proof.
  induction 1 as [|line pre [Hn Hs] Hpre IH]; [done|]. unfold Split, text_lines in *. cbn [fmap list_fmap concat].
  rewrite <-!app_assoc. cbn [app]. rewrite split_byte_line by done. cbn [app first_key].
  rewrite (proj2 (orb_true_iff _ _)), IH; [done|]. destruct Hs as [->|Hs]; [by left|by right].
Qed.

(** What keygen writes is what the nodes load. *)
Lemma keygen_read rd out file stdout pre :
  keygenCmd rd out (Ok ()) = Ok (Some file, stdout) -> Forall skipped pre ->
  exists k text, GenerateKeypair rd = Ok k /\
    LoadPrivateKeyFile (Ok (text_lines pre ++ file)) = Ok k /\
    stdout = str "public key: " ++ text ++ [x0a] /\
    forall s, TrimSpace s = TrimSpace text -> ParsePublicKey s = Ok (Public k) /\ ParsePublicKeys [s] = Ok [Public k].
Proof.
  unfold keygenCmd, Generate. destruct (GenerateKeypair rd) as [k|e] eqn:Hg; [|done]. cbn [mbind res_bind].
  destruct (Generate_sizes rd k Hg) as [Hpr Hpu]. case_bool_decide; [|done]. intros Heq Hpre. injection Heq as <- <-.
  exists k, (PublicB64 k). split; [done|]. split_and!.
  - unfold LoadPrivateKeyFile. cbn [mbind res_bind]. rewrite first_key_skipped by done.
    unfold Split. rewrite split_byte_line.
    + cbn [app first_key Private]. unfold PrivateB64. cbn [Private]. rewrite TrimSpace_b64.
      pose proof (ParsePrivateKey_B64 rd k Hg) as Hp. unfold PrivateB64 in Hp.
      assert (b64_encode (Private k) <> []) as Hne by (apply b64_encode_nonempty; by intros E; rewrite E in Hpr).
      rewrite bool_decide_false by done. cbn [orb].
      destruct (HasPrefix _ _) eqn:Eh; [|done]. exfalso. apply HasPrefix_spec in Eh as [z Hz].
      pose proof (b64_encode_plain (Private k)) as Hall. rewrite Hz in Hall. by apply Forall_cons in Hall as [[? _] _].
    + unfold PrivateB64. cbn [Private]. intros Hin. pose proof (b64_encode_plain (Private k)) as Hall.
      rewrite Forall_forall in Hall. by destruct (Hall _ Hin) as (_ & ? & _).
  - done.
  - intros s Hs. assert (ParsePublicKey s = Ok (Public k)) as Hp.
    { rewrite <-(ParsePublicKey_B64 k Hpu). unfold ParsePublicKey. by rewrite Hs. }
    split; [done|]. cbn [ParsePublicKeys]. rewrite Hs. unfold PublicB64. rewrite TrimSpace_b64.
    rewrite bool_decide_false by (apply b64_encode_nonempty; by intros E; rewrite E in Hpu).
    fold (PublicB64 k). rewrite (ParsePublicKey_B64 k Hpu). done.
Qed.

(** C37: keys made by keygen are the keys that the nodes load.  The private key
    file is read back as the generated keypair, also behind blank lines and
    comments an operator puts in front, and the printed public key, with any white
    space around it, is parsed as its public half. *)
Theorem keygen_roundtrip rd out file stdout pre :
  keygenCmd rd out (Ok ()) = Ok (Some file, stdout) -> Forall skipped pre ->
  exists k text, GenerateKeypair rd = Ok k /\
    LoadPrivateKeyFile (Ok (text_lines pre ++ file)) = Ok k /\
    stdout = str "public key: " ++ text ++ [x0a] /\
    forall s, TrimSpace s = TrimSpace text -> ParsePublicKey s = Ok (Public k) /\ ParsePublicKeys [s] = Ok [Public k].
Proof. exact (keygen_read rd out file stdout pre). Qed.
End Props.

(** An instance in which the public key is the private one backwards. *)
#[local] Instance reverse_curve : CurveLib := {
  GenerateKeypair rd :=
    if decide (length (take 32 rd) = 32%nat) then Ok (mkKeypair (take 32 rd) (reverse (take 32 rd))) else Err os_err;
  X25519_Basepoint priv := Ok (reverse priv)
}.

#[local] Instance reverse_laws : CurveLaws.
Proof.
  split; intros rd k; cbn -[take]; (case_decide as Hl; [|done]); intros [= <-]; cbn -[take]; [|done].
  unfold len. by rewrite length_reverse, !Hl.
Qed.

Definition example_random : list byte := byte_of_Z <$> seqZ 7 32.

Lemma keygen_roundtrip_witness :
  exists k text, GenerateKeypair example_random = Ok k /\
    LoadPrivateKeyFile (Ok (text_lines [str "# agent key"; str "  "] ++
      match keygenCmd example_random (str "agent.key") (Ok ()) with Ok (Some f, _) => f | _ => [] end)) = Ok k /\
    match keygenCmd example_random (str "agent.key") (Ok ()) with Ok (_, o) => o | _ => [] end =
      str "public key: " ++ text ++ [x0a] /\
    forall s, TrimSpace s = TrimSpace text -> ParsePublicKey s = Ok (Public k) /\ ParsePublicKeys [s] = Ok [Public k].
Proof.
  apply (keygen_roundtrip example_random (str "agent.key")); [vm_compute; reflexivity|].
  apply Forall_cons; split; [split; [apply (bool_decide_unpack _); vm_compute; exact I|right; vm_compute; reflexivity]|].
  apply Forall_cons; split; [split; [apply (bool_decide_unpack _); vm_compute; exact I|left; vm_compute; reflexivity]|].
  apply Forall_nil_2.
Defined.
