(* ===== verification/NoiseProps.v ===== *)
(** * What the link transport guarantees

    The handshake connects a collector with an allowlisted key, and nobody else;
    over the secure stream the reader gets what the writer wrote, in order, or a
    prefix of it, however the writes, the reads and the wire cut it; with an
    authenticated cipher also when the wire is hostile. *)

From S2P Require Import Prelude Bytes GoIO Os Conn Noise Keys.

(** ** What the library promises *)

(** [linked s r]: [r] decrypts the next message of [s]; a message is 16 bytes
    longer than its payload. *)
Class NoiseLaws `{NoiseLib} : Type := {
  linked : CipherState -> CipherState -> Prop;
  Encrypt_length s p ct s' : Encrypt s p = (Ok ct, s') -> length ct = (length p + 16)%nat;
  Decrypt_Encrypt s r p ct s' :
    linked s r -> Encrypt s p = (Ok ct, s') -> exists r', Decrypt r ct = (Ok p, r') /\ linked s' r'
}.

(** The public key belongs to the private one: [k] is what the private key is
    loaded as. *)
Definition genuine `{CurveLib} (k : Keypair) : Prop := keypairFromPrivate (Private k) = Ok k.

(** The random reader delivers an ephemeral key. *)
Definition enough (random : list byte) : Prop := KeyLen <= len random.

(** A handshake of two parties that run the same pattern, that hold the private
    keys of their public ones and that both can draw an ephemeral key, ends in
    linked states; the messages of IK without payloads have fixed sizes. *)
Class HandshakeLaws `{NL : NoiseLaws, CurveLib} : Prop := {
  IK_message1 rd rd' ki kr hi hr :
    genuine ki -> genuine kr -> enough rd -> enough rd' ->
    NewHandshakeState (mkHandshakeConfig rd true ki (Public kr)) = Ok hi ->
    NewHandshakeState (mkHandshakeConfig rd' false kr []) = Ok hr ->
    exists m1 c1 c2 hi' cs hr', WriteMessage hi = (Ok (m1, c1, c2), hi') /\ length m1 = 96%nat /\
      ReadMessage hr m1 = (Ok cs, hr') /\ PeerStatic hr' = Public ki /\
      exists m2 s1 s2 hr'' r1 r2 hi'', WriteMessage hr' = (Ok (m2, s1, s2), hr'') /\ length m2 = 48%nat /\
        ReadMessage hi' m2 = (Ok (r1, r2), hi'') /\ linked r1 s1 /\ linked s2 r2
}.

(** ** The wire *)

(** A message behind its length. *)
Definition framed (ct : list byte) : list byte := be_enc 2 (len ct) ++ ct.
Definition wire (cts : list (list byte)) : list byte := concat (framed <$> cts).

Lemma wire_app l k : wire (l ++ k) = wire l ++ wire k.
Proof. unfold wire. by rewrite fmap_app, concat_app. Qed.

Lemma length_framed ct : length (framed ct) = (2 + length ct)%nat.
Proof. unfold framed. by rewrite length_app, length_be_enc. Qed.

(** A message within the limit is read back. *)
Lemma raw_read_framed ct k e o :
  is_uint 16 (len ct) ->
  raw_ReadFull 2 (mkRaw (Stream (framed ct ++ k) e) o) =
    (Ok (be_enc 2 (len ct)), mkRaw (Stream (ct ++ k) e) o) /\
  raw_ReadFull (Z.to_nat (be_dec (be_enc 2 (len ct)))) (mkRaw (Stream (ct ++ k) e) o) =
    (Ok ct, mkRaw (Stream k e) o).
Proof.
  intros Hu. unfold raw_ReadFull, framed. cbn [raw_in raw_out]. rewrite <-(assoc_L (++)), ReadFull_app by apply length_be_enc.
  rewrite be_dec_enc_small by exact Hu. rewrite ReadFull_app; [done|]. unfold len. by rewrite Nat2Z.id.
Qed.

Lemma raw_Write_quiet b r :
  conn_faults (raw_out r) = [] -> raw_Write b r = (true, mkRaw (raw_in r) (mkConn (sent (raw_out r) ++ b) [])).
Proof. intros Hq. unfold raw_Write. by rewrite conn_Write_quiet. Qed.

(** ** The handshake *)

Lemma keyAllowed_spec allowed peer : keyAllowed allowed peer = true <-> peer ∈ allowed.
Proof.
  unfold keyAllowed. rewrite existsb_exists. split.
  - intros (k & Hk & He%bool_decide_eq_true). subst. by apply list_elem_of_In.
  - intros Hk. exists peer. split; [by apply list_elem_of_In|by apply bool_decide_eq_true].
Qed.

Lemma writeHandshakeMsg_quiet msg r :
  len msg <= maxNoiseMsg -> conn_faults (raw_out r) = [] ->
  writeHandshakeMsg msg r = (Ok (), mkRaw (raw_in r) (mkConn (sent (raw_out r) ++ framed msg) [])).
Proof.
  intros Hl Hq. unfold writeHandshakeMsg. destruct (Z.ltb_spec maxNoiseMsg (len msg)); [lia|].
  rewrite raw_Write_quiet by done. unfold framed, maxNoiseMsg in *.
  rewrite u16_small; [done|]. split; [apply len_nonneg|lia].
Qed.

Lemma readHandshakeMsg_framed msg k e o :
  is_uint 16 (len msg) -> readHandshakeMsg (mkRaw (Stream (framed msg ++ k) e) o) = (Ok msg, mkRaw (Stream k e) o).
Proof.
  intros Hu. destruct (raw_read_framed msg k e o Hu) as [H1 H2]. unfold readHandshakeMsg. by rewrite H1, H2.
Qed.

Lemma readHandshakeMsg_out r : raw_out (readHandshakeMsg r).2 = raw_out r.
Proof.
  unfold readHandshakeMsg, raw_ReadFull. destruct (ReadFull (raw_in r) 2) as [[h|] i]; [|done]. cbn [raw_in raw_out].
  by destruct (ReadFull i _) as [b i'].
Qed.

Section Props.
Context `{HL : HandshakeLaws}.

Lemma short_message (m : list byte) n : length m = n -> (n <= 100)%nat -> len m <= maxNoiseMsg /\ is_uint 16 (len m).
Proof. unfold is_uint, maxNoiseMsg, len. intros -> Hn. lia. Qed.

Lemma handshake_agreed rd rd' ki kr allowed hi hr :
  genuine ki -> genuine kr -> enough rd -> enough rd' ->
  NewHandshakeState (mkHandshakeConfig rd true ki (Public kr)) = Ok hi ->
  NewHandshakeState (mkHandshakeConfig rd' false kr []) = Ok hr ->
  len (Public kr) = KeyLen ->
  exists m1 m2, forall ro so k e,
    conn_faults ro = [] -> conn_faults so = [] ->
    let server := ServerHandshake rd' kr allowed (mkRaw (Stream (framed m1 ++ k) e) so) in
    let client := fun ri => clientHandshake rd ki (Public kr) (mkRaw ri ro) in
    (forall ri, sent (raw_out (client ri).2) = sent ro ++ framed m1) /\
    (Public ki ∉ allowed -> server.1 = Err transport_ErrUnauthorized /\ sent (raw_out server.2) = sent so) /\
    (forall k' e', exists cc,
        (client (Stream (framed m2 ++ k') e')).1 = Ok cc /\ RemoteKey cc = Public kr /\
        c_raw cc = mkRaw (Stream k' e') (mkConn (sent ro ++ framed m1) []) /\ c_buf cc = [] /\
        (Public ki ∈ allowed -> exists cs,
          server.1 = Ok cs /\ RemoteKey cs = Public ki /\ c_raw cs = mkRaw (Stream k e) (mkConn (sent so ++ framed m2) []) /\
          c_buf cs = [] /\ linked (c_send cc) (c_recv cs) /\ linked (c_send cs) (c_recv cc))).
Proof.
  intros Hgi Hgr Hrd Hrd' Hi Hr Hk.
  destruct (IK_message1 rd rd' ki kr hi hr Hgi Hgr Hrd Hrd' Hi Hr) as (m1 & c1 & c2 & hi' & st & hr' & Hw1 & Hl1 & Hr1 & Hp &
    m2 & s1 & s2 & hr'' & r1 & r2 & hi'' & Hw2 & Hl2 & Hr2 & Hk1 & Hk2).
  destruct (short_message m1 _ Hl1 ltac:(lia)) as [Hm1 Hu1], (short_message m2 _ Hl2 ltac:(lia)) as [Hm2 Hu2].
  exists m1, m2. intros ro so k e Hro Hso. cbn zeta. unfold ServerHandshake, clientHandshake.
  rewrite Hk, Z.eqb_refl, Hi, Hr, Hw1, readHandshakeMsg_framed, Hr1, Hp, Hw2 by done. cbn [negb].
  split_and!.
  - intros ri. rewrite writeHandshakeMsg_quiet by done. cbn [raw_in raw_out].
    pose proof (readHandshakeMsg_out (mkRaw ri (mkConn (sent ro ++ framed m1) []))) as Ho.
    destruct (readHandshakeMsg _) as [[m|er] r]; cbn in Ho |- *; [|by rewrite Ho].
    destruct (ReadMessage hi' m) as [[[a b]|] h]; cbn; by rewrite Ho.
  - intros Hn. destruct (keyAllowed allowed (Public ki)) eqn:Ea; [by apply keyAllowed_spec in Ea|done].
  - intros k' e'. rewrite !writeHandshakeMsg_quiet by done. cbn [raw_in raw_out].
    rewrite readHandshakeMsg_framed, Hr2 by done. cbn [fst]. eexists. do 4 (split; [done|]).
    intros Ha%keyAllowed_spec. rewrite Ha. cbn. by eexists.
Qed.

(** Whatever the agent reads, only an allowlisted key gets a connection. *)
Lemma server_allowed rd kr allowed r cs : (ServerHandshake rd kr allowed r).1 = Ok cs -> RemoteKey cs ∈ allowed.
Proof.
  unfold ServerHandshake. destruct (NewHandshakeState _) as [hs|]; [|done]. destruct (readHandshakeMsg r) as [[m|] r1]; [|done].
  destruct (ReadMessage hs m) as [[c|] h]; [|done]. destruct (keyAllowed allowed (PeerStatic h)) eqn:Ea; [|done]. cbn [negb].
  destruct (WriteMessage h) as [[[[m2 s1] s2]|] h']; [|done]. destruct (writeHandshakeMsg m2 r1) as [[[]|] r2]; [|done].
  intros [= <-]. by apply keyAllowed_spec.
Qed.

(** C35: the handshake connects the two parties.  Both static keypairs are
    genuine, as keygen makes and the key files give them, and both sides can draw
    an ephemeral key.  Whatever the agent reads, it ends with a connection to an
    allowlisted key or with none.  When it reads what an initiator with keypair
    [ki] sent for this agent's key, it answers if [Public ki] is allowlisted: then
    it has a connection to that key, and the collector that reads the answer one
    to the key it pinned; what either sends the other can decrypt.  Otherwise the
    agent sends nothing and reports that the peer is not authorised. *)
Theorem handshake_connects rd rd' ki kr allowed hi hr :
  genuine ki -> genuine kr -> enough rd -> enough rd' ->
  NewHandshakeState (mkHandshakeConfig rd true ki (Public kr)) = Ok hi ->
  NewHandshakeState (mkHandshakeConfig rd' false kr []) = Ok hr ->
  len (Public kr) = KeyLen ->
  (forall r cs, (ServerHandshake rd' kr allowed r).1 = Ok cs -> RemoteKey cs ∈ allowed) /\
  exists m1 m2, forall ro so k e,
    conn_faults ro = [] -> conn_faults so = [] ->
    let server := ServerHandshake rd' kr allowed (mkRaw (Stream (framed m1 ++ k) e) so) in
    let client := fun ri => clientHandshake rd ki (Public kr) (mkRaw ri ro) in
    (forall ri, sent (raw_out (client ri).2) = sent ro ++ framed m1) /\
    (Public ki ∉ allowed -> server.1 = Err transport_ErrUnauthorized /\ sent (raw_out server.2) = sent so) /\
    (forall k' e', exists cc,
        (client (Stream (framed m2 ++ k') e')).1 = Ok cc /\ RemoteKey cc = Public kr /\
        c_raw cc = mkRaw (Stream k' e') (mkConn (sent ro ++ framed m1) []) /\ c_buf cc = [] /\
        (Public ki ∈ allowed -> exists cs,
          server.1 = Ok cs /\ RemoteKey cs = Public ki /\ c_raw cs = mkRaw (Stream k e) (mkConn (sent so ++ framed m2) []) /\
          c_buf cs = [] /\ linked (c_send cc) (c_recv cs) /\ linked (c_send cs) (c_recv cc))).
Proof.
  intros Hgi Hgr Hrd Hrd' Hi Hr Hk. split; [exact (server_allowed rd' kr allowed)|].
  exact (handshake_agreed rd rd' ki kr allowed hi hr Hgi Hgr Hrd Hrd' Hi Hr Hk).
Qed.

(** ** What is written *)

(** The sender encrypts the plaintexts of [l] to its ciphertexts. *)
Fixpoint encrypts (s : CipherState) (l : list (list byte * list byte)) (s' : CipherState) : Prop :=
  match l with
  | [] => s = s'
  | (p, ct) :: l => exists s1, Encrypt s p = (Ok ct, s1) /\ encrypts s1 l s'
  end.

Lemma encrypts_app s l s1 k s' : encrypts s l s1 -> encrypts s1 k s' -> encrypts s (l ++ k) s'.
Proof.
  revert s. induction l as [|[p ct] l IH]; cbn; [by intros s ->|].
  intros s (s2 & He & Hl) Hk. eauto.
Qed.

(** Every message fits, and carries something. *)
Definition fits_wire (x : list byte * list byte) : Prop := x.1 <> [] /\ is_uint 16 (len x.2).

(** [c'] comes from [c] by writing [q], whole if [ok]. *)
Definition wrote (q : list byte) (ok : bool) (c c' : secure) : Prop :=
  exists l w s', encrypts (c_send c) l s' /\ Forall fits_wire l /\
    sent (raw_out (c_raw c')) = sent (raw_out (c_raw c)) ++ w /\ w `prefix_of` wire l.*2 /\
    concat l.*1 `prefix_of` q /\ (ok = true -> w = wire l.*2 /\ concat l.*1 = q /\ c_send c' = s').

Lemma wrote_nothing q c : wrote q (bool_decide (q = [])) c c.
Proof.
  exists [], [], (c_send c). cbn. split_and!; try done; [by rewrite app_nil_r|apply prefix_nil|].
  by intros ->%bool_decide_eq_true.
Qed.

Lemma wrote_trans q q' ok c c1 c' : wrote q true c c1 -> wrote q' ok c1 c' -> wrote (q ++ q') ok c c'.
Proof.
  intros (l & w & s1 & He & Hf & Hs & Hw & Hc & Hok) (l' & w' & s' & He' & Hf' & Hs' & Hw' & Hc' & Hok').
  destruct (Hok eq_refl) as (-> & <- & Hsend). exists (l ++ l'), (wire l.*2 ++ w'), s'.
  rewrite !fmap_app, concat_app, wire_app, Hs', Hs, <-(assoc_L (++)). subst s1. split_and!; try done.
  - by eapply encrypts_app.
  - by apply Forall_app.
  - by apply prefix_app.
  - by apply prefix_app.
  - intros E. by destruct (Hok' E) as (-> & -> & ->).
Qed.

Lemma wrote_failed q q' c c' : wrote q false c c' -> wrote (q ++ q') false c c'.
Proof.
  intros (l & w & s1 & He & Hf & Hs & Hw & Hc & _). exists l, w, s1. split_and!; try done. by apply prefix_app_r.
Qed.

(** One round of the loop of [Write]. *)
Lemma write_chunk_wrote chunk ct s ok r c :
  chunk <> [] -> len chunk <= maxPlaintext -> Encrypt (c_send c) chunk = (Ok ct, s) ->
  raw_Write (be_enc 2 (u16 (len ct)) ++ ct) (c_raw c) = (ok, r) -> wrote chunk ok c (set_send r s c).
Proof.
  intros Hn Hl He Hw. assert (is_uint 16 (len ct)) as Hu.
  { pose proof (Encrypt_length _ _ _ _ He) as Hlen. revert Hl. unfold len, is_uint, maxPlaintext, maxNoiseMsg. lia. }
  rewrite u16_small in Hw by exact Hu. change (be_enc 2 (len ct) ++ ct) with (framed ct) in Hw.
  unfold raw_Write in Hw. destruct (conn_Write _ _) as [ok' o] eqn:E. injection Hw as -> <-.
  destruct (conn_Write_spec _ _ _ _ E) as (q & Hq & Hp & Hok).
  exists [(chunk, ct)], q, s. unfold wire. cbn. rewrite !app_nil_r. split_and!; try done; [eauto|by apply Forall_singleton|].
  intros E'. by rewrite (Hok E').
Qed.

Lemma write_loop_wrote fuel p total c n err c' :
  (length p <= fuel)%nat -> write_loop fuel p total c = ((n, err), c') ->
  wrote p (bool_decide (err = None)) c c' /\ (err = None -> n = total + len p).
Proof.
  revert p total c. induction fuel as [|fuel IH]; intros p total c Hf Hw.
  { destruct p; [|cbn in Hf; lia]. injection Hw as <- <- <-. split; [apply wrote_nothing|]. by rewrite len_nil, Z.add_0_r. }
  destruct p as [|x p0]; [injection Hw as <- <- <-; split; [apply wrote_nothing|by rewrite len_nil, Z.add_0_r]|].
  cbn [write_loop] in Hw. set (p := x :: p0) in *.
  set (chunk := if maxPlaintext <? len p then take (Z.to_nat maxPlaintext) p else p) in *.
  assert (chunk <> [] /\ len chunk <= maxPlaintext /\ p = chunk ++ drop (length chunk) p) as (Hn & Hl & Hp).
  { subst chunk. destruct (Z.ltb_spec maxPlaintext (len p)) as [Hm|Hm].
    - unfold len, maxPlaintext, maxNoiseMsg in *. split_and!.
      + intros E%(f_equal length). revert E. rewrite length_take. cbn [length]. lia.
      + rewrite length_take. lia.
      + rewrite length_take, Nat.min_l by lia. by rewrite take_drop.
    - split_and!; [done|lia|]. by rewrite drop_all, app_nil_r. }
  destruct (Encrypt (c_send c) chunk) as [[ct|e] s] eqn:Ee.
  - destruct (raw_Write _ _) as [ok r] eqn:Er. pose proof (write_chunk_wrote _ _ _ _ _ _ Hn Hl Ee Er) as Hc.
    destruct ok.
    + apply IH in Hw as [Hw Ht].
      * split; [rewrite Hp; by eapply wrote_trans|]. intros E. rewrite (Ht E).
        pose proof (f_equal len Hp) as Hlp. rewrite len_app in Hlp. lia.
      * rewrite length_drop. destruct chunk; [done|]. cbn [length] in *. lia.
    + injection Hw as <- <- <-. split; [|done]. rewrite Hp. by apply wrote_failed.
  - injection Hw as <- <- <-. split; [|done]. exists [], [], (c_send c). cbn.
    split_and!; try done; [by rewrite app_nil_r|apply prefix_nil].
Qed.

(** A writer that writes [ps] and stops at the first error. *)
Fixpoint transmit (ps : list (list byte)) (c : secure) : bool * secure :=
  match ps with
  | [] => (true, c)
  | p :: ps =>
      match secure_Write p c with
      | ((_, None), c) => transmit ps c
      | ((_, Some _), c) => (false, c)
      end
  end.

Lemma transmit_wrote ps c ok c' : transmit ps c = (ok, c') -> wrote (concat ps) ok c c'.
Proof.
  revert c. induction ps as [|p ps IH]; intros c; cbn; [intros [= <- <-]; exact (wrote_nothing [] c)|].
  destruct (secure_Write p c) as [[n [e|]] c1] eqn:E; apply write_loop_wrote in E as [E _]; try done.
  - intros [= <- <-]. by apply wrote_failed.
  - intros Ht. eapply wrote_trans; [done|by apply IH].
Qed.

(** ** What is read *)

(** On a part of [p ++ k], [ReadFull] returns [p] and a part of [k] is left, or
    it fails and not all of [p ++ k] was there. *)
Lemma ReadFull_part d e p k :
  d `prefix_of` p ++ k ->
  (exists d', ReadFull (Stream d e) (length p) = (Ok p, Stream d' e) /\ d' `prefix_of` k /\ (d = p ++ k -> d' = k)) \/
  (exists er, ReadFull (Stream d e) (length p) = (Err er, Stream [] e) /\ (d = p ++ k -> False)).
Proof.
  intros Hd. destruct (Nat.le_gt_cases (length p) (length d)) as [Hl|Hl].
  - left. destruct Hd as [z Hz]. symmetry in Hz. apply app_eq_inv in Hz as [(y & -> & Hz)|(y & -> & ->)].
    + exists y. rewrite ReadFull_app by done. split_and!; [done|by exists z|]. intros E. by apply app_inv_head in E.
    + rewrite length_app in Hl. destruct y; [|cbn in Hl; lia]. rewrite app_nil_r in *. exists [].
      pose proof (ReadFull_app d [] e (length d) eq_refl) as Hr. rewrite app_nil_r in Hr. rewrite Hr.
      split_and!; [done|apply prefix_nil|]. intros E. rewrite <-(app_nil_r d) in E at 1. by apply app_inv_head in E.
  - right. unfold ReadFull. cbn [st_data st_end]. rewrite decide_False by lia. eexists. split; [done|].
    intros ->. rewrite length_app in Hl. lia.
Qed.

(** The messages of [l] are on their way to the reader, as far as the wire brought
    them. *)
Definition pending (c : secure) (l : list (list byte * list byte)) : Prop :=
  exists s s', linked s (c_recv c) /\ encrypts s l s' /\ Forall fits_wire l /\
    st_data (raw_in (c_raw c)) `prefix_of` wire l.*2.

Definition all_there (c : secure) (l : list (list byte * list byte)) : Prop :=
  st_data (raw_in (c_raw c)) = wire l.*2.

Definition stream_end (c : secure) : goerror := st_end (raw_in (c_raw c)).

(** What [Read] takes out of the buffer. *)
Lemma taken_nonempty (n : nat) (b : list byte) : (0 < n)%nat -> b <> [] -> take n b <> [].
Proof. destruct n, b; cbn; [lia..|done|done]. Qed.

Lemma secure_Read_pending n c l :
  pending c l ->
  match secure_Read n c with
  | (Ok b, c') =>
      exists l', pending c' l' /\ b ++ c_buf c' ++ concat l'.*1 = c_buf c ++ concat l.*1 /\
        stream_end c' = stream_end c /\ (all_there c l -> all_there c' l') /\ ((0 < n)%nat -> b <> [])
  | (Err e, _) => all_there c l -> c_buf c = [] /\ l = [] /\ e = stream_end c
  end.
Proof.
  intros (s & s' & Hl & He & Hf & Hd). unfold secure_Read, all_there, stream_end.
  destruct c as [[[d e] o] cs rcv peer buf]; cbn [c_raw c_buf c_recv c_send c_peer raw_in raw_out st_data st_end] in *.
  destruct buf as [|y buf].
  2: { cbn [c_raw c_buf c_recv set_recv raw_in st_data st_end]. exists l. split_and!; [|by rewrite (assoc_L (++)), take_drop|done..|].
       - by exists s, s'.
       - intros Hn. by apply taken_nonempty. }
  destruct l as [|[p ct] l].
  { cbn in Hd. apply prefix_nil_inv in Hd as ->. unfold raw_ReadFull, ReadFull. cbn.
    intros _. case_decide; by subst. }
  destruct He as (s1 & He & Hel). apply Forall_cons in Hf as [[Hp Hu] Hf]. cbn [fst snd] in *.
  destruct (Decrypt_Encrypt _ _ _ _ _ Hl He) as (r' & Hr' & Hl').
  unfold wire, framed in Hd |- *. cbn [fmap list_fmap concat snd] in Hd |- *. fold framed in *. 
  change (concat (framed <$> l.*2)) with (wire l.*2) in *. rewrite <-!(assoc_L (++)) in Hd |- *.
  unfold raw_ReadFull. cbn [raw_in raw_out].
  change 2%nat with (length (be_enc 2 (len ct))) at 1 2.
  destruct (ReadFull_part d e _ _ Hd) as [(d1 & -> & Hd1 & Hall)|(er & -> & Hall)]; [|by intros ?%Hall].
  cbn [raw_in raw_out]. rewrite be_dec_enc_small by exact Hu. unfold len at 1 3. rewrite Nat2Z.id.
  destruct (ReadFull_part d1 e _ _ Hd1) as [(d2 & -> & Hd2 & Hall2)|(er & -> & Hall2)]; [|by intros ?%Hall%Hall2].
  rewrite Hr'. cbn [c_raw c_buf c_recv set_recv raw_in st_data st_end]. exists l. split_and!.
  - by exists s1, s'.
  - by rewrite (assoc_L (++)), take_drop.
  - done.
  - intros E. by apply Hall2, Hall.
  - intros Hn. by apply taken_nonempty.
Qed.

(** Reading with buffers of the sizes [ns] until an error. *)
Fixpoint read_until (ns : list nat) (c : secure) : list byte * option goerror :=
  match ns with
  | [] => ([], None)
  | n :: ns =>
      match secure_Read n c with
      | (Err e, _) => ([], Some e)
      | (Ok b, c) => let '(bs, e) := read_until ns c in (b ++ bs, e)
      end
  end.

Lemma read_until_pending ns c l :
  pending c l ->
  let '(data, err) := read_until ns c in
  data `prefix_of` c_buf c ++ concat l.*1 /\
  (all_there c l -> Forall (fun n => (0 < n)%nat) ns -> (length (c_buf c ++ concat l.*1) < length ns)%nat ->
    data = c_buf c ++ concat l.*1 /\ err = Some (stream_end c)).
Proof.
  revert c l. induction ns as [|n ns IH]; intros c l Hp; cbn [read_until].
  { split; [apply prefix_nil|cbn; lia]. }
  pose proof (secure_Read_pending n c l Hp) as Hr. destruct (secure_Read n c) as [[b|e] c'].
  - destruct Hr as (l' & Hp' & Heq & Hend & Hall & Hne). specialize (IH c' l' Hp').
    destruct (read_until ns c') as [bs err]. destruct IH as [IH1 IH2]. rewrite <-Heq. split; [by apply prefix_app|].
    intros Ha [Hn Hns]%Forall_cons Hlen. rewrite <-Hend. destruct IH2 as [-> ->]; [by apply Hall|done| |done].
    specialize (Hne Hn). rewrite length_app in Hlen. destruct b; [done|]. cbn in Hlen |- *. lia.
  - split; [apply prefix_nil|]. intros Ha _ _. by destruct (Hr Ha) as (-> & -> & ->).
Qed.

(** C18: the secure stream is the byte stream of the writer.  Whatever the
    writes are, wherever one of them fails, wherever the wire is cut and whatever
    sizes are read, a reader with the matching cipher state gets a prefix of the
    bytes written; if nothing failed and all of the wire arrived it gets all of
    them and then the end of the raw stream. *)
Theorem secure_stream_delivers ps a ok a' w b ns :
  linked (c_send a) (c_recv b) -> c_buf b = [] ->
  transmit ps a = (ok, a') -> sent (raw_out (c_raw a')) = sent (raw_out (c_raw a)) ++ w ->
  st_data (raw_in (c_raw b)) `prefix_of` w ->
  let '(data, err) := read_until ns b in
  data `prefix_of` concat ps /\
  (ok = true -> st_data (raw_in (c_raw b)) = w -> Forall (fun n => (0 < n)%nat) ns ->
    (length (concat ps) < length ns)%nat -> data = concat ps /\ err = Some (stream_end b)).
Proof.
  intros Hl Hb Ht Hs Hd. destruct (transmit_wrote _ _ _ _ Ht) as (l & w' & s' & He & Hf & Hw & Hpre & Hc & Hok).
  rewrite Hs in Hw. apply app_inv_head in Hw as <-.
  assert (pending b l) as Hp by (exists (c_send a), s'; split_and!; [done..|by transitivity w]).
  pose proof (read_until_pending ns b l Hp) as Hr. destruct (read_until ns b) as [data err].
  rewrite Hb in Hr. cbn [app] in Hr. destruct Hr as [Hr1 Hr2]. split; [by transitivity (concat l.*1)|].
  intros E Hall Hns Hlen. destruct (Hok E) as (-> & Hcl & _). rewrite <-Hcl in *. by apply Hr2.
Qed.

(** *** A hostile wire *)

(** No message but the next of [cts] is accepted, and a refused one leaves the
    state: nobody forged one. *)
Fixpoint unforged (r : CipherState) (cts : list (list byte)) : Prop :=
  match cts with
  | [] => forall ct, exists e, Decrypt r ct = (Err e, r)
  | ct :: cts =>
      forall ct', match Decrypt r ct' with
                  | (Ok _, r') => ct' = ct /\ unforged r' cts
                  | (Err _, r') => r' = r
                  end
  end.

(** Reading on across errors. *)
Fixpoint read_every (ns : list nat) (c : secure) : list byte :=
  match ns with
  | [] => []
  | n :: ns => match secure_Read n c with (Ok b, c) => b ++ read_every ns c | (Err _, c) => read_every ns c end
  end.

Definition guarded (c : secure) (l : list (list byte * list byte)) : Prop :=
  exists s s', linked s (c_recv c) /\ encrypts s l s' /\ unforged (c_recv c) l.*2.

Lemma guarded_state r r' cs cs' k peer buf buf' l :
  guarded (mkSecure r cs k peer buf) l -> guarded (mkSecure r' cs' k peer buf') l.
Proof. done. Qed.

Lemma secure_Read_guarded n c l :
  guarded c l ->
  match secure_Read n c with
  | (Ok b, c') => exists l', guarded c' l' /\ b ++ c_buf c' ++ concat l'.*1 = c_buf c ++ concat l.*1
  | (Err _, c') => guarded c' l /\ c_buf c = [] /\ c_buf c' = []
  end.
Proof.
  intros Hg. unfold secure_Read. destruct c as [r cs k peer buf]. cbn [c_buf c_raw c_recv].
  destruct buf as [|y buf].
  2: { cbn. exists l. split; [by eapply guarded_state|by rewrite (assoc_L (++)), take_drop]. }
  destruct (raw_ReadFull 2 r) as [[hdr|e] r1]; [|by split; [eapply guarded_state|]].
  destruct (raw_ReadFull _ r1) as [[ct|e] r2]; [|by split; [eapply guarded_state|]].
  destruct Hg as (s & s' & Hl & He & Hu). cbn [c_recv] in *. destruct l as [|[p ct0] l].
  - cbn in Hu. destruct (Hu ct) as (e & ->). split; [|done]. by exists s, s'.
  - destruct He as (s1 & He & Hel). pose proof Hu as Hu0. cbn in Hu. specialize (Hu ct).
    destruct (Decrypt_Encrypt _ _ _ _ _ Hl He) as (k' & Hk & Hl').
    destruct (Decrypt k ct) as [[pt|e] k1] eqn:Ed.
    + destruct Hu as [-> Hu]. rewrite Hk in Ed. injection Ed as <- <-. cbn. exists l. split; [by exists s1, s'|].
      by rewrite (assoc_L (++)), take_drop.
    + subst k1. split; [|done]. exists s, s'. split_and!; [done|by exists s1|done].
Qed.

Lemma read_every_guarded ns c l : guarded c l -> read_every ns c `prefix_of` c_buf c ++ concat l.*1.
Proof.
  revert c l. induction ns as [|n ns IH]; intros c l Hg; cbn [read_every]; [apply prefix_nil|].
  pose proof (secure_Read_guarded n c l Hg) as Hr. destruct (secure_Read n c) as [[b|e] c'].
  - destruct Hr as (l' & Hg' & <-). apply prefix_app. by apply IH.
  - destruct Hr as (Hg' & -> & E). rewrite <-E. by apply IH.
Qed.

(** C36: the secure stream is authentic.  Whatever an adversary delivers in place
    of the bytes on the wire, in any amount and also after reads have failed, the
    reader gets a prefix of the bytes written, as long as nobody forges a message:
    its cipher state accepts none but those of the writer, in their order. *)
Theorem secure_stream_authentic ps a ok a' :
  transmit ps a = (ok, a') ->
  exists l w s', encrypts (c_send a) l s' /\
    sent (raw_out (c_raw a')) = sent (raw_out (c_raw a)) ++ w /\ w `prefix_of` wire l.*2 /\
    forall b ns, linked (c_send a) (c_recv b) -> c_buf b = [] -> unforged (c_recv b) l.*2 ->
      read_every ns b `prefix_of` concat ps.
Proof.
  intros Ht. destruct (transmit_wrote _ _ _ _ Ht) as (l & w & s' & He & Hf & Hw & Hpre & Hc & Hok).
  exists l, w, s'. split_and!; [done..|]. intros b ns Hl Hb Hu.
  pose proof (read_every_guarded ns b l) as Hr. rewrite Hb in Hr. transitivity (concat l.*1); [|done].
  apply Hr. by exists (c_send a), s'.
Qed.
End Props.

(** ** An instance

    An ideal cipher: its state is the list of the messages to come, and the only
    ciphertext of a message that it accepts is the message behind a tag. *)

Definition ideal_tag : list byte := replicate 16 x2a.
Definition ideal_script : list (list byte) := [str "hello "; str "world"].

Definition ideal_Encrypt (s : list (list byte)) (p : list byte) : res (list byte) * list (list byte) :=
  match s with
  | m :: rest => if decide (p = m) then (Ok (ideal_tag ++ p), rest) else (Err transport_err, s)
  | [] => (Err transport_err, s)
  end.

Definition ideal_Decrypt (s : list (list byte)) (ct : list byte) : res (list byte) * list (list byte) :=
  match s with
  | m :: rest => if decide (ct = ideal_tag ++ m) then (Ok m, rest) else (Err transport_err, s)
  | [] => (Err transport_err, s)
  end.

(** The handshake names the initiator; its object is the configuration and what
    is known of the peer. *)
Definition ideal_New (c : HandshakeConfig) : res (HandshakeConfig * list byte) :=
  if decide (length (Public (h_StaticKeypair c)) = 32%nat) then Ok (c, h_PeerStatic c) else Err transport_err.

Definition ideal_WriteMessage (script : list (list byte)) (h : HandshakeConfig * list byte) :=
  let msg := if h_Initiator h.1 then Public (h_StaticKeypair h.1) ++ replicate 64 x00 else replicate 48 x00 in
  (Ok (msg, script, script) : res (list byte * list (list byte) * list (list byte)), h).

Definition ideal_ReadMessage (script : list (list byte)) (h : HandshakeConfig * list byte) (msg : list byte) :=
  (Ok (script, script) : res (list (list byte) * list (list byte)),
   (h.1, if h_Initiator h.1 then h.2 else take 32 msg)).

(** The handshake agrees on the messages [script] of both directions. *)
Definition ideal_noise_of (script : list (list byte)) : NoiseLib := {|
  CipherState := list (list byte);
  Encrypt := ideal_Encrypt;
  Decrypt := ideal_Decrypt;
  HandshakeState := HandshakeConfig * list byte;
  NewHandshakeState := ideal_New;
  WriteMessage := ideal_WriteMessage script;
  ReadMessage := ideal_ReadMessage script;
  PeerStatic := snd
|}.

Lemma ideal_laws_of script : @NoiseLaws (ideal_noise_of script).
Proof.
  refine (@Build_NoiseLaws (ideal_noise_of script) eq _ _).
  - intros [|m s] p ct s'; cbn; [done|]. case_decide; [|done]. intros [= <- <-]. subst. cbn. lia.
  - intros [|m s] r p ct s' <-; cbn; [done|]. case_decide; [|done]. intros [= <- <-]. subst.
    exists s. by rewrite decide_True.
Defined.

Lemma ideal_handshake_of script `{CurveLib} : @HandshakeLaws (ideal_noise_of script) (ideal_laws_of script) _.
Proof.
  split. intros rd rd' ki kr hi hr _ _ _ _. cbn. unfold ideal_New. cbn. case_decide as Hk; [|done]. intros [= <-].
  case_decide; [|done]. intros [= <-].
  exists (Public ki ++ replicate 64 x00), script, script. do 3 eexists. split; [done|].
  split; [by rewrite length_app, Hk|]. split; [done|]. cbn [h_Initiator fst snd].
  split; [by apply take_app_length'|]. exists (replicate 48 x00). by do 6 eexists.
Qed.

#[local] Instance ideal_noise : NoiseLib := ideal_noise_of ideal_script.
#[local] Instance ideal_laws : NoiseLaws := ideal_laws_of ideal_script.
#[local] Existing Instance reverse_curve.

(** What the random readers deliver. *)
Definition ideal_random : list byte := replicate 32 x07.

Definition ideal_keys (b : byte) : Keypair := mkKeypair (replicate 32 b) (replicate 32 b).
Definition ideal_out : rawconn := mkRaw (Stream [] io_EOF) (mkConn [] []).
Definition ideal_writer : secure := newConn ideal_out ideal_script ideal_script (replicate 32 x02).
Definition ideal_wire : list byte := wire ((fun m => ideal_tag ++ m) <$> ideal_script).
Definition ideal_reader : secure :=
  newConn (mkRaw (Stream ideal_wire io_EOF) (mkConn [] [])) ideal_script ideal_script (replicate 32 x01).

Lemma handshake_connects_witness :
  let ki := ideal_keys x01 in let kr := ideal_keys x02 in
  exists m1 m2,
    let server := ServerHandshake ideal_random kr [Public ki] (mkRaw (Stream (framed m1 ++ []) io_EOF) (mkConn [] [])) in
    let client := clientHandshake ideal_random ki (Public kr) (mkRaw (Stream (framed m2 ++ []) io_EOF) (mkConn [] [])) in
    exists cs cc, server.1 = Ok cs /\ client.1 = Ok cc /\ RemoteKey cs = Public ki /\ RemoteKey cc = Public kr /\
      linked (c_send cc) (c_recv cs) /\ linked (c_send cs) (c_recv cc).
Proof.
  intros ki kr.
  destruct (@handshake_connects ideal_noise ideal_laws reverse_curve (ideal_handshake_of ideal_script) ideal_random ideal_random ki kr
    [Public ki] (mkHandshakeConfig ideal_random true ki (Public kr), Public kr) (mkHandshakeConfig ideal_random false kr [], []))
    as (_ & m1 & m2 & Hm); [vm_compute; by first [reflexivity|discriminate]..|].
  exists m1, m2. destruct (Hm (mkConn [] []) (mkConn [] []) [] io_EOF eq_refl eq_refl) as (_ & _ & Hc).
  destruct (Hc [] io_EOF) as (cc & H1 & H2 & _ & _ & Hs). destruct (Hs ltac:(left)) as (cs & H3 & H4 & _ & _ & H5 & H6).
  exists cs, cc. exact (conj H3 (conj H1 (conj H4 (conj H2 (conj H5 H6))))).
Defined.

Lemma secure_stream_delivers_witness :
  let '(data, err) := read_until (replicate 12 5%nat) ideal_reader in
  data `prefix_of` str "hello world" /\
  (true = true -> ideal_wire = ideal_wire -> Forall (fun n => (0 < n)%nat) (replicate 12 5%nat) ->
    (11 < 12)%nat -> data = str "hello world" /\ err = Some io_EOF).
Proof.
  apply (secure_stream_delivers ideal_script ideal_writer true (transmit ideal_script ideal_writer).2 ideal_wire
    ideal_reader (replicate 12 5%nat)); vm_compute; try reflexivity. by exists [].
Defined.

Lemma secure_stream_authentic_witness :
  unforged ideal_script ((fun m => ideal_tag ++ m) <$> ideal_script) /\
  exists l w s', encrypts (c_send ideal_writer) l s' /\
    sent (raw_out (c_raw (transmit ideal_script ideal_writer).2)) = sent (raw_out (c_raw ideal_writer)) ++ w /\
    w `prefix_of` wire l.*2 /\
    forall b ns, linked (c_send ideal_writer) (c_recv b) -> c_buf b = [] -> unforged (c_recv b) l.*2 ->
      read_every ns b `prefix_of` concat ideal_script.
Proof.
  split; [|apply (secure_stream_authentic ideal_script ideal_writer true); vm_compute; reflexivity].
  intros ct. cbn [Decrypt ideal_noise ideal_noise_of ideal_Decrypt ideal_script]. case_decide; [|done]. split; [done|].
  intros ct'. cbn [Decrypt ideal_noise ideal_noise_of ideal_Decrypt]. case_decide; [|done]. split; [done|]. intros ct''. by eexists.
Defined.
