(* ===== verification/Streamer.v ===== *)
(** * The agent's frame streamer (internal/agent/serve_cmd.go, keylog.go, stats.go)

    Framing with a sequence number per frame type, the relay of keylog files line
    by line, and the statistics that the capture process leaves for it. *)

From S2P Require Import Prelude Bytes GoIO Pcapio Proto Os Durable Json Spool Keylog Conn.

(** ** stats.go *)

#[export] Instance Stats_json : JsonStruct Stats := {
  json_members s :=
    [(str "Captured", SNum (Captured s)); (str "DroppedKern", SNum (DroppedKern s));
     (str "IfDrop", SNum (IfDrop s)); (str "SpoolBytes", SNum (SpoolBytes s));
     (str "OldestGpidx", SNum (stats_OldestGpidx s)); (str "HeadGpidx", SNum (stats_HeadGpidx s))];
  json_zero := mkStats 0 0 0 0 0 0;
  json_set k v s :=
    let '(mkStats a b c d e f) := s in
    if key_is (str "Captured") k then a ← field_u64 a v; Some (mkStats a b c d e f)
    else if key_is (str "DroppedKern") k then b ← field_u64 b v; Some (mkStats a b c d e f)
    else if key_is (str "IfDrop") k then c ← field_u64 c v; Some (mkStats a b c d e f)
    else if key_is (str "SpoolBytes") k then d ← field_u64 d v; Some (mkStats a b c d e f)
    else if key_is (str "OldestGpidx") k then e ← field_u64 e v; Some (mkStats a b c d e f)
    else if key_is (str "HeadGpidx") k then f ← field_u64 f v; Some (mkStats a b c d e f)
    else Some s
}.

Definition statsFile : list byte := str "stats.json".

Definition writeStats {X} (s : Stats) : M X unit := WriteFileAtomic statsFile (json_Marshal s) false.

Definition readStats {X} : M X (option Stats) :=
  r ← try (ReadFile statsFile);
  mret (match r with Err _ => None | Ok b => json_Unmarshal b end).

(** ** The streamer (serve_cmd.go) *)

Record streamer : Type := mkStreamer {
  out : bufwriter;
  st_srcID : Z;
  seq : gmap Z Z;     (** by frame type *)
  compress : bool
}.

Definition set_out (b : bufwriter) (s : streamer) : streamer := mkStreamer b (st_srcID s) (seq s) (compress s).

Definition out_Write (p : list byte) : M streamer unit := fun s =>
  let '(ok, b) := bufio_Write p (out s.1) in
  (if ok : bool then Ret () else Fail os_err, (set_out b s.1, s.2)).

Definition out_Flush : M streamer unit := fun s =>
  let '(ok, b) := bufio_Flush (out s.1) in
  (if ok : bool then Ret () else Fail os_err, (set_out b s.1, s.2)).

(** [Frame.WriteTo]. *)
Definition WriteTo (f : Frame) : M streamer unit := out_Write (Frame_AppendTo f []).

Definition next (t : Z) : M streamer Z :=
  s ← get;
  let v := default 0 (seq s !! t) in
  modify (fun s => mkStreamer (out s) (st_srcID s) (<[t := u64 (v + 1)]> (seq s)) (compress s)) ;;
  mret v.

Definition pcapToProto (rec : PcapRecord) : PktRecord :=
  mkPktRecord (TsSec rec) (u32 (TsUsec rec * 1000)) (OrigLen rec) (u32 (len (Data rec))) (Data rec).

Section Streamer.
Context `{CborCodec Stats, ZstdCodec}.

Definition sendBatch (baseGpidx : Z) (recs : list PktRecord) : M streamer unit :=
  let payload := EncodePktBatch recs in
  s ← get;
  let '(payload, flags) :=
    if compress s then (CompressBatch payload, Z.lor 0 FlagCompressed) else (payload, 0) in
  q ← next FramePktBatch;
  WriteTo (mkFrame FramePktBatch flags (st_srcID s) baseGpidx q payload).

Definition sendHeartbeat (head : Z) : M streamer unit :=
  s ← get;
  q ← next FrameHeartbeat;
  t ← Now;
  WriteTo (mkFrame FrameHeartbeat 0 (st_srcID s) 0 q (Heartbeat_Encode (mkHeartbeat (u64 t) head))).

Definition sendKeylog (line : list byte) : M streamer unit :=
  if negb (Valid line) then mret ()
  else
    s ← get;
    q ← next FrameTLSKeylog;
    WriteTo (mkFrame FrameTLSKeylog 0 (st_srcID s) 0 q line).

Definition sendStats (st : Stats) : M streamer unit :=
  payload ← of_res (EncodeStats st);
  s ← get;
  q ← next FrameStats;
  WriteTo (mkFrame FrameStats 0 (st_srcID s) 0 q payload).

Definition sendGap (from to : Z) : M streamer unit :=
  s ← get;
  q ← next FrameGap;
  WriteTo (mkFrame FrameGap FlagGap (st_srcID s) 0 q (Gap_Encode (mkGap (st_srcID s) from to))).
End Streamer.

(** ** The keylog relay (keylog.go)

    The keylog files are in a directory of their own, the world of these
    operations. *)

Record keylogSource : Type := mkKeylogSource {
  src_f : nat;
  src_offset : Z;
  partial : list byte
}.

(** The path names nothing, one file, or the directory. *)
Inductive keylogPath : Type :=
  | NoKeylog
  | KeylogFile (name : list byte)
  | KeylogDir.

Record keylogTailer : Type := mkKeylogTailer {
  kt_path : keylogPath;
  kt_files : gmap (list byte) keylogSource
}.

Definition newKeylogTailer (path : keylogPath) : keylogTailer := mkKeylogTailer path ∅.

(** [ReadAt] of [n] bytes: the bytes read and the error. *)
Definition FileReadAt {X} (fd : nat) (off : Z) (n : nat) : M X (list byte * option goerror) := fun s =>
  let '(f, w) := next_fault s.2 in
  match with_fd fd (fun _ i fs0 => Ok (slice (Z.to_nat off) n (i_data i), fs0)) (w_fs w) with
  | Err e => (Ret ([], Some e), (s.1, w))
  | Ok (data, _) =>
      match f with
      | FCrash => (Crashed, (s.1, w))
      | FErr => (Ret ([], Some os_err), (s.1, w))
      | FShort k => (Ret (take k data, Some os_err), (s.1, w))
      | FOk => (Ret (data, if decide (length data < n)%nat then Some io_EOF else None), (s.1, w))
      end
  end.

(** [filepath.Glob(dir/*.log)]. *)
Definition sources (k : keylogTailer) : M (keylogTailer * streamer) (list (list byte)) :=
  match kt_path k with
  | NoKeylog => mret []
  | KeylogFile name => mret [name]
  | KeylogDir =>
      r ← try ReadDir;
      mret (match r with
            | Err _ => []
            | Ok names => sort_Strings (filter (fun n => HasSuffix n (str ".log") = true) names)
            end)
  end.

(** The inner loop of [emit]: every line takes a byte at least, so the length of
    [partial] is fuel enough. *)
Fixpoint emit_lines (fuel : nat) : M (keylogSource * streamer) unit :=
  match fuel with
  | O => mret ()
  | S fuel =>
      s ← get;
      match IndexByte (partial s.1) x0a with
      | None => mret ()
      | Some i =>
          let line := take i (partial s.1) in
          modify (fun s => (mkKeylogSource (src_f s.1) (src_offset s.1) (drop (S i) (partial s.1)), s.2)) ;;
          (if decide (TrimSpace line = []) then mret ()
           else zoom snd (fun y x => (x.1, y)) (sendKeylog line)) ;;
          emit_lines fuel
      end
  end.

Definition emit_buf : nat := Z.to_nat (64 * 2 ^ 10).

Fixpoint emit_loop (fuel : nat) : M (keylogSource * streamer) unit :=
  match fuel with
  | O => mret ()
  | S fuel =>
      s ← get;
      r ← FileReadAt (src_f s.1) (src_offset s.1) emit_buf;
      let '(buf, err) := r in
      (if decide (0 < length buf)%nat then
         modify (fun s => (mkKeylogSource (src_f s.1) (i64 (src_offset s.1 + len buf)) (partial s.1 ++ buf), s.2)) ;;
         s ← get;
         emit_lines (S (length (partial s.1)))
       else mret ()) ;;
      match err with
      | Some _ => mret ()
      | None => if decide (length buf = 0)%nat then mret () else emit_loop fuel
      end
  end.

Definition file_length (fd : nat) (s : fs) : nat :=
  match with_fd fd (fun _ i s => Ok (length (i_data i), s)) s with Ok (n, _) => n | Err _ => O end.

(** A round that is not the last reads bytes, so the length of the file is fuel
    enough. *)
Definition emit : M (keylogSource * streamer) unit := fun s =>
  emit_loop (S (file_length (src_f s.1.1) (w_fs s.2))) s.

Definition set_source (p : list byte) (src : keylogSource) (k : keylogTailer) : keylogTailer :=
  mkKeylogTailer (kt_path k) (<[p := src]> (kt_files k)).

(** [emit] on the source of [p], which is in [k.files]. *)
Definition emit_source (p : list byte) (src : keylogSource) : M (keylogTailer * streamer) unit := fun s =>
  let '(o, ((src', str'), w)) := emit ((src, s.1.2), s.2) in
  (o, ((set_source p src' s.1.1, str'), w)).

Fixpoint emit_sources (ps : list (list byte)) : M (keylogTailer * streamer) unit :=
  match ps with
  | [] => mret ()
  | p :: ps =>
      s ← get;
      match kt_files s.1 !! p with
      | Some src => emit_source p src ;; emit_sources ps
      | None =>
          r ← try (OpenFile p O_plain);
          match r with
          | Err _ => emit_sources ps
          | Ok f =>
              let src := mkKeylogSource f 0 [] in
              modify (fun s => (set_source p src s.1, s.2)) ;;
              emit_source p src ;;
              emit_sources ps
          end
      end
  end.

Definition emitNew : M (keylogTailer * streamer) unit :=
  s ← get;
  ps ← sources s.1;
  emit_sources ps.

Definition keylogTailer_Close {X} (k : keylogTailer) : M X unit :=
  foldr (fun kv m => Close (src_f kv.2) ;; m) (mret ()) (map_to_list (kt_files k)).
