(* ===== verification/StreamerProof.v ===== *)
(** * What the streamer sends

    The frames handed to the connection, numbered per type; the keylog relay sends
    the valid lines of its files whatever the chunks they are read in. *)

From S2P Require Import Prelude Bytes GoIO Pcapio Proto Os Keeps Durable Dir Runs Json Spool Keylog Conn Streamer.

(** ** Sequences of frames *)

Definition enc_frames (fs : list Frame) : list byte := concat (Frame_bytes <$> fs).

Lemma enc_frames_app fs fs' : enc_frames (fs ++ fs') = enc_frames fs ++ enc_frames fs'.
Proof. unfold enc_frames. by rewrite fmap_app, concat_app. Qed.

Lemma enc_frames_snoc fs f : enc_frames (fs ++ [f]) = enc_frames fs ++ Frame_bytes f.
Proof. rewrite enc_frames_app. unfold enc_frames. cbn. by rewrite app_nil_r. Qed.

(** How many frames of type [t] there are. *)
Definition count (t : Z) (fs : list Frame) : Z := len (filter (fun f => f_Type f = t) fs).

Lemma count_snoc t fs f : count t (fs ++ [f]) = count t fs + (if decide (f_Type f = t) then 1 else 0).
Proof.
  unfold count. rewrite filter_app, len_app. cbn. by destruct (decide _).
Qed.

(** Every frame carries the number of frames of its type before it. *)
Inductive numbered : list Frame -> Prop :=
  | numbered_nil : numbered []
  | numbered_snoc fs f : numbered fs -> f_Seq f = u64 (count (f_Type f) fs) -> numbered (fs ++ [f]).

(** The streamer was handed [pre] and then the frames [fs]. *)
Record sends (pre : list byte) (fs : list Frame) (s : streamer) : Prop := {
  sd_out : carries (out s) (pre ++ enc_frames fs);
  sd_seq : forall t, default 0 (seq s !! t) = u64 (count t fs);
  sd_num : numbered fs;
  sd_src : Forall (fun f => f_SourceID f = st_srcID s) fs
}.

Definition handed (pre : list byte) (fs : list Frame) (s0 : streamer) (o : outcome unit) (s : streamer) : Prop :=
  sends pre fs s /\ st_srcID s = st_srcID s0 /\ compress s = compress s0 /\
  match o with
  | Ret _ => quiet_line (out s0) -> quiet_line (out s)
  | Fail _ => ~ quiet_line (out s0)
  | Crashed => False
  end.

Section Frames.
Context (F : fault -> Prop).

(** The state after [next]. *)
Definition bumped (t : Z) (s : streamer) : streamer :=
  mkStreamer (out s) (st_srcID s) (<[t := u64 (default 0 (seq s !! t) + 1)]> (seq s)) (compress s).

Lemma wp_next pre fs t s w Φ :
  sends pre fs s -> Φ (Ret (u64 (count t fs))) (bumped t s) w -> wp F (next t) Φ s w.
Proof.
  intros Hs HΦ. apply wp_bind, wp_get. cbn [bind_post]. apply wp_bind, wp_modify. cbn [bind_post].
  apply wp_ret. rewrite (sd_seq _ _ _ Hs). unfold bumped in HΦ. by rewrite (sd_seq _ _ _ Hs) in HΦ.
Qed.

Lemma wp_out_Write p s w :
  wp F (out_Write p) (fun o s' w' => w' = w /\ s' = set_out (bufio_Write p (out s)).2 s /\
    o = if (bufio_Write p (out s)).1 then Ret () else Fail os_err) s w.
Proof.
  intros fl ck rn HF. unfold out_Write. cbn [fst snd]. destruct (bufio_Write p (out s)) as [[] b]; by split_and!.
Qed.

(** A frame with the next number of its type. *)
Lemma wp_WriteTo pre fs f s w :
  sends pre fs s -> f_SourceID f = st_srcID s -> f_Seq f = u64 (count (f_Type f) fs) ->
  wp F (WriteTo f) (fun o s' w' => w' = w /\ handed pre (fs ++ [f]) s o s') (bumped (f_Type f) s) w.
Proof.
  intros [H1 H2 H3 H4] Hs Hq. unfold WriteTo.
  eapply wp_mono; [apply wp_out_Write|]. cbn beta. intros o s1 w1 (-> & -> & ->). split; [done|].
  cbn [out st_srcID seq compress set_out bumped].
  destruct (bufio_Write _ (out s)) as [ok b] eqn:E. pose proof E as E'.
  apply (bufio_Write_spec _ _ (pre ++ enc_frames fs)) in E as [Hc Hok]; [|done]. cbn [fst snd].
  split; [|split; [done|split; [done|]]].
  - split; cbn.
    + rewrite enc_frames_snoc, app_assoc. exact Hc.
    + intros t. rewrite count_snoc. destruct (decide (f_Type f = t)) as [<-|Hne].
      * rewrite lookup_insert_eq, H2. cbn. unfold u64. by rewrite Zplus_mod_idemp_l.
      * rewrite lookup_insert_ne by done. by rewrite Z.add_0_r, H2.
    + by constructor.
    + apply Forall_app. split; [done|]. by constructor.
  - destruct ok; cbn; intros Hqt; destruct (bufio_Write_quiet (Frame_AppendTo f []) (out s) Hqt) as (b' & Eb & Hb');
      congruence.
Qed.

(** ** The frames *)

Context `{CborCodec Stats, ZstdCodec}.

Definition batch_frame (s : streamer) (base : Z) (recs : list PktRecord) (q : Z) : Frame :=
  mkFrame FramePktBatch (if compress s then FlagCompressed else 0) (st_srcID s) base q
    (if compress s then CompressBatch (EncodePktBatch recs) else EncodePktBatch recs).

Lemma wp_sendBatch pre fs base recs s w :
  sends pre fs s ->
  wp F (sendBatch base recs) (fun o s' w' => w' = w /\
    handed pre (fs ++ [batch_frame s base recs (u64 (count FramePktBatch fs))]) s o s') s w.
Proof.
  intros Hs. unfold sendBatch, batch_frame. apply wp_bind, wp_get. cbn [bind_post].
  destruct (compress s); apply wp_bind; (eapply wp_next; [done|]); cbn [bind_post];
    by apply (wp_WriteTo pre fs (mkFrame FramePktBatch _ _ _ _ _)).
Qed.

(** Other frames than batches, that fit the header's fields. *)
Definition plain (f : Frame) : Prop :=
  f_Type f <> FramePktBatch /\ is_uint 8 (f_Type f) /\ is_uint 16 (f_Flags f) /\ f_BaseGpidx f = 0 /\
  len (f_Payload f) < 2 ^ 32.

(** Plain frames were handed over; a failure is the connection's, or [why] says
    where it comes from. *)
Definition more_plain (pre : list byte) (fs : list Frame) (why die : Prop) (s0 : streamer)
    (o : outcome unit) (s : streamer) : Prop :=
  exists fs', Forall plain fs' /\ sends pre (fs ++ fs') s /\ st_srcID s = st_srcID s0 /\
    compress s = compress s0 /\
    match o with
    | Ret _ => quiet_line (out s0) -> quiet_line (out s)
    | Fail _ => quiet_line (out s0) -> why
    | Crashed => die
    end.

Definition one_plain (pre : list byte) (fs : list Frame) (why : Prop) (s0 : streamer) (w0 : Os.fs)
    (o : outcome unit) (s : streamer) (w : Os.fs) : Prop := w = w0 /\ more_plain pre fs why False s0 o s.

Lemma more_plain_nil pre fs why die s : sends pre fs s -> more_plain pre fs why die s (Ret ()) s.
Proof. intros Hs. exists []. rewrite app_nil_r. by split_and!. Qed.

Lemma more_plain_app pre fs fs1 why die s0 s1 o s :
  Forall plain fs1 -> st_srcID s1 = st_srcID s0 -> compress s1 = compress s0 ->
  (quiet_line (out s0) -> quiet_line (out s1)) ->
  more_plain pre (fs ++ fs1) why die s1 o s -> more_plain pre fs why die s0 o s.
Proof.
  intros Hp Hi Hc Hq (fs2 & H1 & H2 & H3 & H4 & H5). exists (fs1 ++ fs2). rewrite app_assoc.
  split; [by apply Forall_app|]. split; [done|]. split; [congruence|]. split; [congruence|].
  destruct o; [auto| |done]. intros ?. by apply H5, Hq.
Qed.

Lemma handed_plain pre fs f why s0 w0 o s w :
  plain f -> w = w0 /\ handed pre (fs ++ [f]) s0 o s -> one_plain pre fs why s0 w0 o s w.
Proof.
  intros Hf (-> & H1 & H2 & H3 & H4). split; [done|]. exists [f]. split_and!; try done; [by constructor|].
  destruct o; [done|by intros ?%H4|done].
Qed.

Lemma wp_sendHeartbeat pre fs h s w :
  sends pre fs s -> wp F (sendHeartbeat h) (one_plain pre fs False s w) s w.
Proof.
  intros Hs. unfold sendHeartbeat. apply wp_bind, wp_get. cbn [bind_post].
  apply wp_bind. eapply wp_next; [done|]. cbn [bind_post]. apply wp_bind, wp_Now. intros t. cbn [bind_post].
  eapply wp_mono; [by apply (wp_WriteTo pre fs (mkFrame FrameHeartbeat 0 _ _ _ _))|].
  intros o s' w'. apply handed_plain. by split_and!.
Qed.

Lemma wp_sendGap pre fs from to s w :
  sends pre fs s -> wp F (sendGap from to) (one_plain pre fs False s w) s w.
Proof.
  intros Hs. unfold sendGap. apply wp_bind, wp_get. cbn [bind_post].
  apply wp_bind. eapply wp_next; [done|]. cbn [bind_post].
  eapply wp_mono; [by apply (wp_WriteTo pre fs (mkFrame FrameGap _ _ _ _ _))|].
  intros o s' w'. apply handed_plain. by split_and!.
Qed.

Lemma wp_sendStats pre fs st s w :
  sends pre fs s -> (forall b, EncodeStats st = Ok b -> len b < 2 ^ 32) ->
  wp F (sendStats st) (one_plain pre fs (exists e, EncodeStats st = Err e) s w) s w.
Proof.
  intros Hs Hl. unfold sendStats. apply wp_bind. destruct (EncodeStats st) as [b|e] eqn:E.
  2: { apply wp_fail. cbn [bind_post]. split; [done|]. exists []. rewrite app_nil_r. split_and!; try done. eauto. }
  apply wp_ret. cbn [bind_post]. apply wp_bind, wp_get. cbn [bind_post].
  apply wp_bind. eapply wp_next; [done|]. cbn [bind_post].
  eapply wp_mono; [by apply (wp_WriteTo pre fs (mkFrame FrameStats _ _ _ _ _))|].
  intros o s' w'. apply handed_plain. split_and!; try done. cbn. by apply Hl.
Qed.

Lemma wp_sendKeylog pre fs line s w :
  sends pre fs s ->
  wp F (sendKeylog line) (fun o s' w' => w' = w /\
    if Valid line then handed pre (fs ++ [mkFrame FrameTLSKeylog 0 (st_srcID s) 0 (u64 (count FrameTLSKeylog fs)) line]) s o s'
    else o = Ret () /\ s' = s) s w.
Proof.
  intros Hs. unfold sendKeylog. destruct (Valid line); [|by apply wp_ret]. cbn [negb].
  apply wp_bind, wp_get. cbn [bind_post]. apply wp_bind. eapply wp_next; [done|]. cbn [bind_post].
  by apply (wp_WriteTo pre fs (mkFrame FrameTLSKeylog 0 _ _ _ _)).
Qed.
End Frames.

(** ** Lines *)

(** The complete lines of [s], and what is left; [cur] came before. *)
Fixpoint lines_of (cur s : list byte) : list (list byte) * list byte :=
  match s with
  | [] => ([], cur)
  | b :: t =>
      if decide (b = x0a) then let '(l, r) := lines_of [] t in (cur :: l, r) else lines_of (cur ++ [b]) t
  end.

Lemma lines_of_app cur a b :
  lines_of cur (a ++ b) =
    ((lines_of cur a).1 ++ (lines_of (lines_of cur a).2 b).1, (lines_of (lines_of cur a).2 b).2).
Proof.
  revert cur; induction a as [|x a IH]; intros cur; cbn; [by destruct (lines_of cur b)|].
  case_decide; [|apply IH]. rewrite IH. by destruct (lines_of [] a).
Qed.

Lemma lines_of_cur cur s :
  lines_of cur s = match IndexByte s x0a with
                   | Some i => ((cur ++ take i s) :: (lines_of [] (drop (S i) s)).1, (lines_of [] (drop (S i) s)).2)
                   | None => ([], cur ++ s)
                   end.
Proof.
  revert cur; induction s as [|b s IH]; intros cur; cbn; [by rewrite app_nil_r|].
  case_decide as Hb.
  - subst. cbn. rewrite drop_0, app_nil_r. by destruct (lines_of [] s).
  - rewrite IH. destruct (IndexByte s x0a) as [i|]; cbn; by rewrite <-app_assoc.
Qed.

Lemma lines_of_partial s t : lines_of (lines_of [] s).2 t = lines_of [] ((lines_of [] s).2 ++ t).
Proof.
  assert (forall cur, Forall (fun b => b <> x0a) cur -> Forall (fun b => b <> x0a) (lines_of cur s).2) as Hr.
  { induction s as [|b s IH]; intros cur Hc; cbn; [done|]. case_decide.
    - specialize (IH [] (Forall_nil_2 _)). by destruct (lines_of [] s).
    - apply IH, Forall_app. by split; [|constructor]. }
  specialize (Hr [] (Forall_nil_2 _)). rewrite lines_of_app. revert Hr. generalize (lines_of [] s).2. intros r Hr.
  assert (forall cur, lines_of cur r = ([], cur ++ r)) as ->.
  { induction Hr as [|b r Hb Hr IH]; intros cur; cbn; [by rewrite app_nil_r|].
    rewrite decide_False by done. by rewrite IH, <-app_assoc. }
  cbn. by destruct (lines_of r t).
Qed.

Lemma lines_of_length cur s : (length (lines_of cur s).2 <= length cur + length s)%nat.
Proof.
  revert cur; induction s as [|b s IH]; intros cur; cbn; [lia|]. case_decide.
  - specialize (IH []). destruct (lines_of [] s). cbn in *. lia.
  - specialize (IH (cur ++ [b])). rewrite length_app in IH. cbn in IH. lia.
Qed.

(** The frames [ks] relay [lines]. *)
Definition relays (lines : list (list byte)) (ks : list Frame) : Prop :=
  f_Payload <$> ks = filter (fun l => Valid l = true) lines /\
  Forall (fun f => f_Type f = FrameTLSKeylog /\ f_Flags f = 0 /\ f_BaseGpidx f = 0) ks.

Lemma relays_app l1 l2 k1 k2 : relays l1 k1 -> relays l2 k2 -> relays (l1 ++ l2) (k1 ++ k2).
Proof.
  intros [H1 H2] [H3 H4]. split; [by rewrite fmap_app, filter_app, H1, H3|]. by apply Forall_app.
Qed.

Lemma relays_nil : relays [] [].
Proof. by split. Qed.

Lemma relays_invalid line : Valid line = false -> relays [line] [].
Proof. intros Hv. split; [|done]. by rewrite filter_cons_False by congruence. Qed.

Lemma relays_valid line q src : Valid line = true -> relays [line] [mkFrame FrameTLSKeylog 0 src 0 q line].
Proof. intros Hv. split; [by rewrite filter_cons_True|by repeat constructor]. Qed.

Lemma Valid_blank l : TrimSpace l = [] -> Valid l = false.
Proof. unfold Valid. by intros ->. Qed.

(** ** The relay of one file *)

Section Relay.
Context (F : fault -> Prop) (pre : list byte).

Definition relayed (lines : list (list byte)) (fs : list Frame) (s0 : streamer) (o : outcome unit) (s : streamer) : Prop :=
  exists ks, sends pre (fs ++ ks) s /\ st_srcID s = st_srcID s0 /\ compress s = compress s0 /\
    match o with
    | Ret _ => relays lines ks /\ (quiet_line (out s0) -> quiet_line (out s))
    | Fail _ => (exists l', l' `prefix_of` lines /\ relays l' ks) /\ ~ quiet_line (out s0)
    | Crashed => F FCrash /\ exists l', l' `prefix_of` lines /\ relays l' ks
    end.

Lemma relayed_app lines ls fs k1 s0 s1 o s :
  relays lines k1 -> sends pre (fs ++ k1) s1 -> st_srcID s1 = st_srcID s0 -> compress s1 = compress s0 ->
  (quiet_line (out s0) -> quiet_line (out s1)) ->
  relayed ls (fs ++ k1) s1 o s -> relayed (lines ++ ls) fs s0 o s.
Proof.
  intros Hr Hs Hi Hc Hq (ks & Hs' & Hi' & Hc' & Ho). exists (k1 ++ ks). rewrite app_assoc.
  split; [done|]. split; [congruence|]. split; [congruence|].
  assert (forall l', l' `prefix_of` ls -> relays l' ks ->
    exists l'', l'' `prefix_of` lines ++ ls /\ relays l'' (k1 ++ ks)) as Hl.
  { intros l' Hp Hl'. exists (lines ++ l'). split; [by apply prefix_app|by apply relays_app]. }
  destruct o as [u|e|].
  - destruct Ho as [Ho Hq']. split; [by apply relays_app|auto].
  - destruct Ho as [(l' & Hp & Hl') Hq']. split; [by eapply Hl|auto].
  - destruct Ho as [HF (l' & Hp & Hl')]. split; [done|by eapply Hl].
Qed.

Lemma relayed_nil fs s : sends pre fs s -> relayed [] fs s (Ret ()) s.
Proof. intros Hs. exists []. rewrite app_nil_r. by split_and!. Qed.

Lemma wp_emit_lines fuel fs src str w :
  sends pre fs str -> (length (partial src) < fuel)%nat ->
  wp F (emit_lines fuel) (fun o s' w' => w' = w /\ relayed (lines_of [] (partial src)).1 fs str o s'.2 /\
    match o with
    | Ret _ => s'.1 = mkKeylogSource (src_f src) (src_offset src) (lines_of [] (partial src)).2
    | Fail _ => True
    | Crashed => False
    end) (src, str) w.
Proof.
  revert fs src str; induction fuel as [|fuel IH]; intros fs src str Hs Hf; [lia|].
  cbn [emit_lines]. apply wp_bind, wp_get. cbn [bind_post fst]. rewrite lines_of_cur.
  destruct (IndexByte (partial src) x0a) as [i|] eqn:Ei.
  2: { apply wp_ret. split; [done|]. split; [by apply relayed_nil|]. by destruct src. }
  apply wp_bind, wp_modify. cbn [bind_post fst snd app].
  set (line := take i (partial src)). set (src' := mkKeylogSource (src_f src) (src_offset src) (drop (S i) (partial src))).
  set (lines := (lines_of [] (drop (S i) (partial src))).1).
  assert (length (partial src') < fuel)%nat as Hf'.
  { subst src'. cbn [partial]. rewrite length_drop. destruct (partial src); [done|]. cbn [length] in *. lia. }
  apply wp_bind.
  assert (wp F (if decide (TrimSpace line = []) then mret ()
      else zoom snd (fun y x => (x.1, y)) (sendKeylog line))
    (fun o s' w' => w' = w /\ s'.1 = src' /\ relayed [line] fs str o s'.2 /\ o <> Crashed) (src', str) w) as Hline.
  { case_decide as Ht.
    { apply wp_ret. split; [done|]. split; [done|]. split; [|done]. exists []. rewrite app_nil_r.
      pose proof (relays_invalid line (Valid_blank _ Ht)). by split_and!. }
    apply wp_zoom. eapply wp_mono; [by apply (wp_sendKeylog F pre fs line)|].
    intros o s' w' [-> Ho]. cbn [fst snd]. split; [done|]. split; [done|].
    destruct (Valid line) eqn:Ev.
    - destruct Ho as (H1 & H2 & H3 & H4).
      pose proof (relays_valid line (u64 (count FrameTLSKeylog fs)) (st_srcID str) Ev) as Hrel.
      split; [|by destruct o]. eexists. split; [exact H1|]. split; [done|]. split; [done|].
      destruct o; [done| |done]. split; [|done]. by exists [line].
    - destruct Ho as [-> ->]. split; [|done]. exists []. rewrite app_nil_r.
      pose proof (relays_invalid line Ev). by split_and!. }
  eapply wp_mono; [exact Hline|]. intros o [src1 str1] w1 (-> & Hsrc & Hrel & Hc). cbn [fst snd] in *. subst src1.
  destruct o as [[]|e|]; cbn [bind_post]; [| |done].
  - destruct Hrel as (k1 & H1 & H2 & H3 & H4 & H5).
    eapply wp_mono; [by apply (IH (fs ++ k1))|]. intros o s' w' (-> & Hrel & Ho). split; [done|]. split; [|done].
    change (line :: lines) with ([line] ++ lines). by eapply relayed_app.
  - split; [done|]. split; [|done]. destruct Hrel as (ks & H1 & H2 & H3 & (l' & Hp & Hl) & H5).
    exists ks. split; [done|]. split; [done|]. split; [done|]. split; [|done]. exists l'. split; [|done].
    destruct Hp as [k Hk]. exists (k ++ lines). change (line :: lines) with ([line] ++ lines). by rewrite Hk, <-app_assoc.
Qed.

(** What the descriptor reads. *)
Definition file_data (f : nat) (w : Os.fs) : list byte :=
  match with_fd f (fun _ i s => Ok (i_data i, s)) w with Ok (b, _) => b | Err _ => [] end.
Definition file_open (f : nat) (w : Os.fs) : Prop :=
  exists d i, fs_fds w !! f = Some d /\ fs_inodes w !! fd_ino d = Some i.

Lemma wp_FileReadAt {X} f off n (x : X) w :
  wp F (FileReadAt f off n) (fun o x' w' => x' = x /\ w' = w /\
    match o with
    | Ret (buf, err) => buf `prefix_of` slice (Z.to_nat off) n (file_data f w) /\
        (err = None -> length buf = n) /\
        (~ can_fail F -> file_open f w -> buf = slice (Z.to_nat off) n (file_data f w) /\
          (err = None \/ (length buf < n)%nat))
    | Fail _ => False
    | Crashed => F FCrash
    end) x w.
Proof.
  intros fl ck rn HFl. unfold FileReadAt. cbn [fst snd].
  destruct (next_fault _) as [ft w1] eqn:E. destruct (next_fault_F _ _ _ _ _ _ HFl E) as (Hft & Hw & HF').
  unfold file_data, file_open. rewrite Hw. unfold with_fd.
  destruct (fs_fds w !! f) as [d|] eqn:E1; [destruct (fs_inodes w !! fd_ino d) as [i|] eqn:E2|].
  - assert (forall k, take k (slice (Z.to_nat off) n (i_data i)) `prefix_of` slice (Z.to_nat off) n (i_data i)) as Hp.
    { intros k. exists (drop k (slice (Z.to_nat off) n (i_data i))). by rewrite take_drop. }
    destruct ft as [| |k|]; cbn [fst snd]; rewrite ?Hw; (split; [|done]); (split; [done|split; [done|]]); try done.
    + case_decide as Hd; (split; [done|split; [|intros _ _; split; [done|auto]]]); [done|].
      intros _. pose proof (length_take (drop (Z.to_nat off) (i_data i)) n) as Hl. unfold slice in *. lia.
    + split; [apply prefix_nil|]. split; [done|]. intros Hn. exfalso. apply Hn. left. by destruct Hft.
    + split; [apply Hp|]. split; [done|]. intros Hn. exfalso. apply Hn. right. exists k. by destruct Hft.
    + by destruct Hft.
  - cbn. rewrite Hw. split; [|done]. split_and!; try done; [apply prefix_nil|].
    intros _ (d' & i' & H1 & H2). simplify_eq.
  - cbn. rewrite Hw. split; [|done]. split_and!; try done; [apply prefix_nil|].
    intros _ (d' & i' & H1 & H2). simplify_eq.
Qed.

Lemma emit_buf_pos : (0 < emit_buf)%nat.
Proof. unfold emit_buf. lia. Qed.

#[local] Opaque emit_buf.

(** [n] bytes of the file were read from the offset on. *)
Definition emitted (src : keylogSource) (fs : list Frame) (str : streamer) (w : Os.fs)
    (o : outcome unit) (s' : keylogSource * streamer) (w' : Os.fs) : Prop :=
  w' = w /\ exists n,
    let read := slice (Z.to_nat (src_offset src)) n (file_data (src_f src) w) in
    let l := lines_of [] (partial src ++ read) in
    n = length read /\ relayed l.1 fs str o s'.2 /\
    match o with
    | Ret _ => s'.1 = mkKeylogSource (src_f src) (src_offset src + Z.of_nat n) l.2 /\
        (~ can_fail F -> file_open (src_f src) w -> len (file_data (src_f src) w) <= src_offset src + Z.of_nat n)
    | _ => True
    end.

Lemma slice_all_nil {A} i (l : list A) : slice i 0 l = [].
Proof. done. Qed.

Lemma prefix_slice {A} (buf : list A) i n l : buf `prefix_of` slice i n l -> buf = slice i (length buf) l.
Proof.
  unfold slice. intros [k Hk]. apply (f_equal (take (length buf))) in Hk.
  rewrite take_app_length, take_take in Hk.
  destruct (Nat.le_gt_cases (length buf) n); [by rewrite Nat.min_l in Hk|].
  assert (length buf <= n)%nat; [|lia].
  rewrite <-Hk. rewrite length_take. lia.
Qed.

Lemma wp_emit_loop fuel fs src str w :
  sends pre fs str -> lines_of [] (partial src) = ([], partial src) -> 0 <= src_offset src < 2 ^ 63 ->
  len (file_data (src_f src) w) < 2 ^ 63 ->
  (length (file_data (src_f src) w) - Z.to_nat (src_offset src) < fuel)%nat ->
  wp F (emit_loop fuel) (emitted src fs str w) (src, str) w.
Proof.
  revert fs src str; induction fuel as [|fuel IH]; intros fs src str Hs Hp Ho Hd Hf; [lia|].
  set (off := src_offset src) in *. set (data := file_data (src_f src) w) in *.
  cbn [emit_loop]. apply wp_bind, wp_get. cbn [bind_post fst]. fold off.
  apply wp_bind. eapply wp_mono; [apply wp_FileReadAt|]. fold data.
  intros [[buf err]|e|] s1 w1 (-> & -> & Hr); cbn [bind_post]; [|done|].
  2: { split; [done|]. exists 0%nat. cbn [fst snd]. rewrite slice_all_nil, app_nil_r, Hp. split; [done|]. split; [|done].
    exists []. rewrite app_nil_r. split; [done|]. split; [done|]. split; [done|]. split; [done|]. exists []. split; [done|apply relays_nil]. }
  destruct Hr as (Hpre & Hnone & Hall). apply prefix_slice in Hpre. fold off in Hpre.
  assert (Z.of_nat (length buf) <= Z.max 0 (len data - off)) as Hlen.
  { rewrite Hpre. unfold slice, len. rewrite length_take, length_drop. lia. }
  set (k := length buf) in *.
  set (L := lines_of [] (partial src ++ buf)).
  set (src1 := mkKeylogSource (src_f src) (off + Z.of_nat k) L.2).
  assert (lines_of [] L.2 = ([], L.2)) as HpL.
  { pose proof (lines_of_partial (partial src ++ buf) []) as H. rewrite app_nil_r in H. subst L. by rewrite <-H. }
  apply wp_bind.
  assert (wp F (if decide (0 < k)%nat then
         modify (fun s => (mkKeylogSource (src_f s.1) (i64 (src_offset s.1 + len buf)) (partial s.1 ++ buf), s.2)) ;;
         s ← get; emit_lines (S (length (partial s.1))) else mret ())
    (fun o s' w' => w' = w /\ relayed L.1 fs str o s'.2 /\
      match o with Ret _ => s'.1 = src1 | Fail _ => True | Crashed => False end) (src, str) w) as Hlines.
  { case_decide as Hk.
    - apply wp_bind, wp_modify. cbn [bind_post fst snd]. fold off.
      assert (i64 (off + len buf) = off + Z.of_nat k) as -> by (apply i64_small; unfold k, len in *; lia).
      apply wp_bind, wp_get. cbn [bind_post fst partial].
      eapply wp_mono; [apply (wp_emit_lines _ fs); [done|cbn [partial]; lia]|]. done.
    - assert (buf = []) as Hbuf by (apply nil_length_inv; unfold k in Hk; lia).
      apply wp_ret. split; [done|]. subst L src1. rewrite Hbuf, app_nil_r, Hp. cbn [fst snd].
      split; [by apply relayed_nil|]. replace k with 0%nat by (unfold k; by rewrite Hbuf). rewrite Z.add_0_r. by destruct src. }
  assert (forall n, slice (Z.to_nat off) (k + n) data = buf ++ slice (Z.to_nat off + k) n data) as Hsl.
  { intros n. rewrite <-slice_snoc_slice. f_equal. by symmetry. }
  assert (forall read, lines_of [] (partial src ++ buf ++ read) = (L.1 ++ (lines_of [] (L.2 ++ read)).1, (lines_of [] (L.2 ++ read)).2)) as HL.
  { intros read. rewrite app_assoc, lines_of_app. fold L. subst L. by rewrite lines_of_partial. }
  eapply wp_mono; [exact Hlines|]. intros o [s1 str1] w1 (-> & Hrel & Hs1). cbn [fst snd] in *.
  assert (slice (Z.to_nat off) k data = buf) as Hk by (symmetry; exact Hpre).
  destruct o as [[]|e|]; cbn [bind_post]; [subst s1| |done].
  2: { split; [done|]. exists k. cbv zeta. fold off data. rewrite Hk. split; [done|]. split; [|done]. exact Hrel. }
  assert (forall Q : Prop, (err <> None \/ k = 0%nat -> Q) -> (~ can_fail F -> file_open (src_f src) w -> len data <= off + Z.of_nat k) ->
    emitted src fs str w (Ret ()) (src1, str1) w) as Hstop.
  { intros Q _ Hend. split; [done|]. exists k. cbv zeta. fold off data. rewrite Hk. split; [done|].
    split; [exact Hrel|]. split; [done|exact Hend]. }
  assert (err <> None \/ k = 0%nat -> ~ can_fail F -> file_open (src_f src) w -> len data <= off + Z.of_nat k) as Hend.
  { intros Hc Hn Hop. destruct (Hall Hn Hop) as [Hbuf Hsh]. apply (f_equal length) in Hbuf.
    unfold slice in Hbuf. rewrite length_take, length_drop in Hbuf. fold k in Hbuf.
    destruct (decide (err = None)) as [He|He].
    - destruct Hc as [?|Hk0]; [done|]. rewrite (Hnone He) in Hk0. pose proof emit_buf_pos. lia.
    - destruct Hsh as [?|Hsh]; [done|]. unfold len. lia. }
  destruct err as [e|].
  { apply wp_ret. apply (Hstop True); [done|]. apply Hend. by left. }
  specialize (Hnone eq_refl). pose proof emit_buf_pos as Hpos. rewrite decide_False by lia.
  destruct Hrel as (k1 & R1 & R2 & R3 & R4 & R5).
  eapply wp_mono; [apply (IH (fs ++ k1) src1 str1 R1 HpL)|].
  - subst src1. cbn [src_offset]. unfold len in *. lia.
  - done.
  - subst src1. cbn [src_f src_offset]. fold data. assert (k = emit_buf) as Hke by done.
    unfold len in *. lia.
  - intros o [s2 str2] w2 (-> & n & H1 & H2 & H3). cbn [fst snd src1 src_f src_offset partial] in *. fold data in H1, H2, H3.
    replace (Z.to_nat (off + Z.of_nat k)) with (Z.to_nat off + k)%nat in * by lia.
    split; [done|]. exists (k + n)%nat. cbv zeta. fold off data. rewrite Hsl. split; [rewrite length_app; fold k; lia|].
    rewrite HL. cbn [fst snd]. split; [by eapply relayed_app|].
    destruct o; [|done..]. rewrite Nat2Z.inj_add, Z.add_assoc. exact H3.
Qed.

Lemma wp_emit fs src str w :
  sends pre fs str -> lines_of [] (partial src) = ([], partial src) -> 0 <= src_offset src < 2 ^ 63 ->
  len (file_data (src_f src) w) < 2 ^ 63 ->
  wp F emit (emitted src fs str w) (src, str) w.
Proof.
  intros Hs Hp Ho Hd.
  assert (file_length (src_f src) w = length (file_data (src_f src) w)) as Hl.
  { unfold file_length, file_data, with_fd. destruct (fs_fds w !! src_f src); [|done]. by destruct (fs_inodes w !! _). }
  assert (wp F (emit_loop (S (file_length (src_f src) w))) (emitted src fs str w) (src, str) w) as Hloop.
  { apply wp_emit_loop; try done. rewrite Hl. lia. }
  intros fl ck rn. exact (Hloop fl ck rn).
Qed.

(** ** The relay of all files *)

(** No keylog file has 4 GiB. *)
Definition small_files (w : Os.fs) : Prop := forall ino i, fs_inodes w !! ino = Some i -> len (i_data i) < 2 ^ 32.

Definition source_ok (src : keylogSource) : Prop :=
  lines_of [] (partial src) = ([], partial src) /\ len (partial src) <= src_offset src < 2 ^ 32.

Definition tailer_ok (k : keylogTailer) : Prop := map_Forall (fun _ => source_ok) (kt_files k).

Lemma small_data f w : small_files w -> len (file_data f w) < 2 ^ 32.
Proof.
  intros Hw. unfold file_data, with_fd. destruct (fs_fds w !! f) as [d|]; [|done].
  destruct (fs_inodes w !! fd_ino d) as [i|] eqn:E; [|done]. by apply (Hw (fd_ino d)).
Qed.

Lemma lines_of_lines cur s : Forall (fun l => (length l <= length cur + length s)%nat) (lines_of cur s).1.
Proof.
  revert cur; induction s as [|b s IH]; intros cur; cbn; [done|]. case_decide.
  - specialize (IH []). destruct (lines_of [] s) as [l r]. cbn in *. constructor; [lia|].
    eapply Forall_impl; [exact IH|]. cbn. lia.
  - eapply Forall_impl; [apply IH|]. cbn. intros l. rewrite length_app. cbn. lia.
Qed.

Lemma relays_plain lines ks : relays lines ks -> Forall (fun l => len l < 2 ^ 32) lines -> Forall plain ks.
Proof.
  intros [Hp Hk] Hl. assert (Forall (fun f => len (f_Payload f) < 2 ^ 32) ks) as Hlen.
  { apply (Forall_fmap f_Payload (fun l => len l < 2 ^ 32)). rewrite Hp. rewrite Forall_forall in *. intros l [_ Hin]%list_elem_of_filter. by apply Hl. }
  rewrite Forall_forall in *. intros f Hf. destruct (Hk f Hf) as (H1 & H2 & H3). specialize (Hlen f Hf).
  split; [by rewrite H1|]. rewrite H1, H2. by split_and!.
Qed.

Lemma emitted_ok src fs str w o s' w' :
  source_ok src -> small_files w -> emitted src fs str w o s' w' ->
  w' = w /\ more_plain pre fs False (F FCrash) str o s'.2 /\ (o = Ret () -> source_ok s'.1).
Proof.
  intros [Hp Hb] Hw (-> & n & Hn & Hrel & Ho). split; [done|]. cbv zeta in *.
  set (data := file_data (src_f src) w) in *. set (read := slice _ n data) in *.
  pose proof (small_data (src_f src) w Hw) as Hd. fold data in Hd.
  assert (src_offset src + Z.of_nat n < 2 ^ 32) as Hoff.
  { rewrite Hn. subst read. unfold slice. rewrite length_take, length_drop. unfold len in *. lia. }
  assert (Z.of_nat (length (partial src ++ read)) <= src_offset src + Z.of_nat n) as Hlen.
  { rewrite length_app, <-Hn. unfold len in Hb. lia. }
  assert (Forall (fun l => len l < 2 ^ 32) (lines_of [] (partial src ++ read)).1) as Hls.
  { eapply Forall_impl; [apply lines_of_lines|]. cbn. unfold len. lia. }
  split.
  - destruct Hrel as (ks & H1 & H2 & H3 & H4). exists ks.
    assert (forall l', l' `prefix_of` (lines_of [] (partial src ++ read)).1 -> relays l' ks -> Forall plain ks) as Hpl.
    { intros l' [k Hk] Hl'. apply (relays_plain l'); [done|]. rewrite Hk, Forall_app in Hls. apply Hls. }
    destruct o as [u|e|].
    + destruct H4 as [H4 H5]. split; [by eapply Hpl|done].
    + destruct H4 as [(l' & Hl' & H4) H5]. split; [by eapply Hpl|done].
    + destruct H4 as [H4 (l' & Hl' & H5)]. split; [by eapply Hpl|done].
  - intros ->. destruct Ho as [-> _]. split; cbn [partial src_offset].
    + pose proof (lines_of_partial (partial src ++ read) []) as H. rewrite app_nil_r in H. by rewrite <-H.
    + pose proof (lines_of_length [] (partial src ++ read)) as Hll. unfold len. cbn in Hll. lia.
Qed.

Definition relayed_all (fs : list Frame) (str : streamer) (w : Os.fs) (o : outcome unit)
    (s' : keylogTailer * streamer) (w' : Os.fs) : Prop :=
  fs_inodes w' = fs_inodes w /\ more_plain pre fs False (F FCrash) str o s'.2 /\ (o = Ret () -> tailer_ok s'.1).

Lemma wp_emit_source p src k fs str w :
  sends pre fs str -> source_ok src -> tailer_ok k -> small_files w ->
  wp F (emit_source p src) (relayed_all fs str w) (k, str) w.
Proof.
  intros Hs Hok Hk Hw fl ck rn HFl. pose proof Hok as [Hp Hb].
  pose proof (small_data (src_f src) w Hw) as Hd. pose proof (len_nonneg (partial src)).
  pose proof (wp_emit fs src str w Hs Hp ltac:(lia) ltac:(lia) fl ck rn HFl) as Hem.
  unfold emit_source. cbn [fst snd]. destruct (emit _) as [o [[src' str'] w']].
  destruct Hem as [Hem Hfl]. split; [|done]. apply emitted_ok in Hem as (Hw' & Hm & Hs'); [|done..].
  split; [by rewrite Hw'|]. split; [done|]. intros Ho. apply map_Forall_insert_2; [by apply Hs'|done].
Qed.

Lemma wp_emit_sources ps k fs str w :
  sends pre fs str -> tailer_ok k -> small_files w ->
  wp F (emit_sources ps) (relayed_all fs str w) (k, str) w.
Proof.
  revert k fs str w; induction ps as [|p ps IH]; intros k fs str w Hs Hk Hw; cbn [emit_sources].
  { apply wp_ret. split; [done|]. split; [by apply more_plain_nil|done]. }
  assert (forall src k w1, source_ok src -> tailer_ok k -> fs_inodes w1 = fs_inodes w ->
    wp F (emit_source p src ;; emit_sources ps) (relayed_all fs str w) (k, str) w1) as Hgo.
  { intros src k' w1 Hsrc Hk' Hi. assert (small_files w1) as Hw1 by (intros ino i; rewrite Hi; apply Hw).
    apply wp_bind. eapply wp_mono; [by apply (wp_emit_source p src k' fs)|].
    intros o [k2 str2] w2 (Hi2 & Hm & Hk2). cbn [fst snd] in *.
    destruct o as [[]|e|]; cbn [bind_post]; [|by split; [congruence|]..].
    destruct Hm as (fs1 & H1 & H2 & H3 & H4 & H5).
    eapply wp_mono; [apply (IH k2 (fs ++ fs1)); [done|by apply Hk2|intros ino i; rewrite Hi2; apply Hw1]|].
    intros o s3 w3 (Hi3 & Hm3 & Hk3). split; [congruence|]. split; [by eapply more_plain_app|done]. }
  apply wp_bind, wp_get. cbn [bind_post fst]. destruct (kt_files k !! p) as [src|] eqn:Ep.
  { apply Hgo; [by apply (Hk p)|done..]. }
  apply wp_bind, wp_try, wp_sys.
  - intros HF. cbn [bind_post]. split; [done|]. split; [|done]. exists []. rewrite app_nil_r. by split_and!.
  - intros HF. cbn [bind_post]. by apply IH.
  - unfold open_call. destruct (fs_dir w !! p) as [ino|]; cbn [O_EXCL O_TRUNC O_CREATE O_plain bind_post]; [|by apply IH].
    apply wp_bind, wp_modify. cbn [bind_post fst snd]. apply Hgo; [by split|apply map_Forall_insert_2; [by split|done]|done].
Qed.

Lemma wp_emitNew k fs str w :
  sends pre fs str -> tailer_ok k -> small_files w ->
  wp F emitNew (relayed_all fs str w) (k, str) w.
Proof.
  intros Hs Hk Hw. unfold emitNew. apply wp_bind, wp_get. cbn [bind_post fst].
  assert (wp F (sources k) (fun o s' w' => s' = (k, str) /\ w' = w /\ (exists ps, o = Ret ps) \/ (o = Crashed /\ s' = (k, str) /\ w' = w /\ F FCrash)) (k, str) w) as Hsrc.
  { unfold sources. destruct (kt_path k); [apply wp_ret; left; eauto..|].
    apply wp_bind, wp_try, wp_sys; [by intros; right|intros _; cbn [bind_post]; apply wp_ret; left; eauto|].
    cbn [bind_post]. apply wp_ret. left; eauto. }
  apply wp_bind. eapply wp_mono; [exact Hsrc|].
  intros o s' w' [(-> & -> & ps & ->)|(-> & -> & -> & HF)]; cbn [bind_post]; [by apply wp_emit_sources|].
  split; [done|]. split; [|done]. exists []. rewrite app_nil_r. by split_and!.
Qed.
End Relay.

(** ** What was sent stays sent *)

Section Sent.
Context `{CborCodec Stats} (F : fault -> Prop) (l : list byte).

Definition has_sent (s : streamer) (w : Os.fs) : Prop := l `prefix_of` sent (bw_conn (out s)).

Lemma has_sent_out_Write p : keeps F has_sent (out_Write p).
Proof.
  intros s w Hl. eapply wp_mono; [apply wp_out_Write|]. cbn beta. intros o s' w' (-> & -> & ->).
  unfold has_sent in *. cbn. etrans; [exact Hl|apply bufio_Write_sent].
Qed.

Lemma has_sent_next t : keeps F has_sent (next t).
Proof.
  apply keeps_get_any. intros s. apply keeps_bind; [|intros _; apply keeps_ret]. by apply keeps_modify.
Qed.

Lemma has_sent_sendHeartbeat h : keeps F has_sent (sendHeartbeat h).
Proof.
  apply keeps_get_any. intros s. apply keeps_bind; [apply has_sent_next|]. intros q.
  apply keeps_Now. intros t. apply has_sent_out_Write.
Qed.

Lemma has_sent_sendStats st : keeps F has_sent (sendStats st).
Proof.
  apply keeps_bind; [apply keeps_of_res|]. intros payload. apply keeps_get_any. intros s.
  apply keeps_bind; [apply has_sent_next|]. intros q. apply has_sent_out_Write.
Qed.
End Sent.
