(* ===== verification/KeylogProps.v ===== *)
(** * The keylog relay

    From the keylog files of the agent to the keylog file of the collector: every
    valid line of a growing file is relayed once, in order, however it is cut into
    reads. *)

From S2P Require Import Prelude Bytes GoIO Pcapio Crc Proto Os Durable Dir Runs Json Spool Keylog Conn Streamer StreamerProof.

(** ** Polling a growing file *)

(** [emit] in one state of the keylog directory after the other. *)
Fixpoint emits (ws : list world) (s : keylogSource * streamer) : outcome unit * (keylogSource * streamer) :=
  match ws with
  | [] => (Ret (), s)
  | w :: ws =>
      match emit (s, w) with
      | (Ret _, (s', _)) => emits ws s'
      | (o, (s', _)) => (o, s')
      end
  end.

(** The open file only grows, and its process is not killed. *)
Fixpoint grows (f : nat) (data : list byte) (ws : list world) : Prop :=
  match ws with
  | [] => True
  | w :: ws =>
      Forall (fun ft => ft <> FCrash) (w_faults w) /\ data `prefix_of` file_data f (w_fs w) /\
      len (file_data f (w_fs w)) < 2 ^ 63 /\ grows f (file_data f (w_fs w)) ws
  end.

(** The source has read a part of [data]. *)
Definition at_source (data : list byte) (src : keylogSource) : Prop :=
  0 <= src_offset src <= len data /\ partial src = (lines_of [] (take (Z.to_nat (src_offset src)) data)).2.

Definition seen_lines (data : list byte) (src : keylogSource) : list (list byte) :=
  (lines_of [] (take (Z.to_nat (src_offset src)) data)).1.

Lemma at_source_grow data data' src :
  data `prefix_of` data' -> at_source data src -> at_source data' src /\ seen_lines data' src = seen_lines data src.
Proof.
  intros [k ->] [Ho Hp]. unfold at_source, seen_lines, len in *. rewrite take_app_le by lia. rewrite length_app.
  split; [split; [lia|done]|done].
Qed.

Lemma emit_step pre fs src str w o s' w' :
  sends pre fs str -> at_source (file_data (src_f src) (w_fs w)) src -> quiet_line (out str) ->
  Forall (fun ft => ft <> FCrash) (w_faults w) -> len (file_data (src_f src) (w_fs w)) < 2 ^ 63 ->
  emit ((src, str), w) = (o, (s', w')) ->
  o = Ret () /\ quiet_line (out s'.2) /\ src_f s'.1 = src_f src /\ at_source (file_data (src_f src) (w_fs w)) s'.1 /\
  (exists ks ls, sends pre (fs ++ ks) s'.2 /\ relays ls ks /\
    seen_lines (file_data (src_f src) (w_fs w)) s'.1 = seen_lines (file_data (src_f src) (w_fs w)) src ++ ls) /\
  (w_faults w = [] -> file_open (src_f src) (w_fs w) ->
    src_offset s'.1 = len (file_data (src_f src) (w_fs w))).
Proof.
  intros Hs [Ho Hp] Hq HF Hd E. set (data := file_data (src_f src) (w_fs w)) in *.
  set (F := fun ft => ft <> FCrash /\ (w_faults w = [] -> False)).
  assert (Forall F (w_faults w)) as HF'.
  { apply Forall_forall. intros ft Hft. rewrite Forall_forall in HF. split; [by apply HF|].
    intros Hn. rewrite Hn in Hft. by apply not_elem_of_nil in Hft. }
  assert (lines_of [] (partial src) = ([], partial src)) as Hst.
  { rewrite Hp. pose proof (lines_of_partial (take (Z.to_nat (src_offset src)) data) []) as H.
    rewrite app_nil_r in H. by rewrite <-H. }
  pose proof (wp_run _ _ _ _ w _ _ _ (wp_emit F pre fs src str (w_fs w) Hs Hst ltac:(lia) Hd) eq_refl HF' E)
    as (_ & n & Hn & Hrel & Hr). fold data in Hn, Hrel, Hr. cbv zeta in Hrel, Hr.
  set (read := slice _ n data) in *.
  assert (take (Z.to_nat (src_offset src) + n) data = take (Z.to_nat (src_offset src)) data ++ read) as Htake
    by (unfold read, slice; by rewrite take_take_drop).
  destruct Hrel as (ks & H1 & H2 & H3 & H4). destruct o as [[]|e|].
  - destruct Hr as [Hs' Hend]. destruct H4 as [H4 H5].
    assert (Z.of_nat n <= len data - src_offset src) as Hle.
    { rewrite Hn. subst read. unfold slice, len in *. rewrite length_take, length_drop. lia. }
    split; [done|]. split; [by apply H5|]. rewrite Hs'. unfold at_source, seen_lines. cbn [src_f src_offset partial].
    replace (Z.to_nat (src_offset src + Z.of_nat n)) with (Z.to_nat (src_offset src) + n)%nat by lia.
    assert (lines_of [] (take (Z.to_nat (src_offset src)) data ++ read) =
      ((lines_of [] (take (Z.to_nat (src_offset src)) data)).1 ++ (lines_of [] (partial src ++ read)).1,
       (lines_of [] (partial src ++ read)).2)) as Hlines by (by rewrite lines_of_app, lines_of_partial, <-Hp).
    rewrite Htake, Hlines. cbn [fst snd].
    split; [done|]. split; [split; [lia|done]|]. split; [by exists ks, (lines_of [] (partial src ++ read)).1|].
    intros Hf Hop. enough (len data <= src_offset src + Z.of_nat n) by lia. apply Hend; [|done].
    intros [[_ Hc]|[m [_ Hc]]]; by apply Hc.
  - by destruct H4.
  - by destruct H4 as [[Hc _] _].
Qed.

(** C31: a keylog source relays the complete valid lines of its file, each once
    and in order, however often it is polled while the file grows, however the
    polls cut the lines, and with reads that fail in between; after a poll that
    read the whole file no line is missing. *)
Theorem keylog_relay_complete pre fs f str ws w o src' str' :
  sends pre fs str -> quiet_line (out str) -> grows f [] (ws ++ [w]) ->
  file_open f (w_fs w) -> w_faults w = [] ->
  emits (ws ++ [w]) (mkKeylogSource f 0 [], str) = (o, (src', str')) ->
  o = Ret () /\ exists ks, sends pre (fs ++ ks) str' /\ relays (lines_of [] (file_data f (w_fs w))).1 ks.
Proof.
  intros Hs Hq Hg Hop Hw. assert (at_source [] (mkKeylogSource f 0 [])) as Hsrc by done.
  assert (relays (seen_lines [] (mkKeylogSource f 0 [])) []) as Hrel by apply relays_nil.
  rewrite <-(app_nil_r fs) in Hs. assert (src_f (mkKeylogSource f 0 []) = f) as Hf by done.
  remember (lines_of [] (file_data f (w_fs w))).1 as lines eqn:Hlines.
  revert Hs Hq Hg Hsrc Hrel Hf. generalize (mkKeylogSource f 0 []). generalize (@nil byte) as data.
  generalize (@nil Frame) as ks0. revert str. induction ws as [|w0 ws IH]; intros str ks0 data src Hs Hq Hg Hsrc Hrel Hf.
  - cbn [app emits]. destruct Hg as (HF & Hp & Hd & _). rewrite <-Hf in Hp, Hd.
    destruct (at_source_grow _ _ _ Hp Hsrc) as [Ha Hseen]. rewrite <-Hseen in Hrel.
    destruct (emit (src, str, w)) as [o1 [[src1 str1] w1]] eqn:E.
    destruct (emit_step _ _ _ _ _ _ _ _ Hs Ha Hq HF Hd E) as (-> & _ & _ & _ & (ks & ls & H1 & H2 & H3) & Hend).
    rewrite <-Hf in Hop, Hlines. specialize (Hend Hw Hop). cbn [fst snd] in H1, H3, Hend. intros [= <- <- <-]. split; [done|].
    exists (ks0 ++ ks). rewrite app_assoc. split; [done|].
    assert (seen_lines (file_data (src_f src) (w_fs w)) src1 = (lines_of [] (file_data (src_f src) (w_fs w))).1) as Hall.
    { unfold seen_lines. rewrite Hend. unfold len. by rewrite Nat2Z.id, firstn_all. }
    rewrite Hlines, <-Hall, H3. by apply relays_app.
  - cbn [app emits]. destruct Hg as (HF & Hp & Hd & Hg). rewrite <-Hf in Hp, Hd.
    destruct (at_source_grow _ _ _ Hp Hsrc) as [Ha Hseen]. rewrite <-Hseen in Hrel.
    destruct (emit (src, str, w0)) as [o1 [[src1 str1] w1]] eqn:E.
    destruct (emit_step _ _ _ _ _ _ _ _ Hs Ha Hq HF Hd E) as (-> & Hq1 & Hf1 & Ha1 & (ks & ls & H1 & H2 & H3) & _).
    cbn [fst snd] in *. intros Hr.
    apply (IH str1 (ks0 ++ ks) (file_data (src_f src) (w_fs w0)) src1); try done.
    + by rewrite app_assoc.
    + by rewrite Hf.
    + rewrite H3. by apply relays_app.
    + congruence.
Qed.

(** A key file that is polled in the middle of a line. *)
Definition example_key (c : byte) : list byte := str "CLIENT_RANDOM " ++ [c; c] ++ str " " ++ [c; c].
Definition example_keylog (data : list byte) : world :=
  World (Fs {[1%nat := Inode data [] 0]} ∅ [] {[2%nat := Fdesc 1 0 false false]} 3) [] [] [].
Definition example_keylog1 : world := example_keylog (example_key x61 ++ [x0a] ++ take 9 (example_key x62)).
Definition example_keylog2 : world :=
  example_keylog (example_key x61 ++ [x0a] ++ example_key x62 ++ [x0d; x0a] ++ str "garbage" ++ [x0a]).
Definition example_streamer : streamer := mkStreamer (mkBuf [] false (mkConn [] [])) 7 ∅ false.
Definition example_source : keylogSource := mkKeylogSource 2 0 [].
Definition example_emits : outcome unit * (keylogSource * streamer) :=
  emits ([example_keylog1] ++ [example_keylog2]) (example_source, example_streamer).

Lemma example_sends : sends [] [] example_streamer.
Proof. split; [done|done|constructor|constructor]. Qed.

Lemma keylog_relay_complete_witness :
  example_emits.1 = Ret () /\
  exists ks, sends [] ([] ++ ks) example_emits.2.2 /\
    relays [example_key x61; example_key x62 ++ [x0d]; str "garbage"] ks.
Proof.
  apply (keylog_relay_complete [] [] 2 example_streamer [example_keylog1] example_keylog2 example_emits.1
    example_emits.2.1 example_emits.2.2).
  - exact example_sends.
  - done.
  - split; [constructor|]. split; [apply prefix_nil|]. split; [vm_compute; reflexivity|].
    split; [constructor|]. split; [|split; [vm_compute; reflexivity|exact I]].
    exists (drop 9 (example_key x62) ++ [x0d; x0a] ++ str "garbage" ++ [x0a]). vm_compute. reflexivity.
  - eexists _, _. by split.
  - done.
  - apply run_parts.
Defined.

(** ** Lines the relay should drop *)

Lemma TrimSpace_padded n key : TrimSpace key = key -> TrimSpace (replicate n x20 ++ key) = key.
Proof.
  intros Hk. assert (trimmed key) as Ht by (rewrite <-Hk; apply TrimSpace_trimmed). unfold TrimSpace. cbn zeta.
  assert (forall m, trim_left_fuel (n + m) (replicate n x20 ++ key) = key) as Hl.
  { induction n as [|n IH]; intros m; cbn [Nat.add replicate app]; [by apply trim_left_fix, Ht|].
    cbn [trim_left_fuel]. change (space_prefix (x20 :: replicate n x20 ++ key)) with 1%nat. cbn iota.
    change (drop 1 (x20 :: replicate n x20 ++ key)) with (replicate n x20 ++ key). apply IH. }
  rewrite length_app, length_replicate, Hl. by apply trim_right_fix, Ht.
Qed.

(** a valid key behind enough blanks passes the check that should stop
    oversized lines, because only the trimmed line is measured: [sendKeylog]
    hands over the whole line, and the collector's [ReadFrame] rejects the frame
    and with it the connection. *)
Theorem sendKeylog_oversized pre fs s w n key o s' w' k e :
  sends pre fs s -> Forall (fun ft => ft <> FCrash) (w_faults w) ->
  Valid key = true -> TrimSpace key = key -> 2 ^ 23 < n < 2 ^ 31 -> is_uint 16 (st_srcID s) ->
  sendKeylog (replicate (Z.to_nat n) x20 ++ key) (s, w) = (o, (s', w')) ->
  exists f, carries (out s') (pre ++ enc_frames fs ++ Frame_bytes f) /\
    (ReadFrame (Stream (Frame_bytes f ++ k) e)).1 = Err proto_ErrPayloadHuge.
Proof.
  intros Hs HF Hv Hk Hn Hsrc Hrun. set (line := replicate (Z.to_nat n) x20 ++ key) in *.
  assert (Valid line = true) as Hvl.
  { rewrite (Valid_TrimSpace line key); [done|]. subst line. by rewrite TrimSpace_padded. }
  pose proof (wp_run _ _ _ _ w _ _ _ (wp_sendKeylog (fun ft => ft <> FCrash) pre fs line s (w_fs w) Hs) eq_refl HF Hrun)
    as [_ Ho]. rewrite Hvl in Ho. destruct Ho as ([Hc _ _ _] & _). rewrite enc_frames_snoc in Hc.
  set (f := mkFrame _ _ _ _ _ _) in Hc. exists f. split; [done|].
  assert (Z.of_nat (length key) <= 256) as Hkl by (pose proof (Valid_length key Hv) as H; rewrite Hk in H; lia).
  assert (len line = n + Z.of_nat (length key)) as Hl.
  { subst line. unfold len. rewrite length_app, length_replicate. lia. }
  set (f0 := mkFrame FrameTLSKeylog 0 (st_srcID s) 0 (f_Seq f) []).
  change (Frame_bytes f) with (marshalHeader f0 (len line) ++ line ++ be_enc 4 (CRC32C line)).
  rewrite <-app_assoc. apply ReadFrame_huge.
  - unfold wf_frame. cbn. split_and!; try done; unfold is_uint, u64; try lia. apply Z.mod_pos_bound. lia.
  - unfold MaxPayloadLen. lia.
Qed.

Abbreviation example_oversized := (replicate (Z.to_nat (2 ^ 24)) x20 ++ example_key x61).

Lemma sendKeylog_oversized_witness :
  exists f, carries (out (sendKeylog example_oversized (example_streamer, example_keylog [])).2.1)
      ([] ++ enc_frames [] ++ Frame_bytes f) /\
    (ReadFrame (Stream (Frame_bytes f ++ []) io_EOF)).1 = Err proto_ErrPayloadHuge.
Proof.
  apply (sendKeylog_oversized [] [] example_streamer (example_keylog []) (2 ^ 24) (example_key x61)
    (sendKeylog example_oversized (example_streamer, example_keylog [])).1
    (sendKeylog example_oversized (example_streamer, example_keylog [])).2.1
    (sendKeylog example_oversized (example_streamer, example_keylog [])).2.2).
  - exact example_sends.
  - constructor.
  - vm_compute. reflexivity.
  - vm_compute. reflexivity.
  - lia.
  - by split.
  - apply run_parts.
Defined.

(** a line with a line break inside passes [Valid], since [Fields] splits at
    any white space; such a key makes two lines of the collector's file. *)
Theorem Valid_accepts_newline :
  exists line, Valid line = true /\ x0a ∈ TrimSpace line /\
    prime 10 (Stream (TrimSpace line ++ [x0a]) io_EOF) ∅ = ∅.
Proof.
  exists (str "CLIENT_RANDOM" ++ [x0a] ++ str "aa bb"). split; [vm_compute; reflexivity|].
  split; [apply (bool_decide_unpack _); vm_compute; exact I|]. vm_compute. reflexivity.
Qed.
