(* ===== verification/Mirror.v ===== *)
(** * The collector's mirror (internal/collector/mirror.go)

    The durable copy of a source's committed packets, one file per session, and
    the commit point next to it. *)

From S2P Require Import Prelude Bytes GoIO Pcapio Os Durable Json Manifest Spool.

Record ResumeState : Type := mkResumeState {
  CommittedGpidx : Z;
  SessionSeq : Z;
  SessionStartGpidx : Z;
  LastSeq : Z;
  rs_Epoch : list byte
}.

#[export] Instance ResumeState_eq_dec : EqDecision ResumeState.
Proof. solve_decision. Defined.

(** The epoch has the tag [omitempty]. *)
#[export] Instance ResumeState_json : JsonStruct ResumeState := {
  json_members s :=
    [(str "committed", SNum (CommittedGpidx s)); (str "session", SNum (SessionSeq s));
     (str "session_start", SNum (SessionStartGpidx s)); (str "last_seq", SNum (LastSeq s))] ++
    match rs_Epoch s with [] => [] | e => [(str "epoch", SStr e)] end;
  json_zero := mkResumeState 0 0 0 0 [];
  json_set k v s :=
    let '(mkResumeState c q b l e) := s in
    if key_is (str "committed") k then c ← field_u64 c v; Some (mkResumeState c q b l e)
    else if key_is (str "session") k then q ← field_u64 q v; Some (mkResumeState c q b l e)
    else if key_is (str "session_start") k then b ← field_u64 b v; Some (mkResumeState c q b l e)
    else if key_is (str "last_seq") k then l ← field_u64 l v; Some (mkResumeState c q b l e)
    else if key_is (str "epoch") k then e ← field_string e v; Some (mkResumeState c q b l e)
    else Some s
}.

(** The four published fields are the atomics other goroutines read. *)
Record Mirror : Type := mkMirror {
  m_srcID : Z;
  m_gh : GlobalHeader;
  m_file : option nat;
  m_fileLen : Z;
  m_state : ResumeState;
  p_committed : Z;
  p_sessionStart : Z;
  p_sessionSeq : Z;
  p_committedLen : Z
}.

Definition set_gh (gh : GlobalHeader) (m : Mirror) : Mirror :=
  mkMirror (m_srcID m) gh (m_file m) (m_fileLen m) (m_state m)
    (p_committed m) (p_sessionStart m) (p_sessionSeq m) (p_committedLen m).
Definition set_state (f : ResumeState -> ResumeState) (m : Mirror) : Mirror :=
  mkMirror (m_srcID m) (m_gh m) (m_file m) (m_fileLen m) (f (m_state m))
    (p_committed m) (p_sessionStart m) (p_sessionSeq m) (p_committedLen m).
Definition set_file (f : option nat) (m : Mirror) : Mirror :=
  mkMirror (m_srcID m) (m_gh m) f (m_fileLen m) (m_state m)
    (p_committed m) (p_sessionStart m) (p_sessionSeq m) (p_committedLen m).
Definition set_fileLen (n : Z) (m : Mirror) : Mirror :=
  mkMirror (m_srcID m) (m_gh m) (m_file m) n (m_state m)
    (p_committed m) (p_sessionStart m) (p_sessionSeq m) (p_committedLen m).

Definition publish : M Mirror unit :=
  modify (fun m => mkMirror (m_srcID m) (m_gh m) (m_file m) (m_fileLen m) (m_state m)
                     (CommittedGpidx (m_state m)) (SessionStartGpidx (m_state m))
                     (SessionSeq (m_state m)) (m_fileLen m)).

Definition mirrorName (srcID sessionSeq : Z) : list byte :=
  str "mirror-src" ++ dec srcID ++ str "-" ++ pad_dec 20 sessionSeq ++ str ".pcap".

Definition resumePath (srcID : Z) : list byte :=
  str "resume-src" ++ dec srcID ++ str ".json".

#[global] Arguments mirrorName : simpl never.
#[global] Arguments resumePath : simpl never.

Definition Snapshot (m : Mirror) : Z * list byte * Z * GlobalHeader :=
  (p_sessionSeq m, mirrorName (m_srcID m) (p_sessionSeq m), p_committedLen m, m_gh m).

Definition Committed (m : Mirror) : Z := p_committed m.

Definition Mirror_Epoch (m : Mirror) : list byte := rs_Epoch (m_state m).

Definition loadState : M Mirror unit :=
  m ← get;
  r ← try (ReadFile (resumePath (m_srcID m)));
  match r with
  | Err e => if decide (e = os_ErrNotExist) then mret () else fail e
  | Ok b =>
      match json_Unmarshal b with
      | None => fail json_err
      | Some st => modify (set_state (fun _ => st))
      end
  end.

(** [f.ReadAt] calls in a row on one file: the whole file can be read, or only
    its first [n] bytes before the device fails. *)
Definition FileReadAts {X} (fd : nat) : M X ReaderAt := fun s =>
  let '(f, w) := next_fault s.2 in
  match with_fd fd (fun _ i fs0 => Ok (i_data i, fs0)) (w_fs w) with
  | Err e => (Ret (fun _ _ => Err e), (s.1, w))
  | Ok (data, _) =>
      let upto (n : nat) : ReaderAt := fun off k =>
        if off + Z.of_nat k <=? Z.of_nat n then file_ReaderAt data off k else Err os_err in
      match f with
      | FCrash => (Crashed, (s.1, w))
      | FErr => (Ret (upto O), (s.1, w))
      | FShort n => (Ret (upto n), (s.1, w))
      | FOk => (Ret (file_ReaderAt data), (s.1, w))
      end
  end.

(** The offset past the [want]-th record and the number of records found; [k]
    is [want - have]. *)
Fixpoint record_offset (ra : ReaderAt) (snaplen : Z) (k : nat) (offset have : Z) : Z * Z :=
  match k with
  | O => (offset, have)
  | S k =>
      match ra offset 16%nat with
      | Err _ => (offset, have)
      | Ok hdr =>
          let capLen := (ParseRecordHeader hdr).1 in
          if snaplen <? capLen then (offset, have)
          else record_offset ra snaplen k (i64 (offset + (RecordHeaderLen + capLen))) (have + 1)
      end
  end.

Definition recordOffsetForCount {X} (f : nat) (snaplen want : Z) : M X (Z * Z) :=
  ra ← FileReadAts f;
  mret (record_offset ra snaplen (Z.to_nat want) GlobalHeaderLen 0).

Definition openSession : M Mirror unit :=
  m ← get;
  let st := m_state m in
  f ← OpenFile (mirrorName (m_srcID m) (SessionSeq st)) (OFlags true false false false);
  size ← on_error (FileSize f) (Close f);
  (if size <? GlobalHeaderLen then
     on_error (Truncate f 0) (Close f) ;;
     on_error (Write f (GlobalHeader_AppendTo (m_gh m) [])) (Close f)
   else
     let want := u64 (CommittedGpidx st - SessionStartGpidx st) in
     '(offset, have) ← recordOffsetForCount f (gh_Snaplen (m_gh m)) want;
     (if have <? want then
        modify (set_state (fun st =>
          mkResumeState (u64 (SessionStartGpidx st + have)) (SessionSeq st) (SessionStartGpidx st)
            (LastSeq st) (rs_Epoch st)))
      else mret ()) ;;
     on_error (Truncate f offset) (Close f)) ;;
  on_error (Fdatasync f) (Close f) ;;
  off ← on_error (SeekEnd f) (Close f);
  modify (fun m => set_fileLen off (set_file (Some f) m)).

Definition zero_Mirror (srcID : Z) (gh : GlobalHeader) : Mirror :=
  mkMirror srcID gh None 0 json_zero 0 0 0 0.

(** The object becomes the mirror. *)
Definition OpenMirror (srcID : Z) (gh : GlobalHeader) : M Mirror unit :=
  MkdirAll ;;
  modify (fun _ => zero_Mirror srcID gh) ;;
  loadState ;;
  openSession ;;
  publish.

Definition SetHeader (h : GlobalHeader) : M Mirror unit :=
  m ← get;
  if decide (m_gh m = h) then mret ()
  else
    modify (set_gh h) ;;
    if negb (CommittedGpidx (m_state m) =? SessionStartGpidx (m_state m)) then mret ()
    else
      on_file (m_file m) (fun f => Truncate f 0) ;;
      _ ← on_file (m_file m) (fun f => SeekStart f 0);
      on_file (m_file m) (fun f => Write f (GlobalHeader_AppendTo h [])) ;;
      on_file (m_file m) Fdatasync ;;
      _ ← on_file (m_file m) SeekEnd;
      mret ().

Definition persistState : M Mirror unit :=
  m ← get;
  WriteFileAtomic (resumePath (m_srcID m)) (json_Marshal (m_state m)) true.

Definition Append (recs : list PcapRecord) (lastSeq : Z) : M Mirror unit :=
  match recs with
  | [] => mret ()
  | _ =>
      let buf := foldl (fun buf r => PcapRecord_AppendTo r buf) [] recs in
      m ← get;
      on_file (m_file m) (fun f => Write f buf) ;;
      on_file (m_file m) Fdatasync ;;
      modify (fun m => set_fileLen (i64 (m_fileLen m + len buf))
        (set_state (fun st =>
           mkResumeState (u64 (CommittedGpidx st + len recs)) (SessionSeq st) (SessionStartGpidx st)
             lastSeq (rs_Epoch st)) m)) ;;
      persistState ;;
      publish
  end.

(** The file stays set when it was closed and the new one could not be opened. *)
Definition NewSession (startGpidx : Z) : M Mirror unit :=
  m ← get;
  close_file (m_file m) ;;
  modify (set_state (fun st =>
    mkResumeState startGpidx (u64 (SessionSeq st + 1)) startGpidx (LastSeq st) (rs_Epoch st))) ;;
  openSession ;;
  persistState ;;
  publish.

Definition set_Epoch (epoch : list byte) (st : ResumeState) : ResumeState :=
  mkResumeState (CommittedGpidx st) (SessionSeq st) (SessionStartGpidx st) (LastSeq st) epoch.

Definition AdoptEpoch (epoch : list byte) : M Mirror unit :=
  m ← get;
  if decide (rs_Epoch (m_state m) = epoch) then mret ()
  else modify (set_state (set_Epoch epoch)) ;; persistState.

Definition ResetForEpoch (epoch : list byte) (base : Z) : M Mirror unit :=
  modify (set_state (set_Epoch epoch)) ;;
  NewSession base.

Definition Mirror_Close : M Mirror unit :=
  m ← get;
  match m_file m with
  | None => mret ()
  | Some f =>
      err ← try (CloseErr f);
      modify (set_file None) ;;
      of_res err
  end.
