(* ===== verification/MirrorSpec.v ===== *)
(** * What a mirror directory holds

    The abstract state of a mirror (its sessions and their packets, the epoch and
    the last wire sequence number) and what it says about every file of the
    directory, now and after a crash. *)

From S2P Require Import Prelude Bytes GoIO Pcapio Os Durable Dir Json Manifest Mirror.

(** ** Resume states on disk *)

Definition wf_state (s : ResumeState) : Prop :=
  is_uint 64 (CommittedGpidx s) /\ is_uint 64 (SessionSeq s) /\ is_uint 64 (SessionStartGpidx s) /\
  is_uint 64 (LastSeq s).

#[export] Instance ResumeState_laws : JsonLaws ResumeState wf_state.
Proof.
  assert (forall s : ResumeState, wf_state s -> forall l, Forall (fun kv => wf_scalar kv.2) l ->
    Forall (fun kv => wf_scalar kv.2) ([(str "committed", SNum (CommittedGpidx s));
      (str "session", SNum (SessionSeq s)); (str "session_start", SNum (SessionStartGpidx s));
      (str "last_seq", SNum (LastSeq s))] ++ l)) as Hsc.
  { intros s (Hc & Hq & Hb & Hl) l Hf. unfold is_uint in *. apply Forall_app. split; [|done].
    repeat constructor; cbn; lia. }
  split.
  - intros s. done.
  - intros [c q b l e] Hw. apply (Hsc _ Hw). cbn [rs_Epoch]. destruct e; repeat constructor.
  - intros [c q b l e] (Hc & Hq & Hb & Hl). cbn in Hc, Hq, Hb, Hl.
    unfold set_members. cbn [json_members ResumeState_json CommittedGpidx SessionSeq SessionStartGpidx LastSeq rs_Epoch].
    destruct e as [|x e]; cbn [app fmap list_fmap foldr fst snd json_set ResumeState_json json_zero];
      repeat match goal with
      | |- context [key_is ?x ?y] =>
          let b := eval vm_compute in (key_is x y) in change (key_is x y) with b
      end; cbn iota;
      repeat (first [rewrite field_u64_dec by done | rewrite field_string_str]; cbn [mbind option_bind]);
      done.
Qed.

Lemma Marshal_state_inj s s' : wf_state s -> wf_state s' -> json_Marshal s = json_Marshal s' -> s = s'.
Proof.
  intros Hs Hs' H. apply (f_equal json_Unmarshal) in H.
  rewrite !Unmarshal_Marshal in H by done. congruence.
Qed.

(** ** The abstract mirror *)

(** A session: its packets have the gpidx from [ss_start] on. *)
Record session : Type := Session { ss_start : Z; ss_recs : list PcapRecord }.

Record mst : Type := Mst {
  a_old : list session;          (** finished sessions, numbered from 0 *)
  a_cur : session;
  a_last : Z;
  a_epoch : list byte
}.

Definition a_start (a : mst) : Z := ss_start (a_cur a).
Definition a_recs (a : mst) : list PcapRecord := ss_recs (a_cur a).
Definition a_seq (a : mst) : Z := len (a_old a).
Definition a_committed (a : mst) : Z := a_start a + len (a_recs a).

Definition a_zero : mst := Mst [] (Session 0 []) 0 [].

Definition state_of (a : mst) : ResumeState :=
  mkResumeState (a_committed a) (a_seq a) (a_start a) (a_last a) (a_epoch a).

(** The operations on it. *)
Definition a_append (recs : list PcapRecord) (seq : Z) (a : mst) : mst :=
  Mst (a_old a) (Session (a_start a) (a_recs a ++ recs)) seq (a_epoch a).
Definition a_roll (start : Z) (a : mst) : mst :=
  Mst (a_old a ++ [a_cur a]) (Session start []) (a_last a) (a_epoch a).
Definition a_adopt (e : list byte) (a : mst) : mst := Mst (a_old a) (a_cur a) (a_last a) e.

Lemma enc_records_buf recs buf :
  foldl (fun buf r => PcapRecord_AppendTo r buf) buf recs = buf ++ enc_records recs.
Proof.
  revert buf; induction recs as [|r recs IH]; intros buf; cbn [foldl]; [by rewrite app_nil_r|].
  rewrite IH, enc_records_cons. unfold PcapRecord_AppendTo. by rewrite <-app_assoc.
Qed.

(** ** Files *)

Section Spec.
Context (src snap : Z).

Abbreviation hd := (resumePath src).
Abbreviation mname := (mirrorName src).

Definition session_bytes (gh : GlobalHeader) (recs : list PcapRecord) : list byte :=
  GlobalHeader_bytes gh ++ enc_records recs.

(** A finished session, and one that may have a tail that was not committed. *)
Definition old_spec (recs : list PcapRecord) (c : option (list byte)) : Prop :=
  match c with None => recs = [] | Some b => exists gh, b = session_bytes gh recs end.

Definition cur_spec (recs : list PcapRecord) (c : option (list byte)) : Prop :=
  match c with
  | None => recs = []
  | Some b => (recs = [] /\ (length b < 24)%nat) \/ exists gh, session_bytes gh recs `prefix_of` b
  end.

(** [may]: the name of the current session may be missing. *)
Record mspec (a : mst) (may : Prop) (n : list byte) (c : option (list byte)) : Prop := {
  ms_old : forall k x, a_old a !! k = Some x -> n = mname (Z.of_nat k) -> old_spec (ss_recs x) c;
  ms_cur : n = mname (a_seq a) -> (c = None /\ may) \/ cur_spec (a_recs a) c;
  ms_new : forall k, a_seq a < k < 2 ^ 64 -> n = mname k -> cur_spec [] c
}.

Record mst_ok (a : mst) : Prop := {
  mo_start : 0 <= a_start a;
  mo_committed : a_committed a < 2 ^ 64;
  mo_seq : a_seq a < 2 ^ 64;
  mo_last : is_uint 64 (a_last a);
  mo_recs : Forall (wf_record snap) (a_recs a);
  mo_size : 24 + len (enc_records (a_recs a)) < 2 ^ 63
}.

#[export] Instance mst_ok_dec a : Decision (mst_ok a).
Proof.
  destruct (decide (0 <= a_start a /\ a_committed a < 2 ^ 64 /\ a_seq a < 2 ^ 64 /\ is_uint 64 (a_last a) /\
    Forall (wf_record snap) (a_recs a) /\ 24 + len (enc_records (a_recs a)) < 2 ^ 63)) as [Hy|Hn].
  - left. destruct Hy as (? & ? & ? & ? & ? & ?). by split.
  - right. intros []. by apply Hn.
Defined.

(** The directory of a mirror in state [ma]; [next], if any, is the state that is
    being made durable, and [fresh] that none ever was. *)
Record mghost : Type := MGhost { ma : mst; next : option mst; fresh : bool }.

Definition mghost_ok (g : mghost) : Prop :=
  mst_ok (ma g) /\ (forall a', next g = Some a' -> mst_ok a') /\
  (fresh g = true -> state_of (ma g) = json_zero).

Definition resume_spec (g : mghost) (c : option (list byte)) : Prop :=
  match c with
  | None => fresh g = true
  | Some b => b = json_Marshal (state_of (ma g)) \/
              exists a', next g = Some a' /\ b = json_Marshal (state_of a')
  end.

Definition files_spec (g : mghost) (n : list byte) (c : option (list byte)) : Prop :=
  mspec (ma g) (a_recs (ma g) = []) n c /\ forall a', next g = Some a' -> mspec a' True n c.

(** Names other than the replaced file's are never bound to another file. *)
Definition steady (s : fs) : Prop :=
  forall d n ino, d ∈ versions s -> ~ touched hd n -> d !! n = Some ino -> fs_dir s !! n = Some ino.

(** A directory version that lacks the session file of the next state does not
    hold that state. *)
Definition link (g : mghost) (s : fs) : Prop :=
  forall a', next g = Some a' -> a_recs a' <> [] ->
  forall d, d ∈ versions s -> d !! mname (a_seq a') = None ->
  forall ino, d !! hd = Some ino ->
  exists i, fs_inodes s !! ino = Some i /\ survives i (fun c => c = json_Marshal (state_of (ma g))).

Record disk (g : mghost) (s : fs) : Prop := {
  dk_ok : mghost_ok g;
  dk_inv : dir_inv hd true (files_spec g) (resume_spec g) s;
  dk_steady : steady s;
  dk_link : link g s
}.

(** ** Names *)

Lemma mname_inj q q' : is_uint 64 q -> is_uint 64 q' -> mname q = mname q' -> q = q'.
Proof.
  intros Hq Hq' H. unfold mirrorName in H. apply app_inv_head, app_inv_head, app_inv_head in H.
  apply app_inv_tail in H. apply (f_equal ParseUint) in H. rewrite !ParseUint_pad_dec in H by done. congruence.
Qed.

Lemma mname_untouched q : ~ touched hd (mname q).
Proof.
  unfold touched, tmp_name, mirrorName, resumePath.
  intros [H|H]; apply (f_equal (take 1)) in H; revert H; by vm_compute.
Qed.

Lemma a_seq_uint a : mst_ok a -> is_uint 64 (a_seq a).
Proof. intros Ha. pose proof (mo_seq a Ha). pose proof (len_nonneg (a_old a)). unfold is_uint, a_seq in *. lia. Qed.

Lemma old_uint a k x : mst_ok a -> a_old a !! k = Some x -> 0 <= Z.of_nat k < a_seq a.
Proof. intros _ Hk%lookup_lt_Some. unfold a_seq, len. lia. Qed.

Lemma mst_ok_wf a : mst_ok a -> wf_state (state_of a).
Proof.
  intros Ha. pose proof (a_seq_uint a Ha). destruct Ha. pose proof (len_nonneg (a_recs a)).
  unfold wf_state, state_of, is_uint, a_committed in *. cbn. lia.
Qed.

(** What the file of the current session may hold, under its own clause. *)
Lemma slot_cur a c : mst_ok a -> mspec a (a_recs a = []) (mname (a_seq a)) c <-> cur_spec (a_recs a) c.
Proof.
  intros Ha. pose proof (a_seq_uint a Ha) as Hu. split.
  - intros H. destruct (ms_cur _ _ _ _ H eq_refl) as [[-> Hr]|Hc]; done.
  - intros Hc. split; [|by right|].
    + intros k x Hk Heq. pose proof (old_uint a k x Ha Hk).
      apply mname_inj in Heq; [lia|done|unfold is_uint in *; lia].
    + intros k Hk Heq. apply mname_inj in Heq; [lia|done|unfold is_uint in *; lia].
Qed.

(** And of the next one. *)
Lemma slot_new a c :
  mst_ok a -> a_seq a + 1 < 2 ^ 64 ->
  mspec a (a_recs a = []) (mname (a_seq a + 1)) c <-> cur_spec [] c.
Proof.
  intros Ha Hl. pose proof (a_seq_uint a Ha) as Hu. split.
  - intros H. by apply (ms_new _ _ _ _ H (a_seq a + 1)); [lia|].
  - intros Hc. split.
    + intros k x Hk Heq. pose proof (old_uint a k x Ha Hk).
      apply mname_inj in Heq; unfold is_uint in *; lia.
    + intros Heq. apply mname_inj in Heq; unfold is_uint in *; lia.
    + intros k Hk Heq. done.
Qed.

(** ** Contents *)

Lemma len_session_bytes gh recs : len (session_bytes gh recs) = 24 + len (enc_records recs).
Proof. unfold session_bytes. by rewrite len_app. Qed.

(** Cutting a file behind the committed packets. *)
Lemma cur_spec_cut recs v c :
  cur_spec recs (Some v) -> c `prefix_of` v -> recs = [] \/ 24 + len (enc_records recs) <= len c ->
  cur_spec recs (Some c).
Proof.
  intros Hv Hc Hl. destruct (Nat.lt_ge_cases (length c) 24) as [Hs|Hs].
  - destruct Hl as [->|Hl]; [by left|]. pose proof (len_nonneg (enc_records recs)). unfold len in *. lia.
  - assert (24 + len (enc_records recs) <= len c) as Hl'.
    { destruct Hl as [->|]; [|done]. rewrite enc_records_nil. unfold len. cbn. lia. }
    destruct Hv as [[_ Hv]|[gh Hv]].
    + apply prefix_length in Hc. lia.
    + right. exists gh. destruct (prefix_weak_total _ _ _ Hv Hc) as [H|H]; [done|].
      pose proof (prefix_length _ _ H) as Hx. pose proof (len_session_bytes gh recs) as Hy.
      apply prefix_length_eq in H as ->; [done|]. unfold len in *. lia.
Qed.

(** Every contents the file may come back with hold the committed packets. *)
Definition guarded (recs : list PcapRecord) (i : inode) : Prop :=
  (forall v, v ∈ i_data i :: i_old i -> cur_spec recs (Some v)) /\
  (recs = [] \/ 24 + len (enc_records recs) <= Z.of_nat (i_floor i)).

Lemma guarded_survives recs i : guarded recs i -> survives i (fun c => cur_spec recs (Some c)).
Proof.
  intros [Hv Hf] c v Hin Hp Hl. apply (cur_spec_cut recs v); [by apply Hv|done|].
  destruct Hf as [|Hf]; [by left|right]. unfold len at 2. lia.
Qed.

Lemma survives_guarded recs i :
  inode_ok i -> survives i (fun c => cur_spec recs (Some c)) -> guarded recs i.
Proof.
  intros Hok Hs. split; [intros v Hv; apply (Hs v v); auto|].
  pose proof (Hok (i_data i) ltac:(left)) as Hl.
  assert (cur_spec recs (Some (take (i_floor i) (i_data i)))) as Hc.
  { apply (Hs _ (i_data i)); [left|apply prefix_take|]. rewrite length_take. lia. }
  destruct Hc as [[-> _]|[gh Hc]]; [by left|right].
  apply prefix_length in Hc. pose proof (len_session_bytes gh recs) as Hx. unfold len in *.
  rewrite length_take in Hc. lia.
Qed.

Lemma guarded_set recs i data :
  guarded recs i -> cur_spec recs (Some data) -> guarded recs (inode_set data (i_floor i) i).
Proof. intros [Hv Hf] Hc. split; [|done]. intros v [->|Hin]%elem_of_cons; [done|by apply Hv]. Qed.

Lemma guarded_sync recs i : guarded recs i -> guarded recs (inode_sync i).
Proof.
  intros [Hv _]. specialize (Hv (i_data i) ltac:(left)). split.
  - by intros v ->%list_elem_of_singleton.
  - cbn [i_floor inode_sync]. destruct Hv as [[-> _]|[gh Hc]]; [by left|right].
    apply prefix_length in Hc. pose proof (len_session_bytes gh recs). unfold len in *. lia.
Qed.

Lemma guarded_truncate recs i n :
  guarded recs i -> (n <= length (i_data i))%nat ->
  recs = [] \/ 24 + len (enc_records recs) <= Z.of_nat n ->
  guarded recs (inode_truncate n i) /\ i_data (inode_truncate n i) = take n (i_data i).
Proof.
  intros [Hv Hf] Hn Hl.
  assert (i_data (inode_truncate n i) = take n (i_data i)) as Hd.
  { cbn. replace (n - length (i_data i))%nat with 0%nat by lia. cbn. by rewrite app_nil_r. }
  split; [|done]. split.
  - intros v [->|Hin]%elem_of_cons; [|by apply Hv]. rewrite Hd.
    apply (cur_spec_cut recs (i_data i)); [apply Hv; left|apply prefix_take|].
    destruct Hl as [|Hl]; [by left|right]. unfold len at 2. rewrite length_take. lia.
  - destruct Hf as [|Hf]; [by left|]. destruct Hl as [|Hl]; [by left|right]. cbn. lia.
Qed.
End Spec.
