(* ===== verification/MirrorProof.v ===== *)
(** * The mirror's operations

    Each operation on the abstract mirror, as weakest-precondition lemmas: under
    every crash script it ends in the state it should, or dies with a directory
    that holds the old state or the new one. *)

From S2P Require Import Prelude Bytes GoIO Pcapio Os Durable Dir Json Manifest Spool Mirror MirrorSpec.

Section Proof.
Context (src snap : Z) (F : fault -> Prop) (HF : ~ can_fail F).

Abbreviation hd := (resumePath src).
Abbreviation mname := (mirrorName src).
Abbreviation disk := (disk src snap).
Abbreviation steady := (steady src).
Abbreviation mspec := (mspec src).
Abbreviation mst_ok := (mst_ok snap).

(** ** The directory *)

Lemma files_none a fr n c :
  files_spec src (MGhost a None fr) n c <-> mspec a (a_recs a = []) n c.
Proof. split; [by intros [? _]|by split]. Qed.

Lemma disk_wf g s : disk g s -> fs_wf s.
Proof. intros []. by eapply dir_wf. Qed.

Lemma disk_idle g s s' : disk g s -> idle s s' -> disk g s'.
Proof.
  intros [Hok Hinv Hst Hlk] Hid. pose proof (idle_versions _ _ Hid) as Hv. split; [done|..].
  - by eapply dir_idle.
  - intros d n ino. rewrite Hv, (id_dir _ _ Hid). apply Hst.
  - intros a' Ha Hne d. rewrite Hv, (id_inodes _ _ Hid). by apply Hlk.
Qed.

Lemma steady_bound s n ino may :
  steady s -> ~ touched hd n -> fs_dir s !! n = Some ino -> may -> bound_or s n ino may.
Proof.
  intros Hs Hn Hl Hm d Hd. destruct (d !! n) as [j|] eqn:E; [left|by right].
  rewrite <-Hl. symmetry. by apply (Hs d).
Qed.

Lemma disk_edit g s n ino i' f :
  disk g s -> fs_dir s !! n = Some ino -> ~ touched hd n -> inode_ok i' ->
  (forall fd d, f (fs_fds s) !! fd = Some d -> (fd < fs_next s)%nat) ->
  survives i' (fun c => files_spec src g n (Some c)) ->
  disk g (set_fds f (set_inodes <[ino := i']> s)).
Proof.
  intros [Hok Hinv Hst Hlk] Hl Hn Hi Hf Hs. split; [done| |done|].
  - eapply dir_edit; try done. by apply steady_bound.
  - intros a' Ha Hne d Hd Hnone j Hj. destruct (Hlk a' Ha Hne d Hd Hnone j Hj) as (i0 & Hi0 & Hs0).
    exists i0. split; [|done]. cbn. rewrite lookup_insert_ne; [done|]. intros <-.
    destruct (di_private _ _ _ _ _ Hinv (fs_dir s) d n hd ino) as [->|[? _]]; try done; [left|].
    apply Hn. by right.
Qed.

(** Creating a session file. *)
Lemma link_opened g n fl s fd ino i s' :
  disk g s -> ~ touched hd n -> opened n fl s fd ino i s' -> link src g s'.
Proof.
  intros [Hok Hinv Hst Hlk] Hn Ho a' Ha Hne d Hd Hnone j Hj.
  pose proof (op_which _ _ _ _ _ _ _ Ho) as Hw.
  assert (exists d0, d0 ∈ versions s /\ d0 !! mname (a_seq a') = None /\ d0 !! hd = Some j) as (d0 & Hd0 & Hn0 & Hj0).
  { assert (n <> hd) as Hnh by (intros ->; apply Hn; by right). destruct (fs_dir s !! n).
    - destruct Hw as (_ & i0 & _ & _ & Hv). rewrite Hv in Hd. by exists d.
    - destruct Hw as (_ & _ & Hv). rewrite Hv in Hd. apply elem_of_cons in Hd as [->|Hd]; [|by exists d].
      rewrite lookup_insert_ne in Hj by done. rewrite lookup_insert in Hnone. case_decide; [done|].
      exists (fs_dir s). split_and!; [left|done..]. }
  destruct (Hlk a' Ha Hne d0 Hd0 Hn0 j Hj0) as (i0 & Hi0 & Hs0). exists i0. split; [|done].
  rewrite (fr_inodes _ _ _ (op_frame _ _ _ _ _ _ _ Ho (eq n) eq_refl)); [done| |].
  - apply (wf_dirs s (dir_wf _ _ Hinv) d0 hd j Hd0 Hj0).
  - intros m <- Hm. destruct (di_private _ _ _ _ _ Hinv (fs_dir s) d0 n hd j) as [->|[? _]]; try done; [left|].
    apply Hn. by right.
Qed.

(** ** Working on a session file

    The name [n] may hold what [cur_spec recs] allows. *)
Section Work.
Context (g : mghost) (n : list byte) (recs : list PcapRecord).
Context (Hslot : forall c, files_spec src g n c <-> cur_spec recs c).
Context (Hn : ~ touched hd n).

Record work (fd : nat) (s : fs) (d : fdesc) (i : inode) : Prop := {
  wk_disk : disk g s;
  wk_open : open_file s n fd d i;
  wk_guard : guarded recs i;
  wk_ok : inode_ok i;
  wk_append : fd_append d = false
}.

Lemma work_edit fd s d i d' i' :
  work fd s d i -> fd_ino d' = fd_ino d -> fd_append d' = false -> inode_ok i' -> guarded recs i' ->
  work fd (set_fds <[fd := d']> (set_inodes <[fd_ino d := i']> s)) d' i'.
Proof.
  intros [Hd Ho Hg Hok Ha] He Ha' Hok' Hg'. split; [|exact (open_edit s n fd d i d' i' Ho He)|done..].
  apply (disk_edit g s n); [done|apply Ho|done..| |].
  - intros fd' d0. rewrite lookup_insert. pose proof (disk_wf _ _ Hd) as [_ _ Hfd].
    case_decide; [intros _; subst; by eapply Hfd, Ho|apply Hfd].
  - eapply survives_mono; [by apply guarded_survives|]. intros c. apply Hslot.
Qed.

Lemma work_inode fd s d i i' :
  work fd s d i -> inode_ok i' -> guarded recs i' ->
  work fd (set_inodes <[fd_ino d := i']> s) d i'.
Proof.
  intros [Hd Ho Hg Hok Ha] Hok' Hg'. split; [|exact (open_edit_inode s n fd d i i' Ho)|done..].
  apply (disk_edit g s n (fd_ino d) i' (fun m => m)); [done|apply Ho|done..| |].
  - by apply wf_fds, (disk_wf _ _ Hd).
  - eapply survives_mono; [by apply guarded_survives|]. intros c. apply Hslot.
Qed.

Lemma work_fd fd s d i d' :
  work fd s d i -> fd_ino d' = fd_ino d -> fd_append d' = false -> work fd (set_fds <[fd := d']> s) d' i.
Proof.
  intros [Hd Ho Hg Hok Ha] He Ha'.
  assert (fd < fs_next s)%nat as Hl by (eapply (wf_fds s (disk_wf _ _ Hd)), Ho).
  split; [|destruct Ho as [H1 H2 H3]; split; cbn; rewrite ?He; [done|apply lookup_insert_eq|done]|done..].
  eapply disk_idle; [done|]. by apply idle_fd; [eapply disk_wf|].
Qed.

Section Calls.
Context {X : Type} (Φ : outcome unit -> X -> fs -> Prop) (x : X) (fd : nat) (s : fs) (d : fdesc) (i : inode).
Context (Hw : work fd s d i) (Hcr : F FCrash -> disk g s -> Φ Crashed x s).

Lemma work_with_fd {A} (k : fdesc -> inode -> fs -> res (A * fs)) : with_fd fd k s = k d i s.
Proof. by eapply open_file_with_fd, Hw. Qed.

Lemma wp_work_truncate k :
  (k <= length (i_data i))%nat -> recs = [] \/ 24 + len (enc_records recs) <= Z.of_nat k ->
  (forall s', work fd s' d (inode_truncate k i) -> i_data (inode_truncate k i) = take k (i_data i) ->
     Φ (Ret ()) x s') ->
  wp F (Truncate fd (Z.of_nat k)) Φ x s.
Proof.
  intros Hk Hr Hok. apply wp_sys; [intros Hfc; apply Hcr, Hw; done|done|].
  rewrite work_with_fd. destruct (Z.ltb_spec (Z.of_nat k) 0); [lia|]. rewrite Nat2Z.id.
  destruct (guarded_truncate recs i k (wk_guard _ _ _ _ Hw) Hk Hr) as [Hg Hd].
  apply Hok; [|done]. apply (work_inode fd s d i); [done|apply inode_ok_truncate, Hw|done].
Qed.

Lemma wp_work_write buf :
  let data := overwrite (fd_pos d) buf (i_data i) in
  (i_floor i <= length data)%nat -> cur_spec recs (Some data) ->
  (forall s' d' i', work fd s' d' i' -> i_data i' = data -> fd_pos d' = (fd_pos d + length buf)%nat ->
     Φ (Ret ()) x s') ->
  wp F (Write fd buf) Φ x s.
Proof.
  intros data Hl Hc Hok. apply (wp_Write _ _ _ _ _ d i); [apply Hw|apply Hw|intros Hfc; apply Hcr, Hw; done|done|done|].
  unfold write_fs. rewrite (wk_append _ _ _ _ Hw). fold data. eapply Hok.
  - apply (work_edit fd s d i); [done..| |].
    + apply inode_ok_set; [apply Hw|done|done].
    + by apply guarded_set; [apply Hw|].
  - done.
  - done.
Qed.

Lemma wp_work_sync :
  (forall s', work fd s' d (inode_sync i) -> Φ (Ret ()) x s') -> wp F (Fdatasync fd) Φ x s.
Proof.
  intros Hok. apply wp_sys; [intros Hfc; apply Hcr, Hw; done|done|]. rewrite work_with_fd.
  apply Hok. apply (work_inode fd s d i); [done|auto with ipcap|apply guarded_sync, Hw].
Qed.

Lemma wp_work_seek (Ψ : outcome Z -> X -> fs -> Prop) (pos : inode -> Z) :
  (F FCrash -> disk g s -> Ψ Crashed x s) -> 0 <= pos i ->
  (forall s' d', work fd s' d' i -> fd_pos d' = Z.to_nat (pos i) -> Ψ (Ret (pos i)) x s') ->
  wp F (seek_to fd pos) Ψ x s.
Proof.
  intros Hc Hp Hok. apply wp_sys; [intros Hfc; apply Hc, Hw; done|done|]. rewrite work_with_fd.
  destruct (Z.ltb_spec (pos i) 0); [lia|].
  apply (Hok _ (Fdesc (fd_ino d) (Z.to_nat (pos i)) (fd_append d) (fd_shared d))); [|done].
  apply (work_fd fd s d i); [done..|apply Hw].
Qed.
End Calls.

(** The file of the session is open, holds the packets exactly, and the
    descriptor stands at its end. *)
Definition exact (fd : nat) (s : fs) : Prop :=
  exists d i gh, work fd s d i /\ settled i /\ i_data i = session_bytes gh recs /\
    fd_pos d = length (i_data i).

Lemma wp_open_work {X} (Φ : outcome nat -> X -> fs -> Prop) x s :
  disk g s -> (F FCrash -> Φ Crashed x s) ->
  (forall fd s' d i, work fd s' d i -> fd_pos d = 0%nat -> Φ (Ret fd) x s') ->
  wp F (OpenFile n (OFlags true false false false)) Φ x s.
Proof.
  intros Hd Hc Hok. pose proof (disk_wf _ _ Hd) as Hwf. pose proof Hd as [Hg Hinv Hst Hlk].
  apply wp_sys; [done|done|].
  destruct (open_create n (OFlags true false false false) s Hwf eq_refl eq_refl) as (fd & ino & i & s' & -> & Ho).
  pose proof (op_which _ _ _ _ _ _ _ Ho) as Hw.
  pose proof (op_inode _ _ _ _ _ _ _ Ho) as Hi.
  assert (inode_ok i) as Hiok by (by apply (wf_inodes _ (op_wf _ _ _ _ _ _ _ Ho)) in Hi as [_ ?]).
  assert (survives i (fun c => cur_spec recs (Some c)) /\ steady s') as [Hs Hst'].
  { pose proof (op_live _ _ _ _ _ _ _ Ho) as Hl.
    pose proof (fr_live _ _ _ (op_frame _ _ _ _ _ _ _ Ho (eq n) eq_refl)) as Hlive.
    destruct (fs_dir s !! n) as [ino0|] eqn:En.
    - destruct Hw as (-> & i0 & Hi0 & -> & Hv). split.
      + pose proof (di_holds _ _ _ _ _ Hinv n Hn (fs_dir s) ltac:(left)) as Hx. rewrite En in Hx.
        destruct Hx as (i1 & Hi1 & Hx). rewrite Hi0 in Hi1. injection Hi1 as <-.
        eapply survives_mono; [exact Hx|]. intros c Hc'. by apply Hslot.
      + intros d m j. rewrite Hv. intros Hd' Hm Hj. destruct (decide (m = n)) as [->|Hne].
        * pose proof (Hst d n j Hd' Hm Hj). cbn [fd_ino] in *. congruence.
        * rewrite Hlive by congruence. by apply (Hst d).
    - destruct Hw as (Hge & -> & Hv). split.
      + intros c v ->%list_elem_of_singleton Hp _. cbn in Hp. apply prefix_nil_inv in Hp as ->.
        pose proof (dir_content _ _ Hinv n Hn) as Hx. unfold content in Hx. rewrite En in Hx. cbn in Hx.
        apply Hslot in Hx. left. split; [done|cbn; lia].
      + intros d m j. rewrite Hv. intros [->|Hd']%elem_of_cons Hm Hj.
        * rewrite lookup_insert in Hj. case_decide as E; [subst m; congruence|].
          rewrite Hlive; congruence.
        * destruct (decide (m = n)) as [->|Hne].
          -- pose proof (Hst d n j Hd' Hm Hj). congruence.
          -- rewrite Hlive by congruence. by apply (Hst d). }
  apply (Hok fd s' (Fdesc ino 0 false false) i); [|done].
  split; [split; [done| |done|by eapply link_opened]| | |done|done].
  - eapply dir_opened; [done|exact Ho|done|]. eapply survives_mono; [exact Hs|].
    intros c Hcc. by apply Hslot.
  - by apply (open_opened_self n (OFlags true false false false) s).
  - by apply survives_guarded.
Qed.

End Work.

(** ** Counting records *)

Lemma record_offset_run recs pre t have :
  is_uint 32 snap -> Forall (wf_record snap) recs -> len pre + len (enc_records recs) < 2 ^ 63 ->
  record_offset (file_ReaderAt (pre ++ enc_records recs ++ t)) snap (length recs) (len pre) have =
  (len pre + len (enc_records recs), have + len recs).
Proof.
  intros Hs Hr. revert pre have. induction Hr as [|r recs Hw Hr IH]; intros pre have Hl.
  - cbn [length record_offset]. unfold len. cbn. f_equal; lia.
  - cbn [length record_offset]. rewrite enc_records_cons in *.
    assert (file_ReaderAt (pre ++ (PcapRecord_bytes r ++ enc_records recs) ++ t) (len pre) 16%nat =
      Ok (PcapRecord_header r)) as ->.
    { unfold PcapRecord_bytes. rewrite <-!app_assoc. by apply file_ReaderAt_app. }
    rewrite (record_header_fields snap) by done. cbn [fst].
    pose proof (len_nonneg (Data r)). pose proof (len_nonneg pre). pose proof (len_nonneg (enc_records recs)).
    pose proof (len_PcapRecord_bytes r) as Hb. unfold PcapRecord_Size in Hb.
    rewrite len_app in Hl. unfold RecordHeaderLen in *.
    destruct (Z.ltb_spec snap (len (Data r))); [by destruct Hw as (_&_&_&?); lia|].
    rewrite i64_small by lia.
    specialize (IH (pre ++ PcapRecord_bytes r) (have + 1)). rewrite len_app, Hb in IH.
    rewrite <-!app_assoc in IH. rewrite <-app_assoc. rewrite IH by lia.
    rewrite len_app, len_cons, Hb. f_equal; lia.
Qed.

Lemma wp_FileReadAts {X} fd (Φ : outcome ReaderAt -> X -> fs -> Prop) x s d i :
  fs_fds s !! fd = Some d -> fs_inodes s !! fd_ino d = Some i -> (F FCrash -> Φ Crashed x s) ->
  Φ (Ret (file_ReaderAt (i_data i))) x s -> wp F (FileReadAts fd) Φ x s.
Proof.
  intros Hd Hi Hc Hok fl ck rn HFl. unfold FileReadAts, with_fd. cbn.
  destruct (next_fault _) as [f w] eqn:E. destruct (next_fault_F _ _ _ _ _ _ HFl E) as (Hff & Hw & HF').
  rewrite Hw, Hd. cbn. rewrite Hi. destruct f; cbn; rewrite ?Hw; try done.
  - exfalso. apply HF. destruct Hff; [done|]. by left.
  - exfalso. apply HF. destruct Hff; [done|]. right. eauto.
  - split; [|done]. apply Hc. by destruct Hff.
Qed.
(** ** openSession *)

Definition opened_session (g : mghost) (q : Z) (recs : list PcapRecord) (m : Mirror)
    (o : outcome unit) (m' : Mirror) (s' : fs) : Prop :=
  match o with
  | Ret _ => exists fd, m' = set_fileLen (24 + len (enc_records recs)) (set_file (Some fd) m) /\
               exact g (mname q) recs fd s'
  | Fail _ => False
  | Crashed => F FCrash /\ disk g s'
  end.

Section Open.
Context (g : mghost) (q : Z) (recs : list PcapRecord) (m : Mirror).
Context (Hslot : forall c, files_spec src g (mname q) c <-> cur_spec recs c).

Abbreviation work := (work g (mname q) recs).
Abbreviation post := (opened_session g q recs m).

Lemma wp_settle_session fd s d i gh :
  work fd s d i -> i_data i = session_bytes gh recs ->
  wp F (on_error (Fdatasync fd) (Close fd) ;;
        off ← on_error (SeekEnd fd) (Close fd);
        modify (fun m => set_fileLen off (set_file (Some fd) m))) post m s.
Proof.
  intros Hw Hd. pose proof (mname_untouched src q) as Hn.
  apply wp_bind, wp_on_error, (wp_work_sync g (mname q) recs Hslot Hn _ _ _ _ d i Hw); [done|].
  intros s1 Hw1. cbn [bind_post].
  apply wp_bind, wp_on_error, (wp_work_seek g (mname q) recs _ _ _ d _ Hw1).
  - done.
  - apply len_nonneg.
  - intros s2 d2 Hw2 Hp. cbn [bind_post]. apply wp_modify.
    cbn [i_data inode_sync]. rewrite Hd, len_session_bytes.
    exists fd. split; [done|]. exists d2, (inode_sync i), gh. split_and!; [done..|].
    cbn [i_data inode_sync] in *. rewrite Hp. unfold len. lia.
Qed.

Lemma wp_openSession s :
  disk g s -> m_srcID m = src -> SessionSeq (m_state m) = q ->
  u64 (CommittedGpidx (m_state m) - SessionStartGpidx (m_state m)) = len recs ->
  recs = [] \/ gh_Snaplen (m_gh m) = snap -> is_uint 32 snap -> Forall (wf_record snap) recs ->
  24 + len (enc_records recs) < 2 ^ 63 ->
  wp F openSession post m s.
Proof.
  intros Hd Hsrc Hq Hc Hgh Hsn Hr Hl. pose proof (mname_untouched src q) as Hn. unfold openSession.
  apply wp_bind, wp_get. cbn [bind_post]. rewrite Hsrc, Hq.
  apply wp_bind, (wp_open_work g (mname q) recs Hslot Hn); [done|done|].
  intros fd s1 d i Hw Hpos. cbn [bind_post].
  apply wp_bind, wp_on_error, wp_sys; [intros Hfc; split; [done|apply Hw]|done|].
  rewrite (work_with_fd _ _ _ _ _ _ _ Hw). cbn [bind_post]. apply wp_bind.
  assert (forall s' d' i' gh, work fd s' d' i' -> i_data i' = session_bytes gh recs ->
    bind_post F (fun _ => on_error (Fdatasync fd) (Close fd) ;;
        off ← on_error (SeekEnd fd) (Close fd);
        modify (fun m => set_fileLen off (set_file (Some fd) m))) post (Ret ()) m s') as Htail.
  { intros. cbn [bind_post]. by eapply wp_settle_session. }
  pose proof (wk_guard _ _ _ _ _ _ _ Hw) as [Hv Hfl]. specialize (Hv (i_data i) ltac:(left)).
  unfold GlobalHeaderLen at 1. destruct (Z.ltb_spec (len (i_data i)) 24) as [Hs|Hs].
  - assert (recs = []) as ->.
    { destruct Hv as [[-> _]|[gh Hp]]; [done|]. apply prefix_length in Hp.
      pose proof (len_session_bytes gh recs). pose proof (len_nonneg (enc_records recs)). unfold len in *. lia. }
    apply wp_bind, wp_on_error, (wp_work_truncate g (mname q) [] Hslot Hn _ _ _ _ d i Hw) with (k := 0%nat);
      [done|lia|by left|].
    intros s2 Hw2 Hd2. cbn [bind_post].
    apply wp_on_error.
    assert (overwrite (fd_pos d) (GlobalHeader_AppendTo (m_gh m) []) (i_data (inode_truncate 0 i)) =
      session_bytes (m_gh m) []) as Hov.
    { rewrite Hpos, Hd2. unfold session_bytes. rewrite enc_records_nil, app_nil_r. reflexivity. }
    apply (wp_work_write g (mname q) [] Hslot Hn _ _ _ _ _ _ Hw2); rewrite ?Hov.
    + done.
    + cbn. lia.
    + right. by exists (m_gh m).
    + intros s3 d3 i3 Hw3 Hd3 _. by apply (Htail s3 d3 i3 (m_gh m)).
  - rewrite Hc. assert (exists gh t, i_data i = session_bytes gh recs ++ t) as (gh & t & Hdata).
    { destruct Hv as [[_ Hv]|[gh [t Ht]]]; [unfold len in *; lia|by exists gh, t]. }
    unfold recordOffsetForCount. apply wp_bind.
    apply wp_bind, (wp_FileReadAts _ _ _ _ d i); [apply Hw|apply Hw|intros Hfc; split; [done|apply Hw]|]. cbn [bind_post].
    apply wp_ret. cbn [bind_post]. rewrite Hdata at 1. unfold session_bytes at 1. rewrite <-app_assoc.
    unfold len at 1. rewrite Nat2Z.id. change GlobalHeaderLen with (len (GlobalHeader_bytes gh)) at 1.
    assert (record_offset (file_ReaderAt (GlobalHeader_bytes gh ++ enc_records recs ++ t)) (gh_Snaplen (m_gh m))
      (length recs) (len (GlobalHeader_bytes gh)) 0 = (24 + len (enc_records recs), 0 + len recs)) as ->.
    { destruct Hgh as [->| ->]; [done|]. by rewrite record_offset_run. }
    rewrite Z.add_0_l.
    rewrite Z.ltb_irrefl. apply wp_bind, wp_ret. cbn [bind_post].
    assert (24 + len (enc_records recs) = Z.of_nat (length (session_bytes gh recs))) as ->
      by (symmetry; apply len_session_bytes).
    apply wp_on_error, (wp_work_truncate g (mname q) recs Hslot Hn _ _ _ _ d i Hw).
    + done.
    + rewrite Hdata, length_app. lia.
    + right. pose proof (len_session_bytes gh recs). unfold len in *. lia.
    + intros s2 Hw2 Hd2. apply (Htail s2 d (inode_truncate (length (session_bytes gh recs)) i) gh); [done|].
      by rewrite Hd2, Hdata, take_app_length.
Qed.
End Open.
(** ** Persisting a state *)

(** What is known of one open file becomes part of what is known of the directory. *)
Lemma dir_know spec P s n fd d i (Q : list byte -> Prop) :
  dir_inv hd true spec P s -> steady s -> ~ touched hd n -> open_file s n fd d i -> inode_ok i ->
  survives i Q ->
  dir_inv hd true (fun m c => spec m c /\ (m = n -> forall b, c = Some b -> Q b)) P s.
Proof.
  intros Hinv Hst Hn Ho Hok HQ. pose proof Ho as [Hl Hfd Hi].
  assert (s = set_fds (fun m => m) (set_inodes <[fd_ino d := i]> s)) as Hs.
  { destruct s. unfold set_fds, set_inodes. cbn in *. f_equal. by rewrite insert_id. }
  rewrite Hs. eapply (dir_edit _ _ Hinv); [exact Hl|done..| | | | |].
  - apply wf_fds, (dir_wf _ _ Hinv).
  - by intros m c Hm _ Hc.
  - done.
  - apply steady_bound; [done..|]. by split.
  - intros c v Hv Hp Hle. split; [|by intros _ b [= <-]; apply (HQ c v)].
    by apply (open_survives _ _ Hinv n fd d i Ho Hn c v).
Qed.

(** A new head specification, when every version of the directory agrees. *)
Lemma dir_head spec P P' s : dir_inv hd true spec P s -> holds s hd P' -> dir_inv hd true spec P' s.
Proof.
  intros [[Hwf Hap Hh Ht Hsp] Hf Hp] HP'. split; [split|..]; try done.
  eapply holds_mono; [exact Ht|]. intros c _. by left.
Qed.

(** The state [a'] may become durable: the files are as it needs them. *)
Definition announced (a a' : mst) (fr : bool) (s : fs) : Prop :=
  dir_inv hd true (files_spec src (MGhost a (Some a') fr)) (resume_spec (MGhost a None fr)) s.

Lemma link_announced a a' fr s : disk (MGhost a None fr) s -> link src (MGhost a (Some a') fr) s.
Proof.
  intros [Hok Hinv _ _] a1 [= <-] Hne d Hd _ ino Hino.
  pose proof (rp_holds _ _ _ _ (di_head _ _ _ _ _ Hinv) d Hd) as Hx. rewrite Hino in Hx.
  destruct Hx as (i & Hi & Hs). exists i. split; [done|]. eapply survives_mono; [exact Hs|].
  intros c [->|(? & [=] & _)]. done.
Qed.

Lemma disk_announced a a' fr s :
  disk (MGhost a None fr) s -> mst_ok a' -> announced a a' fr s -> disk (MGhost a (Some a') fr) s.
Proof.
  intros Hd Ha' Hann. pose proof Hd as [(Ha & _ & Hfr) Hinv Hst _]. split; [|..|done|by apply link_announced].
  - split_and!; [done|by intros ? [= <-]|done].
  - apply (dir_mono _ _ Hann); [done|]. intros [b|]; cbn; [|done]. intros [->|(? & [=] & _)]. by left.
Qed.

Lemma steady_atomically b P s o s' : steady s -> atomically hd b true P s o s' -> steady s'.
Proof.
  intros Hst (_ & Hfr & _) d n ino Hd Hn Hino. rewrite (fr_live _ _ _ Hfr) by done.
  destruct (fr_recent _ _ _ Hfr d Hd) as [Hd0|Heq]; [by apply (Hst d)|]. by rewrite <-Heq.
Qed.

Lemma link_atomically g b P s o s' :
  link src g s -> atomically hd b true P s o s' ->
  (forall a', next g = Some a' -> is_Some (fs_dir s !! mname (a_seq a'))) -> link src g s'.
Proof.
  intros Hlk (_ & Hfr & Hu & _) Hnm a' Ha Hne d Hd Hnone ino Hino.
  destruct (fr_recent _ _ _ Hfr d Hd) as [Hd0|Heq].
  - destruct (Hlk a' Ha Hne d Hd0 Hnone ino Hino) as (i & Hi & Hs). exists i.
    split; [|done]. by rewrite (Hu d ino Hd0 Hino).
  - rewrite Heq in Hnone by apply mname_untouched. destruct (Hnm a' Ha) as [? ?]. congruence.
Qed.

(** The new state is durable. *)
Lemma disk_installed a a' fr s fd d i :
  mst_ok a' -> dir_inv hd true (files_spec src (MGhost a (Some a') fr)) (resume_spec (MGhost a (Some a') fr)) s ->
  steady s -> fs_olddirs s = [] -> holds s hd (eq (Some (json_Marshal (state_of a')))) ->
  open_file s (mname (a_seq a')) fd d i ->
  disk (MGhost a' None false) s.
Proof.
  intros Ha' Hinv Hst Ho Hh Hof. split; [by split_and!| |done|done].
  apply (dir_head _ _ (resume_spec (MGhost a' None false))) in Hinv;
    [|eapply holds_mono; [exact Hh|]; intros c <-; by left].
  assert (s = Fs (fs_inodes s) (fs_dir s) [] (fs_fds s) (fs_next s)) as -> by (destruct s; cbn in *; by subst).
  eapply (dir_sync _ _ Hinv). intros n c Hn [_ Hc] Hnone. apply files_none.
  destruct (Hc a' eq_refl) as [H1 H2 H3]. split; [done| |done].
  intros Hname. destruct (H2 Hname) as [[-> _]|?]; [|by right].
  specialize (Hnone eq_refl). cbn in Hnone. rewrite Hname, (of_live _ _ _ _ _ Hof) in Hnone. done.
Qed.

Lemma wp_persistState a a' fr m s fd d i :
  disk (MGhost a (Some a') fr) s -> m_state m = state_of a' -> m_srcID m = src ->
  open_file s (mname (a_seq a')) fd d i ->
  wp F persistState (fun o m' s' => m' = m /\
    match o with
    | Ret _ => disk (MGhost a' None false) s' /\ open_file s' (mname (a_seq a')) fd d i
    | Fail _ => False
    | Crashed => F FCrash /\ disk (MGhost a (Some a') fr) s'
    end) m s.
Proof.
  intros Hd Hst Hsrc Hof. unfold persistState. apply wp_bind, wp_get. cbn [bind_post]. rewrite Hst, Hsrc.
  pose proof Hd as [Hok Hinv Hsd Hlk]. destruct Hok as (Ha & Hnext & Hfr). pose proof (Hnext a' eq_refl) as Ha'.
  eapply wp_mono; [apply (wp_WriteFileAtomic F hd _ true (resume_spec (MGhost a (Some a') fr)))|].
  - apply Hinv.
  - split; [|done]. right. by exists a'.
  - intros o m' s' (-> & Hat & Hall). split; [done|].
    pose proof (dir_atomically _ _ Hinv _ _ _ Hat) as Hinv'.
    pose proof (steady_atomically _ _ _ _ _ Hsd Hat) as Hsd'.
    destruct o as [[]|e|]; [|done|].
    + pose proof (open_atomically _ _ Hinv _ _ _ _ _ _ _ Hat (mname_untouched src _) Hof) as Hof'.
      destruct Hat as (_ & _ & _ & _ & Hret). destruct (Hret eq_refl) as (_ & Ho & Hh).
      split; [|done]. by eapply disk_installed; [| | | |apply Hh|].
    + split; [done|]. split; [done..|]. eapply link_atomically; [done|done|]. intros a1 [= <-]. eexists. apply Hof.
Qed.
(** ** The running mirror *)

Record minv (a : mst) (m : Mirror) (s : fs) : Prop := {
  mi_src : m_srcID m = src;
  mi_state : m_state m = state_of a;
  mi_len : m_fileLen m = 24 + len (enc_records (a_recs a));
  mi_file : exists fr fd, m_file m = Some fd /\
              exact (MGhost a None fr) (mname (a_seq a)) (a_recs a) fd s
}.

(** The atomics show the current state. *)
Definition published (m : Mirror) : Prop :=
  p_committed m = CommittedGpidx (m_state m) /\ p_sessionStart m = SessionStartGpidx (m_state m) /\
  p_sessionSeq m = SessionSeq (m_state m) /\ p_committedLen m = m_fileLen m.

(** A crash on the way from [a] to [a']. *)
Definition wreck (a a' : mst) (s : fs) : Prop :=
  exists fr, disk (MGhost a None fr) s \/ disk (MGhost a (Some a') fr) s.

Definition op_post (a a' : mst) (o : outcome unit) (m : Mirror) (s : fs) : Prop :=
  match o with
  | Ret _ => minv a' m s /\ published m
  | Fail _ => False
  | Crashed => F FCrash /\ wreck a a' s
  end.

Lemma cur_slot a fr c :
  mst_ok a -> files_spec src (MGhost a None fr) (mname (a_seq a)) c <-> cur_spec (a_recs a) c.
Proof. intros Ha. rewrite files_none. by eapply slot_cur. Qed.

Lemma disk_mst_ok a n fr s : disk (MGhost a n fr) s -> mst_ok a.
Proof. by intros [(? & _) _ _ _]. Qed.

Lemma minv_mst_ok a m s : minv a m s -> mst_ok a.
Proof. intros [_ _ _ (fr & fd & _ & d & i & gh & Hw & _)]. by eapply disk_mst_ok, Hw. Qed.

Lemma wp_publish Φ m s :
  (forall m', m_srcID m' = m_srcID m -> m_gh m' = m_gh m -> m_file m' = m_file m -> m_fileLen m' = m_fileLen m ->
     m_state m' = m_state m -> published m' -> Φ (Ret ()) m' s) -> wp F publish Φ m s.
Proof. intros H. apply wp_modify. by apply H. Qed.

(** A file that holds the packets exactly, all of them synced. *)
Lemma exact_intro g n recs fd s d i gh :
  disk g s -> open_file s n fd d i -> fd_append d = false -> settled i ->
  i_data i = session_bytes gh recs -> fd_pos d = length (i_data i) -> exact g n recs fd s.
Proof.
  intros Hd Ho Ha Hs Hb Hp. exists d, i, gh. split_and!; [|done..].
  split; [done..| | |done].
  - destruct Hs as [Ho' Hf]. split.
    + intros v. rewrite Ho'. intros ->%list_elem_of_singleton. right. exists gh. by rewrite Hb.
    + right. rewrite Hf, Hb. pose proof (len_session_bytes gh recs). unfold len in *. lia.
  - by eapply open_file_ok, Ho; apply Hd.
Qed.

(** ** OpenMirror *)

Lemma content_resume a fr s :
  disk (MGhost a None fr) s ->
  match content s hd with
  | None => state_of a = json_zero
  | Some b => json_Unmarshal b = Some (state_of a)
  end.
Proof.
  intros [(Ha & _ & Hfr) Hinv _ _].
  pose proof (holds_now s hd _ (dir_wf _ _ Hinv) (rp_holds _ _ _ _ (di_head _ _ _ _ _ Hinv))) as Hc.
  destruct (content s hd) as [b|]; cbn in Hc; [|by apply Hfr].
  destruct Hc as [->|(? & [=] & _)]. by apply Unmarshal_Marshal, (mst_ok_wf snap).
Qed.

Lemma wp_ReadFile {X} (Φ : outcome (list byte) -> X -> fs -> Prop) n x s :
  fs_wf s -> (F FCrash -> Φ Crashed x s) ->
  match content s n with None => Φ (Fail os_ErrNotExist) x s | Some b => Φ (Ret b) x s end ->
  wp F (ReadFile n) Φ x s.
Proof.
  intros Hwf Hc Hok. apply wp_sys; [done|done|]. unfold content in Hok.
  destruct (fs_dir s !! n) as [ino|] eqn:E; cbn in Hok; [|done].
  destruct (wf_dirs s Hwf (fs_dir s) n ino) as [_ [i Hi]]; [left|done|]. rewrite Hi in *. done.
Qed.

Lemma wp_OpenMirror a fr gh m s :
  disk (MGhost a None fr) s -> is_uint 32 snap -> gh_Snaplen gh = snap ->
  wp F (OpenMirror src gh) (fun o m' s' =>
    match o with
    | Ret _ => minv a m' s' /\ published m'
    | Fail _ => False
    | Crashed => F FCrash /\ disk (MGhost a None fr) s'
    end) m s.
Proof.
  intros Hd Hsn Hgh. pose proof (disk_mst_ok _ _ _ _ Hd) as Ha. unfold OpenMirror.
  apply wp_bind, wp_sys; [done|done|]. cbn [bind_post]. apply wp_bind, wp_modify. cbn [bind_post].
  apply wp_bind. unfold loadState. apply wp_bind, wp_get. cbn [bind_post m_srcID zero_Mirror].
  set (Φ := bind_post F _ _).
  assert (Φ (Ret ()) (set_state (fun _ => state_of a) (zero_Mirror src gh)) s) as HΦ.
  { cbn [Φ bind_post]. apply wp_bind. pose proof (mo_recs _ _ Ha) as Hr. pose proof (mo_size _ _ Ha) as Hsz.
    pose proof (mo_committed _ _ Ha). pose proof (len_nonneg (a_recs a)). pose proof (mo_start _ _ Ha).
    eapply wp_mono; [apply (wp_openSession (MGhost a None fr) (a_seq a) (a_recs a))|].
    - intros c. by apply cur_slot.
    - done.
    - done.
    - done.
    - unfold set_state, state_of, a_committed. cbn [m_state CommittedGpidx SessionStartGpidx].
      rewrite u64_small; unfold is_uint, a_committed in *; lia.
    - by right.
    - done.
    - done.
    - done.
    - intros [[]|e|] m' s' Hos; cbn [bind_post]; [|done|done]. destruct Hos as (fd & -> & Hex).
      apply wp_publish. intros m' Hsrc Hg Hf Hl Hst Hp. split; [|done]. split; rewrite ?Hsrc, ?Hst, ?Hl; [done..|].
      exists fr, fd. by rewrite Hf. }
  apply wp_bind, wp_try, wp_ReadFile; [by eapply disk_wf|done|].
  pose proof (content_resume _ _ _ Hd) as Hc. destruct (content s hd) as [b|]; cbn [bind_post].
  - rewrite Hc. by apply wp_modify.
  - rewrite decide_True by done. apply wp_ret. rewrite Hc in HΦ. exact HΦ.
Qed.
(** ** SetHeader *)

Lemma state_empty a : mst_ok a -> CommittedGpidx (state_of a) = SessionStartGpidx (state_of a) <-> a_recs a = [].
Proof.
  intros Ha. unfold state_of, a_committed. cbn. split.
  - intros H. destruct (a_recs a) as [|r l]; [done|]. rewrite len_cons in H. pose proof (len_nonneg l). lia.
  - intros ->. rewrite len_nil. lia.
Qed.

Lemma wp_SetHeader a h m s :
  minv a m s -> published m ->
  wp F (SetHeader h) (op_post a a) m s.
Proof.
  intros Hm Hp. pose proof (minv_mst_ok _ _ _ Hm) as Ha. pose proof Hm as [Hsrc Hst Hlen (fr & fd & Hf & Hex)].
  unfold SetHeader. apply wp_bind, wp_get. cbn [bind_post]. case_decide; [by apply wp_ret|].
  apply wp_bind, wp_modify. cbn [bind_post]. rewrite Hst, Hf.
  destruct (Z.eqb_spec (CommittedGpidx (state_of a)) (SessionStartGpidx (state_of a))) as [He|He]; cbn [negb].
  2: { apply wp_ret. split; [|done]. split; [done..|]. by exists fr, fd. }
  apply (state_empty a Ha) in He. pose proof (mname_untouched src (a_seq a)) as Hn.
  assert (forall c, files_spec src (MGhost a None fr) (mname (a_seq a)) c <-> cur_spec [] c) as Hslot.
  { intros c. rewrite <-He. by apply cur_slot. }
  destruct Hex as (d & i & gh & Hw & Hs & Hd & Hpos). rewrite He in Hw, Hd.
  assert (forall s', F FCrash -> disk (MGhost a None fr) s' -> op_post a a Crashed (set_gh h m) s') as Hcr.
  { intros s' Hfc Hd'. split; [done|]. exists fr. by left. }
  apply wp_bind. cbn [on_file].
  apply (wp_work_truncate (MGhost a None fr) (mname (a_seq a)) [] Hslot Hn _ _ fd s d i Hw) with (k := 0%nat);
    [apply Hcr|lia|by left|].
  intros s1 Hw1 Hd1. cbn [bind_post].
  apply wp_bind, (wp_work_seek _ _ _ _ _ _ _ _ Hw1); [apply Hcr|done|].
  intros s2 d2 Hw2 Hp2. cbn [bind_post]. apply wp_bind.
  assert (overwrite (fd_pos d2) (GlobalHeader_AppendTo h []) (i_data (inode_truncate 0 i)) = session_bytes h []) as Hov.
  { rewrite Hp2, Hd1. unfold session_bytes. rewrite enc_records_nil, app_nil_r. reflexivity. }
  apply (wp_work_write _ _ [] Hslot Hn _ _ _ _ _ _ Hw2); rewrite ?Hov; [apply Hcr|cbn; lia|right; by exists h|].
  intros s3 d3 i3 Hw3 Hd3 _. cbn [bind_post]. apply wp_bind.
  apply (wp_work_sync _ _ [] Hslot Hn _ _ _ _ _ _ Hw3); [apply Hcr|]. intros s4 Hw4. cbn [bind_post].
  apply wp_bind, (wp_work_seek _ _ _ _ _ _ _ _ Hw4); [apply Hcr|apply len_nonneg|].
  intros s5 d5 Hw5 Hp5. cbn [bind_post]. apply wp_ret. split; [|done]. split; [done..|].
  exists fr, fd. split; [done|]. exists d5, (inode_sync i3), h. rewrite He.
  split_and!; [done..|]. cbn [i_data inode_sync] in *. rewrite Hp5. unfold len. lia.
Qed.

(** ** Append *)

Lemma session_bytes_app gh recs recs' :
  session_bytes gh (recs ++ recs') = session_bytes gh recs ++ enc_records recs'.
Proof. unfold session_bytes. by rewrite enc_records_app, app_assoc. Qed.

Lemma spec_append_cur a recs seq gh n c :
  mspec a (a_recs a = []) n c ->
  (n = mname (a_seq a) -> forall b, c = Some b -> b = session_bytes gh (a_recs a ++ recs)) ->
  mspec (a_append recs seq a) True n c.
Proof.
  intros [H1 H2 H3] Hk. split; [done| |done]. intros Hn. destruct c as [b|]; [right|by left].
  right. exists gh. by rewrite (Hk Hn b eq_refl).
Qed.

Lemma state_append a recs seq :
  mst_ok a -> mst_ok (a_append recs seq a) ->
  mkResumeState (u64 (CommittedGpidx (state_of a) + len recs)) (SessionSeq (state_of a))
    (SessionStartGpidx (state_of a)) seq (rs_Epoch (state_of a)) = state_of (a_append recs seq a).
Proof.
  intros Ha Ha'. pose proof (mo_committed _ _ Ha') as Hx. pose proof (mo_start _ _ Ha) as Hy.
  unfold state_of, a_append, a_committed, a_start, a_recs in *. cbn in *. rewrite len_app in *.
  pose proof (len_nonneg (ss_recs (a_cur a))). pose proof (len_nonneg recs).
  rewrite u64_small by (unfold is_uint; lia). by rewrite Z.add_assoc.
Qed.

Lemma size_append a recs seq :
  mst_ok (a_append recs seq a) ->
  i64 (24 + len (enc_records (a_recs a)) + len (enc_records recs)) =
    24 + len (enc_records (a_recs (a_append recs seq a))).
Proof.
  intros Ha'. pose proof (mo_size _ _ Ha') as Hx. change (a_recs (a_append recs seq a)) with (a_recs a ++ recs) in *.
  rewrite enc_records_app, len_app in *. pose proof (len_nonneg (enc_records recs)).
  pose proof (len_nonneg (enc_records (a_recs a))). rewrite i64_small; lia.
Qed.

Lemma wp_Append a recs seq m s :
  minv a m s -> published m -> mst_ok (a_append recs seq a) -> recs <> [] ->
  wp F (Append recs seq) (op_post a (a_append recs seq a)) m s.
Proof.
  intros Hm Hp Ha' Hne. pose proof (minv_mst_ok _ _ _ Hm) as Ha. pose proof Hm as [Hsrc Hst Hlen (fr & fd & Hf & Hex)].
  set (a' := a_append recs seq a) in *. pose proof (mname_untouched src (a_seq a)) as Hn.
  assert (forall c, files_spec src (MGhost a None fr) (mname (a_seq a)) c <-> cur_spec (a_recs a) c) as Hslot
    by (intros c; by apply cur_slot).
  destruct Hex as (d & i & gh & Hw & Hs & Hd & Hpos).
  assert (forall m' s', F FCrash -> disk (MGhost a None fr) s' -> op_post a a' Crashed m' s') as Hcr.
  { intros m' s' Hfc Hd'. split; [done|]. exists fr. by left. }
  unfold Append. destruct recs as [|r0 recs0]; [done|]. set (recs := r0 :: recs0) in *. cbv zeta.
  rewrite (enc_records_buf recs []). cbn [app].
  apply wp_bind, wp_get. cbn [bind_post]. rewrite Hf. cbn [on_file]. apply wp_bind.
  assert (overwrite (fd_pos d) (enc_records recs) (i_data i) = session_bytes gh (a_recs a ++ recs)) as Hov.
  { rewrite Hpos. unfold overwrite. rewrite firstn_all, Nat.sub_diag, drop_ge by lia. cbn [replicate app].
    by rewrite app_nil_r, Hd, session_bytes_app. }
  apply (wp_work_write _ _ _ Hslot Hn _ _ _ _ _ _ Hw); rewrite ?Hov; [apply Hcr| | |].
  { destruct Hs as [_ ->]. rewrite Hd, session_bytes_app, length_app. lia. }
  { right. exists gh. rewrite session_bytes_app. by apply prefix_app_r. }
  intros s1 d1 i1 Hw1 Hd1 Hp1. cbn [bind_post]. apply wp_bind.
  apply (wp_work_sync _ _ _ Hslot Hn _ _ _ _ _ _ Hw1); [apply Hcr|]. intros s2 Hw2. cbn [bind_post].
  apply wp_bind, wp_modify. cbn [bind_post]. apply wp_bind.
  assert (settled (inode_sync i1)) as Hset by done.
  assert (announced a a' fr s2) as Hann.
  { pose proof Hw2 as [Hd2 Ho2 _ Hok2 _].
    pose proof (dir_know _ _ _ _ _ _ _ (fun b => b = session_bytes gh (a_recs a ++ recs)) (dk_inv _ _ _ _ Hd2) (dk_steady _ _ _ _ Hd2)
      Hn Ho2 Hok2) as Hk.
    refine (dir_mono _ _ (Hk _) _ _ _ _).
    - by apply survives_settled.
    - intros n c _ [[Hc _] Hb]. split; [done|]. intros ? [= <-]. by eapply spec_append_cur.
    - done. }
  pose proof (disk_announced _ _ _ _ (wk_disk _ _ _ _ _ _ _ Hw2) Ha' Hann) as Hda.
  eapply wp_mono; [apply (wp_persistState a a' fr _ s2 fd d1 (inode_sync i1)); [done| |done|apply Hw2]|].
  { cbn [m_state set_fileLen set_state]. rewrite Hst. by apply state_append. }
  intros [[]|e|] m' s' [-> Hps]; cbn [bind_post]; [|done|destruct_and!; split; [done|exists fr; by right]].
  destruct Hps as [Hd3 Ho3]. apply wp_publish. intros m' Hsrc' Hg' Hf' Hl' Hst' Hp'. split; [|done].
  split; rewrite ?Hsrc', ?Hst', ?Hl'; cbn [m_srcID m_state m_fileLen set_fileLen set_state].
  - done.
  - rewrite Hst. by apply state_append.
  - rewrite Hlen. by apply (size_append a recs seq).
  - exists false, fd. rewrite Hf'. split; [done|]. apply (exact_intro _ _ _ _ _ d1 (inode_sync i1) gh); try done.
    + apply Hw2.
    + cbn [i_data inode_sync]. rewrite Hd1, Hp1, Hpos, Hd, session_bytes_app, length_app. done.
Qed.
(** ** AdoptEpoch *)

Lemma wp_AdoptEpoch a e m s :
  minv a m s -> published m -> wp F (AdoptEpoch e) (op_post a (a_adopt e a)) m s.
Proof.
  intros Hm Hp. pose proof (minv_mst_ok _ _ _ Hm) as Ha. pose proof Hm as [Hsrc Hst Hlen (fr & fd & Hf & Hex)].
  unfold AdoptEpoch. apply wp_bind, wp_get. cbn [bind_post]. rewrite Hst. case_decide as He.
  { apply wp_ret. split; [|done]. replace (a_adopt e a) with a; [done|]. destruct a. cbn in *. by subst. }
  set (a' := a_adopt e a). assert (mst_ok a') as Ha' by (destruct Ha; by split).
  destruct Hex as (d & i & gh & Hw & Hs & Hd & Hpos).
  assert (announced a a' fr s) as Hann.
  { refine (dir_mono _ _ (dk_inv _ _ _ _ (wk_disk _ _ _ _ _ _ _ Hw)) _ _ _ _); [|done].
    intros n c _ [Hc _]. split; [done|]. intros ? [= <-]. destruct Hc as [H1 H2 H3]. split; [done| |done].
    intros Hn. destruct (H2 Hn) as [[-> _]|?]; [by left|by right]. }
  pose proof (disk_announced _ _ _ _ (wk_disk _ _ _ _ _ _ _ Hw) Ha' Hann) as Hda.
  apply wp_bind, wp_modify. cbn [bind_post].
  eapply wp_mono; [apply (wp_persistState a a' fr _ s fd d i); [done|cbn; by rewrite Hst|done|apply Hw]|].
  intros [[]|er|] m' s' [-> Hps]; [|done|destruct_and!; split; [done|exists fr; by right]]. destruct Hps as [Hd3 Ho3].
  split; [|destruct Hp as (?&?&?&?); by split_and!]. split; [done|cbn; by rewrite Hst|done|].
  exists false, fd. split; [done|]. apply (exact_intro _ _ _ _ _ d i gh); try done. apply Hw.
Qed.

(** ** NewSession *)

(** The next session, under epoch [e]. *)
Definition a_next (e : list byte) (start : Z) (a : mst) : mst := a_adopt e (a_roll start a).

Lemma a_seq_next e start a : a_seq (a_next e start a) = a_seq a + 1.
Proof. unfold a_seq, a_next, a_adopt, a_roll. cbn [a_old]. rewrite len_app, len_cons, len_nil. lia. Qed.

Lemma mst_ok_next e start a :
  mst_ok a -> is_uint 64 start -> a_seq a + 1 < 2 ^ 64 -> mst_ok (a_next e start a).
Proof.
  intros Ha [H0 H1] Hq. split.
  - done.
  - unfold a_committed, a_start, a_recs. cbn. unfold len. cbn. lia.
  - by rewrite a_seq_next.
  - apply (mo_last _ _ Ha).
  - constructor.
  - done.
Qed.

(** The finished session's file is exact; the next one's is not there yet or empty. *)
Lemma spec_next a e start gh n c :
  mspec a (a_recs a = []) n c ->
  (n = mname (a_seq a) -> forall b, c = Some b -> b = session_bytes gh (a_recs a)) ->
  a_seq a + 1 < 2 ^ 64 ->
  mspec (a_next e start a) True n c.
Proof.
  intros [H1 H2 H3] Hk Hq. pose proof (len_nonneg (a_old a)). split.
  - intros k x Hx Hn. cbn [a_old a_next a_adopt a_roll] in Hx.
    apply lookup_app_Some in Hx as [Hx|[Hge Hx]]; [by apply (H1 k)|].
    apply list_lookup_singleton_Some in Hx as [Hk0 <-].
    assert (Z.of_nat k = a_seq a) as Hka by (unfold a_seq, len; lia). rewrite Hka in Hn.
    destruct c as [b|]; cbn.
    + exists gh. by apply Hk.
    + destruct (H2 Hn) as [[_ ?]|?]; done.
  - intros Hn. rewrite a_seq_next in Hn. right. apply (H3 (a_seq a + 1)); [lia|done].
  - intros k Hk' Hn. rewrite a_seq_next in Hk'. apply (H3 k); [lia|done].
Qed.

Lemma next_slot a e start fr c :
  mst_ok a -> a_seq a + 1 < 2 ^ 64 ->
  files_spec src (MGhost a (Some (a_next e start a)) fr) (mname (a_seq a + 1)) c <-> cur_spec [] c.
Proof.
  intros Ha Hq. pose proof (a_seq_uint _ _ Ha) as Hu. split.
  - intros [Hc _]. exact (proj1 (slot_new src snap a c Ha Hq) Hc).
  - intros Hc. pose proof (proj2 (slot_new src snap a c Ha Hq) Hc) as Hs. split; [done|]. intros ? [= <-].
    apply (spec_next a e start (mkGlobalHeader 0 0)); [done| |done]. intros Hn.
    apply mname_inj in Hn; unfold is_uint in *; lia.
Qed.

Lemma wp_NewSession a e start m s :
  minv a (set_state (set_Epoch (a_epoch a)) m) s -> m_state m = state_of (a_adopt e a) ->
  is_uint 64 start -> a_seq a + 1 < 2 ^ 64 -> is_uint 32 snap ->
  wp F (NewSession start) (op_post a (a_next e start a)) m s.
Proof.
  intros Hm Hst Hstart Hq Hsn. pose proof (minv_mst_ok _ _ _ Hm) as Ha.
  destruct Hm as [Hsrc _ _ (fr & fd & Hf & d & i & gh & Hw & Hs & Hd & Hpos)]. cbn [m_srcID m_file set_state] in Hsrc, Hf.
  set (a' := a_next e start a). pose proof (mst_ok_next e start a Ha Hstart Hq) as Ha'. fold a' in Ha'.
  assert (announced a a' fr s) as Hann.
  { pose proof Hw as [Hd2 Ho2 _ Hok2 _].
    pose proof (dir_know _ _ _ _ _ _ _ (fun b => b = session_bytes gh (a_recs a)) (dk_inv _ _ _ _ Hd2)
      (dk_steady _ _ _ _ Hd2) (mname_untouched src _) Ho2 Hok2) as Hk.
    refine (dir_mono _ _ (Hk _) _ _ _ _); [by apply survives_settled| |done].
    intros n c _ [[Hc _] Hb]. split; [done|]. intros ? [= <-]. by eapply spec_next. }
  pose proof (disk_announced _ _ _ _ (wk_disk _ _ _ _ _ _ _ Hw) Ha' Hann) as Hda.
  unfold NewSession. apply wp_bind, wp_get. cbn [bind_post]. rewrite Hf. apply wp_bind, wp_Close. cbn [bind_post].
  set (s1 := set_fds (delete fd) s).
  assert (disk (MGhost a (Some a') fr) s1) as Hd1 by (eapply disk_idle; [done|]; by apply idle_close; eapply disk_wf).
  apply wp_bind, wp_modify. cbn [bind_post]. set (m1 := set_state _ m).
  assert (m_state m1 = state_of a') as Hst1.
  { subst m1. cbn [m_state set_state]. rewrite Hst.
    change (SessionSeq (state_of (a_adopt e a))) with (a_seq a).
    rewrite u64_small by (pose proof (a_seq_uint _ _ Ha); unfold is_uint in *; lia).
    unfold state_of. subst a'. rewrite a_seq_next.
    unfold a_committed, a_start, a_recs, a_next, a_adopt, a_roll. cbn. f_equal. unfold len. cbn. lia. }
  apply wp_bind. eapply wp_mono; [apply (wp_openSession (MGhost a (Some a') fr) (a_seq a + 1) [] m1)|].
  - intros c. by apply next_slot.
  - done.
  - done.
  - rewrite Hst1. apply a_seq_next.
  - rewrite Hst1. unfold state_of, a_committed. cbn [CommittedGpidx SessionStartGpidx]. subst a'. cbn.
    unfold len. cbn. by rewrite Z.add_0_r, Z.sub_diag.
  - by left.
  - done.
  - constructor.
  - done.
  - intros [[]|er|] m2 s2 Hos; cbn [bind_post]; [|done|destruct Hos; split; [done|exists fr; by right]].
    destruct Hos as (fd2 & -> & d2 & i2 & gh2 & Hw2 & Hs2 & Hb2 & Hp2). apply wp_bind.
    assert (mname (a_seq a + 1) = mname (a_seq a')) as Hname by (subst a'; by rewrite a_seq_next). rewrite Hname in Hw2.
    eapply wp_mono; [apply (wp_persistState a a' fr _ s2 fd2 d2 i2); [apply Hw2|done|done|apply Hw2]|].
    intros [[]|er|] m' s' [-> Hps]; cbn [bind_post]; [|done|destruct_and!; split; [done|exists fr; by right]]. destruct Hps as [Hd3 Ho3].
    apply wp_publish. intros m' Hsrc' Hg' Hf' Hl' Hst' Hp'. split; [|done].
    split; rewrite ?Hsrc', ?Hst', ?Hl'; [done..|].
    exists false, fd2. rewrite Hf'. split; [done|]. apply (exact_intro _ _ _ _ _ d2 i2 gh2); try done. apply Hw2.
Qed.

Lemma wp_ResetForEpoch a e start m s :
  minv a m s -> is_uint 64 start -> a_seq a + 1 < 2 ^ 64 -> is_uint 32 snap ->
  wp F (ResetForEpoch e start) (op_post a (a_next e start a)) m s.
Proof.
  intros Hm Hstart Hq Hsn. unfold ResetForEpoch. apply wp_bind, wp_modify. cbn [bind_post].
  apply wp_NewSession; [|cbn; by rewrite (mi_state _ _ _ Hm)|done..].
  destruct Hm as [Hsrc Hst Hlen Hf]. split; [done| |done..]. cbn. rewrite Hst. done.
Qed.

(** ** Crashes *)

Lemma disk_crash g s s' :
  disk g s -> crash_fs s s' ->
  exists b fr, (b = ma g \/ next g = Some b) /\ disk (MGhost b None fr) s'.
Proof.
  intros [(Ha & Hnext & Hfr) Hinv Hst Hlk] Hcr. pose proof (dir_crash _ _ Hinv s' Hcr) as Hinv'.
  pose proof (quiet_crash _ _ Hcr) as Hq. pose proof Hcr as (Hdir & Hold & _).
  assert (steady s') as Hst'.
  { intros d n ino. unfold versions. rewrite Hold. by intros ->%list_elem_of_singleton. }
  assert (forall b fr, mst_ok b -> (fr = true -> state_of b = json_zero) ->
    (forall n, ~ touched hd n -> files_spec src g n (content s' n) -> mspec b (a_recs b = []) n (content s' n)) ->
    resume_spec (MGhost b None fr) (content s' hd) -> disk (MGhost b None fr) s') as Hmk.
  { intros b fr Hb Hfrb Hn Hc. split; [by split_and!| |done|done].
    apply (dir_head _ (resume_spec g)).
    - apply (dir_quiet _ _ _ _ _ _ _ Hinv' Hq); [|done]. intros n Hnt Hx. by apply files_none, Hn.
    - intros d. unfold versions. rewrite Hold. intros ->%list_elem_of_singleton.
      unfold content in Hc. destruct (fs_dir s' !! hd) as [ino|] eqn:E; cbn in Hc; [|done].
      destruct (wf_dirs s' (dir_wf _ _ Hinv') (fs_dir s') hd ino) as [_ [i Hi]]; [left|done|]. rewrite Hi in Hc. cbn in Hc.
      exists i. split; [done|]. apply survives_settled; [by eapply Hq|done]. }
  pose proof (holds_now s' hd _ (dir_wf _ _ Hinv') (rp_holds _ _ _ _ (di_head _ _ _ _ _ Hinv'))) as Hres.
  destruct (content s' hd) as [b|] eqn:Econ; cbn in Hres.
  - destruct (decide (b = json_Marshal (state_of (ma g)))) as [Hb|Hb].
    + exists (ma g), false. split; [by left|]. apply Hmk; [done|done|by intros n _ [? _]|by left].
    + destruct Hres as [?|(a' & Ha' & ->)]; [done|]. exists a', false. split; [by right|].
      pose proof (Hnext a' Ha') as Hok'. apply Hmk; [done|done| |by left].
      intros n Hn [_ Hc]. specialize (Hc a' Ha'). destruct Hc as [H1 H2 H3]. split; [done| |done].
      intros Hname. destruct (H2 Hname) as [[Hc _]|?]; [|by right]. left. split; [done|].
      destruct (decide (a_recs a' = [])) as [?|Hne]; [done|]. exfalso. apply Hb.
      assert (fs_dir s' !! mname (a_seq a') = None) as Hnone.
      { rewrite Hname in Hc. unfold content in Hc. destruct (fs_dir s' !! mname (a_seq a')) as [j|] eqn:Ej; [|done].
        destruct (wf_dirs s' (dir_wf _ _ Hinv') (fs_dir s') (mname (a_seq a')) j) as [_ [i Hi]]; [left|exact Ej|].
        cbn in Hc. by rewrite Hi in Hc. }
      unfold content in Econ. destruct (fs_dir s' !! hd) as [ino|] eqn:Eh; [|done]. cbn in Econ.
      destruct (Hlk a' Ha' Hne (fs_dir s') Hdir Hnone ino Eh) as (i & Hi & Hs).
      destruct Hcr as (_ & _ & _ & _ & Hino). specialize (Hino ino). rewrite Hi in Hino.
      destruct (fs_inodes s' !! ino) as [i'|]; [|done]. cbn in Econ. injection Econ as Econ.
      rewrite <-Econ. by apply (survives_crash i i' (fun c => c = json_Marshal (state_of (ma g)))).
  - exists (ma g), true. split; [by left|]. apply Hmk; [done|by intros _; apply Hfr|by intros n _ [? _]|done].
Qed.
End Proof.
