(* ===== verification/MirrorProps.v ===== *)
(** * The mirror as a list of sessions

    Runs of the mirror (opening, the operations of the demux, host crashes
    anywhere) refine an abstract list of sessions on which every operation is
    atomic: a crash leaves the state before the operation or the one after it. *)

From S2P Require Import Prelude Bytes GoIO Pcapio Os Durable Dir Runs Json Manifest Spool Mirror MirrorSpec MirrorProof.

(** ** Runs *)

Inductive mop : Type :=
  | OpHeader (h : GlobalHeader)
  | OpAppend (recs : list PcapRecord) (lastSeq : Z)
  | OpSession (start : Z)
  | OpAdopt (epoch : list byte)
  | OpReset (epoch : list byte) (base : Z).

Definition run_op (op : mop) : M Mirror unit :=
  match op with
  | OpHeader h => SetHeader h
  | OpAppend recs q => Append recs q
  | OpSession start => NewSession start
  | OpAdopt e => AdoptEpoch e
  | OpReset e base => ResetForEpoch e base
  end.

(** Packets fit the file format and the collector's snaplen, counters do not
    overflow.  [Append] stores longer packets too, and the next [OpenMirror] drops
    them ([Limits.mirror_lowers_commit]). *)
Definition op_ok (snap : Z) (m : Mirror) (op : mop) : Prop :=
  match op with
  | OpHeader _ | OpAdopt _ => True
  | OpAppend recs q =>
      Forall (wf_record snap) recs /\ is_uint 64 q /\
      CommittedGpidx (m_state m) + len recs < 2 ^ 64 /\ m_fileLen m + len (enc_records recs) < 2 ^ 63
  | OpSession start | OpReset _ start => is_uint 64 start /\ SessionSeq (m_state m) + 1 < 2 ^ 64
  end.

#[export] Instance op_ok_dec snap m op : Decision (op_ok snap m op).
Proof. destruct op; cbn; apply _. Defined.

Inductive mevent : Type :=
  | MOpen
  | MOp (op : mop)
  | MCrash (during : option mop).

Record mconf : Type := MConf { mproc : option Mirror; mdir : fs }.

(** A host crash ends the process; it can strike at any system call. *)
Inductive mstep (src : Z) (gh : GlobalHeader) : mconf -> mevent -> mconf -> Prop :=
  | ms_open s m0 faults clock rand m wd :
      Forall crash_only faults -> OpenMirror src gh (m0, World s faults clock rand) = (Ret (), (m, wd)) ->
      mstep src gh (MConf None s) MOpen (MConf (Some m) (w_fs wd))
  | ms_open_crash s m0 faults clock rand m wd s' :
      Forall crash_only faults -> OpenMirror src gh (m0, World s faults clock rand) = (Crashed, (m, wd)) ->
      crash_fs (w_fs wd) s' -> mstep src gh (MConf None s) (MCrash None) (MConf None s')
  | ms_op m s op faults clock rand m' wd :
      op_ok (gh_Snaplen gh) m op -> Forall crash_only faults ->
      run_op op (m, World s faults clock rand) = (Ret (), (m', wd)) ->
      mstep src gh (MConf (Some m) s) (MOp op) (MConf (Some m') (w_fs wd))
  | ms_op_crash m s op faults clock rand m' wd s' :
      op_ok (gh_Snaplen gh) m op -> Forall crash_only faults ->
      run_op op (m, World s faults clock rand) = (Crashed, (m', wd)) -> crash_fs (w_fs wd) s' ->
      mstep src gh (MConf (Some m) s) (MCrash (Some op)) (MConf None s')
  | ms_crash m s s' :
      crash_fs s s' -> mstep src gh (MConf (Some m) s) (MCrash None) (MConf None s').

(** ** The abstract sessions *)

Definition a_op (op : mop) (a : mst) : mst :=
  match op with
  | OpHeader _ => a
  | OpAppend [] _ => a
  | OpAppend recs q => a_append recs q a
  | OpSession start => a_roll start a
  | OpAdopt e => a_adopt e a
  | OpReset e base => a_adopt e (a_roll base a)
  end.

(** Every operation happens whole or not at all. *)
Inductive astep : mst -> mevent -> mst -> Prop :=
  | as_open a : astep a MOpen a
  | as_op a op : astep a (MOp op) (a_op op a)
  | as_crash_before a during : astep a (MCrash during) a
  | as_crash_after a op : astep a (MCrash (Some op)) (a_op op a).

(** What the directory of a mirror shows of the abstract state [a]. *)
Definition shows_file (s : fs) (n : list byte) (recs : list PcapRecord) : Prop :=
  match content s n with
  | None => recs = []
  | Some b => exists gh, b = session_bytes gh recs
  end.

Record shows (src : Z) (a : mst) (m : Mirror) (s : fs) : Prop := {
  sh_committed : Committed m = a_committed a;
  sh_state : m_state m = state_of a;
  sh_snapshot : (Snapshot m).1.1 = (a_seq a, mirrorName src (a_seq a));
  sh_current : exists gh, content s (mirrorName src (a_seq a)) = Some (session_bytes gh (a_recs a));
  sh_length : (Snapshot m).1.2 = 24 + len (enc_records (a_recs a));
  sh_old : forall k x, a_old a !! k = Some x -> shows_file s (mirrorName src (Z.of_nat k)) (ss_recs x)
}.

(** ** Simulation *)

Section Sim.
Context (src : Z) (gh : GlobalHeader) (Hsnap : is_uint 32 (gh_Snaplen gh)).
Abbreviation snap := (gh_Snaplen gh).
Abbreviation minv := (minv src snap).

Definition mrel (k : mconf) (a : mst) : Prop :=
  match k with
  | MConf (Some m) s => minv a m s /\ published m
  | MConf None s => exists fr, disk src snap (MGhost a None fr) s
  end.

Lemma append_ok a m s recs q :
  minv a m s -> op_ok snap m (OpAppend recs q) -> mst_ok snap (a_append recs q a).
Proof.
  intros Hm (Hr & Hq & Hc & Hl). pose proof (minv_mst_ok _ _ _ _ _ Hm) as Ha. destruct Hm as [_ Hst Hlen _].
  rewrite Hst in Hc. rewrite Hlen in Hl. destruct Ha as [H1 H2 H3 H4 H5 H6].
  unfold state_of, a_committed in *. cbn in Hc.
  split; cbn [a_append]; unfold a_committed; change (a_recs (a_append recs q a)) with (a_recs a ++ recs);
    change (a_start (a_append recs q a)) with (a_start a).
  - done.
  - rewrite len_app. lia.
  - done.
  - done.
  - by apply Forall_app.
  - rewrite enc_records_app, len_app. lia.
Qed.

(** What the operations do to a running mirror. *)
Lemma wp_run_op F a op m s :
  ~ can_fail F -> minv a m s -> published m -> op_ok snap m op ->
  wp F (run_op op) (op_post src snap F a (a_op op a)) m s.
Proof.
  intros HF Hm Hp Hok. destruct op as [h|recs q|start|e|e base].
  - by apply wp_SetHeader.
  - destruct recs as [|r recs]; [by apply wp_ret|]. cbn [run_op a_op].
    apply wp_Append; [done..|by eapply append_ok|done].
  - destruct Hok as [Hs Hq]. rewrite (mi_state _ _ _ _ _ Hm) in Hq.
    change (a_op (OpSession start) a) with (a_next (a_epoch a) start a).
    apply wp_NewSession; try done.
    + destruct Hm as [Hsrc Hst Hlen Hf]. split; [done| |done..]. cbn. rewrite Hst. done.
    + rewrite (mi_state _ _ _ _ _ Hm). done.
  - by apply wp_AdoptEpoch.
  - destruct Hok as [Hs Hq]. rewrite (mi_state _ _ _ _ _ Hm) in Hq. by apply wp_ResetForEpoch.
Qed.

Lemma mstep_sim k e k' a : mstep src gh k e k' -> mrel k a -> exists a', astep a e a' /\ mrel k' a'.
Proof.
  intros Hs Hr. destruct Hs as [s m0 fl ck rn m wd Hfl Hrun|s m0 fl ck rn m wd s' Hfl Hrun Hcr|
    m s op fl ck rn m' wd Hok Hfl Hrun|m s op fl ck rn m' wd s' Hok Hfl Hrun Hcr|m s s' Hcr]; cbn in Hr.
  - destruct Hr as [fr Hd]. exists a. split; [constructor|].
    exact (wp_run _ _ _ _ (World s fl ck rn) _ _ _ (wp_OpenMirror src snap crash_only crash_only_no_fail a fr gh m0 s Hd Hsnap eq_refl)
      eq_refl Hfl Hrun).
  - destruct Hr as [fr Hd].
    pose proof (wp_run _ _ _ _ (World s fl ck rn) _ _ _ (wp_OpenMirror src snap crash_only crash_only_no_fail a fr gh m0 s Hd Hsnap eq_refl)
      eq_refl Hfl Hrun) as [_ Hd'].
    destruct (disk_crash _ _ _ _ _ Hd' Hcr) as (b & fr' & [->|Hb] & Hdb); [|done]. exists a. split; [constructor|by exists fr'].
  - destruct Hr as [Hm Hp]. exists (a_op op a). split; [constructor|].
    exact (wp_run _ _ _ _ (World s fl ck rn) _ _ _ (wp_run_op crash_only a op m s crash_only_no_fail Hm Hp Hok) eq_refl Hfl Hrun).
  - destruct Hr as [Hm Hp].
    pose proof (wp_run _ _ _ _ (World s fl ck rn) _ _ _ (wp_run_op crash_only a op m s crash_only_no_fail Hm Hp Hok) eq_refl Hfl Hrun) as (_ & fr & Hd).
    assert (exists b fr', (b = a \/ b = a_op op a) /\ disk src snap (MGhost b None fr') s') as (b & fr' & Hb & Hdb).
    { destruct Hd as [Hd|Hd]; destruct (disk_crash _ _ _ _ _ Hd Hcr) as (b & fr' & Hb & Hdb); exists b, fr';
        (split; [|done]); destruct Hb as [->|Hb]; [by left|done|by left|right; by injection Hb as ->]. }
    exists b. split; [|by exists fr']. destruct Hb as [->| ->]; constructor.
  - destruct Hr as [Hm _]. destruct (mi_file _ _ _ _ _ Hm) as (fr & fd & _ & d & i & gh0 & Hw & _).
    destruct (disk_crash _ _ _ _ _ (wk_disk _ _ _ _ _ _ _ _ _ Hw) Hcr) as (b & fr' & [->|Hb] & Hdb); [|done].
    exists a. split; [constructor|by exists fr'].
Qed.

Lemma mrel_shows a m s : mrel (MConf (Some m) s) a -> shows src a m s.
Proof.
  intros [Hm Hp]. pose proof (minv_mst_ok _ _ _ _ _ Hm) as Ha.
  destruct Hm as [Hsrc Hst Hlen (fr & fd & Hf & d & i & gh0 & Hw & Hs & Hd & Hpos)].
  destruct Hp as (P1 & P2 & P3 & P4). pose proof Hw as [Hdk Ho _ _ _]. split.
  - unfold Committed. by rewrite P1, Hst.
  - done.
  - unfold Snapshot. cbn. by rewrite P3, Hst, Hsrc.
  - exists gh0. unfold content. rewrite (of_live _ _ _ _ _ Ho). cbn [mbind option_bind].
    rewrite (of_inode _ _ _ _ _ Ho), <-Hd. done.
  - unfold Snapshot. cbn. by rewrite P4, Hlen.
  - intros k x Hx. destruct Hdk as [_ Hinv _ _].
    pose proof (dir_content _ _ Hinv (mirrorName src (Z.of_nat k)) (mname_untouched src _)) as [Hc _].
    exact (ms_old _ _ _ _ _ Hc k x Hx eq_refl).
Qed.

Lemma mrel_empty : mrel (MConf None empty_fs) a_zero.
Proof.
  exists true. split; [|split|intros d n ino ->%list_elem_of_singleton; done|done].
  - split_and!; [|done|done]. by split.
  - by apply empty_replaceable.
  - intros n Hn d ->%list_elem_of_singleton. change (fs_dir empty_fs) with (∅ : gmap (list byte) nat).
    rewrite lookup_empty. apply files_none. split; [done|by right|done].
  - intros d d' n m ino ->%list_elem_of_singleton. change (fs_dir empty_fs) with (∅ : gmap (list byte) nat).
    by rewrite lookup_empty.
Qed.
End Sim.

(** ** Sessions only grow *)

Definition a_sessions (a : mst) : list session := a_old a ++ [a_cur a].

Definition grows (a a' : mst) : Prop :=
  forall k x, a_sessions a !! k = Some x ->
    exists x', a_sessions a' !! k = Some x' /\ ss_start x' = ss_start x /\ ss_recs x `prefix_of` ss_recs x'.

Lemma grows_refl a : grows a a.
Proof. intros k x Hx. by exists x. Qed.

Lemma grows_trans a b c : grows a b -> grows b c -> grows a c.
Proof.
  intros H1 H2 k x Hx. destruct (H1 k x Hx) as (y & Hy & Hs & Hp). destruct (H2 k y Hy) as (z & Hz & Hs' & Hp').
  exists z. split_and!; [done|congruence|by etrans].
Qed.

Lemma grows_cur a start recs q e :
  start = a_start a -> grows a (Mst (a_old a) (Session start (a_recs a ++ recs)) q e).
Proof.
  intros -> k x. unfold a_sessions. cbn [a_old a_cur]. rewrite !lookup_snoc_Some. intros [[Hk Hx]|[-> <-]].
  - exists x. rewrite lookup_app_l by done. done.
  - exists (Session (a_start a) (a_recs a ++ recs)). rewrite list_lookup_middle by done. split_and!; [done..|]. by apply prefix_app_r.
Qed.

Lemma grows_roll start a e q : grows a (Mst (a_old a ++ [a_cur a]) (Session start []) q e).
Proof.
  intros k x Hx. exists x. split_and!; [|done..]. unfold a_sessions in *. cbn [a_old a_cur].
  apply lookup_app_l_Some. done.
Qed.

Lemma grows_op op a : grows a (a_op op a).
Proof.
  destruct op as [h|[|r recs] q|start|e|e base]; try apply grows_refl; [by apply grows_cur|apply grows_roll| |apply grows_roll].
  destruct a as [old cur q e0]. intros k x Hx. exists x. done.
Qed.

Lemma grows_step a e a' : astep a e a' -> grows a a'.
Proof. intros []; auto using grows_refl, grows_op. Qed.

(** ** Executions *)

Definition mexec (src : Z) (gh : GlobalHeader) (k : mconf) (e : mevent) : option mconf :=
  match mproc k, e with
  | None, MOpen =>
      match OpenMirror src gh (zero_Mirror src gh, World (mdir k) [] [] []) with
      | (Ret _, (m, wd)) => Some (MConf (Some m) (w_fs wd))
      | _ => None
      end
  | Some m, MOp op =>
      if decide (op_ok (gh_Snaplen gh) m op) then
        match run_op op (m, World (mdir k) [] [] []) with
        | (Ret _, (m', wd)) => Some (MConf (Some m') (w_fs wd))
        | _ => None
        end
      else None
  | Some _, MCrash None => if floors_ok (mdir k) then Some (MConf None (flushed (mdir k))) else None
  | _, _ => None
  end.

Lemma mexec_step src gh k e k' : mexec src gh k e = Some k' -> mstep src gh k e k'.
Proof.
  destruct k as [[m|] s]; cbn; destruct e as [|op|[op|]]; cbn; intros He; simplify_eq; try discriminate.
  - case_decide; [|done]. destruct (run_op op _) as [[[]|e|] [m' wd]] eqn:E; [|done..]. simplify_eq. by eapply ms_op.
  - destruct (floors_ok s) eqn:Ef; [|done]. simplify_eq. by apply ms_crash, crash_flushed.
  - destruct (OpenMirror _ _ _) as [[[]|e|] [m' wd]] eqn:E; [|done..]. simplify_eq. by eapply ms_open.
Qed.

Definition first_mconf : mconf := MConf None empty_fs.

Lemma msteps_sim src gh k es k' a :
  is_uint 32 (gh_Snaplen gh) -> steps (mstep src gh) k es k' -> mrel src gh k a ->
  exists a', steps astep a es a' /\ mrel src gh k' a'.
Proof. intros Hs. apply (steps_sim (mstep src gh) astep (mrel src gh)). intros. by eapply mstep_sim. Qed.

Lemma mexec_runs src gh es k k' :
  exec_all (mexec src gh) k es = Some k' -> steps (mstep src gh) k es k'.
Proof.
  intros He. apply (exec_steps (mstep src gh) (fun _ => True) (mexec src gh)); [|done..].
  intros. split; [by apply mexec_step|done].
Qed.

(** ** Properties *)

(** C6: every run of the mirror from an empty directory, with a host crash at
    any system call of any operation and with packets that fit the snap length it is
    opened with ([op_ok]), is a run of the abstract list of sessions
    in which each operation takes effect whole or not at all; whenever the mirror
    runs, its commit point, its published view and the bytes of every session
    file are those of the abstract state. *)
Theorem mirror_refines_sessions src gh es k :
  is_uint 32 (gh_Snaplen gh) -> steps (mstep src gh) first_mconf es k ->
  exists a, steps astep a_zero es a /\
    forall m, mproc k = Some m -> shows src a m (mdir k).
Proof.
  intros Hs Hr. destruct (msteps_sim _ _ _ _ _ _ Hs Hr (mrel_empty _ _)) as (a & Ha & Hk).
  exists a. split; [done|]. intros m Hm. destruct k as [[m'|] s]; simplify_eq/=. by eapply mrel_shows.
Qed.

(** C11: committed packets that fit the snap length the mirror is opened with
    ([op_ok]) are never lost: if the mirror runs with packets in its
    current session file, that file keeps them, in order and with nothing in
    between, through every later operation, crash and reopening. *)
Theorem mirror_keeps_packets src gh es1 es2 k1 k2 m1 m2 :
  is_uint 32 (gh_Snaplen gh) ->
  steps (mstep src gh) first_mconf es1 k1 -> steps (mstep src gh) k1 es2 k2 ->
  mproc k1 = Some m1 -> mproc k2 = Some m2 ->
  exists gh1 recs, content (mdir k1) (Snapshot m1).1.1.2 = Some (session_bytes gh1 recs) /\
    Committed m1 = SessionStartGpidx (m_state m1) + len recs /\
    (recs <> [] -> exists gh2 more, content (mdir k2) (Snapshot m1).1.1.2 = Some (session_bytes gh2 (recs ++ more))).
Proof.
  destruct k1 as [p1 s1], k2 as [p2 s2]. intros Hs Hr1 Hr2. cbn [mproc mdir]. intros -> ->. destruct (msteps_sim _ _ _ _ _ _ Hs Hr1 (mrel_empty _ _)) as (a1 & Ha1 & Hk1).
  destruct (msteps_sim _ _ _ _ _ _ Hs Hr2 Hk1) as (a2 & Ha2 & Hk2).
  pose proof (mrel_shows _ _ _ _ _ Hk1) as H1. pose proof (mrel_shows _ _ _ _ _ Hk2) as H2.
  pose proof (steps_rtc astep grows grows_refl grows_trans grows_step _ _ _ Ha2) as Hg.
  rewrite (f_equal snd (sh_snapshot _ _ _ _ H1)). cbn [snd].
  destruct (sh_current _ _ _ _ H1) as [gh1 Hc1]. exists gh1, (a_recs a1). split_and!; [done| |].
  - by rewrite (sh_committed _ _ _ _ H1), (sh_state _ _ _ _ H1).
  - intros Hne. destruct (Hg (length (a_old a1)) (a_cur a1)) as (x & Hx & _ & more & Hm); [by apply list_lookup_middle|].
    unfold a_sessions in Hx. apply lookup_snoc_Some in Hx as [[_ Hx]|[Hl <-]].
    + pose proof (sh_old _ _ _ _ H2 _ _ Hx) as Hf. unfold shows_file in Hf.
      change (Z.of_nat (length (a_old a1))) with (a_seq a1) in Hf.
      destruct (content s2 _) as [b|].
      * destruct Hf as [gh2 ->]. exists gh2, more. by rewrite Hm.
      * exfalso. apply Hne. rewrite Hm in Hf. unfold a_recs. by apply app_eq_nil in Hf as [? _].
    + destruct (sh_current _ _ _ _ H2) as [gh2 Hc2]. exists gh2, more. 
      assert (a_seq a1 = a_seq a2) as -> by (unfold a_seq, len; lia). rewrite Hc2. unfold a_recs at 1. by rewrite Hm.
Qed.

(** C23: without faults the mirror makes progress: from every reachable state it
    can be opened, and every operation within the counters' range returns success. *)
Theorem mirror_makes_progress src gh es k :
  is_uint 32 (gh_Snaplen gh) -> steps (mstep src gh) first_mconf es k ->
  match mproc k with
  | None => forall m0 clock rand, exists m wd,
      OpenMirror src gh (m0, World (mdir k) [] clock rand) = (Ret (), (m, wd))
  | Some m => forall op clock rand, op_ok (gh_Snaplen gh) m op ->
      exists m' wd, run_op op (m, World (mdir k) [] clock rand) = (Ret (), (m', wd))
  end.
Proof.
  intros Hs Hr. destruct (msteps_sim _ _ _ _ _ _ Hs Hr (mrel_empty _ _)) as (a & _ & Hk).
  destruct k as [[m|] s]; cbn in Hk |- *.
  - intros op ck rn Hok. destruct Hk as [Hm Hp].
    pose proof (wp_run_op src gh Hs no_faults a op m s no_faults_no_fail Hm Hp Hok [] ck rn ltac:(constructor)) as H.
    destruct (run_op _ _) as [[[]|e|] [m' wd]]; [by eexists _, _|by destruct H|]. by destruct H as [[Hf _] _].
  - intros m0 ck rn. destruct Hk as [fr Hd].
    pose proof (wp_OpenMirror src (gh_Snaplen gh) no_faults no_faults_no_fail a fr gh m0 s Hd Hs eq_refl [] ck rn ltac:(constructor)) as H.
    destruct (OpenMirror _ _ _) as [[[]|e|] [m' wd]]; [by eexists _, _|by destruct H|]. by destruct H as [[Hf _] _].
Qed.

(** A run with two sessions, a crash and a new epoch. *)
Definition example_gh : GlobalHeader := mkGlobalHeader 65536 1.

Definition example_mrun1 : list mevent :=
  [MOpen; MOp (OpHeader (mkGlobalHeader 65536 113)); MOp (OpAdopt (str "e1"));
   MOp (OpAppend [mkPcapRecord 1 2 1 [x61]; mkPcapRecord 1 3 2 [x62; x63]] 5)].

Definition example_mrun2 : list mevent :=
  [MCrash None; MOpen; MOp (OpAppend [mkPcapRecord 2 0 1 [x64]] 6); MOp (OpSession 9);
   MOp (OpReset (str "e2") 0); MCrash None; MOpen].

Definition example_mconf1 : mconf := exec_end (mexec 3 example_gh) first_mconf example_mrun1.
Definition example_mconf2 : mconf := exec_end (mexec 3 example_gh) example_mconf1 example_mrun2.
Definition proc_of (k : mconf) : Mirror := default (zero_Mirror 0 example_gh) (mproc k).

Lemma some_proc k : bool_decide (is_Some (mproc k)) = true -> mproc k = Some (proc_of k).
Proof. intros [m Hm]%bool_decide_eq_true. unfold proc_of. by rewrite Hm. Qed.

Lemma example_mruns :
  steps (mstep 3 example_gh) first_mconf example_mrun1 example_mconf1 /\
  steps (mstep 3 example_gh) example_mconf1 example_mrun2 example_mconf2.
Proof.
  split; apply mexec_runs.
  - apply (exec_ok_end (mexec 3 example_gh) first_mconf example_mrun1). vm_compute. reflexivity.
  - apply (exec_ok_end (mexec 3 example_gh) example_mconf1 example_mrun2). vm_compute. reflexivity.
Qed.

Lemma mirror_refines_sessions_witness :
  exists a, steps astep a_zero example_mrun1 a /\
    forall m, mproc example_mconf1 = Some m -> shows 3 a m (mdir example_mconf1).
Proof.
  apply (mirror_refines_sessions 3 example_gh example_mrun1 example_mconf1).
  - apply (bool_decide_unpack _). vm_compute. exact I.
  - exact (proj1 example_mruns).
Defined.

Lemma mirror_keeps_packets_witness :
  exists gh1 recs, content (mdir example_mconf1) (Snapshot (proc_of example_mconf1)).1.1.2 = Some (session_bytes gh1 recs) /\
    Committed (proc_of example_mconf1) = SessionStartGpidx (m_state (proc_of example_mconf1)) + len recs /\
    (recs <> [] -> exists gh2 more,
       content (mdir example_mconf2) (Snapshot (proc_of example_mconf1)).1.1.2 = Some (session_bytes gh2 (recs ++ more))).
Proof.
  apply (mirror_keeps_packets 3 example_gh example_mrun1 example_mrun2 example_mconf1 example_mconf2
    (proc_of example_mconf1) (proc_of example_mconf2)).
  - apply (bool_decide_unpack _). vm_compute. exact I.
  - exact (proj1 example_mruns).
  - exact (proj2 example_mruns).
  - apply some_proc. vm_compute. reflexivity.
  - apply some_proc. vm_compute. reflexivity.
Defined.

Lemma mirror_makes_progress_witness :
  match mproc example_mconf1 with
  | None => forall m0 clock rand, exists m wd,
      OpenMirror 3 example_gh (m0, World (mdir example_mconf1) [] clock rand) = (Ret (), (m, wd))
  | Some m => forall op clock rand, op_ok 65536 m op ->
      exists m' wd, run_op op (m, World (mdir example_mconf1) [] clock rand) = (Ret (), (m', wd))
  end.
Proof.
  apply (mirror_makes_progress 3 example_gh example_mrun1 example_mconf1).
  - apply (bool_decide_unpack _). vm_compute. exact I.
  - exact (proj1 example_mruns).
Defined.
