(* ===== verification/FanOut.v ===== *)
(** * The PCAP-over-IP server (internal/pcapoverip/server.go)

    One client of the fan-out: it gets the global header and then the records of
    the session file from the commit point on.  The file handle is the inode that
    the name was bound to; what the goroutine sees of the mirror is its published
    snapshot. *)

From S2P Require Import Prelude Bytes GoIO Pcapio Os Conn Mirror.

(** What [Source.Snapshot] returns: session, file, committed length, header. *)
Definition snapshot : Type := Z * list byte * Z * GlobalHeader.

Class FanSource (S : Type) : Type := { source_Snapshot : S -> snapshot }.

#[export] Instance Mirror_FanSource : FanSource Mirror := { source_Snapshot := Snapshot }.

(** [Server]; the poll interval is the time between two rounds. *)
Record Server (S : Type) : Type := mkServer { srv_src : S; srv_poll : Z }.
Arguments mkServer {S} _ _.
Arguments srv_src {S} _.
Arguments srv_poll {S} _.

Definition NewServer {S} `{FanSource S} (src : S) : Server S := mkServer src 20000000.

(** The variables of [serve]. *)
Record client : Type := mkClient {
  cl_session : Z;
  cl_file : nat;
  cl_cursor : Z;
  cl_gh : GlobalHeader;
  cl_conn : conn
}.

(** [os.Open] of a file for reading, and [ReadAt] on it. *)
Definition os_Open (s : fs) (name : list byte) : option nat := fs_dir s !! name.

Definition ino_data (s : fs) (ino : nat) : list byte :=
  match fs_inodes s !! ino with Some i => i_data i | None => [] end.

(** [serve] up to its loop; [None] in front: it returned. *)
Definition serve_start (snap : snapshot) (s : fs) (c : conn) : option client * conn :=
  let '(session, file, cursor, gh) := snap in
  match conn_Write (GlobalHeader_AppendTo gh []) c with
  | (false, c) => (None, c)
  | (true, c) =>
      match os_Open s file with
      | None => (None, c)
      | Some f => (Some (mkClient session f cursor gh c), c)
      end
  end.

(** The inner loop; [fuel] bounds the number of records below [committedLen].
    The first result is [false] if a write failed, the second [progressed]. *)
Fixpoint send_records (fuel : nat) (f : ReaderAt) (committedLen snaplen cursor : Z) (c : conn) (progressed : bool) :
    bool * bool * Z * conn :=
  match fuel with
  | O => (true, progressed, cursor, c)
  | S fuel =>
      match ReadRecordAt f cursor committedLen snaplen with
      | (rec, next, ok, err) =>
          if bool_decide (err <> None) || negb ok then (true, progressed, cursor, c)
          else
            match conn_Write (PcapRecord_AppendTo rec []) c with
            | (false, c) => (false, progressed, cursor, c)
            | (true, c) => send_records fuel f committedLen snaplen next c true
            end
      end
  end.

(** One round of the outer loop behind its look at the context.  [None] in
    front: [serve] returned.  [true]: it progressed, else it waits. *)
Definition serve_turn (snap : snapshot) (f : ReaderAt) (cl : client) : option (bool * client) * conn :=
  let '(curSession, _, committedLen, _) := snap in
  if negb (curSession =? cl_session cl) then (None, cl_conn cl)
  else
    match send_records (Z.to_nat committedLen) f committedLen (gh_Snaplen (cl_gh cl)) (cl_cursor cl) (cl_conn cl) false with
    | (false, _, _, c) => (None, c)
    | (true, progressed, cursor, c) =>
        (Some (progressed, mkClient (cl_session cl) (cl_file cl) cursor (cl_gh cl) c), c)
    end.

(** ** The inner loop *)

(** A reader of a file that may fail: what it returns is what the file holds. *)
Definition honest (data : list byte) (f : ReaderAt) : Prop :=
  forall off n, f off n = file_ReaderAt data off n \/ exists e, f off n = Err e.

Lemma honest_file data : honest data (file_ReaderAt data).
Proof. intros off n. by left. Qed.

Lemma ReadRecordAt_honest data f off limit snaplen :
  honest data f ->
  ReadRecordAt f off limit snaplen = ReadRecordAt (file_ReaderAt data) off limit snaplen \/
  exists e r n, ReadRecordAt f off limit snaplen = (r, n, false, Some e).
Proof.
  intros Hf. unfold ReadRecordAt. destruct (limit <? _); [by left|].
  destruct (Hf off 16%nat) as [->|[e ->]]; [|right; by do 3 eexists].
  destruct (file_ReaderAt data off 16%nat) as [hdr|]; [|by left]. destruct (ParseRecordHeader hdr) as [capLen rec].
  destruct (snaplen <? capLen); [by left|]. destruct (limit <? _); [by left|].
  destruct (Hf (i64 (off + RecordHeaderLen)) (Z.to_nat capLen)) as [->|[e ->]]; [by left|right; by do 3 eexists].
Qed.

Lemma conn_Write_keeps_quiet b c ok c' : conn_faults c = [] -> conn_Write b c = (ok, c') -> conn_faults c' = [].
Proof. intros Hc. rewrite conn_Write_quiet by done. by intros [= <- <-]. Qed.

(** At the committed length there is no record. *)
Lemma ReadRecordAt_end f off snaplen :
  0 <= off < 2 ^ 62 -> ReadRecordAt f off off snaplen = (mkPcapRecord 0 0 0 [], off, false, None).
Proof.
  intros Ho. unfold ReadRecordAt, RecordHeaderLen. rewrite i64_small by lia. by rewrite (proj2 (Z.ltb_lt _ _)) by lia.
Qed.

(** Through the records [more] of a file, up to the committed length. *)
Lemma send_records_spec fuel p more k f snaplen c progressed ok pr cursor c' :
  honest (p ++ enc_records more ++ k) f ->
  is_uint 32 snaplen -> Forall (wf_record snaplen) more -> len p + len (enc_records more) < 2 ^ 62 ->
  send_records fuel f (len p + len (enc_records more)) snaplen (len p) c progressed = (ok, pr, cursor, c') ->
  exists n w, (n <= length more)%nat /\ cursor = len p + len (enc_records (take n more)) /\
    sent c' = sent c ++ w /\ w `prefix_of` enc_records more /\ (ok = true -> w = enc_records (take n more)) /\
    (f = file_ReaderAt (p ++ enc_records more ++ k) -> conn_faults c = [] -> (length more < fuel)%nat ->
      ok = true /\ n = length more /\ conn_faults c' = []).
Proof.
  revert p more c progressed. induction fuel as [|fuel IH]; intros p more c progressed Hf Hs Hwf Hlen; cbn [send_records].
  { intros [= <- <- <- <-]. exists O, []. rewrite take_0, enc_records_nil, len_nil, Z.add_0_r, app_nil_r.
    split_and!; [lia|done..|apply prefix_nil|done|lia]. }
  assert (forall P : nat -> Prop, P O -> (true, progressed, len p, c) = (ok, pr, cursor, c') ->
    exists n w, (n <= length more)%nat /\ cursor = len p + len (enc_records (take n more)) /\
      sent c' = sent c ++ w /\ w `prefix_of` enc_records more /\ (ok = true -> w = enc_records (take n more)) /\
      P n) as Hstop.
  { intros P HP [= <- <- <- <-]. exists O, []. rewrite take_0, enc_records_nil, len_nil, Z.add_0_r, app_nil_r.
    split_and!; [lia|done..|apply prefix_nil|done|done]. }
  pose proof (len_nonneg p) as Hp.
  destruct more as [|r more].
  { rewrite enc_records_nil, len_nil, Z.add_0_r in *. rewrite ReadRecordAt_end by lia. cbn [negb orb].
    rewrite orb_true_r. intros He. injection He as <- <- <- <-. exists O, []. cbn. rewrite Z.add_0_r, app_nil_r. done. }
  apply Forall_cons in Hwf as [Hr Hwf]. rewrite enc_records_cons in *. rewrite len_app, len_PcapRecord_bytes in *.
  pose proof (len_nonneg (enc_records more)).
  pose proof (ReadRecordAt_at p r (enc_records more ++ k) (len p + (PcapRecord_Size r + len (enc_records more))) snaplen Hs Hr ltac:(lia)) as Hat.
  rewrite (proj2 (Z.leb_le _ _)) in Hat by lia. rewrite <-app_assoc in Hf |- *.
  destruct (ReadRecordAt_honest _ f (len p) (len p + (PcapRecord_Size r + len (enc_records more))) snaplen Hf) as [Hra|(e & r' & n' & Hra)].
  2: { rewrite Hra. rewrite bool_decide_true by done. cbn [orb]. apply Hstop. intros ->. by rewrite Hat in Hra. }
  rewrite Hra, Hat. cbn [bool_decide negb orb].
  rewrite bool_decide_false by naive_solver. cbn [orb].
  change (PcapRecord_AppendTo r []) with (PcapRecord_bytes r).
  destruct (conn_Write (PcapRecord_bytes r) c) as [ok1 c1] eqn:Ew. destruct (conn_Write_spec _ _ _ _ Ew) as (q & Hq & Hqp & Hqo).
  destruct ok1.
  - specialize (Hqo eq_refl) as ->. intros He.
    replace (len p + PcapRecord_Size r) with (len (p ++ PcapRecord_bytes r)) in He by (by rewrite len_app, len_PcapRecord_bytes).
    replace (len p + (PcapRecord_Size r + len (enc_records more))) with (len (p ++ PcapRecord_bytes r) + len (enc_records more)) in He
      by (rewrite len_app, len_PcapRecord_bytes; lia).
    rewrite app_assoc in Hf. apply (IH _ _ _ _ Hf Hs Hwf) in He as (n & w & Hn & -> & Hw & Hwp & Hwo & Hl).
    2: rewrite len_app, len_PcapRecord_bytes; lia.
    exists (S n), (PcapRecord_bytes r ++ w). cbn [take]. rewrite enc_records_cons.
    rewrite Hw, Hq, <-app_assoc, !len_app, len_PcapRecord_bytes. cbn [length].
    split_and!; [lia|lia|done|by apply prefix_app|intros E; by rewrite (Hwo E)|].
    intros -> Hc Hfu. destruct Hl as (-> & -> & Hc'); [by rewrite app_assoc|by apply (conn_Write_keeps_quiet _ _ _ _ Hc Ew)|lia|].
    done.
  - intros [= <- <- <- <-]. exists O, q. rewrite take_0, enc_records_nil, len_nil, Z.add_0_r.
    split_and!; [lia|done|done|by apply prefix_app_r|done|].
    intros _ Hc. by rewrite (conn_Write_quiet _ _ Hc) in Ew.
Qed.
