(* ===== verification/FanOutProps.v ===== *)
(** * What a client of the PCAP-over-IP server receives

    The mirror and one client as a system: while the mirror appends, starts new
    sessions and crashes, the client gets the header and then the packets of its
    session that were committed after it connected, each once and in order. *)

From S2P Require Import Prelude Bytes GoIO Pcapio Os Durable Dir Runs Json Manifest Spool Conn Mirror MirrorSpec MirrorProof MirrorProps FanOut.

(** ** The names stay bound *)

Section Stable.
Context {X : Type} (I : X -> fs -> Prop).

(** [I] survives the program, however it ends. *)
Definition stable {A} (m : M X A) : Prop :=
  forall x w, I x (w_fs w) -> let '(_, (x', w')) := m (x, w) in I x' (w_fs w').

Lemma stable_ret {A} (a : A) : stable (mret a).
Proof. by intros x w. Qed.

Lemma stable_fail {A} e : stable (fail (A := A) e).
Proof. by intros x w. Qed.

Lemma stable_bind {A B} (m : M X A) (k : A -> M X B) : stable m -> (forall a, stable (k a)) -> stable (m ≫= k).
Proof.
  intros Hm Hk x w Hi. unfold mbind, M_bind. specialize (Hm x w Hi).
  destruct (m (x, w)) as [[a|e|] [x' w']]; [|done..]. by apply Hk.
Qed.

Lemma stable_get : stable get.
Proof. by intros x w. Qed.

Lemma stable_modify f : (forall x s, I x s -> I (f x) s) -> stable (modify f).
Proof. intros Hf x w Hi. by apply Hf. Qed.

Lemma stable_try {A} (m : M X A) : stable m -> stable (try m).
Proof. intros Hm x w Hi. specialize (Hm x w Hi). unfold try. by destruct (m (x, w)) as [[a|e|] [x' w']]. Qed.

Lemma stable_on_error {A} (m : M X A) (cl : M X unit) : stable m -> stable cl -> stable (on_error m cl).
Proof.
  intros Hm Hc. apply stable_bind; [by apply stable_try|]. intros [a|e]; [apply stable_ret|].
  apply stable_bind; [done|]. intros _. apply stable_fail.
Qed.

Lemma stable_on_file {A} f (k : nat -> M X A) : (forall fd, stable (k fd)) -> stable (on_file f k).
Proof. intros Hk. destruct f; [apply Hk|apply stable_fail]. Qed.
End Stable.

Create HintDb stable.

Section Bound.
Context (src : Z) (tracked : list byte -> nat -> Prop) (good : GlobalHeader -> Prop).
Context (Hn : forall n ino, tracked n ino -> ~ touched (resumePath src) n).

(** The tracked names keep their files, and the mirror a good header. *)
Definition bound (m : Mirror) (s : fs) : Prop :=
  m_srcID m = src /\ good (m_gh m) /\ forall n ino, tracked n ino -> fs_dir s !! n = Some ino.

Abbreviation keeps := (stable bound).

Lemma stable_sys {A} (call : fs -> res (A * fs)) :
  (forall s a s' n ino, call s = Ok (a, s') -> ~ touched (resumePath src) n -> fs_dir s !! n = Some ino ->
     fs_dir s' !! n = Some ino) -> keeps (sys call).
Proof.
  intros Hc x [s fl ck rn] Hb. unfold sys, next_fault. cbn.
  destruct fl as [|[| |k|] fl]; cbn; try done; (destruct (call s) as [[a s']|e] eqn:E; [|done]);
    destruct Hb as (H1 & H2 & H3); (split; [done|split; [done|]]); cbn in *; intros n ino Ht; eapply Hc; eauto.
Qed.

Lemma stable_with_fd {A} f (k : fdesc -> inode -> fs -> res (A * fs)) :
  (forall d i s a s', k d i s = Ok (a, s') -> fs_dir s' = fs_dir s) -> keeps (sys (with_fd f k)).
Proof.
  intros Hk. apply stable_sys. intros s a s' n ino He _ Hb. unfold with_fd in He. destruct (fs_fds s !! f) as [d|]; [|done].
  destruct (fs_inodes s !! fd_ino d); [|done]. by rewrite (Hk _ _ _ _ _ He).
Qed.

Lemma keeps_OpenFile name fl : keeps (OpenFile name fl).
Proof.
  apply stable_sys. intros s a s' n ino He _ Hb. unfold open_call in He. destruct (decide (name = n)) as [->|Hne].
  - rewrite Hb in He. destruct (O_EXCL fl); [done|]. injection He as <- <-. by destruct (O_TRUNC fl).
  - destruct (fs_dir s !! name); [destruct (O_EXCL fl); [done|]; injection He as <- <-; by destruct (O_TRUNC fl)|].
    destruct (O_CREATE fl); [|done]. injection He as <- <-. cbn. by rewrite lookup_insert_ne.
Qed.

Lemma keeps_Write f b : keeps (Write f b).
Proof.
  intros x [s fl ck rn] Hb. unfold Write, next_fault, with_fd. cbn.
  destruct fl as [|[| |k|] fl]; cbn; try done; (destruct (fs_fds s !! f) as [d|]; [|done]);
    by destruct (fs_inodes s !! fd_ino d).
Qed.

Lemma keeps_Close f : keeps (Close f).
Proof. by intros x w. Qed.

Lemma keeps_Truncate f k : keeps (Truncate f k).
Proof. apply stable_with_fd. intros d i s a s'. destruct (_ <? _); [done|]. by intros [= <- <-]. Qed.

Lemma keeps_seek f pos : keeps (seek_to f pos).
Proof. apply stable_with_fd. intros d i s a s'. destruct (_ <? _); [done|]. by intros [= <- <-]. Qed.

Lemma keeps_Fdatasync f : keeps (Fdatasync f).
Proof. apply stable_with_fd. by intros d i s a s' [= <- <-]. Qed.

Lemma keeps_FileSize f : keeps (FileSize f).
Proof. apply stable_with_fd. by intros d i s a s' [= <- <-]. Qed.

Lemma keeps_ReadAts f : keeps (FileReadAts f).
Proof.
  intros x [s fl ck rn] Hb. unfold FileReadAts, next_fault, with_fd. cbn.
  destruct fl as [|[| |k|] fl]; cbn; (destruct (fs_fds s !! f) as [d|]; [|done]);
    by destruct (fs_inodes s !! fd_ino d).
Qed.

Lemma keeps_WriteFileAtomic b : keeps (WriteFileAtomic (resumePath src) b true).
Proof.
  unfold WriteFileAtomic. apply stable_bind; [apply keeps_OpenFile|]. intros f.
  apply stable_bind; [apply stable_on_error; [apply keeps_Write|apply keeps_Close]|]. intros _.
  apply stable_bind; [apply stable_on_error; [apply keeps_Fdatasync|apply keeps_Close]|]. intros _.
  apply stable_bind; [apply stable_sys; by intros s a s' n ino [= <- <-]|]. intros _.
  apply stable_bind; [|intros _; apply stable_sys; by intros s a s' n ino [= <- <-]].
  apply stable_sys. intros s a s' n ino He Hnt Hb. destruct (fs_dir s !! tmp_name _) eqn:Et; [|done]. injection He as <- <-. cbn.
  unfold touched in Hnt. rewrite lookup_insert_ne by naive_solver. by rewrite lookup_delete_ne by naive_solver.
Qed.

Hint Resolve stable_ret stable_fail stable_get stable_on_error stable_on_file keeps_OpenFile keeps_Write keeps_Close keeps_Truncate
  keeps_seek keeps_Fdatasync keeps_FileSize keeps_ReadAts : stable.

Lemma stable_edit f :
  (forall m, m_srcID (f m) = m_srcID m) -> (forall m, good (m_gh m) -> good (m_gh (f m))) -> keeps (modify f).
Proof. intros H1 H2. apply stable_modify. intros m s (? & ? & ?). split_and!; [by rewrite H1|by apply H2|done]. Qed.

Lemma keeps_persistState : keeps persistState.
Proof.
  intros m w Hb. pose proof Hb as (H1 & _). unfold persistState, mbind, M_bind. cbn [get fst snd]. rewrite H1.
  exact (keeps_WriteFileAtomic _ m w Hb).
Qed.

Lemma keeps_publish : keeps publish.
Proof. by apply stable_edit. Qed.

Lemma keeps_openSession : keeps openSession.
Proof.
  unfold openSession. apply stable_bind; [apply stable_get|]. intros m. apply stable_bind; [auto with stable|]. intros f.
  apply stable_bind; [auto with stable|]. intros size. apply stable_bind.
  { destruct (_ <? _); [apply stable_bind; auto with stable|]. apply stable_bind.
    - unfold recordOffsetForCount. apply stable_bind; auto with stable.
    - intros [offset have]. apply stable_bind; [|auto with stable]. destruct (_ <? _); [by apply stable_edit|auto with stable]. }
  intros _. apply stable_bind; [auto with stable|]. intros _. apply stable_bind; [apply stable_on_error; unfold SeekEnd; auto with stable|].
  intros off. by apply stable_edit.
Qed.

Lemma keeps_NewSession start : keeps (NewSession start).
Proof.
  unfold NewSession. apply stable_bind; [apply stable_get|]. intros m. apply stable_bind.
  { destruct (m_file m); unfold close_file; auto with stable. }
  intros _. apply stable_bind; [by apply stable_edit|]. intros _. apply stable_bind; [apply keeps_openSession|]. intros _.
  apply stable_bind; [apply keeps_persistState|]. intros _. apply keeps_publish.
Qed.

Lemma keeps_run_op op : (forall h, op = OpHeader h -> good h) -> keeps (run_op op).
Proof.
  intros Hg. destruct op as [h|recs q|start|e|e base]; cbn [run_op].
  - specialize (Hg h eq_refl). unfold SetHeader. apply stable_bind; [apply stable_get|]. intros m. case_decide; [auto with stable|].
    apply stable_bind; [by apply stable_edit|]. intros _. case_match; [auto with stable|].
    repeat (apply stable_bind; [apply stable_on_file; intros; unfold SeekStart, SeekEnd; auto with stable|intros]). auto with stable.
  - unfold Append. destruct recs as [|r recs]; [auto with stable|]. apply stable_bind; [apply stable_get|]. intros m.
    do 2 (apply stable_bind; [auto with stable|]; intros _). apply stable_bind; [by apply stable_edit|]. intros _.
    apply stable_bind; [apply keeps_persistState|]. intros _. apply keeps_publish.
  - apply keeps_NewSession.
  - unfold AdoptEpoch. apply stable_bind; [apply stable_get|]. intros m. case_decide; [auto with stable|].
    apply stable_bind; [by apply stable_edit|]. intros _. apply keeps_persistState.
  - unfold ResetForEpoch. apply stable_bind; [by apply stable_edit|]. intros _. apply keeps_NewSession.
Qed.

Lemma keeps_loadState : keeps loadState.
Proof.
  unfold loadState. apply stable_bind; [apply stable_get|]. intros m. apply stable_bind.
  - apply stable_try. apply stable_sys. intros s a s' n ino. destruct (fs_dir s !! resumePath (m_srcID m)); [|done].
    destruct (fs_inodes s !! _); [|done]. by intros [= <- <-].
  - intros [b|e].
    + case_match; [by apply stable_modify|auto with stable].
    + case_decide; auto with stable.
Qed.
End Bound.

(** A header that a mirror has after it was opened is the one it was opened with. *)
Lemma OpenMirror_good (good : GlobalHeader -> Prop) src gh m0 w m w' :
  good gh -> OpenMirror src gh (m0, w) = (Ret (), (m, w')) -> m_srcID m = src /\ good (m_gh m).
Proof.
  intros Hg Ho. assert (stable (bound src (fun _ _ => False) good) (loadState ;; openSession ;; publish)) as Hst.
  { apply stable_bind; [by apply keeps_loadState|]. intros _. apply stable_bind; [by apply keeps_openSession|]. intros _. by apply keeps_publish. }
  unfold OpenMirror in Ho. unfold mbind at 1, M_bind at 1 in Ho.
  destruct (MkdirAll (m0, w)) as [[[]|e|] [m1 w1]]; [|done..]. unfold mbind at 1, M_bind at 1 in Ho. cbn [modify fst snd] in Ho.
  specialize (Hst (zero_Mirror src gh) w1). rewrite Ho in Hst. destruct Hst as (H1 & H2 & _); [|done].
  by split_and!.
Qed.

(** ** The system *)

(** No client yet, one that is served, and one whose connection has ended. *)
Inductive audience : Type :=
  | Waiting
  | Serving (cl : client)
  | Ended (c : conn).

Record fconf : Type := FConf { f_mirror : mconf; f_audience : audience }.

Inductive fevent : Type :=
  | FMirror (e : mevent)
  | FConnect
  | FTurn
  | FLeave.

Definition hang_up (a : audience) : audience := match a with Serving cl => Ended (cl_conn cl) | _ => a end.

(** A client ends with the process of the collector. *)
Definition served_by (k : mconf) (a : audience) : audience :=
  match mproc k with Some _ => a | None => hang_up a end.

Definition started (r : option client * conn) : audience :=
  match r with (Some cl, _) => Serving cl | (None, c) => Ended c end.

Definition turned (r : option (bool * client) * conn) : audience :=
  match r with (Some (_, cl), _) => Serving cl | (None, c) => Ended c end.

(** Headers allow at least the packets the mirror takes.  With a smaller one a
    client would stop at the first longer packet ([Limits.fan_out_stuck]). *)
Definition header_ok (snap : Z) (h : GlobalHeader) : Prop := snap <= gh_Snaplen h /\ is_uint 32 (gh_Snaplen h).

Definition event_ok (snap : Z) (e : mevent) : Prop :=
  match e with
  | MOp (OpHeader h) | MCrash (Some (OpHeader h)) => header_ok snap h
  | _ => True
  end.

(** The connection of a client may fail at any write, and reads of the file may
    fail. *)
Inductive fstep (src : Z) (gh : GlobalHeader) : fconf -> fevent -> fconf -> Prop :=
  | f_mirror_step k e k' a :
      mstep src gh k e k' -> event_ok (gh_Snaplen gh) e ->
      fstep src gh (FConf k a) (FMirror e) (FConf k' (served_by k' a))
  | f_connect m s faults :
      fstep src gh (FConf (MConf (Some m) s) Waiting) FConnect
        (FConf (MConf (Some m) s) (started (serve_start (Snapshot m) s (mkConn [] faults))))
  | f_turn m s cl f :
      honest (ino_data s (cl_file cl)) f -> p_committedLen m < 2 ^ 62 ->
      fstep src gh (FConf (MConf (Some m) s) (Serving cl)) FTurn
        (FConf (MConf (Some m) s) (turned (serve_turn (Snapshot m) f cl)))
  | f_leave k a : fstep src gh (FConf k a) FLeave (FConf k (hang_up a)).

(** The mirror's part of a run. *)
Definition mirror_events (es : list fevent) : list mevent :=
  concat ((fun e => match e with FMirror e => [e] | _ => [] end) <$> es).

(** ** The client's view *)

Section Client.
Context (src : Z) (gh : GlobalHeader) (Hsnap : is_uint 32 (gh_Snaplen gh)).
Abbreviation snap := (gh_Snaplen gh).

(** The mirror runs with a good header. *)
Definition in_order (k : mconf) (a : mst) : Prop :=
  mrel src gh k a /\ forall m, mproc k = Some m -> m_srcID m = src /\ header_ok snap (m_gh m).

(** The client connected when the mirror was in state [a1] and showed [h]; what
    it has got is [sent], and all of it if [whole]. *)
Context (a1 : mst) (h : GlobalHeader) (Hh : header_ok snap h).

Definition session_now (a : mst) (more : list PcapRecord) : Prop :=
  exists x, a_sessions a !! length (a_old a1) = Some x /\ ss_recs x = a_recs a1 ++ more.

Definition got (a : mst) (au : audience) : Prop :=
  exists more, session_now a more /\
    match au with
    | Waiting => False
    | Ended c => sent c `prefix_of` GlobalHeader_bytes h ++ enc_records more
    | Serving cl => exists n, (n <= length more)%nat /\ sent (cl_conn cl) = GlobalHeader_bytes h ++ enc_records (take n more) /\
        cl_session cl = a_seq a1 /\ cl_gh cl = h /\ cl_cursor cl = 24 + len (enc_records (a_recs a1 ++ take n more))
    end.

(** And its file is the one of the session. *)
Definition attached (k : mconf) (au : audience) : Prop :=
  match au with
  | Serving cl => exists m, mproc k = Some m /\ fs_dir (mdir k) !! mirrorName src (a_seq a1) = Some (cl_file cl)
  | _ => True
  end.

Lemma session_grows a a' more : grows a a' -> session_now a more -> exists more', session_now a' more' /\ more `prefix_of` more'.
Proof.
  intros Hg (x & Hx & Hr). destruct (Hg _ _ Hx) as (x' & Hx' & _ & [t Ht]). exists (more ++ t).
  split; [|by exists t]. exists x'. split; [done|]. by rewrite Ht, Hr, app_assoc.
Qed.

Lemma got_grows a a' au : grows a a' -> got a au -> got a' au.
Proof.
  intros Hg (more & Hm & Hau). destruct (session_grows a a' more Hg Hm) as (more' & Hm' & Hp). exists more'. split; [done|].
  destruct au as [|cl|c]; [done| |].
  - destruct Hau as (n & Hn & Hs & H1 & H2 & H3). destruct Hp as [t ->]. exists n. rewrite length_app.
    rewrite take_app_le by done. split_and!; [lia|done..].
  - etrans; [done|]. apply prefix_app. destruct Hp as [t ->]. rewrite enc_records_app. by apply prefix_app_r.
Qed.

Lemma got_hang_up a au : got a au -> got a (hang_up au).
Proof.
  intros (more & Hm & Hau). exists more. split; [done|]. destruct au as [|cl|c]; [done| |done].
  destruct Hau as (n & Hn & Hs & _). cbn [hang_up]. rewrite Hs. apply prefix_app. rewrite (enc_records_take_drop n more). by apply prefix_app_r.
Qed.

Lemma wf_record_mono r s s' : s <= s' -> wf_record s r -> wf_record s' r.
Proof. intros Hs (H1 & H2 & H3 & H4). split_and!; [done..|lia]. Qed.

(** What an attached client has in front of it. *)
Lemma attached_file a m s cl more :
  in_order (MConf (Some m) s) a -> session_now a more -> attached (MConf (Some m) s) (Serving cl) ->
  p_sessionSeq m = a_seq a1 ->
  a_recs a = a_recs a1 ++ more /\
  p_committedLen m = 24 + len (enc_records (a_recs a1 ++ more)) /\
  Forall (wf_record (gh_Snaplen h)) more /\
  exists gh1, ino_data s (cl_file cl) = session_bytes gh1 (a_recs a1 ++ more).
Proof.
  intros [Hr _] (x & Hx & Hxr) (m' & _ & Hb) Hq. pose proof (mrel_shows src gh a m s Hr) as Hsh.
  pose proof (f_equal fst (sh_snapshot _ _ _ _ Hsh)) as Hseq. cbn in Hseq. rewrite Hseq in Hq.
  assert (length (a_old a) = length (a_old a1)) as Hlen by (unfold a_seq, len in Hq; lia).
  unfold a_sessions in Hx. rewrite <-Hlen, list_lookup_middle in Hx by done. injection Hx as <-.
  change (ss_recs (a_cur a)) with (a_recs a) in Hxr.
  pose proof (sh_length _ _ _ _ Hsh) as Hl. cbn in Hl. rewrite Hxr in Hl.
  split_and!; [done|done| |].
  - destruct Hr as [Hm _]. pose proof (mo_recs _ _ (minv_mst_ok _ _ _ _ _ Hm)) as Hwf. rewrite Hxr in Hwf.
    apply Forall_app in Hwf as [_ Hwf]. eapply Forall_impl; [exact Hwf|]. intros r. apply wf_record_mono, Hh.
  - destruct (sh_current _ _ _ _ Hsh) as [gh1 Hc]. exists gh1. unfold content in Hc. rewrite Hq in Hc. cbn [mdir] in Hb.
    rewrite Hb, Hxr in Hc. cbn [mbind option_bind] in Hc. unfold ino_data. destruct (fs_inodes s !! cl_file cl); [|done].
    by injection Hc.
Qed.

(** A turn of the client. *)
Lemma turn_got a m s cl f :
  in_order (MConf (Some m) s) a -> got a (Serving cl) -> attached (MConf (Some m) s) (Serving cl) ->
  honest (ino_data s (cl_file cl)) f -> p_committedLen m < 2 ^ 62 ->
  got a (turned (serve_turn (Snapshot m) f cl)) /\
  attached (MConf (Some m) s) (turned (serve_turn (Snapshot m) f cl)) /\
  (f = file_ReaderAt (ino_data s (cl_file cl)) -> conn_faults (cl_conn cl) = [] -> p_sessionSeq m = cl_session cl ->
    exists pr cl' more, serve_turn (Snapshot m) f cl = (Some (pr, cl'), cl_conn cl') /\ session_now a more /\
      sent (cl_conn cl') = GlobalHeader_bytes h ++ enc_records more /\
      cl_cursor cl' = p_committedLen m).
Proof.
  intros Ho Hg Ha Hf Hlim. unfold serve_turn, Snapshot. pose proof Hg as (more & Hm & n & Hn & Hs & H1 & H2 & H3).
  destruct (Z.eqb_spec (p_sessionSeq m) (cl_session cl)) as [Hq|Hq]; cbn [negb].
  2: { split; [exact (got_hang_up a _ Hg)|]. by split. }
  rewrite H1 in Hq. destruct (attached_file a m s cl more Ho Hm Ha Hq) as (Hrec & Hlen & Hwf & gh1 & Hdata).
  set (p := GlobalHeader_bytes gh1 ++ enc_records (a_recs a1 ++ take n more)).
  assert (len p = cl_cursor cl) as Hp by (subst p; rewrite H3, len_app; done).
  assert (ino_data s (cl_file cl) = p ++ enc_records (drop n more) ++ []) as Hd.
  { subst p. rewrite Hdata, app_nil_r, <-app_assoc. unfold session_bytes. f_equal. rewrite !enc_records_app, <-app_assoc.
    by rewrite (enc_records_take_drop n more). }
  assert (p_committedLen m = len p + len (enc_records (drop n more))) as Hcl.
  { rewrite Hlen, Hp, H3, !enc_records_app, !len_app, (enc_records_take_drop n more), len_app. lia. }
  rewrite Hcl, <-Hp, H2. destruct (send_records _ _ _ _ _ _ _) as [[[ok pr] cursor] c'] eqn:E.
  rewrite Hd in Hf. destruct Hh as [Hh1 Hh2].
  pose proof (Forall_drop _ n _ Hwf) as Hwf'.
  destruct (send_records_spec _ _ _ _ _ _ _ _ _ _ _ _ Hf Hh2 Hwf' ltac:(by rewrite <-Hcl) E) as (n' & w & Hn' & Hcur & Hsent & Hpre & Hok & Hall).
  rewrite length_drop in Hn'.
  assert (forall k, enc_records (take n more) ++ enc_records (take k (drop n more)) = enc_records (take (n + k) more)) as Htk.
  { intros k. by rewrite <-enc_records_app, take_take_drop. }
  split; [|split].
  - exists more. split; [done|]. destruct ok; cbn [turned].
    + exists (n + n')%nat. cbn [cl_conn cl_session cl_gh cl_cursor]. rewrite Hsent, Hs, (Hok eq_refl), <-app_assoc, Htk.
      split_and!; [lia|done|done|done|]. rewrite Hcur, Hp, H3, !enc_records_app, <-Htk, !len_app. lia.
    + rewrite Hsent, Hs, <-app_assoc. apply prefix_app. rewrite (enc_records_take_drop n more). by apply prefix_app.
  - destruct ok; [|done]. exact Ha.
  - intros Hff Hc _. destruct (Hall ltac:(by rewrite <-Hd) Hc) as (-> & -> & Hc').
    { rewrite length_drop. pose proof (length_enc_records (drop n more)) as Hle. rewrite length_drop in Hle.
      pose proof (len_nonneg p). unfold len in *. subst p. rewrite length_app in *. cbn [length] in *. 
      change (length (GlobalHeader_bytes gh1)) with 24%nat in *. lia. }
    exists pr, (mkClient (cl_session cl) (cl_file cl) cursor (cl_gh cl) c'), more. rewrite length_drop in *.
    cbn [cl_conn cl_cursor]. split_and!; [by rewrite H2|done| |].
    + rewrite Hsent, Hs, (Hok eq_refl), <-app_assoc, Htk, take_ge by lia. done.
    + rewrite Hcur, take_ge by (rewrite length_drop; lia). done.
Qed.
End Client.

(** ** Runs *)

Section Run.
Context (src : Z) (gh : GlobalHeader) (Hsnap : is_uint 32 (gh_Snaplen gh)).
Abbreviation snap := (gh_Snaplen gh).
Abbreviation good := (header_ok snap).

Lemma good_opened : good gh.
Proof. split; [lia|done]. Qed.

(** The mirror moves on; an attached client keeps its file. *)
Lemma mirror_moves a1 k e k' a au :
  mstep src gh k e k' -> event_ok snap e -> in_order src gh k a -> attached src a1 k au ->
  exists a', astep a e a' /\ in_order src gh k' a' /\ attached src a1 k' (served_by k' au).
Proof.
  intros Hs He [Hr Hg] Ha. destruct (mstep_sim src gh Hsnap k e k' a Hs Hr) as (a' & Hst & Hr').
  exists a'. split; [done|].
  assert (forall m', mproc k' = Some m' -> (m_srcID m' = src /\ good (m_gh m')) /\ attached src a1 k' au) as Hk'.
  { intros m' Hm'. destruct Hs as [s m0 fl ck rn m wd Hfl Hrun|?|m s op fl ck rn m1 wd Hok Hfl Hrun|?|?]; try done; injection Hm' as <-.
    - split; [by eapply OpenMirror_good, Hrun; exact good_opened|]. destruct au as [|cl|c]; [done| |done]. by destruct Ha as (? & ? & _).
    - destruct (Hg m eq_refl) as [Hg1 Hg2].
      set (tracked := fun n ino => match au with Serving cl => n = mirrorName src (a_seq a1) /\ ino = cl_file cl | _ => False end).
      assert (bound src tracked good m s) as Hb.
      { split_and!; [done..|]. intros n ino Ht. unfold tracked in Ht. destruct au as [|cl|c]; [done| |done].
        destruct Ht as [-> ->]. by destruct Ha as (? & _ & ?). }
      assert (forall n ino, tracked n ino -> ~ touched (resumePath src) n) as Hnt.
      { intros n ino Ht. unfold tracked in Ht. destruct au as [|cl|c]; [done| |done]. destruct Ht as [-> _]. apply mname_untouched. }
      assert (forall h, op = OpHeader h -> good h) as Hgo by (intros h ->; exact He).
      pose proof (keeps_run_op src tracked good Hnt op Hgo m (World s fl ck rn) Hb) as Hkeep. rewrite Hrun in Hkeep.
      destruct Hkeep as (B1 & B2 & B3). split; [done|]. destruct au as [|cl|c]; [done| |done].
      exists m1. split; [done|]. apply B3. by split. }
  split.
  - split; [done|]. intros m' Hm'. by apply Hk'.
  - unfold served_by. destruct (mproc k') as [m'|] eqn:Em; [by apply (Hk' m')|]. by destruct au.
Qed.

(** Before the client. *)
Lemma waiting_runs k es k' a :
  steps (fstep src gh) k es k' -> f_audience k' = Waiting -> in_order src gh (f_mirror k) a ->
  f_audience k = Waiting /\
  exists a', steps astep a (mirror_events es) a' /\ in_order src gh (f_mirror k') a'.
Proof.
  intros Hs. revert a. induction Hs as [k|k e k1 es k' He Hs IH]; intros a Hw Ho.
  { split; [done|]. exists a. split; [constructor|done]. }
  destruct He as [k0 e k0' au Hm Hok|m s faults|m s cl f Hf Hl|k0 au].
  - cbn [f_mirror f_audience] in *. destruct (mirror_moves a_zero k0 e k0' a Waiting Hm Hok Ho I) as (a1 & Ha1 & Ho1 & _).
    destruct (IH a1 Hw Ho1) as (Haud & a' & Ha' & Ho').
    assert (au = Waiting) as -> by (unfold served_by in Haud; destruct (mproc k0'); [done|by destruct au]).
    split; [done|]. exists a'. split; [by econstructor|done].
  - exfalso. destruct (IH a Hw Ho) as [Haud _]. cbn [f_audience] in Haud. unfold started in Haud.
    destruct (serve_start _ _ _) as [[cl|] c]; done.
  - exfalso. destruct (IH a Hw Ho) as [Haud _]. cbn [f_audience] in Haud. unfold turned in Haud.
    destruct (serve_turn _ _ _) as [[[pr cl']|] c]; done.
  - destruct (IH a Hw Ho) as (Haud & a' & Ha' & Ho'). cbn [f_audience f_mirror] in *. split; [by destruct au|]. by exists a'.
Qed.

(** With the client. *)
Lemma served_runs a1 h k es k' a :
  good h -> steps (fstep src gh) k es k' -> in_order src gh (f_mirror k) a -> got a1 h a (f_audience k) ->
  attached src a1 (f_mirror k) (f_audience k) ->
  exists a', steps astep a (mirror_events es) a' /\ in_order src gh (f_mirror k') a' /\ got a1 h a' (f_audience k') /\
    attached src a1 (f_mirror k') (f_audience k').
Proof.
  intros Hh Hs. revert a. induction Hs as [k|k e k1 es k' He Hs IH]; intros a Ho Hg Ha.
  { exists a. split; [constructor|done]. }
  destruct He as [k0 e k0' au Hm Hok|m s faults|m s cl f Hf Hl|k0 au]; cbn [f_mirror f_audience] in *.
  - destruct (mirror_moves a1 k0 e k0' a au Hm Hok Ho Ha) as (a2 & Ha2 & Ho2 & Hat2).
    destruct (IH a2 Ho2) as (a' & Ha' & H1 & H2 & H3); [|done|].
    { apply (got_grows a1 h a a2) in Hg; [|by eapply grows_step]. unfold served_by.
      destruct (mproc k0'); [done|by apply got_hang_up]. }
    exists a'. split; [by econstructor|done].
  - by destruct Hg as (more & _ & ?).
  - destruct (turn_got src gh a1 h Hh a m s cl f Ho Hg Ha Hf Hl) as (Hg' & Ha' & _). by apply IH.
  - apply IH; [done|by apply got_hang_up|]. by destruct au.
Qed.

(** The connection of the client. *)
Lemma start_got a m s faults :
  in_order src gh (MConf (Some m) s) a ->
  good (Snapshot m).2 /\
  got a (Snapshot m).2 a (started (serve_start (Snapshot m) s (mkConn [] faults))) /\
  attached src a (MConf (Some m) s) (started (serve_start (Snapshot m) s (mkConn [] faults))).
Proof.
  intros [Hr Hg]. destruct (Hg m eq_refl) as [_ Hgood]. pose proof (mrel_shows src gh a m s Hr) as Hsh.
  split; [done|]. pose proof (sh_snapshot _ _ _ _ Hsh) as Hsn. pose proof (sh_length _ _ _ _ Hsh) as Hl.
  destruct (sh_current _ _ _ _ Hsh) as [gh1 Hc]. unfold Snapshot in *. cbn [fst snd] in *. pose proof (f_equal fst Hsn) as Hq. pose proof (f_equal snd Hsn) as Hname. cbn [fst snd] in Hq, Hname.
  unfold serve_start. rewrite Hname. destruct (conn_Write _ _) as [ok c] eqn:E.
  destruct (conn_Write_spec _ _ _ _ E) as (q & Hs & Hp & Hok). cbn [sent app] in Hs.
  assert (session_now a a []) as Hnow.
  { exists (a_cur a). split; [by apply list_lookup_middle|]. by rewrite app_nil_r. }
  change (GlobalHeader_AppendTo (m_gh m) []) with (GlobalHeader_bytes (m_gh m)) in *.
  destruct ok.
  - unfold os_Open. unfold content in Hc. destruct (fs_dir s !! _) as [ino|] eqn:Ed; [|done]. split.
    + exists []. split; [done|]. exists O. rewrite take_0, enc_records_nil, !app_nil_r. cbn [cl_conn cl_session cl_gh cl_cursor].
      rewrite Hs, (Hok eq_refl). split; [lia|]. split; [reflexivity|]. split; [exact Hq|]. split; [reflexivity|exact Hl].
    + exists m. split; [done|]. exact Ed.
  - split; [|done]. exists []. split; [done|]. cbn [started]. rewrite Hs, enc_records_nil, app_nil_r. exact Hp.
Qed.

(** C16: a PCAP-over-IP client gets the global header and then, each once and in
    order, the packets that its session was given after the client connected,
    provided packets fit the snap length the mirror is opened with ([op_ok]) and the
    headers it adopts declare at least that ([event_ok]).  Whatever the mirror does meanwhile (appends, new sessions, host crashes),
    wherever the client's connection or a read fails, what it got is a prefix of
    that stream; a client that is still served has whole packets only, and its
    next turn without a failure gives it everything committed so far. *)
Theorem fan_out_streams es1 k1 es2 k2 :
  steps (fstep src gh) (FConf first_mconf Waiting) es1 k1 -> f_audience k1 = Waiting ->
  steps (fstep src gh) k1 (FConnect :: es2) k2 ->
  exists m1 a1 a2 x more,
    mproc (f_mirror k1) = Some m1 /\
    steps astep a_zero (mirror_events es1) a1 /\ steps astep a1 (mirror_events es2) a2 /\
    a_sessions a2 !! length (a_old a1) = Some x /\ ss_recs x = a_recs a1 ++ more /\
    let stream := GlobalHeader_bytes (Snapshot m1).2 ++ enc_records more in
    match f_audience k2 with
    | Waiting => False
    | Ended c => sent c `prefix_of` stream
    | Serving cl =>
        (exists n, sent (cl_conn cl) = GlobalHeader_bytes (Snapshot m1).2 ++ enc_records (take n more)) /\
        forall m, mproc (f_mirror k2) = Some m -> p_sessionSeq m = cl_session cl ->
          conn_faults (cl_conn cl) = [] -> p_committedLen m < 2 ^ 62 ->
          exists pr cl', serve_turn (Snapshot m) (file_ReaderAt (ino_data (mdir (f_mirror k2)) (cl_file cl))) cl =
              (Some (pr, cl'), cl_conn cl') /\
            sent (cl_conn cl') = stream
    end.
Proof.
  intros Hr1 Hw Hr2.
  destruct (waiting_runs _ _ _ a_zero Hr1 Hw) as (_ & a1 & Ha1 & Ho1).
  { split; [apply mrel_empty|done]. }
  inversion Hr2 as [|? ? k3 ? ? Hc Hrest]; subst. inversion Hc as [|m s faults| |]; subst.
  destruct (start_got a1 m s faults Ho1) as (Hgood & Hg & Hat).
  destruct (served_runs a1 _ _ _ _ a1 Hgood Hrest Ho1 Hg Hat) as (a2 & Ha2 & Ho2 & Hg2 & Hat2).
  destruct Hg2 as (more & (x & Hx & Hxr) & Hau) eqn:Eg. exists m, a1, a2, x, more. split_and!; [done..|].
  cbn zeta. destruct (f_audience k2) as [|cl|c] eqn:Ek; [done| |done].
  destruct Hau as (n & Hn & Hsent & Hrest2). split; [by exists n|].
  intros m2 Hm2 Hq Hcf Hlim. destruct (f_mirror k2) as [p s2] eqn:Ek2. cbn [mproc mdir] in *. subst p.
  destruct (turn_got src gh a1 _ Hgood a2 m2 s2 cl (file_ReaderAt (ino_data s2 (cl_file cl))) Ho2) as (_ & _ & Hall).
  { by exists more; split; [exists x|exists n]. }
  { done. }
  { apply honest_file. }
  { done. }
  destruct (Hall eq_refl Hcf Hq) as (pr & cl' & more' & Hturn & (x' & Hx' & Hxr') & Hsent' & _).
  exists pr, cl'. split; [done|]. rewrite Hsent'. do 2 f_equal. rewrite Hx in Hx'. injection Hx' as <-.
  rewrite Hxr in Hxr'. by apply app_inv_head in Hxr'.
Qed.
End Run.

(** ** Executions *)

#[export] Instance event_ok_dec snap e : Decision (event_ok snap e).
Proof. destruct e as [|[]|[[]|]]; cbn; unfold header_ok; apply _. Defined.

(** Runs without faults. *)
Definition fexec (src : Z) (gh : GlobalHeader) (k : fconf) (e : fevent) : option fconf :=
  match e, f_mirror k, f_audience k with
  | FMirror e, k0, a =>
      if decide (event_ok (gh_Snaplen gh) e) then
        match mexec src gh k0 e with Some k' => Some (FConf k' (served_by k' a)) | None => None end
      else None
  | FConnect, MConf (Some m) s, Waiting => Some (FConf (f_mirror k) (started (serve_start (Snapshot m) s (mkConn [] []))))
  | FTurn, MConf (Some m) s, Serving cl =>
      if p_committedLen m <? 2 ^ 62 then
        Some (FConf (f_mirror k) (turned (serve_turn (Snapshot m) (file_ReaderAt (ino_data s (cl_file cl))) cl)))
      else None
  | FLeave, _, a => Some (FConf (f_mirror k) (hang_up a))
  | _, _, _ => None
  end.

Lemma fexec_step src gh k e k' : fexec src gh k e = Some k' -> fstep src gh k e k'.
Proof.
  destruct k as [k0 a]. unfold fexec. destruct e as [e| | |]; cbn [f_mirror f_audience].
  - case_decide; [|done]. destruct (mexec src gh k0 e) as [k1|] eqn:E; [|done]. intros [= <-].
    apply f_mirror_step; [by apply mexec_step|done].
  - destruct k0 as [[m|] s], a; try done. intros [= <-]. exact (f_connect src gh m s []).
  - destruct k0 as [[m|] s], a as [|cl|c]; try done. destruct (Z.ltb_spec (p_committedLen m) (2 ^ 62)); [|done]. intros [= <-].
    exact (f_turn src gh m s cl _ (honest_file _) ltac:(done)).
  - destruct k0 as [[m|] s]; intros [= <-]; apply f_leave.
Qed.

Lemma fexec_runs src gh es k k' :
  exec_all (fexec src gh) k es = Some k' -> steps (fstep src gh) k es k'.
Proof.
  intros He. apply (exec_steps (fstep src gh) (fun _ => True) (fexec src gh)); [|done..].
  intros. split; [by apply fexec_step|done].
Qed.

(** A client that connects after one packet and is served across two appends,
    until a new session begins. *)
Definition example_frun1 : list fevent :=
  FMirror <$> [MOpen; MOp (OpHeader (mkGlobalHeader 65536 113)); MOp (OpAppend [mkPcapRecord 1 2 1 [x61]] 5)].
Definition example_frun2 : list fevent :=
  [FTurn; FMirror (MOp (OpAppend [mkPcapRecord 1 3 2 [x62; x63]; mkPcapRecord 1 4 1 [x64]] 6)); FTurn;
   FMirror (MOp (OpAppend [mkPcapRecord 1 5 1 [x65]] 7))].

Definition example_fconf1 : fconf := exec_end (fexec 3 example_gh) (FConf first_mconf Waiting) example_frun1.
Definition example_fconf2 : fconf := exec_end (fexec 3 example_gh) example_fconf1 (FConnect :: example_frun2).

Lemma fan_out_streams_witness :
  exists m1 a1 a2 x more,
    mproc (f_mirror example_fconf1) = Some m1 /\
    steps astep a_zero (mirror_events example_frun1) a1 /\ steps astep a1 (mirror_events example_frun2) a2 /\
    a_sessions a2 !! length (a_old a1) = Some x /\ ss_recs x = a_recs a1 ++ more /\
    let stream := GlobalHeader_bytes (Snapshot m1).2 ++ enc_records more in
    match f_audience example_fconf2 with
    | Waiting => False
    | Ended c => sent c `prefix_of` stream
    | Serving cl =>
        (exists n, sent (cl_conn cl) = GlobalHeader_bytes (Snapshot m1).2 ++ enc_records (take n more)) /\
        forall m, mproc (f_mirror example_fconf2) = Some m -> p_sessionSeq m = cl_session cl ->
          conn_faults (cl_conn cl) = [] -> p_committedLen m < 2 ^ 62 ->
          exists pr cl', serve_turn (Snapshot m) (file_ReaderAt (ino_data (mdir (f_mirror example_fconf2)) (cl_file cl))) cl =
              (Some (pr, cl'), cl_conn cl') /\
            sent (cl_conn cl') = stream
    end.
Proof.
  apply (fan_out_streams 3 example_gh).
  - apply (bool_decide_unpack _). vm_compute. exact I.
  - apply fexec_runs. apply (exec_ok_end (fexec 3 example_gh) (FConf first_mconf Waiting) example_frun1). vm_compute. reflexivity.
  - vm_compute. reflexivity.
  - apply fexec_runs. apply (exec_ok_end (fexec 3 example_gh) example_fconf1 (FConnect :: example_frun2)). vm_compute. reflexivity.
Defined.

(** A client that connects before the first preamble was read keeps the header
    that the mirror was opened with, also when the link type of the source turns
    out to be another one: the session is not rotated. *)
Example fan_out_stale_header :
  match exec_all (fexec 3 (mkGlobalHeader 65536 1)) (FConf first_mconf Waiting)
    [FMirror MOpen; FConnect; FMirror (MOp (OpHeader (mkGlobalHeader 65536 101)));
     FMirror (MOp (OpAppend [mkPcapRecord 1 2 1 [x45]] 5)); FTurn] with
  | Some (FConf (MConf (Some m) _) (Serving cl)) =>
      gh_LinkType (m_gh m) = 101 /\
      sent (cl_conn cl) = GlobalHeader_bytes (mkGlobalHeader 65536 1) ++ PcapRecord_bytes (mkPcapRecord 1 2 1 [x45])
  | _ => False
  end.
Proof. vm_compute. by split. Qed.
