(* ===== verification/Limits.v ===== *)
(** * Where the conditions of the runs matter

    The refinement theorems are about runs that leave out some states of the
    directory and some inputs: manifests whose last line a crash has cut, and
    packets above the snap length.  What the code does there, executed. *)

From S2P Require Import Prelude Bytes GoIO Pcapio Os Durable Dir Runs Json Manifest Recover Spool Janitor SpoolSpec SpoolProof RestartProof SpoolProps Reader TailProps Conn Mirror MirrorSpec MirrorProps FanOut FanOutProps.

(** ** A cut manifest line *)

(** A segment fills up, and the process dies while it writes the segment's line. *)
Definition torn_begin : list event :=
  [EvStart; EvWrite (mkPcapRecord 1 2 0 [x61]) 0].
Definition torn_before : conf := exec_end (exec example_config) first_conf torn_begin.
Definition torn_writer : Writer := default new_object (running torn_before).
Definition torn_record : PcapRecord := mkPcapRecord 1 3 90 (replicate 90 x62).
Definition torn_write (k : nat) :=
  WritePacket torn_record (torn_writer, World (directory torn_before) (replicate k FOk ++ [FShort 30]) [] []).

(** The directory after the restart of the host, and of the process on it; one
    more packet fills the segment up again. *)
Definition torn_dir : fs := flushed (w_fs (torn_write 13).2.2).
Definition torn_restart :=
  NewWriter example_config (new_object, World torn_dir [] [] []).
Definition torn_next := WritePacket (mkPcapRecord 1 4 0 [x63]) (torn_restart.2.1, World (w_fs torn_restart.2.2) [] [] []).
Definition torn_open :=
  OpenReader (SrcID (applyDefaults example_config)) (Snaplen (applyDefaults example_config)) 0
    (new_reader, World (w_fs torn_next.2.2) [] [] []).

(** The same process goes on, retention deletes its oldest segment, and the host
    crashes again. *)
Definition torn_all :=
  (NewWriter example_config ;; WritePacket (mkPcapRecord 1 4 0 [x63]) ;; WritePacket (mkPcapRecord 1 5 0 (replicate 90 x64)))
    (new_object, World torn_dir [] [] []).
Definition torn_reap := Reap 200 (torn_all.2.1, World (w_fs torn_all.2.2) [] [] []).
Definition torn_again := NewWriter example_config (new_object, World (flushed (w_fs torn_reap.2.2)) [] [] []).

Lemma torn_run :
  steps (step example_config) first_conf (torn_begin ++ [EvCrash [torn_record]]) (Conf None torn_dir) /\ ~ untorn torn_dir.
Proof.
  assert (exec_ok (exec example_config) first_conf torn_begin = true) as Hok by (vm_compute; reflexivity).
  split.
  - apply (steps_app _ _ _ torn_before).
    + apply (exec_runs _ _ _ _ _ (proj1 example_steps) (empty_spool _)). exact (exec_ok_end _ _ _ Hok).
    + assert (running torn_before = Some torn_writer) as Hw.
      { unfold torn_writer. assert (is_Some (running torn_before)) as [w Hw] by (vm_compute; by eexists). by rewrite Hw. }
      replace torn_before with (Conf (Some torn_writer) (directory torn_before)) by (by rewrite <-Hw; destruct torn_before).
      eapply steps_cons; [|constructor]. change [torn_record] with [stored torn_record].
      eapply (step_write_fail _ torn_writer (directory torn_before) (replicate 13 FOk ++ [FShort 30]) [] []).
      * apply room_b_spec. vm_compute. reflexivity.
      * exact (run_parts (torn_write 13)).
      * assert ((torn_write 13).1 = Fail os_err) as -> by (vm_compute; reflexivity). by intros gpidx.
      * apply crash_flushed. vm_compute. reflexivity.
  - intros Hu. assert (content torn_dir manifestName = Some (default [] (content torn_dir manifestName))) as Hc
      by (vm_compute; reflexivity).
    destruct (Hu _ Hc) as [H|H]; vm_compute in H; discriminate.
Qed.

(** [NewWriter] appends behind the partial line, which makes one line of garbage,
    and [loadManifest] stops there.  After the next rotation readers do not find
    the sealed packets: one that asks for the oldest starts behind them and
    reports that they were reaped, though the writer has not deleted any. *)
Theorem torn_manifest_hides_packets :
  exists s w wd w' wd' r,
    steps (step example_config) first_conf (torn_begin ++ [EvCrash [torn_record]]) (Conf None s) /\
    NewWriter example_config (new_object, World s [] [] []) = (Ret (), (w, wd)) /\ head w = 2 /\
    WritePacket (mkPcapRecord 1 4 0 [x63]) (w, World (w_fs wd) [] [] []) = (Ret 2, (w', wd')) /\
    oldestGpidx w' = 0 /\ seg_EndGpidx <$> head_pointer (w_fs wd') = Some 3 /\
    OpenReader (SrcID (applyDefaults example_config)) (Snaplen (applyDefaults example_config)) 0
      (new_reader, World (w_fs wd') [] [] []) = (Ret (3, true), r).
Proof.
  exists torn_dir, torn_restart.2.1, torn_restart.2.2, torn_next.2.1, torn_next.2.2, torn_open.2.
  assert (torn_restart.1 = Ret ()) as H1 by (vm_compute; reflexivity).
  assert (torn_next.1 = Ret 2) as H2 by (vm_compute; reflexivity).
  assert (torn_open.1 = Ret (3, true)) as H3 by (vm_compute; reflexivity).
  split; [exact (proj1 torn_run)|]. split; [rewrite <-H1; exact (run_parts torn_restart)|].
  split; [vm_compute; reflexivity|]. split; [rewrite <-H2; exact (run_parts torn_next)|].
  split; [vm_compute; reflexivity|]. split; [vm_compute; reflexivity|].
  rewrite <-H3. exact (surjective_pairing torn_open).
Qed.

(** Once retention has deleted the first segment of that directory, a restart
    numbers the sealed one that is left from 0: the head goes back, and gpidx that
    readers were shown are given again. *)
Theorem torn_manifest_reissues_gpidx :
  exists s w wd n w' wd' s' w2 wd2,
    steps (step example_config) first_conf (torn_begin ++ [EvCrash [torn_record]]) (Conf None s) /\
    (NewWriter example_config ;; WritePacket (mkPcapRecord 1 4 0 [x63]) ;; WritePacket (mkPcapRecord 1 5 0 (replicate 90 x64)))
      (new_object, World s [] [] []) = (Ret n, (w, wd)) /\
    Reap 200 (w, World (w_fs wd) [] [] []) = (Ret 1, (w', wd')) /\
    head w' = 4 /\ size (sealed w') = 1%nat /\ seg_EndGpidx <$> head_pointer (w_fs wd') = Some 4 /\
    crash_fs (w_fs wd') s' /\
    NewWriter example_config (new_object, World s' [] [] []) = (Ret (), (w2, wd2)) /\ head w2 = 1.
Proof.
  exists torn_dir, torn_all.2.1, torn_all.2.2, 3, torn_reap.2.1, torn_reap.2.2, (flushed (w_fs torn_reap.2.2)),
    torn_again.2.1, torn_again.2.2.
  assert (torn_all.1 = Ret 3) as H1 by (vm_compute; reflexivity).
  assert (torn_reap.1 = Ret 1) as H2 by (vm_compute; reflexivity).
  assert (torn_again.1 = Ret ()) as H3 by (vm_compute; reflexivity).
  split; [exact (proj1 torn_run)|]. split; [rewrite <-H1; exact (run_parts torn_all)|].
  split; [rewrite <-H2; exact (run_parts torn_reap)|].
  split; [vm_compute; reflexivity|]. split; [vm_compute; reflexivity|]. split; [vm_compute; reflexivity|].
  split; [apply crash_flushed; vm_compute; reflexivity|].
  split; [rewrite <-H3; exact (run_parts torn_again)|vm_compute; reflexivity].
Qed.

(** ** Long packets in the mirror *)

(** A mirror that is configured for packets of 10 bytes, and an agent that sends
    longer ones. *)
Definition short_gh : GlobalHeader := mkGlobalHeader 10 1.
Definition long_gh : GlobalHeader := mkGlobalHeader 65536 1.
Definition long_records : list PcapRecord := [mkPcapRecord 1 2 12 (replicate 12 x61); mkPcapRecord 1 3 12 (replicate 12 x62)].

Definition long_mirror :=
  (OpenMirror 3 short_gh ;; SetHeader long_gh ;; Append long_records 5) (zero_Mirror 3 short_gh, World empty_fs [] [] []).
Definition long_reopened :=
  OpenMirror 3 short_gh (zero_Mirror 3 short_gh, World (flushed (w_fs long_mirror.2.2)) [] [] []).

(** [SetHeader] takes the snap length of the agent and [Append] commits its
    packets; the next process opens the mirror with the configured length again,
    truncates the session file at the first longer packet and lowers the commit
    point.  Nothing is lost for good while the agent still has the packets. *)
Theorem mirror_lowers_commit :
  exists m wd s' m' wd',
    (OpenMirror 3 short_gh ;; SetHeader long_gh ;; Append long_records 5)
      (zero_Mirror 3 short_gh, World empty_fs [] [] []) = (Ret (), (m, wd)) /\
    Committed m = 2 /\ content (w_fs wd) (mirrorName 3 0) = Some (session_bytes long_gh long_records) /\
    crash_fs (w_fs wd) s' /\
    OpenMirror 3 short_gh (zero_Mirror 3 short_gh, World s' [] [] []) = (Ret (), (m', wd')) /\
    Committed m' = 0 /\ content (w_fs wd') (mirrorName 3 0) = Some (session_bytes long_gh []).
Proof.
  exists long_mirror.2.1, long_mirror.2.2, (flushed (w_fs long_mirror.2.2)), long_reopened.2.1, long_reopened.2.2.
  assert (long_mirror.1 = Ret ()) as H1 by (vm_compute; reflexivity).
  assert (long_reopened.1 = Ret ()) as H2 by (vm_compute; reflexivity).
  split; [rewrite <-H1; exact (run_parts long_mirror)|]. split; [vm_compute; reflexivity|].
  split; [vm_compute; reflexivity|]. split; [apply crash_flushed; vm_compute; reflexivity|].
  split; [rewrite <-H2; exact (run_parts long_reopened)|]. split; vm_compute; reflexivity.
Qed.

(** ** Long packets on the PCAP-over-IP server *)

Definition early_mirror := OpenMirror 3 short_gh (zero_Mirror 3 short_gh, World empty_fs [] [] []).
Definition early_start := serve_start (Snapshot early_mirror.2.1) (w_fs early_mirror.2.2) (mkConn [] []).
Definition early_client : client := default (mkClient 0 0 0 short_gh (mkConn [] [])) early_start.1.
Definition grown_mirror :=
  (SetHeader long_gh ;; Append long_records 5) (early_mirror.2.1, World (w_fs early_mirror.2.2) [] [] []).

(** A client that connected before the agent's header was adopted reads with the
    snap length it was shown: it stops at the first longer packet, at every turn
    and without an error, with the rest of the session committed in front of it. *)
Theorem fan_out_stuck :
  exists m wd cl m' wd',
    OpenMirror 3 short_gh (zero_Mirror 3 short_gh, World empty_fs [] [] []) = (Ret (), (m, wd)) /\
    serve_start (Snapshot m) (w_fs wd) (mkConn [] []) = (Some cl, cl_conn cl) /\
    (SetHeader long_gh ;; Append long_records 5) (m, World (w_fs wd) [] [] []) = (Ret (), (m', wd')) /\
    cl_cursor cl = 24 /\ p_committedLen m' = 80 /\ p_sessionSeq m' = cl_session cl /\
    serve_turn (Snapshot m') (file_ReaderAt (ino_data (w_fs wd') (cl_file cl))) cl = (Some (false, cl), cl_conn cl).
Proof.
  exists early_mirror.2.1, early_mirror.2.2, early_client, grown_mirror.2.1, grown_mirror.2.2.
  assert (early_mirror.1 = Ret ()) as H1 by (vm_compute; reflexivity).
  assert (early_start = (Some early_client, cl_conn early_client)) as H2 by (vm_compute; reflexivity).
  assert (grown_mirror.1 = Ret ()) as H3 by (vm_compute; reflexivity).
  split; [rewrite <-H1; exact (run_parts early_mirror)|]. split; [exact H2|].
  split; [rewrite <-H3; exact (run_parts grown_mirror)|].
  split; [vm_compute; reflexivity|]. split; [vm_compute; reflexivity|]. split; vm_compute; reflexivity.
Qed.
