(* ===== verification/Metrics.v ===== *)
(** * Metrics (internal/metrics/metrics.go, internal/collector/metrics.go)

    The registry of named counters and gauges, its text exposition, and the
    collector's metrics.  A counter or gauge is a pointer to a metric of the
    registry, so it is modelled by the metric's name. *)

From S2P Require Import Prelude Bytes Json.

(** ** The registry *)

Record metric : Type := mkMetric {
  mt_name : list byte;
  mt_help : list byte;
  mt_typ : list byte;
  mt_val : Z            (** an atomic [int64] *)
}.

Record Registry : Type := mkRegistry {
  reg_labels : list byte;
  byName : gmap (list byte) metric
}.

(** The escapes of [strconv.Quote] below 0x80; other bytes are copied. *)
Definition quote_go_byte (b : byte) : list byte :=
  match List.find (fun p => bool_decide (p.1 = b))
    [(x22, [x5c; x22]); (x5c, [x5c; x5c]); (x07, [x5c; x61]); (x08, [x5c; x62]); (x0c, [x5c; x66]);
     (x0a, [x5c; x6e]); (x0d, [x5c; x72]); (x09, [x5c; x74]); (x0b, [x5c; x76])] with
  | Some p => p.2
  | None =>
      let z := Z_of_byte b in
      if (z <? 32) || (z =? 127) then [x5c; x78; hex_digit (z / 16); hex_digit (z mod 16)] else [b]
  end.
Definition strconv_Quote (s : list byte) : list byte := x22 :: concat (quote_go_byte <$> s) ++ [x22].

Fixpoint join_labels (labels : gmap (list byte) (list byte)) (keys : list (list byte)) : list byte :=
  match keys with
  | [] => []
  | [k] => k ++ str "=" ++ strconv_Quote (default [] (labels !! k))
  | k :: keys => k ++ str "=" ++ strconv_Quote (default [] (labels !! k)) ++ str "," ++ join_labels labels keys
  end.

Definition NewRegistry (labels : gmap (list byte) (list byte)) : Registry :=
  let enc := join_labels labels (sort_Strings (map_to_list labels).*1) in
  mkRegistry (match enc with [] => [] | _ => str "{" ++ enc ++ str "}" end) ∅.

(** Registers [name] unless it is there already. *)
Definition register (name help typ : list byte) (r : Registry) : Registry :=
  match byName r !! name with
  | Some _ => r
  | None => mkRegistry (reg_labels r) (<[name := mkMetric name help typ 0]> (byName r))
  end.

Definition Counter (name help : list byte) (r : Registry) : Registry := register name help (str "counter") r.
Definition Gauge (name help : list byte) (r : Registry) : Registry := register name help (str "gauge") r.

Definition set_val (f : Z -> Z) (name : list byte) (r : Registry) : Registry :=
  mkRegistry (reg_labels r)
    (alter (fun m => mkMetric (mt_name m) (mt_help m) (mt_typ m) (f (mt_val m))) name (byName r)).

Definition Counter_Inc : list byte -> Registry -> Registry := set_val (fun v => i64 (v + 1)).
Definition Counter_Add (n : Z) : list byte -> Registry -> Registry := set_val (fun v => i64 (v + n)).
Definition Gauge_Set (n : Z) : list byte -> Registry -> Registry := set_val (fun _ => n).

(** The body that [Handler] writes. *)
Definition expose_metric (labels : list byte) (m : metric) : list byte :=
  str "# HELP " ++ mt_name m ++ str " " ++ mt_help m ++ [x0a] ++
  str "# TYPE " ++ mt_name m ++ str " " ++ mt_typ m ++ [x0a] ++
  mt_name m ++ labels ++ str " " ++ dec_int (mt_val m) ++ [x0a].

Definition Handler (r : Registry) : list byte :=
  concat ((fun n => match byName r !! n with Some m => expose_metric (reg_labels r) m | None => [] end)
            <$> sort_Strings (map_to_list (byName r)).*1).

(** ** The collector's metrics *)

Definition m_committed := str "ipcap_collector_committed_gpidx".
Definition m_lag := str "ipcap_collector_lag_gpidx".
Definition m_bytes := str "ipcap_collector_committed_bytes_total".
Definition m_gaps := str "ipcap_collector_gaps_total".
Definition m_reconnects := str "ipcap_collector_reconnects_total".
Definition m_corrupt := str "ipcap_collector_corrupt_frames_total".
Definition m_captured := str "ipcap_agent_captured_total".
Definition m_kernelDrops := str "ipcap_agent_kernel_drops_total".
Definition m_ifdrops := str "ipcap_agent_ifdrops_total".
Definition m_spoolBytes := str "ipcap_agent_spool_bytes".

Definition NewMetrics (r : Registry) : Registry :=
  let r := Gauge m_committed (str "Highest committed packet index (exclusive)") r in
  let r := Gauge m_lag (str "Packets the collector trails the agent head by") r in
  let r := Counter m_bytes (str "Bytes durably committed to the mirror") r in
  let r := Counter m_gaps (str "Bounded retention-wrap losses observed") r in
  let r := Counter m_reconnects (str "Drain reconnects") r in
  let r := Counter m_corrupt (str "Frames rejected for CRC/format errors") r in
  let r := Gauge m_captured (str "Packets captured by the agent") r in
  let r := Gauge m_kernelDrops (str "Packets dropped by the kernel ring (pre-spool)") r in
  let r := Gauge m_ifdrops (str "Packets dropped by the interface") r in
  Gauge m_spoolBytes (str "Agent spool size in bytes") r.

(** The update methods; [None] is the nil [*Metrics], on which they do nothing. *)
Definition onCommit (committed bytes : Z) (m : option Registry) : option Registry :=
  r ← m; Some (Counter_Add bytes m_bytes (Gauge_Set (i64 committed) m_committed r)).
Definition onGap (m : option Registry) : option Registry := Counter_Inc m_gaps <$> m.
Definition onReconnect (m : option Registry) : option Registry := Counter_Inc m_reconnects <$> m.
Definition onCorrupt (m : option Registry) : option Registry := Counter_Inc m_corrupt <$> m.
Definition onLag (head committed : Z) (m : option Registry) : option Registry :=
  (if committed <? head then Gauge_Set (i64 (u64 (head - committed))) m_lag else Gauge_Set 0 m_lag) <$> m.
Definition onStats (captured dropped ifdrop spool : Z) (m : option Registry) : option Registry :=
  r ← m;
  Some (Gauge_Set (i64 spool) m_spoolBytes (Gauge_Set (i64 ifdrop) m_ifdrops
         (Gauge_Set (i64 dropped) m_kernelDrops (Gauge_Set (i64 captured) m_captured r)))).
