(* ===== verification/Net.v ===== *)
(** * Addresses of the Go standard library

    What the code uses of [net]: parsing of IP addresses and CIDR blocks
    ([net.ParseIP], [net.ParseCIDR], after [net/netip]), the 4-byte and 16-byte
    forms of an address, masks, [IP.Equal] and [IPNet.Contains].  A [net.IP] is
    a byte slice; [nil] is the empty one. *)

From S2P Require Import Prelude Bytes.

Definition IP : Type := list byte.

(** The twelve bytes in front of an IPv4 address in its 16-byte form. *)
Definition v4InV6Prefix : list byte := replicate 10 x00 ++ [xff; xff].

(** ** Text of addresses *)

(** [parseIPv4Fields]: [val] and [digLen] belong to the field being read, [done]
    are the finished ones, [prev_dot] whether the byte before was a dot. *)
Fixpoint ipv4_fields (s : list byte) (val : Z) (digLen : nat) (finished : list byte) (prev_dot : bool) :
    option (list byte) :=
  match s with
  | [] => if decide (length finished = 3%nat) then Some (finished ++ [byte_of_Z val]) else None
  | b :: t =>
      if is_digit b then
        if (digLen =? 1)%nat && (val =? 0) then None
        else
          let val := val * 10 + (Z_of_byte b - 48) in
          if 255 <? val then None else ipv4_fields t val (S digLen) finished false
      else if decide (b = x2e) then
        if prev_dot || bool_decide (t = []) || (3 <=? length finished)%nat then None
        else ipv4_fields t 0 0 (finished ++ [byte_of_Z val]) true
      else None
  end.

(** A dot in first place is refused like one behind a dot. *)
Definition parseIPv4 (s : list byte) : option (list byte) := ipv4_fields s 0 0 [] true.

Definition hex_value (b : byte) : option Z :=
  let z := Z_of_byte b in
  if (48 <=? z) && (z <=? 57) then Some (z - 48)
  else if (97 <=? z) && (z <=? 102) then Some (z - 87)
  else if (65 <=? z) && (z <=? 70) then Some (z - 55)
  else None.

(** A group of at most four hexadecimal digits: its value, their number and the
    rest; [None] is a fifth digit. *)
Fixpoint hex_group (s : list byte) (acc : Z) (off : nat) : option (Z * nat * list byte) :=
  match s with
  | [] => Some (acc, off, s)
  | b :: t =>
      match hex_value b with
      | None => Some (acc, off, s)
      | Some d => if (3 <? off)%nat then None else hex_group t (16 * acc + d) (S off)
      end
  end.

(** The loop over the groups: [ip] are the bytes so far, [ellipsis] where the
    double colon stands.  Every round but the last appends two bytes, so eight
    rounds are all there are; the result has the unread rest. *)
Fixpoint ipv6_groups (fuel : nat) (s ip : list byte) (ellipsis : option nat) :
    option (list byte * list byte * option nat) :=
  match fuel with
  | O => Some (s, ip, ellipsis)
  | S fuel =>
      '(acc, off, rest) ← hex_group s 0 0;
      if (off =? 0)%nat then None
      else
        match rest with
        | [] => Some ([], ip ++ be_enc 2 acc, ellipsis)
        | b :: rest =>
            if decide (b = x2e) then
              if bool_decide (ellipsis = None) && negb (length ip =? 12)%nat then None
              else if (16 <? length ip + 4)%nat then None
              else v4 ← parseIPv4 s; Some ([], ip ++ v4, ellipsis)
            else if decide (b = x3a) then
              let ip := ip ++ be_enc 2 acc in
              match rest with
              | [] => None
              | c :: rest' =>
                  if negb (bool_decide (c = x3a)) then ipv6_groups fuel rest ip ellipsis
                  else if bool_decide (is_Some ellipsis) then None
                  else if bool_decide (rest' = []) then Some ([], ip, Some (length ip))
                  else ipv6_groups fuel rest' ip (Some (length ip))
              end
            else None
        end
  end.

(** [parseIPv6] of a text without a zone. *)
Definition parseIPv6 (s : list byte) : option (list byte) :=
  '(rest, ip, ellipsis) ←
    (if HasPrefix s [x3a; x3a] then
       if bool_decide (drop 2 s = []) then Some ([], [], Some O) else ipv6_groups 8 (drop 2 s) [] (Some O)
     else ipv6_groups 8 s [] None);
  if bool_decide (rest <> []) then None
  else if (length ip <? 16)%nat then
    e ← ellipsis;
    Some (take e ip ++ replicate (16 - length ip) x00 ++ drop e ip)
  else if bool_decide (is_Some ellipsis) then None
  else Some ip.

(** [netip.ParseAddr], where an address with a zone is as good as none: the
    callers refuse it.  IPv4 addresses have four bytes, the others sixteen. *)
Definition ParseAddr (s : list byte) : option IP :=
  match List.find (fun b => bool_decide (b = x2e) || bool_decide (b = x3a) || bool_decide (b = x25)) s with
  | Some x2e => parseIPv4 s
  | Some x3a => if bool_decide (x25 ∈ s) then None else parseIPv6 s
  | _ => None
  end.

(** [Addr.As16]. *)
Definition As16 (ip : IP) : IP := if (length ip =? 4)%nat then v4InV6Prefix ++ ip else ip.

Definition ParseIP (s : list byte) : option IP := As16 <$> ParseAddr s.

(** ** Forms, masks and blocks *)

Definition To4 (ip : IP) : option IP :=
  if (length ip =? 4)%nat then Some ip
  else if (length ip =? 16)%nat && bool_decide (take 12 ip = v4InV6Prefix) then Some (drop 12 ip)
  else None.

(** [IP.Equal]: an IPv4 address and its 16-byte form are equal. *)
Definition IP_Equal (ip x : IP) : bool :=
  if (length ip =? length x)%nat then bool_decide (ip = x)
  else if (length ip =? 4)%nat && (length x =? 16)%nat then
    bool_decide (take 12 x = v4InV6Prefix /\ ip = drop 12 x)
  else if (length ip =? 16)%nat && (length x =? 4)%nat then
    bool_decide (take 12 ip = v4InV6Prefix /\ drop 12 ip = x)
  else false.

(** [CIDRMask(ones, 8*l)] for [ones] at most [8*l]. *)
Fixpoint CIDRMask (ones : Z) (l : nat) : list byte :=
  match l with
  | O => []
  | S l =>
      if 8 <=? ones then xff :: CIDRMask (ones - 8) l
      else byte_of_Z (255 - Z.shiftr 255 ones) :: CIDRMask 0 l
  end.

Definition and_byte (a b : byte) : byte := byte_of_Z (Z.land (Z_of_byte a) (Z_of_byte b)).

Record IPNet : Type := mkIPNet { net_IP : IP; net_Mask : list byte }.

(** [IP.Mask]; [nil] when the lengths do not fit. *)
Definition IP_Mask (ip : IP) (mask : list byte) : IP :=
  let mask := if (length mask =? 16)%nat && (length ip =? 4)%nat
                 && bool_decide (take 12 mask = replicate 12 xff) then drop 12 mask else mask in
  let ip := if (length mask =? 4)%nat && (length ip =? 16)%nat
               && bool_decide (take 12 ip = v4InV6Prefix) then drop 12 ip else ip in
  if (length ip =? length mask)%nat then zip_with and_byte ip mask else [].

(** [dtoi]: the decimal number a text begins with and the number of its digits;
    a number of 0xFFFFFF and more is refused. *)
Fixpoint dtoi (s : list byte) (n : Z) (i : nat) : option (Z * nat) :=
  match s with
  | b :: t =>
      if is_digit b then
        let n := 10 * n + (Z_of_byte b - 48) in
        if 0xFFFFFF <=? n then None else dtoi t n (S i)
      else if (i =? 0)%nat then None else Some (n, i)
  | [] => if (i =? 0)%nat then None else Some (n, i)
  end.

(** The network of [ParseCIDR]. *)
Definition ParseCIDR (s : list byte) : option IPNet :=
  i ← IndexByte s x2f;
  let mask := drop (S i) s in
  ip ← ParseAddr (take i s);
  '(n, digits) ← dtoi mask 0 0;
  if negb (digits =? length mask)%nat || (8 * len ip <? n) then None
  else
    let m := CIDRMask n (length ip) in
    Some (mkIPNet (IP_Mask (As16 ip) m) m).

(** [networkNumberAndMask]. *)
Definition networkNumberAndMask (n : IPNet) : option (IP * list byte) :=
  ip ← match To4 (net_IP n) with
       | Some ip => Some ip
       | None => if (length (net_IP n) =? 16)%nat then Some (net_IP n) else None
       end;
  if (length (net_Mask n) =? 4)%nat then
    if (length ip =? 4)%nat then Some (ip, net_Mask n) else None
  else if (length (net_Mask n) =? 16)%nat then
    Some (ip, if (length ip =? 4)%nat then drop 12 (net_Mask n) else net_Mask n)
  else None.

(** [IPNet.Contains]; a block that is not one contains nothing, for every
    address has bytes. *)
Definition IPNet_Contains (n : IPNet) (ip : IP) : bool :=
  let ip := match To4 ip with Some x => x | None => ip end in
  match networkNumberAndMask n with
  | None => (length ip =? 0)%nat
  | Some (nn, m) =>
      (length ip =? length nn)%nat &&
      bool_decide (zip_with and_byte nn m = zip_with and_byte ip m)
  end.

(** ** Lemmas: lengths *)

(** The two sizes of an address. *)
Definition ip_sized (ip : IP) : Prop := length ip = 4%nat \/ length ip = 16%nat.

Lemma ipv4_fields_length s val n fin prev ip :
  ipv4_fields s val n fin prev = Some ip -> length ip = 4%nat.
Proof.
  revert val n fin prev. induction s as [|b s IH]; intros val n fin prev; cbn [ipv4_fields].
  - case_decide as Hl; [|done]. intros [= <-]. rewrite length_app, Hl. done.
  - repeat (case_match; try done); eauto.
Qed.

Lemma ipv6_groups_length fuel s ip el s' ip' el' :
  ipv6_groups fuel s ip el = Some (s', ip', el') ->
  (length ip + 2 * fuel <= 16)%nat -> (forall e, el = Some e -> (e <= length ip)%nat) ->
  (length ip' <= 16)%nat /\ forall e, el' = Some e -> (e <= length ip')%nat.
Proof.
  revert s ip el. induction fuel as [|fuel IH]; intros s ip el Hg Hl He; cbn [ipv6_groups] in Hg.
  { injection Hg as <- <- <-. split; [lia|done]. }
  destruct (hex_group s 0 0) as [[[acc off] rest]|]; [|done]. cbn [mbind option_bind] in Hg.
  destruct (off =? 0)%nat; [done|].
  assert (length (ip ++ be_enc 2 acc) = length ip + 2)%nat as Hl2 by (rewrite length_app, length_be_enc; done).
  assert (forall e, el = Some e -> (e <= length (ip ++ be_enc 2 acc))%nat) as He2
    by (intros e Hs; apply He in Hs; lia).
  assert (forall e, Some (length (ip ++ be_enc 2 acc)) = Some e -> (e <= length (ip ++ be_enc 2 acc))%nat) as He3
    by (intros e [= <-]; done).
  destruct rest as [|b rest]; [injection Hg as <- <- <-; split; [lia|done]|].
  destruct (decide (b = x2e)) as [_|_].
  - destruct (_ && _); [done|]. destruct (16 <? length ip + 4)%nat eqn:E; [done|]. apply Nat.ltb_ge in E.
    destruct (parseIPv4 s) as [v4|] eqn:Ev; [|done]. injection Hg as <- <- <-.
    apply ipv4_fields_length in Ev. rewrite length_app. split; [lia|].
    intros e Hs. apply He in Hs. lia.
  - destruct (decide (b = x3a)) as [_|_]; [|done]. destruct rest as [|c rest]; [done|].
    repeat case_match; try done; try (eapply IH; [eassumption|lia|assumption]).
    injection Hg as <- <- <-. split; [lia|done].
Qed.

Lemma ParseAddr_sized s ip : ParseAddr s = Some ip -> ip_sized ip.
Proof.
  unfold ParseAddr, ip_sized. intros Hp.
  assert (forall s ip, parseIPv6 s = Some ip -> length ip = 16%nat) as H6.
  { clear. intros s ip. unfold parseIPv6.
    destruct (if HasPrefix s _ then _ else _) as [[[rest jp] el]|] eqn:Eg; [|done]. cbn [mbind option_bind].
    assert ((length jp <= 16)%nat /\ forall e, el = Some e -> (e <= length jp)%nat) as [Hl He].
    { destruct (HasPrefix s _); [destruct (bool_decide (drop 2 s = []))|].
      - injection Eg as <- <- <-. cbn. split; [lia|]. intros e [= <-]. lia.
      - eapply ipv6_groups_length; [eassumption|cbn; lia|]. intros e [= <-]. lia.
      - eapply ipv6_groups_length; [eassumption|cbn; lia|done]. }
    destruct (bool_decide (rest <> [])); [done|]. destruct (length jp <? 16)%nat eqn:El.
    - destruct el as [e|]; [|done]. intros [= <-]. specialize (He e eq_refl).
      apply Nat.ltb_lt in El. rewrite !length_app, length_replicate, length_take, length_drop. lia.
    - apply Nat.ltb_ge in El. destruct (bool_decide (is_Some el)); [done|]. intros [= <-]. lia. }
  repeat case_match; try done; first [left; by eapply ipv4_fields_length|right; by eapply H6].
Qed.

(** ** What the masks mean

    The [n] leading bits of an address, as a number; equal prefixes of two
    addresses of one size are equal numbers. *)

Definition leading (n : Z) (ip : IP) : Z := be_dec ip / 2 ^ (8 * len ip - n).

(** The form in which addresses are compared: four bytes for an IPv4 address. *)
Definition canon (ip : IP) : IP := match To4 ip with Some x => x | None => ip end.

(** A block [addr/ones]: one of IPv4 addresses in 16-byte form is an IPv4 block
    when the prefix covers the twelve bytes in front. *)
Definition block_form (addr : IP) (ones : Z) : IP * Z :=
  if (length addr =? 16)%nat && bool_decide (take 12 addr = v4InV6Prefix) && (96 <=? ones)
  then (drop 12 addr, ones - 96) else (addr, ones).

Definition in_block (addr : IP) (ones : Z) (ip : IP) : Prop :=
  let '(a, n) := block_form addr ones in
  length (canon ip) = length a /\ leading n (canon ip) = leading n a.

Lemma be_dec_cons b l : be_dec (b :: l) = Z_of_byte b * 256 ^ len l + be_dec l.
Proof.
  unfold be_dec. rewrite reverse_cons. assert (forall k, le_dec (k ++ [b]) = le_dec k + 256 ^ len k * Z_of_byte b) as Hk.
  { clear. intros k. induction k as [|c k IH]; cbn [app le_dec]; [unfold len; cbn; lia|].
    rewrite IH, len_cons, Z.pow_add_r by (pose proof (len_nonneg k); lia). lia. }
  rewrite Hk. unfold len. rewrite length_reverse. lia.
Qed.

Lemma Z_of_and_byte a b : Z_of_byte (and_byte a b) = Z.land (Z_of_byte a) (Z_of_byte b).
Proof.
  unfold and_byte. rewrite Z_of_byte_of_Z. apply Z.mod_small.
  pose proof (Z_of_byte_range a). pose proof (Z_of_byte_range b). split; [apply Z.land_nonneg; lia|].
  destruct (decide (Z.land (Z_of_byte a) (Z_of_byte b) = 0)) as [->|Hn]; [lia|].
  change 256 with (2 ^ 8). apply Z.log2_lt_pow2; [pose proof (Z.land_nonneg (Z_of_byte a) (Z_of_byte b)); lia|].
  eapply Z.le_lt_trans; [apply Z.log2_land; lia|]. apply Z.min_lt_iff. left.
  destruct (decide (Z_of_byte a = 0)) as [E|?]; [rewrite E; cbn; lia|]. apply Z.log2_lt_pow2; lia.
Qed.

Lemma and_byte_ff a : and_byte a xff = a.
Proof.
  apply Z_of_byte_inj. rewrite Z_of_and_byte. change (Z_of_byte xff) with (Z.ones 8).
  rewrite Z.land_ones by lia. apply Z.mod_small, Z_of_byte_range.
Qed.

Lemma and_byte_idem a b : and_byte (and_byte a b) b = and_byte a b.
Proof. apply Z_of_byte_inj. by rewrite !Z_of_and_byte, <-Z.land_assoc, Z.land_diag. Qed.

(** A byte of a mask with [n] ones keeps the [n] leading bits. *)
Lemma and_mask_byte a n : 0 <= n < 8 ->
  Z_of_byte (and_byte a (byte_of_Z (255 - Z.shiftr 255 n))) = Z_of_byte a / 2 ^ (8 - n) * 2 ^ (8 - n).
Proof.
  intros Hn. assert (In n [0; 1; 2; 3; 4; 5; 6; 7]) as Hi by (cbn; lia). revert Hi. clear Hn.
  assert (forallb (fun n => forallb (fun a => Z_of_byte (and_byte a (byte_of_Z (255 - Z.shiftr 255 n)))
    =? Z_of_byte a / 2 ^ (8 - n) * 2 ^ (8 - n)) (map (fun k => byte_of_Z (Z.of_nat k)) (seq 0 256)))
    [0; 1; 2; 3; 4; 5; 6; 7] = true) as Hc by by vm_compute.
  intros Hi. rewrite forallb_forall in Hc. specialize (Hc n Hi). rewrite forallb_forall in Hc.
  apply Z.eqb_eq, Hc, in_map_iff. exists (Z.to_nat (Z_of_byte a)). pose proof (Z_of_byte_range a).
  rewrite Z2Nat.id by lia. split; [apply byte_of_Z_of_byte|]. apply in_seq. lia.
Qed.

Lemma be_dec_range l : 0 <= be_dec l < 256 ^ len l.
Proof. unfold len. apply be_dec_bound. Qed.

(** The leading bits of an address: of its first byte, and of the rest when the
    prefix reaches beyond. *)
Lemma leading_cons_long b l n :
  8 <= n <= 8 * len (b :: l) -> leading n (b :: l) = Z_of_byte b * 2 ^ (n - 8) + leading (n - 8) l.
Proof.
  intros Hn. unfold leading. rewrite be_dec_cons. rewrite len_cons in *.
  replace (8 * (1 + len l) - n) with (8 * len l - (n - 8)) by lia.
  assert (256 ^ len l = 2 ^ (n - 8) * 2 ^ (8 * len l - (n - 8))) as ->.
  { rewrite <-Z.pow_add_r by lia. replace (n - 8 + (8 * len l - (n - 8))) with (8 * len l) by lia.
    rewrite Z.pow_mul_r by (try apply len_nonneg; lia). done. }
  rewrite Z.mul_assoc, Z.div_add_l; [done|]. apply Z.pow_nonzero; lia.
Qed.

Lemma leading_cons_short b l n : 0 <= n <= 8 -> leading n (b :: l) = Z_of_byte b / 2 ^ (8 - n).
Proof.
  intros Hn. unfold leading. rewrite be_dec_cons, len_cons. pose proof (len_nonneg l).
  replace (8 * (1 + len l) - n) with (8 * len l + (8 - n)) by lia.
  rewrite Z.pow_add_r, <-Z.div_div by (try apply Z.pow_nonzero; try apply Z.pow_pos_nonneg; lia).
  replace (256 ^ len l) with (2 ^ (8 * len l)) by (rewrite Z.pow_mul_r by lia; done).
  rewrite Z.div_add_l by (apply Z.pow_nonzero; lia).
  rewrite (Z.div_small (be_dec l)); [f_equal; lia|].
  rewrite Z.pow_mul_r by lia. apply be_dec_range.
Qed.

Lemma leading_range n l : 0 <= n <= 8 * len l -> 0 <= leading n l < 2 ^ n.
Proof.
  intros Hn. unfold leading. pose proof (be_dec_range l). split; [apply Z.div_pos; [lia|apply Z.pow_pos_nonneg; lia]|].
  apply Z.div_lt_upper_bound; [apply Z.pow_pos_nonneg; lia|]. rewrite <-Z.pow_add_r by lia.
  replace (8 * len l - n + n) with (8 * len l) by lia. rewrite Z.pow_mul_r by lia. change (2 ^ 8) with 256. lia.
Qed.

Lemma masked_leading n a b :
  length a = length b -> 0 <= n <= 8 * len a ->
  zip_with and_byte a (CIDRMask n (length a)) = zip_with and_byte b (CIDRMask n (length b)) <->
  leading n a = leading n b.
Proof.
  revert n b. induction a as [|x a IH]; intros n [|y b] Hl Hn; try done.
  injection Hl as Hl. assert (len b = len a) as Hlen by (unfold len; lia).
  rewrite len_cons in Hn. cbn [length CIDRMask].
  destruct (Z.leb_spec 8 n) as [H8|H8]; cbn [zip_with].
  - rewrite !and_byte_ff, !leading_cons_long by (rewrite len_cons; lia).
    specialize (IH (n - 8) b Hl ltac:(lia)).
    pose proof (leading_range (n - 8) a ltac:(lia)). pose proof (leading_range (n - 8) b ltac:(lia)).
    split.
    + intros [= -> Hz]. apply IH in Hz. lia.
    + intros Hz. assert (Z_of_byte x = Z_of_byte y) as Hxy by nia. rewrite (Z_of_byte_inj _ _ Hxy).
      f_equal. apply IH. rewrite Hxy in Hz. lia.
  - rewrite !leading_cons_short by lia.
    assert (forall k c, zip_with and_byte c (CIDRMask 0 k) = replicate (Nat.min k (length c)) x00) as H0.
    { clear. intros k. induction k as [|k IH]; intros [|z c]; cbn; try done. f_equal; [|apply IH].
      apply Z_of_byte_inj. rewrite Z_of_and_byte. by rewrite Z.land_0_r. }
    rewrite !H0, Hl. split.
    + intros Hz. injection Hz as Hz. apply (f_equal Z_of_byte) in Hz.
      rewrite !and_mask_byte in Hz by lia. apply Z.mul_cancel_r in Hz; [done|apply Z.pow_nonzero; lia].
    + intros Hz. f_equal. apply Z_of_byte_inj. rewrite !and_mask_byte by lia. by rewrite Hz.
Qed.

(** ** Equality and containment *)

Lemma canon_4 ip : length ip = 4%nat -> canon ip = ip.
Proof. intros Hl. unfold canon, To4. by rewrite Hl. Qed.

Lemma canon_16 ip : length ip = 16%nat ->
  canon ip = if decide (take 12 ip = v4InV6Prefix) then drop 12 ip else ip.
Proof.
  intros Hl. unfold canon, To4. rewrite Hl. cbn [Nat.eqb andb]. case_decide; [by rewrite bool_decide_true|by rewrite bool_decide_false].
Qed.

Lemma canon_sized ip : ip_sized ip -> ip_sized (canon ip).
Proof.
  intros [Hl|Hl]; [rewrite canon_4 by done; by left|rewrite canon_16 by done].
  case_decide; [left; rewrite length_drop; lia|by right].
Qed.

Lemma take_drop_eq {A} n (a b : list A) : take n a = take n b -> drop n a = drop n b -> a = b.
Proof. intros Ht Hd. by rewrite <-(take_drop n a), Ht, Hd, take_drop. Qed.

Lemma IP_Equal_canon h ip : ip_sized h -> ip_sized ip -> IP_Equal h ip = bool_decide (canon h = canon ip).
Proof.
  intros [Hh|Hh] [Hi|Hi]; unfold IP_Equal; rewrite Hh, Hi; cbn [Nat.eqb andb]; apply bool_decide_ext;
    rewrite ?(canon_4 h), ?(canon_4 ip), ?(canon_16 h), ?(canon_16 ip) by done.
  - done.
  - case_decide as Hp; [by split; [intros []|]|]. split; [by intros []|]. intros ->. lia.
  - case_decide as Hp; [by split; [intros []|]|]. split; [by intros []|]. intros ->. lia.
  - assert (length (drop 12 h) = 4%nat) by (rewrite length_drop; lia).
    assert (length (drop 12 ip) = 4%nat) by (rewrite length_drop; lia).
    repeat case_decide; split; try congruence; intros He; try (apply (f_equal length) in He; lia).
    eapply take_drop_eq; [|done]. congruence.
Qed.

Lemma zip_and_idem a m : zip_with and_byte (zip_with and_byte a m) m = zip_with and_byte a m.
Proof. revert m. induction a as [|x a IH]; intros [|y m]; cbn; try done. by rewrite and_byte_idem, IH. Qed.

Lemma length_CIDRMask n l : length (CIDRMask n l) = l.
Proof. revert n. induction l as [|l IH]; intros n; cbn; [done|]. by case_match; cbn; rewrite IH. Qed.

Lemma zip_and_ff a k : (length a <= k)%nat -> zip_with and_byte a (replicate k xff) = a.
Proof.
  revert k. induction a as [|x a IH]; intros [|k] Hk; cbn in *; try done; [lia|].
  by rewrite and_byte_ff, IH by lia.
Qed.

(** A mask whose ones cover [k] bytes, and one with a byte of ones. *)
Lemma CIDRMask_split n k l :
  8 * Z.of_nat k <= n -> CIDRMask n (k + l) = replicate k xff ++ CIDRMask (n - 8 * Z.of_nat k) l.
Proof.
  revert n. induction k as [|k IH]; intros n Hn; [cbn; f_equal; lia|].
  cbn [Nat.add CIDRMask replicate app]. destruct (Z.leb_spec 8 n); [|lia].
  rewrite IH by lia. do 3 f_equal. lia.
Qed.

Lemma CIDRMask_16 n : 96 <= n -> CIDRMask n 16 = replicate 12 xff ++ CIDRMask (n - 96) 4.
Proof. apply (CIDRMask_split n 12 4). Qed.

Lemma CIDRMask_ff n k l : 0 <= n -> (CIDRMask n l) !! k = Some xff -> 8 * Z.of_nat (S k) <= n.
Proof.
  revert n k. induction l as [|l IH]; intros n k Hn Hk; [done|]. cbn [CIDRMask] in Hk.
  destruct (Z.leb_spec 8 n) as [H8|H8]; destruct k as [|k]; cbn in Hk.
  - lia.
  - apply IH in Hk; lia.
  - exfalso. injection Hk as Hk. apply (f_equal Z_of_byte) in Hk. rewrite Z_of_byte_of_Z in Hk.
    assert (In n [0; 1; 2; 3; 4; 5; 6; 7]) as Hi by (cbn; lia).
    repeat (destruct Hi as [<-|Hi]; [by vm_compute in Hk|]). destruct Hi.
  - apply IH in Hk; lia.
Qed.

Lemma and_byte_is_ff a b : and_byte a b = xff -> b = xff.
Proof.
  intros H. apply (f_equal Z_of_byte) in H. rewrite Z_of_and_byte in H. change (Z_of_byte xff) with 255 in H.
  apply Z_of_byte_inj. change (Z_of_byte xff) with 255. pose proof (Z_of_byte_range b).
  assert (Z.land 255 (Z_of_byte b) = 255) as Hl
    by (rewrite <-H at 1; rewrite <-Z.land_assoc, Z.land_diag; done).
  change 255 with (Z.ones 8) in Hl at 1. rewrite Z.land_comm, Z.land_ones, Z.mod_small in Hl by lia. done.
Qed.

(** The masked address of a block of sixteen bytes is an IPv4 address in long
    form exactly when the address is one and the prefix covers the front. *)
Lemma masked_front addr n :
  length addr = 16%nat -> 0 <= n ->
  take 12 (zip_with and_byte addr (CIDRMask n 16)) = v4InV6Prefix <-> take 12 addr = v4InV6Prefix /\ 96 <= n.
Proof.
  intros Hl Hn. split.
  - intros Ht. assert (96 <= n) as H96.
    { assert (take 12 (zip_with and_byte addr (CIDRMask n 16)) !! 11%nat = Some xff) as H11 by by rewrite Ht.
      rewrite lookup_take_lt in H11 by lia. apply lookup_zip_with_Some in H11 as (x & y & Hxy & _ & Hy).
      symmetry in Hxy. apply and_byte_is_ff in Hxy as ->. apply CIDRMask_ff in Hy; lia. }
    split; [|done]. rewrite CIDRMask_16 in Ht by lia. rewrite <-(take_drop 12 addr) in Ht.
    rewrite zip_with_app in Ht by (rewrite length_take, length_replicate; lia).
    rewrite zip_and_ff in Ht by (rewrite length_take; lia).
    by rewrite take_app_length' in Ht by (rewrite length_take; lia).
  - intros [Ht H96]. rewrite CIDRMask_16 by lia. rewrite <-(take_drop 12 addr).
    rewrite zip_with_app by (rewrite length_take, length_replicate; lia).
    rewrite zip_and_ff by (rewrite length_take; lia).
    by rewrite take_app_length' by (rewrite length_take; lia).
Qed.

Lemma drop_masked addr n :
  length addr = 16%nat -> 96 <= n ->
  drop 12 (zip_with and_byte addr (CIDRMask n 16)) = zip_with and_byte (drop 12 addr) (CIDRMask (n - 96) 4).
Proof.
  intros Hl Hn. rewrite CIDRMask_16 by lia. rewrite <-(take_drop 12 addr) at 1.
  rewrite zip_with_app by (rewrite length_take, length_replicate; lia).
  rewrite drop_app_length'; [done|]. rewrite length_zip_with, length_take, length_replicate. lia.
Qed.

(** The network [ParseCIDR] makes of an address and a prefix length. *)
Definition cidr_net (addr : IP) (ones : Z) : IPNet :=
  mkIPNet (IP_Mask (As16 addr) (CIDRMask ones (length addr))) (CIDRMask ones (length addr)).

Lemma cidr_net_zip addr ones :
  ip_sized addr ->
  cidr_net addr ones = mkIPNet (zip_with and_byte addr (CIDRMask ones (length addr))) (CIDRMask ones (length addr)).
Proof.
  intros [Hl|Hl]; unfold cidr_net, IP_Mask, As16; rewrite Hl; cbn [Nat.eqb]; rewrite length_CIDRMask; cbn [Nat.eqb andb].
  - assert (length (v4InV6Prefix ++ addr) = 16%nat) as -> by by rewrite length_app, Hl.
    cbn [Nat.eqb andb]. rewrite bool_decide_true by by rewrite take_app_length'.
    rewrite !length_CIDRMask. cbn [Nat.eqb andb]. by rewrite drop_app_length', Hl.
  - rewrite Hl. cbn [Nat.eqb andb]. rewrite length_CIDRMask. cbn [Nat.eqb andb].
    by rewrite Hl.
Qed.

Lemma networkNumber_cidr addr ones :
  ip_sized addr -> 0 <= ones <= 8 * len addr ->
  exists m, networkNumberAndMask (cidr_net addr ones) =
    Some (zip_with and_byte (block_form addr ones).1 m, m) /\
    m = CIDRMask (block_form addr ones).2 (length (block_form addr ones).1) /\
    0 <= (block_form addr ones).2 <= 8 * len (block_form addr ones).1.
Proof.
  intros Hs Ho. rewrite cidr_net_zip by done. unfold block_form. unfold len in *.
  destruct Hs as [Hl|Hl]; rewrite Hl in *.
  - cbn [Nat.eqb andb fst snd]. exists (CIDRMask ones 4). split_and!; [|by rewrite Hl|lia|lia].
    unfold networkNumberAndMask, To4. cbn [net_IP net_Mask].
    rewrite !length_zip_with, !length_CIDRMask, Hl. cbn [Nat.eqb Nat.min mbind option_bind].
    by rewrite length_zip_with, length_CIDRMask, Hl.
  - cbn [Nat.eqb andb].
    assert (length (zip_with and_byte addr (CIDRMask ones 16)) = 16%nat) as Hlz
      by (rewrite length_zip_with, Hl, length_CIDRMask; done).
    pose proof (masked_front addr ones Hl ltac:(lia)) as Hf.
    unfold networkNumberAndMask, To4. cbn [net_IP net_Mask]. rewrite Hlz, length_CIDRMask. cbn [Nat.eqb andb].
    destruct (decide (take 12 addr = v4InV6Prefix /\ 96 <= ones)) as [[Ht H96]|Hn].
    + rewrite (bool_decide_true (take 12 (zip_with _ _ _) = _)) by tauto. cbn [mbind option_bind].
      rewrite length_drop, Hlz. cbn [Nat.sub Nat.eqb].
      rewrite (bool_decide_true (take 12 addr = _)) by done. destruct (Z.leb_spec 96 ones); [|lia].
      cbn [andb fst snd]. rewrite length_drop, Hl. exists (CIDRMask (ones - 96) 4).
      rewrite drop_masked, CIDRMask_16, drop_app_length' by done. split_and!; [done..|lia|cbn; lia].
    + rewrite (bool_decide_false (take 12 (zip_with _ _ _) = _)) by tauto. cbn [mbind option_bind].
      rewrite Hlz. cbn [Nat.eqb].
      replace (bool_decide (take 12 addr = v4InV6Prefix) && (96 <=? ones)) with false.
      * cbn [fst snd]. exists (CIDRMask ones 16). rewrite Hl. split_and!; [done..|lia|lia].
      * symmetry. apply andb_false_iff. destruct (Z.leb_spec 96 ones); [left|by right].
        apply bool_decide_false. tauto.
Qed.

Lemma IPNet_Contains_block addr ones ip :
  ip_sized addr -> 0 <= ones <= 8 * len addr -> ip_sized ip ->
  IPNet_Contains (cidr_net addr ones) ip = true <-> in_block addr ones ip.
Proof.
  intros Ha Ho Hi. destruct (networkNumber_cidr addr ones Ha Ho) as (m & Hn & Hm & Hr).
  unfold IPNet_Contains, in_block. rewrite Hn. fold (canon ip).
  destruct (block_form addr ones) as [a n]. cbn [fst snd] in *.
  rewrite length_zip_with, zip_and_idem, Hm, length_CIDRMask, Nat.min_id.
  rewrite andb_true_iff, Nat.eqb_eq, bool_decide_eq_true.
  split; intros [Hl He]; (split; [done|]).
  - symmetry. apply masked_leading; [done..|by rewrite Hl].
  - rewrite <-Hl at 2. apply masked_leading; [done..|by symmetry].
Qed.

(** ** What a CIDR text says *)

Definition cidr_text (s : list byte) (addr : IP) (ones : Z) : Prop :=
  exists a d, s = a ++ x2f :: d /\ (x2f ∉ a) /\ ParseAddr a = Some addr /\
    d <> [] /\ parse_digits 0 d = Some ones /\ ones <= 8 * len addr.

Lemma parse_digits_mono acc d v : parse_digits acc d = Some v -> 0 <= acc -> acc <= v.
Proof.
  revert acc. induction d as [|b d IH]; intros acc; cbn [parse_digits]; [intros [= ->]; done|].
  unfold is_digit. destruct (_ && _) eqn:E; [|done]. intros Hp Ha. apply andb_true_iff in E as [E _].
  apply Z.leb_le in E. apply IH in Hp; lia.
Qed.

Lemma dtoi_digits d acc i v :
  0 <= acc -> v < 0xFFFFFF -> (d <> [] \/ i <> O) ->
  dtoi d acc i = Some (v, (i + length d)%nat) <-> parse_digits acc d = Some v.
Proof.
  revert acc i. induction d as [|b d IH]; intros acc i Ha Hv Hne; cbn [dtoi parse_digits].
  - destruct (Nat.eqb_spec i 0) as [->|Hi]; [by destruct Hne|].
    cbn [length]. rewrite Nat.add_0_r. split; congruence.
  - destruct (is_digit b) eqn:Hd.
    + assert (0 <= Z_of_byte b - 48) as Hb by (unfold is_digit in Hd; lia).
      destruct (Z.leb_spec 16777215 (10 * acc + (Z_of_byte b - 48))) as [Hbig|Hsm].
      * split; [done|]. intros Hp. apply parse_digits_mono in Hp; lia.
      * cbn [length]. rewrite <-Nat.add_succ_comm. apply IH; [lia|done|by right].
    + destruct (Nat.eqb_spec i 0); (split; [|done]); [done|]. intros [= _ Hl]. cbn in Hl. lia.
Qed.

Lemma dtoi_range d acc i n k : dtoi d acc i = Some (n, k) -> 0 <= acc < 0xFFFFFF -> 0 <= n < 0xFFFFFF.
Proof.
  revert acc i. induction d as [|b d IH]; intros acc i; cbn [dtoi].
  - case_match; [done|]. intros [= <- <-]. done.
  - destruct (is_digit b) eqn:Hd; [|case_match; [done|by intros [= <- <-]]].
    destruct (Z.leb_spec 16777215 (10 * acc + (Z_of_byte b - 48))); [done|]. unfold is_digit in Hd.
    intros Hp Ha. eapply IH; [done|lia].
Qed.

Lemma IndexByte_split s c i : IndexByte s c = Some i <-> exists k, s = take i s ++ c :: k /\ (c ∉ take i s) /\ k = drop (S i) s.
Proof.
  revert i. induction s as [|b s IH]; intros i; cbn [IndexByte].
  - split; [done|]. intros (k & Hk & _). destruct i; done.
  - case_decide as Hb.
    + subst b. split; [intros [= <-]; exists s; split_and!; [done|apply not_elem_of_nil|done]|].
      intros (k & Hk & Hn & _). destruct i as [|i]; [done|]. cbn in Hn. set_solver.
    + destruct i as [|i]; cbn.
      * split; [destruct (IndexByte s c); done|]. intros (k & Hk & _). congruence.
      * rewrite fmap_Some. split.
        -- intros (j & Hj & [= ->]). apply IH in Hj as (k & Hk & Hn & ->). exists (drop (S j) s).
           split_and!; [by rewrite Hk at 1|set_solver|done].
        -- intros (k & Hk & Hn & ->). exists i. split; [|done]. apply IH. exists (drop (S i) s).
           split_and!; [congruence|set_solver|done].
Qed.

Lemma ParseCIDR_text s n :
  ParseCIDR s = Some n <-> exists addr ones, cidr_text s addr ones /\ 0 <= ones /\ n = cidr_net addr ones.
Proof.
  unfold ParseCIDR, cidr_text, cidr_net. split.
  - destruct (IndexByte s x2f) as [i|] eqn:Ei; [|done]. cbn [mbind option_bind].
    apply IndexByte_split in Ei as (k & Hs & Hn & ->).
    destruct (ParseAddr (take i s)) as [addr|] eqn:Ea; [|done]. cbn [mbind option_bind].
    destruct (dtoi _ 0 0) as [[ones digits]|] eqn:Ed; [|done]. cbn [mbind option_bind].
    destruct (Nat.eqb_spec digits (length (drop (S i) s))) as [->|]; [|done]. cbn [negb orb].
    destruct (Z.ltb_spec (8 * len addr) ones); [done|]. intros [= <-].
    exists addr, ones. pose proof (dtoi_range _ _ _ _ _ Ed ltac:(lia)).
    split_and!; [|lia|done]. exists (take i s), (drop (S i) s).
    assert (drop (S i) s <> []) by (intros E; rewrite E in Ed; done).
    split_and!; try done. apply (dtoi_digits _ 0 0); [lia..|by left|done].
  - intros (addr & ones & (a & d & -> & Hn & Ha & Hd & Hp & Ho) & H0 & ->).
    assert (IndexByte (a ++ x2f :: d) x2f = Some (length a)) as ->.
    { apply IndexByte_split. exists d. rewrite take_app_length. split_and!; [done..|].
      by rewrite (cons_middle x2f), (assoc_L (++)), drop_app_length' by (rewrite length_app; cbn; lia). }
    cbn [mbind option_bind]. rewrite take_app_length, Ha. cbn [mbind option_bind].
    replace (drop (S (length a)) (a ++ x2f :: d)) with d
      by by rewrite (cons_middle x2f), (assoc_L (++)), drop_app_length' by (rewrite length_app; cbn; lia).
    assert (len addr <= 16) by (apply ParseAddr_sized in Ha as [Ha|Ha]; unfold len; lia).
    assert (dtoi d 0 0 = Some (ones, length d)) as ->.
    { apply (dtoi_digits d 0 0); [lia|lia|by left|done]. }
    cbn [mbind option_bind]. rewrite Nat.eqb_refl. cbn [negb orb].
    destruct (Z.ltb_spec (8 * len addr) ones); [lia|done].
Qed.
