(* ===== verification/ExcluderProof.v ===== *)
(** * What the capture filter drops

    The meaning of the configured rules for a packet, in terms of how frames are
    laid out, and the theorems that the bounded parse of [Excluder] decides it. *)

From S2P Require Import Prelude Bytes Net Excluder.

(** ** The reference: frames *)

(** A VLAN tag: its type and two bytes of control information. *)
Definition tag_bytes (t : Z * list byte) : list byte := be_enc 2 t.1 ++ t.2.
Definition wf_tag (t : Z * list byte) : Prop := is_vlan t.1 = true /\ is_uint 16 t.1 /\ length t.2 = 2%nat.

(** [ip_hosts ty p src dst]: the packet [p] of ether type [ty] goes from [src]
    to [dst].  [tcp_shaped ty p sp dp]: its header names TCP, and right behind the
    IPv4 options or the fixed IPv6 header stand the numbers [sp] and [dp]. *)
Inductive ip_hosts : Z -> list byte -> IP -> IP -> Prop :=
  | hosts_v4 hdr src dst rest :
      length hdr = 12%nat -> length src = 4%nat -> length dst = 4%nat ->
      ip_hosts etherTypeIPv4 (hdr ++ src ++ dst ++ rest) src dst
  | hosts_v6 hdr src dst rest :
      length hdr = 8%nat -> length src = 16%nat -> length dst = 16%nat ->
      ip_hosts etherTypeIPv6 (hdr ++ src ++ dst ++ rest) src dst.

Inductive tcp_shaped : Z -> list byte -> Z -> Z -> Prop :=
  | tcp_v4 b mid tail options sp dp rest :
      5 <= Z_of_byte b mod 16 -> length mid = 8%nat -> length tail = 10%nat ->
      len options = 4 * (Z_of_byte b mod 16) - 20 -> is_uint 16 sp -> is_uint 16 dp ->
      tcp_shaped etherTypeIPv4
        ([b] ++ mid ++ [x06] ++ tail ++ options ++ be_enc 2 sp ++ be_enc 2 dp ++ rest) sp dp
  | tcp_v6 hdr tail sp dp rest :
      length hdr = 6%nat -> length tail = 33%nat -> is_uint 16 sp -> is_uint 16 dp ->
      tcp_shaped etherTypeIPv6 (hdr ++ [x06] ++ tail ++ be_enc 2 sp ++ be_enc 2 dp ++ rest) sp dp.

(** The fragment offset of an IPv4 packet, in units of eight bytes. *)
Definition fragment_offset (p : list byte) : Z := be_u16 6 p mod 2 ^ 13.

(** [p] starts a TCP segment from port [sp] to [dp]: a fragment of an IPv4 packet
    that is not the first one holds no TCP header. *)
Definition ip_tcp (ty : Z) (p : list byte) (sp dp : Z) : Prop :=
  tcp_shaped ty p sp dp /\ (ty = etherTypeIPv4 -> fragment_offset p = 0).

Section Reference.
Context `{LinkTypes}.

Definition raw_link (lt : Z) : Prop := lt = LinkTypeRaw \/ lt = LinkTypeIPv4 \/ lt = LinkTypeIPv6.

(** [link_payload lt data ty p]: the frame [data] holds the packet [p] of ether
    type [ty], on Ethernet behind at most three VLAN tags. *)
Inductive link_payload (lt : Z) : list byte -> Z -> list byte -> Prop :=
  | payload_ethernet macs tags ty p :
      lt = LinkTypeEthernet -> length macs = 12%nat -> Forall wf_tag tags -> (length tags <= 3)%nat ->
      is_uint 16 ty -> is_vlan ty = false ->
      link_payload lt (macs ++ concat (tag_bytes <$> tags) ++ be_enc 2 ty ++ p) ty p
  | payload_v4 b p :
      raw_link lt -> Z_of_byte b / 16 = 4 -> link_payload lt (b :: p) etherTypeIPv4 (b :: p)
  | payload_v6 b p :
      raw_link lt -> Z_of_byte b / 16 = 6 -> link_payload lt (b :: p) etherTypeIPv6 (b :: p).

(** An address meets an entry of the management list: it is the entry's
    address, or in the entry's block. *)
Definition entry_matches (m : list byte) (ip : IP) : Prop :=
  if bool_decide (x2f ∈ m) then exists addr ones, cidr_text m addr ones /\ in_block addr ones ip
  else exists addr, ParseAddr m = Some addr /\ canon addr = canon ip.

Definition managed (mgmt : list (list byte)) (ip : IP) : Prop :=
  exists m, m ∈ mgmt /\ TrimSpace m <> [] /\ entry_matches (TrimSpace m) ip.

Definition port_listed (excludePorts : list Z) (sp dp : Z) : Prop :=
  (0 < sp /\ sp ∈ excludePorts) \/ (0 < dp /\ dp ∈ excludePorts).

Definition excluded (lt : Z) (excludePorts : list Z) (mgmt : list (list byte)) (data : list byte) : Prop :=
  exists ty p, link_payload lt data ty p /\
    ((exists src dst, ip_hosts ty p src dst /\ (managed mgmt src \/ managed mgmt dst)) \/
     (exists sp dp, ip_tcp ty p sp dp /\ port_listed excludePorts sp dp)).

(** A later IPv4 fragment of a TCP segment whose payload begins like a port that
    is listed. *)
Definition mistaken (lt : Z) (excludePorts : list Z) (data : list byte) : Prop :=
  exists p sp dp, link_payload lt data etherTypeIPv4 p /\ 0 < fragment_offset p /\
    tcp_shaped etherTypeIPv4 p sp dp /\ port_listed excludePorts sp dp.

(** ** Rules *)

(** What an excluder holds after [NewExcluder]. *)
Record wf_excluder (e : Excluder) : Prop := {
  we_ports : forall p, p ∈ ports e -> 0 < p < 2 ^ 16;
  we_hosts : Forall (fun h => length h = 16%nat) (hosts e);
  we_nets : Forall (fun n => exists addr ones, ip_sized addr /\ 0 <= ones <= 8 * len addr /\
              n = cidr_net addr ones) (nets e)
}.

Definition rule_host (e : Excluder) (ip : IP) : Prop :=
  (exists h, h ∈ hosts e /\ IP_Equal h ip = true) \/ (exists n, n ∈ nets e /\ IPNet_Contains n ip = true).

Lemma matchHost_rule e ip : matchHost e ip = true <-> rule_host e ip.
Proof.
  unfold matchHost, rule_host. rewrite orb_true_iff, !existsb_exists.
  by setoid_rewrite list_elem_of_In.
Qed.

Lemma Contains_slash m : Contains m [x2f] = bool_decide (x2f ∈ m).
Proof.
  induction m as [|b m IH]; cbn [Contains]; [by vm_compute|]. rewrite IH. unfold HasPrefix. cbn.
  apply eq_true_iff_eq. rewrite orb_true_iff, !bool_decide_eq_true, elem_of_cons. split.
  - intros [[= ->]|Hm]; [by left|by right].
  - intros [<-|Hm]; [by left|by right].
Qed.

Lemma canon_As16 ip : ip_sized ip -> canon (As16 ip) = canon ip.
Proof.
  intros [Hl|Hl]; unfold As16; rewrite Hl; cbn [Nat.eqb]; [|done].
  rewrite canon_16 by (rewrite length_app, Hl; done). rewrite (canon_4 ip) by done.
  rewrite decide_True by by rewrite take_app_length'. by rewrite drop_app_length'.
Qed.

Lemma length_As16 ip : ip_sized ip -> length (As16 ip) = 16%nat.
Proof. intros [Hl|Hl]; unfold As16; rewrite Hl; cbn [Nat.eqb]; [by rewrite length_app, Hl|done]. Qed.

Lemma cidr_text_range m addr ones : cidr_text m addr ones -> ip_sized addr /\ 0 <= ones <= 8 * len addr.
Proof.
  intros (a & d & -> & _ & Ha & _ & Hp & Ho). apply parse_digits_mono in Hp; [|lia].
  by apply ParseAddr_sized in Ha.
Qed.

(** One entry adds one rule, or none. *)
Lemma add_mgmt_spec e m :
  wf_excluder e ->
  wf_excluder (add_mgmt e m) /\ linkType (add_mgmt e m) = linkType e /\ ports (add_mgmt e m) = ports e /\
  forall ip, ip_sized ip ->
    rule_host (add_mgmt e m) ip <-> rule_host e ip \/ TrimSpace m <> [] /\ entry_matches (TrimSpace m) ip.
Proof.
  intros [Hp Hh Hn]. unfold add_mgmt, entry_matches. set (t := TrimSpace m). case_bool_decide as Ht.
  { split_and!; [done..|]. intros ip _. tauto. }
  rewrite Contains_slash. case_bool_decide as Hs.
  - destruct (ParseCIDR t) as [n|] eqn:En.
    + pose proof En as En'. apply ParseCIDR_text in En' as (addr & ones & Htx & _ & ->).
      destruct (cidr_text_range _ _ _ Htx) as [Ha Ho].
      split_and!; [split; cbn; [done..|]|done..|].
      { apply Forall_app. split; [done|]. constructor; [|done]. by exists addr, ones. }
      intros ip Hip. unfold rule_host. cbn [hosts nets]. setoid_rewrite elem_of_app. setoid_rewrite list_elem_of_singleton.
      split.
      * intros [Hl|(n & [Hin| ->] & Hc)]; [by left; left|by left; right; exists n|].
        right. split; [done|]. exists addr, ones. split; [done|]. by apply IPNet_Contains_block in Hc.
      * intros [[Hl|(n & Hin & Hc)]|(_ & addr' & ones' & Htx' & Hb)].
        -- by left.
        -- right. exists n. tauto.
        -- right. exists (cidr_net addr' ones'). destruct (cidr_text_range _ _ _ Htx') as [Ha' Ho'].
           split; [right|by apply IPNet_Contains_block].
           assert (ParseCIDR t = Some (cidr_net addr' ones')) as E'
             by (apply ParseCIDR_text; exists addr', ones'; split_and!; [done|lia|done]).
           congruence.
    + split_and!; [done..|]. intros ip _. split; [tauto|]. intros [?|(_ & addr & ones & Htx & _)]; [done|].
      destruct (cidr_text_range _ _ _ Htx) as [_ Ho].
      assert (ParseCIDR t = Some (cidr_net addr ones)) by (apply ParseCIDR_text; exists addr, ones; split_and!; [done|lia|done]).
      congruence.
  - unfold ParseIP. destruct (ParseAddr t) as [a|] eqn:Ea; cbn [fmap option_fmap option_map].
    + pose proof (ParseAddr_sized _ _ Ea) as Ha. split_and!; [split; cbn; [done| |done]|done..|].
      { apply Forall_app. split; [done|]. constructor; [by apply length_As16|done]. }
      intros ip Hip. unfold rule_host. cbn [hosts nets]. setoid_rewrite elem_of_app. setoid_rewrite list_elem_of_singleton.
      assert (IP_Equal (As16 a) ip = true <-> canon a = canon ip) as Heq.
      { rewrite IP_Equal_canon, bool_decide_eq_true, canon_As16 by (try done; right; by apply length_As16). done. }
      split.
      * intros [(h & [Hin| ->] & Hc)|Hl]; [left; left; by exists h| |by left; right].
        right. split; [done|]. exists a. split; [done|]. by apply Heq.
      * intros [[(h & Hin & Hc)|Hl]|(_ & a' & [= <-] & Hc)]; [left; exists h; tauto|by right|].
        left. exists (As16 a). split; [by right|by apply Heq].
    + split_and!; [done..|]. intros ip _. split; [tauto|]. by intros [?|(_ & a & [=] & _)].
Qed.

Lemma add_port_spec e p :
  wf_excluder e ->
  wf_excluder (add_port e p) /\ linkType (add_port e p) = linkType e /\
  hosts (add_port e p) = hosts e /\ nets (add_port e p) = nets e /\
  forall q, is_uint 16 q -> q ∈ ports (add_port e p) <-> q ∈ ports e \/ q = p /\ 0 < q.
Proof.
  intros [Hp Hh Hn]. unfold add_port. destruct ((0 <? p) && (p <=? 65535)) eqn:E.
  - assert (0 < p <= 65535) as Hr by lia.
    rewrite u16_small by (unfold is_uint; lia). split_and!; [split; cbn; [|done..]|done..|].
    + intros q. rewrite elem_of_union, elem_of_singleton. intros [->|Hq]; [lia|by apply Hp].
    + intros q Hq. cbn [ports]. rewrite elem_of_union, elem_of_singleton. split; [|tauto].
      intros [->|Hi]; [right; split; [done|lia]|by left].
  - split_and!; [done..|]. intros q Hq. split; [tauto|]. intros [?|[-> ?]]; [done|]. unfold is_uint in Hq. lia.
Qed.

Lemma foldl_add_port ps e :
  wf_excluder e ->
  wf_excluder (foldl add_port e ps) /\ linkType (foldl add_port e ps) = linkType e /\
  hosts (foldl add_port e ps) = hosts e /\ nets (foldl add_port e ps) = nets e /\
  forall q, is_uint 16 q -> q ∈ ports (foldl add_port e ps) <-> q ∈ ports e \/ 0 < q /\ q ∈ ps.
Proof.
  revert e. induction ps as [|p ps IH]; intros e He; cbn [foldl].
  - split_and!; [done..|]. intros q _. rewrite elem_of_nil. tauto.
  - destruct (add_port_spec e p He) as (Hw & Hl & Hh & Hn & Hp).
    destruct (IH _ Hw) as (Hw' & Hl' & Hh' & Hn' & Hp'). split_and!; [done|congruence..|].
    intros q Hq. rewrite Hp', Hp, elem_of_cons by done. naive_solver.
Qed.

Lemma foldl_add_mgmt ms e :
  wf_excluder e ->
  wf_excluder (foldl add_mgmt e ms) /\ linkType (foldl add_mgmt e ms) = linkType e /\
  ports (foldl add_mgmt e ms) = ports e /\
  forall ip, ip_sized ip -> rule_host (foldl add_mgmt e ms) ip <-> rule_host e ip \/ managed ms ip.
Proof.
  revert e. induction ms as [|m ms IH]; intros e He; cbn [foldl].
  - split_and!; [done..|]. intros ip _. split; [by left|]. intros [?|(m & Hm & _)]; [done|].
    by apply elem_of_nil in Hm.
  - destruct (add_mgmt_spec e m He) as (Hw & Hl & Hp & Hr).
    destruct (IH _ Hw) as (Hw' & Hl' & Hp' & Hr'). split_and!; [done|congruence..|].
    intros ip Hip. rewrite Hr', Hr by done. unfold managed. setoid_rewrite elem_of_cons. split.
    + intros [[?|?]|(x & ? & ?)]; [by left|right; exists m; tauto|right; exists x; tauto].
    + intros [?|(x & [->|?] & ?)]; [tauto|tauto|]. right. by exists x.
Qed.

Lemma NewExcluder_spec lt ps ms :
  let e := NewExcluder lt ps ms in
  wf_excluder e /\ linkType e = lt /\
  (forall q, is_uint 16 q -> q ∈ ports e <-> 0 < q /\ q ∈ ps) /\
  (forall ip, ip_sized ip -> rule_host e ip <-> managed ms ip).
Proof.
  cbn zeta. unfold NewExcluder. set (e0 := mkExcluder lt ∅ [] []).
  assert (wf_excluder e0) as H0 by (split; cbn; [intros p Hp; by apply elem_of_empty in Hp|done..]).
  destruct (foldl_add_port ps e0 H0) as (Hw & Hl & Hh & Hn & Hp).
  destruct (foldl_add_mgmt ms _ Hw) as (Hw' & Hl' & Hp' & Hr). split_and!; [done|by rewrite Hl', Hl|..].
  - intros q Hq. rewrite Hp', Hp by done. cbn. rewrite elem_of_empty. tauto.
  - intros ip Hip. rewrite Hr by done. unfold rule_host. rewrite Hh, Hn. cbn. split; [|by right].
    intros [[(h & Hin & _)|(n & Hin & _)]|?]; [by apply elem_of_nil in Hin..|done].
Qed.

End Reference.

(** ** The parse *)

Lemma subslice_shift pre p i j : subslice (pre ++ p) (length pre + i) (length pre + j) = subslice p i j.
Proof.
  unfold subslice. replace (length pre + i <=? length pre + j)%nat with (i <=? j)%nat
    by (apply eq_true_iff_eq; rewrite !Nat.leb_le; lia).
  replace (length pre + j <=? length (pre ++ p))%nat with (j <=? length p)%nat
    by (apply eq_true_iff_eq; rewrite !Nat.leb_le, length_app; lia).
  case_match; [|done]. f_equal. unfold slice. rewrite drop_app_add. f_equal. lia.
Qed.

Lemma index_shift pre p i : index (pre ++ p) (length pre + i) = index p i.
Proof. unfold index. rewrite lookup_app_r by lia. f_equal. lia. Qed.

Lemma uint16_at_shift pre p i : uint16_at (pre ++ p) (length pre + i) = uint16_at p i.
Proof. unfold uint16_at. by rewrite <-Nat.add_assoc, subslice_shift. Qed.

Lemma subslice_mid i j a b c :
  length a = i -> length b = (j - i)%nat -> (i <= j)%nat -> subslice (a ++ b ++ c) i j = Some b.
Proof.
  intros <- Hb Hij. unfold subslice. rewrite (proj2 (Nat.leb_le _ _)) by done.
  rewrite (proj2 (Nat.leb_le _ _)) by (rewrite !length_app; lia). cbn [andb].
  by rewrite slice_app_exact.
Qed.

Lemma uint16_at_mid i a z c : length a = i -> is_uint 16 z -> uint16_at (a ++ be_enc 2 z ++ c) i = Some z.
Proof.
  intros Ha Hz. unfold uint16_at. rewrite (subslice_mid i (i + 2) a) by (rewrite ?length_be_enc; lia).
  cbn [fmap option_fmap option_map]. f_equal. by apply be_dec_enc_small.
Qed.

(** Data long enough at [i] holds a number there. *)
Lemma split_uint16 (l : list byte) : (2 <= length l)%nat -> exists z k, is_uint 16 z /\ l = be_enc 2 z ++ k.
Proof.
  intros Hl. exists (be_dec (take 2 l)), (drop 2 l). split.
  - apply (be_range 0 2 l).
  - assert (be_enc 2 (be_dec (take 2 l)) = take 2 l) as ->; [|by rewrite take_drop].
    apply (be_enc_slice 2 0 l). lia.
Qed.

Lemma split_at {A} n (l : list A) : (n <= length l)%nat -> exists a b, l = a ++ b /\ length a = n.
Proof. intros Hl. exists (take n l), (drop n l). by rewrite take_drop, length_take_le. Qed.

Section Parse.
Context `{LinkTypes}.

Definition wf_ethertype (ty : Z) : Prop := is_uint 16 ty /\ is_vlan ty = false.

Lemma skip_vlan_spec k data pre t rest :
  data = pre ++ be_enc 2 t ++ rest -> is_uint 16 t ->
  exists r, skip_vlan data k (length pre + 2) t = Some r /\
    forall ty p, wf_ethertype ty ->
      (exists off, r = Some (off, ty) /\ p = drop off data /\ (off <= length data)%nat) <->
      exists tags, Forall wf_tag tags /\ (length tags <= k)%nat /\
        be_enc 2 t ++ rest = concat (tag_bytes <$> tags) ++ be_enc 2 ty ++ p.
Proof.
  revert pre t rest. induction k as [|k IH]; intros pre t rest Hd Ht.
  all: assert (length (be_enc 2 t) = 2%nat) as Hl2 by apply length_be_enc.
  all: assert (drop (length pre + 2) data = rest) as Hdrop
    by (by rewrite Hd, (assoc_L (++)), drop_app_length' by (rewrite length_app; lia)).
  all: assert (length pre + 2 <= length data)%nat as Hlen by (rewrite Hd, !length_app; lia).
  all: assert (forall ty p, wf_ethertype ty -> (exists off, Some (length pre + 2, t)%nat = Some (off, ty) /\
      p = drop off data /\ (off <= length data)%nat) <-> be_enc 2 t ++ rest = be_enc 2 ty ++ p) as Hhere.
  1, 3: intros ty p [Hty _]; split;
    [intros (off & [= <- <-] & -> & _); by rewrite Hdrop
    |intros He; apply app_inj_1 in He as [He ->]; [|by rewrite !length_be_enc];
     exists (length pre + 2)%nat; split_and!; [|done..]; do 2 f_equal;
     by rewrite <-(be_dec_enc_small 2 t), He, be_dec_enc_small].
  - exists (Some (length pre + 2, t)%nat). split; [done|]. intros ty p Hty. rewrite Hhere by done. split.
    + intros He. by exists [].
    + intros (tags & _ & Hk & He). destruct tags; [done|cbn in Hk; lia].
  - cbn [skip_vlan]. destruct (is_vlan t) eqn:Hv.
    2:{ exists (Some (length pre + 2, t)%nat). split; [done|]. intros ty p Hty. rewrite Hhere by done. split.
        - intros He. exists []. split_and!; [done|cbn; lia|done].
        - intros ([|tag tags] & Hw & _ & He); [done|]. exfalso.
          apply Forall_cons in Hw as [(Hvt & Hut & _) _]. cbn [fmap list_fmap concat] in He. unfold tag_bytes in He at 1.
          rewrite <-!(assoc_L (++)) in He. apply app_inj_1 in He as [He _]; [|by rewrite !length_be_enc].
          assert (t = tag.1) by (by rewrite <-(be_dec_enc_small 2 t), He, be_dec_enc_small). congruence. }
    assert (forall ty p tags, wf_ethertype ty -> Forall wf_tag tags ->
      be_enc 2 t ++ rest = concat (tag_bytes <$> tags) ++ be_enc 2 ty ++ p ->
      exists tci tags', tags = (t, tci) :: tags' /\ length tci = 2%nat /\
        rest = tci ++ concat (tag_bytes <$> tags') ++ be_enc 2 ty ++ p) as Htag.
    { intros ty p tags [Hty Hnv] Hw He. destruct tags as [|[t' tci] tags].
      - exfalso. cbn [fmap list_fmap concat app] in He. apply app_inj_1 in He as [He _]; [|by rewrite !length_be_enc].
        assert (t = ty) by (by rewrite <-(be_dec_enc_small 2 t), He, be_dec_enc_small). congruence.
      - apply Forall_cons in Hw as [(_ & Hut & Hlt) _]. cbn [fst snd] in Hut, Hlt. cbn [fmap list_fmap concat] in He. unfold tag_bytes in He at 1. cbn [fst snd] in He.
        rewrite <-!(assoc_L (++)) in He. apply app_inj_1 in He as [He Hr]; [|by rewrite !length_be_enc].
        assert (t = t') as -> by (by rewrite <-(be_dec_enc_small 2 t), He, be_dec_enc_small).
        by exists tci, tags. }
    destruct (Nat.ltb_spec (length data) (length pre + 2 + 4)) as [Hs|Hs].
    + exists None. split; [done|]. intros ty p Hty. split; [by intros (? & [=] & _)|].
      intros (tags & Hw & _ & He). apply Htag in He as (tci & tags' & -> & Htci & ->); [|done..].
      rewrite Hd, !length_app, !length_be_enc in Hs. lia.
    + destruct (split_at 2 rest) as (tci & rest1 & -> & Htci); [rewrite Hd, !length_app in Hs; lia|].
      destruct (split_uint16 rest1) as (t1 & rest2 & Ht1 & ->); [rewrite Hd, !length_app in Hs; lia|].
      destruct (IH (pre ++ be_enc 2 t ++ tci) t1 rest2) as (r & Hr & Hspec); [by rewrite Hd, <-!(assoc_L (++))|done|].
      assert (length (pre ++ be_enc 2 t ++ tci) = length pre + 2 + 2)%nat as Hlp by (rewrite !length_app; lia).
      assert (uint16_at data (length pre + 2 + 2) = Some t1) as ->.
      { rewrite Hd. rewrite (assoc_L (++) (be_enc 2 t)), (assoc_L (++) pre). by apply uint16_at_mid. }
      cbn [mbind option_bind]. rewrite Hlp in Hr.
      replace (length pre + 2 + 4)%nat with (length pre + 2 + 2 + 2)%nat by lia.
      exists r. split; [done|]. intros ty p Hty. rewrite Hspec by done. split.
      * intros (tags & Hw & Hk & He). exists ((t, tci) :: tags). split_and!; [|cbn; lia|].
        { constructor; [done|done]. }
        cbn [fmap list_fmap concat]. unfold tag_bytes at 1. cbn [fst snd]. rewrite <-!(assoc_L (++)), <-He. done.
      * intros (tags & Hw & Hk & He). apply Htag in He as (tci' & tags' & -> & Htci' & Hrest); [|done..].
        apply app_inj_1 in Hrest as [<- Hrest]; [|lia]. exists tags'. apply Forall_cons in Hw as [_ Hw].
        split_and!; [done|cbn in Hk; lia|done].
Qed.

(** Where the payload of a frame lies. *)
Lemma l3Offset_spec e data :
  exists r, l3Offset e data = Some r /\
    forall ty p, ty = etherTypeIPv4 \/ ty = etherTypeIPv6 ->
      (exists off, r = Some (off, ty) /\ p = drop off data /\ (off <= length data)%nat) <->
      link_payload (linkType e) data ty p.
Proof.
  pose proof LinkTypeEthernet_differs as (Hd1 & Hd2 & Hd3).
  assert (forall ty, ty = etherTypeIPv4 \/ ty = etherTypeIPv6 -> wf_ethertype ty) as Hwf
    by (intros ty [-> | ->]; by vm_compute).
  unfold l3Offset. destruct (Z.eqb_spec (linkType e) LinkTypeEthernet) as [He|He].
  - destruct (Nat.ltb_spec (length data) 14) as [Hs|Hs].
    + exists None. split; [done|]. intros ty p Hty. split; [by intros (? & [=] & _)|]. intros Hp. exfalso.
      destruct Hp as [macs tags ty p Hlt Hm Htg Hk Hu Hv|b p [Hr|[Hr|Hr]] Hb|b p [Hr|[Hr|Hr]] Hb]; try congruence.
      rewrite !length_app, length_be_enc in Hs. lia.
    + destruct (split_at 12 data) as (macs & rest & -> & Hm); [lia|]. rewrite length_app in Hs.
      destruct (split_uint16 rest) as (t & rest' & Ht & ->); [lia|].
      rewrite (uint16_at_mid 12) by done. cbn [mbind option_bind].
      destruct (skip_vlan_spec 3 _ macs t rest' eq_refl Ht) as (r & Hr & Hspec).
      rewrite Hm in Hr. exists r. split; [done|]. intros ty p Hty. rewrite Hspec by auto. split.
      * intros (tags & Hw & Hk & Heq). rewrite Heq. destruct (Hwf ty Hty). by constructor.
      * intros Hp. inversion Hp as [macs' tags ty' p' Hlt Hm' Htg Hk Hu Hv Heq|b p' [Hr'|[Hr'|Hr']] Hb Heq
          |b p' [Hr'|[Hr'|Hr']] Hb Heq]; try congruence. subst.
        apply app_inj_1 in Heq as [<- Heq]; [|lia]. by exists tags.
  - destruct ((linkType e =? LinkTypeRaw) || (linkType e =? LinkTypeIPv4) || (linkType e =? LinkTypeIPv6)) eqn:Er.
    + assert (raw_link (linkType e)) as Hraw by (unfold raw_link; lia).
      destruct data as [|b data].
      { exists None. split; [done|]. intros ty p Hty. split; [by intros (? & [=] & _)|]. intros Hp. exfalso.
        inversion Hp as [macs tags ty' p' Hlt Hm Htg Hk Hu Hv Heq|b p' _ Hb Heq|b p' _ Hb Heq]. by destruct macs. }
      cbn [length Nat.ltb Nat.leb index lookup list_lookup mbind option_bind].
      rewrite Z.shiftr_div_pow2 by lia. change (2 ^ 4) with 16.
      set (r := if Z_of_byte b / 16 =? 4 then Some (O, etherTypeIPv4)
                else if Z_of_byte b / 16 =? 6 then Some (O, etherTypeIPv6) else None).
      exists r. split; [unfold r; by repeat case_match|]. intros ty p Hty. split.
      * intros (off & Hro & -> & _). unfold r in Hro.
        destruct (Z.eqb_spec (Z_of_byte b / 16) 4) as [H4|H4]; [injection Hro as <- <-; by constructor|].
        destruct (Z.eqb_spec (Z_of_byte b / 16) 6) as [H6|H6]; [injection Hro as <- <-; by constructor|done].
      * intros Hp. exists O. unfold r.
        inversion Hp as [macs tags ty' p' Hlt Hm Htg Hk Hu Hv Heq|b' p' _ Hb Heq|b' p' _ Hb Heq]; [done|..]; subst;
          rewrite Hb; split_and!; [done..|lia|done|done|lia].
    + exists None. split; [done|]. intros ty p Hty. split; [by intros (? & [=] & _)|]. intros Hp. exfalso.
      destruct Hp as [macs tags ty p Hlt Hm Htg Hk Hu Hv|b p [Hr|[Hr|Hr]] Hb|b p [Hr|[Hr|Hr]] Hb]; try done; lia.
Qed.

Lemma match_hosts_spec e a src dst rest i j k :
  length a = i -> length src = (j - i)%nat -> length dst = (k - j)%nat -> (i <= j <= k)%nat ->
  match_hosts e (a ++ src ++ dst ++ rest) i j k = Some (matchHost e src || matchHost e dst).
Proof.
  intros Ha Hs Hd Hij. unfold match_hosts.
  destruct ((0 <? length (hosts e))%nat || (0 <? length (nets e))%nat) eqn:E.
  - rewrite (subslice_mid i j a src) by lia. cbn [mbind option_bind].
    destruct (matchHost e src); [done|]. rewrite (assoc_L (++) a).
    rewrite (subslice_mid j k (a ++ src) dst); [done|rewrite length_app; lia|lia|lia].
  - apply orb_false_iff in E as [Eh En]. unfold matchHost.
    destruct (hosts e); [|done]. by destruct (nets e).
Qed.

(** [ports_match e sp dp]: one of the ports has a rule. *)
Definition ports_match (e : Excluder) (sp dp : Z) : bool := bool_decide (sp ∈ ports e) || bool_decide (dp ∈ ports e).

Lemma ports_match_active e sp dp : ports_match e sp dp = true -> (size (ports e) =? 0)%nat = false.
Proof.
  unfold ports_match. intros Hp. apply Nat.eqb_neq. intros Hz. apply size_empty_inv in Hz.
  rewrite orb_true_iff, !bool_decide_eq_true in Hp. set_solver.
Qed.

Lemma matchTCPPort_mid e a sp dp rest off :
  length a = off -> is_uint 16 sp -> is_uint 16 dp ->
  matchTCPPort e (a ++ be_enc 2 sp ++ be_enc 2 dp ++ rest) off = Some (ports_match e sp dp).
Proof.
  intros Ha Hs Hd. unfold matchTCPPort. destruct (Nat.ltb_spec (length (a ++ be_enc 2 sp ++ be_enc 2 dp ++ rest)) (off + 4)) as [Hl|Hl].
  { rewrite !length_app, !length_be_enc in Hl. lia. }
  rewrite (uint16_at_mid off a sp) by done. cbn [mbind option_bind]. rewrite (assoc_L (++) a).
  rewrite (uint16_at_mid (off + 2) (a ++ be_enc 2 sp) dp); [done|rewrite length_app, length_be_enc; lia|done].
Qed.

(** The ports [sp] and [dp] stand at [off]. *)
Definition ports_at (p : list byte) (off : nat) (sp dp : Z) : Prop :=
  exists a more, p = a ++ be_enc 2 sp ++ be_enc 2 dp ++ more /\ length a = off /\ is_uint 16 sp /\ is_uint 16 dp.

Lemma ports_inj sp dp sp' dp' (k k' : list byte) :
  is_uint 16 sp -> is_uint 16 dp -> is_uint 16 sp' -> is_uint 16 dp' ->
  be_enc 2 sp ++ be_enc 2 dp ++ k = be_enc 2 sp' ++ be_enc 2 dp' ++ k' -> sp = sp' /\ dp = dp'.
Proof.
  intros ? ? ? ? Heq. apply app_inj_1 in Heq as [Hs Heq]; [|by rewrite !length_be_enc].
  apply app_inj_1 in Heq as [Hd _]; [|by rewrite !length_be_enc].
  split; [rewrite <-(be_dec_enc_small 2 sp), Hs|rewrite <-(be_dec_enc_small 2 dp), Hd]; by rewrite ?be_dec_enc_small.
Qed.

Lemma matchTCPPort_spec e p off :
  exists b, matchTCPPort e p off = Some b /\
    (b = true <-> exists sp dp, ports_at p off sp dp /\ ports_match e sp dp = true).
Proof.
  destruct (Nat.ltb_spec (length p) (off + 4)) as [Hl|Hl].
  - exists false. split; [unfold matchTCPPort; by rewrite (proj2 (Nat.ltb_lt _ _))|]. split; [done|].
    intros (sp & dp & (a & more & -> & Ha & _) & _). rewrite !length_app, !length_be_enc in Hl. lia.
  - destruct (split_at off p) as (a & k & -> & Ha); [lia|]. rewrite length_app in Hl.
    destruct (split_uint16 k) as (sp & k' & Hs & ->); [lia|]. rewrite length_app, length_be_enc in Hl.
    destruct (split_uint16 k') as (dp & rest & Hd & ->); [lia|].
    exists (ports_match e sp dp). split; [by apply matchTCPPort_mid|]. split.
    + intros Hm. exists sp, dp. split; [by exists a, rest|done].
    + intros (sp' & dp' & (a' & more & Heq & Ha' & Hs' & Hd') & Hm).
      apply app_inj_1 in Heq as [_ Heq]; [|lia]. by apply ports_inj in Heq as [-> ->].
Qed.

Lemma matchTCPPort_shift e pre p off :
  matchTCPPort e (pre ++ p) (length pre + off) = matchTCPPort e p off.
Proof.
  unfold matchTCPPort. replace (length pre + off + 2)%nat with (length pre + (off + 2))%nat by lia.
  rewrite !uint16_at_shift, length_app.
  replace (length pre + length p <? length pre + off + 4)%nat with (length p <? off + 4)%nat; [done|].
  apply eq_true_iff_eq. rewrite !Nat.ltb_lt. lia.
Qed.

Lemma match_hosts_shift e pre p i j k :
  match_hosts e (pre ++ p) (length pre + i) (length pre + j) (length pre + k) = match_hosts e p i j k.
Proof. unfold match_hosts. by rewrite !subslice_shift. Qed.

Lemma short_shift (pre p : list byte) n : (length (pre ++ p) <? length pre + n)%nat = (length p <? n)%nat.
Proof. apply eq_true_iff_eq. rewrite !Nat.ltb_lt, length_app. lia. Qed.

Lemma checkIPv4_shift e pre p : checkIPv4 e (pre ++ p) (length pre) = checkIPv4 e p 0.
Proof.
  unfold checkIPv4. rewrite short_shift, match_hosts_shift, index_shift.
  assert (index (pre ++ p) (length pre) = index p 0) as -> by (by rewrite <-(index_shift pre p 0), Nat.add_0_r).
  cbn [Nat.add]. case_match; [done|]. destruct (match_hosts e p _ _ _) as [[|]|]; [done| |done].
  cbn [mbind option_bind]. case_match; [done|]. destruct (index p 9) as [pr|]; [|done]. cbn [mbind option_bind].
  case_match; [done|]. destruct (index p 0) as [b|]; [|done]. cbn [mbind option_bind].
  by rewrite matchTCPPort_shift.
Qed.

Lemma checkIPv6_shift e pre p : checkIPv6 e (pre ++ p) (length pre) = checkIPv6 e p 0.
Proof. unfold checkIPv6. by rewrite short_shift, match_hosts_shift, index_shift, matchTCPPort_shift. Qed.

Definition rule_packet (e : Excluder) (ty : Z) (p : list byte) : Prop :=
  (exists src dst, ip_hosts ty p src dst /\ (rule_host e src \/ rule_host e dst)) \/
  (exists sp dp, tcp_shaped ty p sp dp /\ ports_match e sp dp = true).

(** Equal lists split at one place. *)
Ltac split_eq Heq :=
  repeat (apply app_inj_1 in Heq as [? Heq]; [|cbn [length]; len_simpl; lia]); subst.

Lemma land_ihl b : Z.land (Z_of_byte b) 15 = Z_of_byte b mod 16.
Proof. change 15 with (Z.ones 4). by rewrite Z.land_ones by lia. Qed.

Lemma ip_hosts_inv ty p src dst :
  ip_hosts ty p src dst -> exists hdr rest, p = hdr ++ src ++ dst ++ rest /\
    ((ty = etherTypeIPv4 /\ length hdr = 12%nat /\ length src = 4%nat /\ length dst = 4%nat) \/
     (ty = etherTypeIPv6 /\ length hdr = 8%nat /\ length src = 16%nat /\ length dst = 16%nat)).
Proof. intros [hdr src' dst' rest|hdr src' dst' rest]; exists hdr, rest; tauto. Qed.

Lemma tcp_shaped_v4_inv p sp dp :
  tcp_shaped etherTypeIPv4 p sp dp -> exists b mid tail options more,
    p = [b] ++ mid ++ [x06] ++ tail ++ options ++ be_enc 2 sp ++ be_enc 2 dp ++ more /\
    5 <= Z_of_byte b mod 16 /\ length mid = 8%nat /\ length tail = 10%nat /\
    len options = 4 * (Z_of_byte b mod 16) - 20 /\ is_uint 16 sp /\ is_uint 16 dp.
Proof.
  intros Hp. inversion Hp as [b mid tail options sp' dp' more|].
  exists b, mid, tail, options, more. subst. tauto.
Qed.

Lemma tcp_shaped_v6_inv p sp dp :
  tcp_shaped etherTypeIPv6 p sp dp -> exists hdr tail more,
    p = hdr ++ [x06] ++ tail ++ be_enc 2 sp ++ be_enc 2 dp ++ more /\
    length hdr = 6%nat /\ length tail = 33%nat /\ is_uint 16 sp /\ is_uint 16 dp.
Proof.
  intros Hp. inversion Hp as [|hdr tail sp' dp' more].
  exists hdr, tail, more. subst. tauto.
Qed.

(** The addresses of a packet. *)
Lemma match_hosts_packet e ty hdr src dst rest i j k :
  (ty = etherTypeIPv4 /\ (i, j, k) = (12, 16, 20)%nat) \/ (ty = etherTypeIPv6 /\ (i, j, k) = (8, 24, 40)%nat) ->
  length hdr = i -> length src = (j - i)%nat -> length dst = (k - j)%nat ->
  let p := hdr ++ src ++ dst ++ rest in
  exists b, match_hosts e p i j k = Some b /\
    (b = true <-> exists src dst, ip_hosts ty p src dst /\ (rule_host e src \/ rule_host e dst)).
Proof.
  intros Hty Hh Hs Hd. cbn zeta. exists (matchHost e src || matchHost e dst).
  split; [apply match_hosts_spec; destruct Hty as [[_ [= -> -> ->]]|[_ [= -> -> ->]]]; lia|].
  rewrite orb_true_iff, !matchHost_rule. split.
  - intros Hm. exists src, dst. split; [|done].
    destruct Hty as [[-> [= -> -> ->]]|[-> [= -> -> ->]]]; by constructor.
  - intros (src' & dst' & Hp & Hm). apply ip_hosts_inv in Hp as (hdr' & rest' & Heq & Hl).
    assert (src' = src /\ dst' = dst) as [-> ->]; [|done].
    destruct Hty as [[-> [= -> -> ->]]|[-> [= -> -> ->]]]; destruct Hl as [([=] & ? & ? & ?)|([=] & ? & ? & ?)];
      split_eq Heq; done.
Qed.

(** Its ports. *)
Lemma tcp_shaped_v4_at b mid pr tail rest sp dp :
  length mid = 8%nat -> length tail = 10%nat ->
  let p := [b] ++ mid ++ [pr] ++ tail ++ rest in
  tcp_shaped etherTypeIPv4 p sp dp <->
  pr = x06 /\ 5 <= Z_of_byte b mod 16 /\ ports_at p (Z.to_nat (Z_of_byte b mod 16 * 4)) sp dp.
Proof.
  intros Hm Ht. cbn zeta. split.
  - intros Hp. apply tcp_shaped_v4_inv in Hp as (b' & mid' & tail' & opts & more & Heq & L1 & L2 & L3 & L4 & U1 & U2).
    unfold ports_at. rewrite Heq. split_eq Heq. assert (b' = b) as -> by congruence. split; [congruence|].
    split; [done|]. exists ([b] ++ mid' ++ [x06] ++ tail' ++ opts), more.
    split_and!; [by rewrite <-!(assoc_L (++))| |done..].
    rewrite !length_app. cbn [length]. unfold len in L4. lia.
  - intros (-> & Hb & a & more & Heq & Ha & U1 & U2).
    destruct (split_at 20 a) as (a1 & opts & -> & Ha1); [lia|]. rewrite length_app in Ha.
    rewrite Heq, <-(assoc_L (++) a1).
    assert (a1 = [b] ++ mid ++ [x06] ++ tail) as ->.
    { rewrite <-(assoc_L (++) a1) in Heq. rewrite !(assoc_L (++)) in Heq. rewrite <-!(assoc_L (++) a1) in Heq.
      apply app_inj_1 in Heq as [Heq _]; [by rewrite <-Heq, <-!(assoc_L (++))|].
      rewrite Ha1, !length_app. cbn [length]. lia. }
    rewrite <-!(assoc_L (++)). constructor; try done; unfold len; lia.
Qed.

Lemma tcp_shaped_v6_at hdr pr tail rest sp dp :
  length hdr = 6%nat -> length tail = 33%nat ->
  let p := hdr ++ [pr] ++ tail ++ rest in
  tcp_shaped etherTypeIPv6 p sp dp <-> pr = x06 /\ ports_at p 40 sp dp.
Proof.
  intros Hh Ht. cbn zeta. split.
  - intros Hp. apply tcp_shaped_v6_inv in Hp as (hdr' & tail' & more & Heq & L1 & L2 & U1 & U2).
    unfold ports_at. rewrite Heq. split_eq Heq. split; [congruence|].
    exists (hdr' ++ [x06] ++ tail'), more. split_and!; [by rewrite <-!(assoc_L (++))| |done..].
    rewrite !length_app. cbn [length]. lia.
  - intros (-> & a & more & Heq & Ha & U1 & U2). rewrite Heq.
    assert (a = hdr ++ [x06] ++ tail) as ->.
    { rewrite !(assoc_L (++)) in Heq. rewrite <-!(assoc_L (++) a) in Heq.
      apply app_inj_1 in Heq as [Heq _]; [by rewrite <-Heq, <-!(assoc_L (++))|].
      rewrite Ha, !length_app. cbn [length]. lia. }
    rewrite <-!(assoc_L (++)). by constructor.
Qed.

(** The end of both checks: the host rules decided [hb], the protocol is [pr]. *)
Lemma rule_packet_or e ty p (hb : bool) (rest : option bool) :
  (hb = true <-> exists src dst, ip_hosts ty p src dst /\ (rule_host e src \/ rule_host e dst)) ->
  (exists b, rest = Some b /\ (b = true <-> exists sp dp, tcp_shaped ty p sp dp /\ ports_match e sp dp = true)) ->
  exists b, (if hb then Some true else if (size (ports e) =? 0)%nat then Some false else rest) = Some b /\
    (b = true <-> rule_packet e ty p).
Proof.
  intros Hh (b & -> & Hb). assert (rule_packet e ty p <-> hb = true \/ b = true) as Hrp by (unfold rule_packet; tauto).
  destruct hb; [exists true; tauto|].
  destruct (size (ports e) =? 0)%nat eqn:Ez.
  - exists false. split; [done|]. split; [done|]. intros [?|Ht]%Hrp; [done|]. apply Hb in Ht as (sp & dp & _ & Hm).
    apply ports_match_active in Hm. congruence.
  - exists b. split; [done|]. rewrite Hrp. split; [by right|by intros [?|?]].
Qed.

Lemma rule_packet_long e ty p :
  rule_packet e ty p -> (ty = etherTypeIPv4 /\ (20 <= length p)%nat) \/ (ty = etherTypeIPv6 /\ (40 <= length p)%nat).
Proof.
  intros [(src & dst & Hp & _)|(sp & dp & Hp & _)].
  - apply ip_hosts_inv in Hp as (hdr & rest & -> & [(-> & ? & ? & ?)|(-> & ? & ? & ?)]); rewrite !length_app; [left|right];
      (split; [done|lia]).
  - destruct Hp; rewrite !length_app; cbn [length]; [left|right]; (split; [done|lia]).
Qed.

Lemma checkIPv4_spec e p :
  exists b, checkIPv4 e p 0 = Some b /\ (b = true <-> rule_packet e etherTypeIPv4 p).
Proof.
  unfold checkIPv4. cbn [Nat.add]. destruct (Nat.ltb_spec (length p) 20) as [Hs|Hs].
  { exists false. split; [done|]. split; [done|]. intros [[_ ?]|[[=] _]]%rule_packet_long. lia. }
  destruct (split_at 20 p) as (h & rest & -> & Hh); [lia|].
  destruct (split_at 12 h) as (hdr & k & -> & Hhdr); [lia|]. rewrite length_app in Hh.
  destruct (split_at 4 k) as (src & dst & -> & Hsrc); [lia|]. rewrite length_app in Hh.
  assert (length dst = 4%nat) as Hdst by lia.
  destruct (split_at 1 hdr) as (v & hdr1 & -> & Hv); [lia|]. rewrite length_app in Hhdr.
  destruct v as [|b [|]]; try done.
  destruct (split_at 8 hdr1) as (mid & hdr2 & -> & Hmid); [lia|]. rewrite length_app in Hhdr.
  destruct hdr2 as [|pr cs]; [cbn in Hhdr; lia|]. cbn [length] in Hhdr.
  destruct (match_hosts_packet e etherTypeIPv4 ([b] ++ mid ++ pr :: cs) src dst rest 12 16 20) as (hb & Hm & Hhb);
    [by left|rewrite !length_app; cbn [length]; lia|lia|lia|].
  rewrite <-!(assoc_L (++)) in *. rewrite Hm. cbn [mbind option_bind]. apply rule_packet_or; [done|].
  change (pr :: cs) with ([pr] ++ cs). rewrite <-!(assoc_L (++)).
  rewrite (assoc_L (++) src dst), (assoc_L (++) cs).
  set (p := [b] ++ mid ++ [pr] ++ (cs ++ src ++ dst) ++ rest) in *.
  assert (index p 9 = Some pr) as ->.
  { unfold p, index. rewrite (assoc_L (++) [b]), lookup_app_r by (rewrite length_app; cbn; lia).
    rewrite length_app, Hmid. done. }
  assert (index p 0 = Some b) as -> by done. cbn [mbind option_bind]. rewrite land_ihl.
  assert (forall sp dp, tcp_shaped etherTypeIPv4 p sp dp <-> pr = x06 /\ 5 <= Z_of_byte b mod 16 /\
    ports_at p (Z.to_nat (Z_of_byte b mod 16 * 4)) sp dp) as Htcp.
  { intros. apply tcp_shaped_v4_at; [done|rewrite !length_app; lia]. }
  setoid_rewrite Htcp.
  destruct (Z.eqb_spec (Z_of_byte pr) ipProtoTCP) as [Hpr|Hpr]; cbn [negb].
  - apply (Z_of_byte_inj pr x06) in Hpr as ->. destruct (Z.ltb_spec (Z_of_byte b mod 16 * 4) 20) as [Hi|Hi].
    { exists false. split; [done|]. split; [done|]. intros (sp & dp & (_ & Hb & _) & _). lia. }
    destruct (matchTCPPort_spec e p (Z.to_nat (Z_of_byte b mod 16 * 4))) as (r & -> & Hr). exists r. split; [done|].
    rewrite Hr. split; intros (sp & dp & Hat & Hpm); exists sp, dp; (split; [|done]); [split_and!; [done|lia|done]|tauto].
  - exists false. split; [done|]. split; [done|]. intros (sp & dp & (-> & _) & _). by destruct Hpr.
Qed.

Lemma checkIPv6_spec e p :
  exists b, checkIPv6 e p 0 = Some b /\ (b = true <-> rule_packet e etherTypeIPv6 p).
Proof.
  unfold checkIPv6. cbn [Nat.add]. destruct (Nat.ltb_spec (length p) 40) as [Hs|Hs].
  { exists false. split; [done|]. split; [done|]. intros [[[=] _]|[_ ?]]%rule_packet_long. lia. }
  destruct (split_at 40 p) as (h & rest & -> & Hh); [lia|].
  destruct (split_at 8 h) as (hdr & k & -> & Hhdr); [lia|]. rewrite length_app in Hh.
  destruct (split_at 16 k) as (src & dst & -> & Hsrc); [lia|]. rewrite length_app in Hh.
  assert (length dst = 16%nat) as Hdst by lia.
  destruct (split_at 6 hdr) as (hdr1 & hdr2 & -> & Hhdr1); [lia|]. rewrite length_app in Hhdr.
  destruct hdr2 as [|pr hop]; [cbn in Hhdr; lia|]. cbn [length] in Hhdr.
  destruct (match_hosts_packet e etherTypeIPv6 (hdr1 ++ pr :: hop) src dst rest 8 24 40) as (hb & Hm & Hhb);
    [by right|rewrite !length_app; cbn [length]; lia|lia|lia|].
  rewrite <-!(assoc_L (++)) in *. rewrite Hm. cbn [mbind option_bind]. apply rule_packet_or; [done|].
  change (pr :: hop) with ([pr] ++ hop). rewrite <-!(assoc_L (++)).
  rewrite (assoc_L (++) src dst), (assoc_L (++) hop).
  set (p := hdr1 ++ [pr] ++ (hop ++ src ++ dst) ++ rest) in *.
  assert (index p 6 = Some pr) as ->.
  { unfold p, index. rewrite lookup_app_r by lia. rewrite Hhdr1. done. }
  cbn [mbind option_bind].
  assert (forall sp dp, tcp_shaped etherTypeIPv6 p sp dp <-> pr = x06 /\ ports_at p 40 sp dp) as Htcp.
  { intros. apply tcp_shaped_v6_at; [done|rewrite !length_app; lia]. }
  setoid_rewrite Htcp.
  destruct (Z.eqb_spec (Z_of_byte pr) ipProtoTCP) as [Hpr|Hpr]; cbn [negb].
  - apply (Z_of_byte_inj pr x06) in Hpr as ->. destruct (matchTCPPort_spec e p 40) as (r & -> & Hr).
    exists r. split; [done|]. rewrite Hr. split; intros (sp & dp & Hat & Hpm); exists sp, dp; tauto.
  - exists false. split; [done|]. split; [done|]. intros (sp & dp & (-> & _) & _). by destruct Hpr.
Qed.

Lemma skip_vlan_within data k off t off' t' :
  skip_vlan data k off t = Some (Some (off', t')) -> (off <= length data)%nat -> (off' <= length data)%nat.
Proof.
  revert off t. induction k as [|k IH]; intros off t; cbn [skip_vlan]; [by intros [= <- <-]|].
  case_match; [|by intros [= <- <-]]. destruct (Nat.ltb_spec (length data) (off + 4)); [done|].
  destruct (uint16_at data (off + 2)) as [t1|]; [|done]. cbn [mbind option_bind]. intros Hs _.
  eapply IH; [done|lia].
Qed.

Lemma l3Offset_within e data off ty : l3Offset e data = Some (Some (off, ty)) -> (off <= length data)%nat.
Proof.
  unfold l3Offset. case_match.
  - destruct (Nat.ltb_spec (length data) 14); [done|].
    destruct (uint16_at data 12) as [t|]; [|done]. cbn [mbind option_bind]. intros Hs. by eapply skip_vlan_within.
  - case_match; [|done]. destruct (Nat.ltb_spec (length data) 1); [done|].
    destruct (index data 0) as [b|]; [|done]. cbn [mbind option_bind]. repeat case_match; intros [=]; subst; lia.
Qed.

(** The whole filter, against the rules it holds. *)
Lemma Exclude_rules e data :
  exists b, Exclude e data = Some b /\
    (b = true <-> exists ty p, link_payload (linkType e) data ty p /\ rule_packet e ty p).
Proof.
  unfold Exclude. destruct (Active e) eqn:Ha; cbn [negb].
  2:{ exists false. split; [done|]. split; [done|]. intros (ty & p & _ & Hr). exfalso.
      unfold Active in Ha. apply orb_false_iff in Ha as [Ha En]. apply orb_false_iff in Ha as [Ep Eh].
      destruct Hr as [(src & dst & _ & Hr)|(sp & dp & _ & Hr)].
      - unfold rule_host in Hr. destruct (hosts e); [|done]. destruct (nets e); [|done].
        destruct Hr as [[(h & Hh & _)|(n & Hn & _)]|[(h & Hh & _)|(n & Hn & _)]]; by eapply elem_of_nil.
      - apply ports_match_active in Hr. apply Nat.eqb_neq in Hr. apply Nat.ltb_ge in Ep. lia. }
  destruct (l3Offset_spec e data) as (r & Hl3 & Hr). rewrite Hl3. cbn [mbind option_bind].
  assert (forall ty p, link_payload (linkType e) data ty p -> rule_packet e ty p ->
    (ty = etherTypeIPv4 \/ ty = etherTypeIPv6) /\ exists off, r = Some (off, ty) /\ p = drop off data) as Hlp.
  { intros ty p Hl Hp. assert (ty = etherTypeIPv4 \/ ty = etherTypeIPv6) as Hty
      by (apply rule_packet_long in Hp as [[-> _]|[-> _]]; auto).
    split; [done|]. apply Hr in Hl as (off & ? & ? & _); [|done]. by exists off. }
  destruct r as [[off ty]|].
  2:{ exists false. split; [done|]. split; [done|]. intros (ty & p & Hl & Hp).
      by destruct (Hlp ty p Hl Hp) as (_ & off & [=] & _). }
  pose proof (l3Offset_within e data off ty Hl3) as Hoff.
  assert (forall q, q = etherTypeIPv4 \/ q = etherTypeIPv6 -> ty = q ->
    (exists ty p, link_payload (linkType e) data ty p /\ rule_packet e ty p) <-> rule_packet e q (drop off data)) as Hgo.
  { intros q Hq ->. split.
    - intros (ty & p & Hl & Hp). by destruct (Hlp ty p Hl Hp) as (_ & off' & [= <- <-] & ->).
    - intros Hp. exists q, (drop off data). split; [|done]. apply Hr; [done|]. by exists off. }
  destruct (Z.eqb_spec ty etherTypeIPv4) as [->|H4].
  { assert (checkIPv4 e data off = checkIPv4 e (drop off data) 0) as ->
      by (by rewrite <-(checkIPv4_shift e (take off data)), take_drop, length_take_le).
    destruct (checkIPv4_spec e (drop off data)) as (b & Hb & Hspec). exists b. split; [done|].
    rewrite Hspec. symmetry. by apply Hgo; [left|]. }
  destruct (Z.eqb_spec ty etherTypeIPv6) as [->|H6].
  { assert (checkIPv6 e data off = checkIPv6 e (drop off data) 0) as ->
      by (by rewrite <-(checkIPv6_shift e (take off data)), take_drop, length_take_le).
    destruct (checkIPv6_spec e (drop off data)) as (b & Hb & Hspec). exists b. split; [done|].
    rewrite Hspec. symmetry. by apply Hgo; [right|]. }
  exists false. split; [done|]. split; [done|]. intros (ty' & p & Hl & Hp).
  destruct (Hlp ty' p Hl Hp) as ([Hty|Hty] & off' & Heq & _); congruence.
Qed.

(** Ports are looked at behind every TCP header and in every later fragment. *)
Lemma shaped_cases ty p sp dp :
  tcp_shaped ty p sp dp <-> ip_tcp ty p sp dp \/ (ty = etherTypeIPv4 /\ 0 < fragment_offset p /\ tcp_shaped ty p sp dp).
Proof.
  assert (0 <= fragment_offset p) as H0 by (by apply Z.mod_pos_bound). unfold ip_tcp. split; [|tauto]. intros Ht.
  destruct (decide (ty = etherTypeIPv4 /\ 0 < fragment_offset p)) as [?|Hn]; [right; tauto|left].
  split; [done|]. intros Hty. destruct (decide (fragment_offset p = 0)); [done|]. exfalso. apply Hn. split; [done|lia].
Qed.

(** What the rules of a configuration say of a packet. *)
Lemma rule_packet_listed lt excludePorts mgmt ty p :
  rule_packet (NewExcluder lt excludePorts mgmt) ty p <->
  (exists src dst, ip_hosts ty p src dst /\ (managed mgmt src \/ managed mgmt dst)) \/
  (exists sp dp, tcp_shaped ty p sp dp /\ port_listed excludePorts sp dp).
Proof.
  destruct (NewExcluder_spec lt excludePorts mgmt) as (_ & _ & Hp & Hh).
  assert (forall ty p src dst, ip_hosts ty p src dst -> ip_sized src /\ ip_sized dst) as Hsz
    by (intros ? ? ? ? [? ? ? ? _ ? ?|? ? ? ? _ ? ?]; unfold ip_sized; auto).
  assert (forall ty p sp dp, tcp_shaped ty p sp dp -> is_uint 16 sp /\ is_uint 16 dp) as Hu by (by intros ? ? ? ? []).
  unfold rule_packet. split; (intros [(src & dst & Hip & Hr)|(sp & dp & Ht & Hr)];
    [left; exists src, dst; split; [done|]; destruct (Hsz _ _ _ _ Hip)|
     right; exists sp, dp; split; [done|]; destruct (Hu _ _ _ _ Ht)]).
  - by rewrite <-!Hh.
  - unfold ports_match in Hr. by rewrite orb_true_iff, !bool_decide_eq_true, !Hp in Hr by done.
  - by rewrite !Hh.
  - unfold ports_match. by rewrite orb_true_iff, !bool_decide_eq_true, !Hp by done.
Qed.

(** C14: the filter never indexes outside a packet and drops exactly the packets
    that travel to or from a managed address, or over TCP from or to an excluded
    port, whatever their bytes, and with them the later IPv4 fragments whose
    payload begins like an excluded port: but for these it agrees with the
    reference reading of the frame layouts and of the configured texts. *)
Theorem Exclude_iff lt excludePorts mgmt data :
  exists b, Exclude (NewExcluder lt excludePorts mgmt) data = Some b /\
    (b = true <-> excluded lt excludePorts mgmt data \/ mistaken lt excludePorts data).
Proof.
  destruct (NewExcluder_spec lt excludePorts mgmt) as (_ & Hl & _).
  destruct (Exclude_rules (NewExcluder lt excludePorts mgmt) data) as (b & Hb & Hspec).
  exists b. split; [done|]. rewrite Hspec, Hl. unfold excluded, mistaken. setoid_rewrite rule_packet_listed. split.
  - intros (ty & p & Hlp & [Hh|(sp & dp & [Ht|(-> & Hf & Ht)]%shaped_cases & Hr)]).
    + left. exists ty, p. split; [done|by left].
    + left. exists ty, p. split; [done|]. right. by exists sp, dp.
    + right. by exists p, sp, dp.
  - intros [(ty & p & Hlp & [Hh|(sp & dp & [Ht _] & Hr)])|(p & sp & dp & Hlp & _ & Ht & Hr)].
    + exists ty, p. split; [done|by left].
    + exists ty, p. split; [done|]. right. by exists sp, dp.
    + exists etherTypeIPv4, p. split; [done|]. right. by exists sp, dp.
Qed.

(** C33: every rule of an excluder is a well-formed one, whatever the
    configuration says: ports of TCP, addresses of sixteen bytes, and networks
    made of an address and a prefix that fits it. *)
Theorem NewExcluder_wf lt excludePorts mgmt : wf_excluder (NewExcluder lt excludePorts mgmt).
Proof. by destruct (NewExcluder_spec lt excludePorts mgmt). Qed.

(** The filter takes the first bytes of any IPv4 fragment for ports, also
    of one that is not the first and has none: for every excluded port and every
    fragment offset there is such a fragment that it drops. *)
Theorem Exclude_later_fragment port off :
  0 < port < 2 ^ 16 -> 0 < off < 2 ^ 13 ->
  exists data p, link_payload LinkTypeEthernet data etherTypeIPv4 p /\ fragment_offset p = off /\
    Exclude (NewExcluder LinkTypeEthernet [port] []) data = Some true.
Proof.
  intros Hport Ho.
  set (head := [x45; x00; x00; x1c; x00; x01]). set (tail := replicate 10 x00 : list byte).
  set (p := head ++ be_enc 2 off ++ [x40; x06] ++ tail ++ be_enc 2 port ++ be_enc 2 0 ++ [x00; x00]).
  set (data := replicate 12 x00 ++ be_enc 2 etherTypeIPv4 ++ p). exists data, p.
  assert (link_payload LinkTypeEthernet data etherTypeIPv4 p) as Hlp.
  { apply (payload_ethernet LinkTypeEthernet (replicate 12 x00) []); [done..|cbn; lia|by vm_compute|done]. }
  split; [done|]. split.
  - unfold fragment_offset. rewrite (be_u16_at 6 head ([x40; x06] ++ tail ++ be_enc 2 port ++ be_enc 2 0 ++ [x00; x00]) off)
      by (try done; unfold is_uint; lia). rewrite Z.mod_small; lia.
  - destruct (NewExcluder_spec LinkTypeEthernet [port] []) as (_ & Hl & Hports & _).
    destruct (Exclude_rules (NewExcluder LinkTypeEthernet [port] []) data) as (b & Hb & Hspec).
    rewrite Hb. f_equal. apply Hspec. rewrite Hl. exists etherTypeIPv4, p. split; [done|]. right. exists port, 0.
    split; [|unfold ports_match; rewrite bool_decide_true; [done|apply Hports; [unfold is_uint; lia|set_solver]]].
    assert (p = [x45] ++ ([x00; x00; x1c; x00; x01] ++ be_enc 2 off ++ [x40]) ++ [x06] ++ tail ++ [] ++
      be_enc 2 port ++ be_enc 2 0 ++ [x00; x00]) as -> by (unfold p, head; by rewrite <-!(assoc_L (++))).
    apply tcp_v4; [done|by rewrite !length_app, length_be_enc|done..|unfold is_uint; lia|done].
Qed.

End Parse.

(** ** At work *)

Definition registry : LinkTypes.
Proof. refine {| LinkTypeEthernet := 1; LinkTypeRaw := 101; LinkTypeIPv4 := 228; LinkTypeIPv6 := 229 |}. lia. Defined.

Lemma Exclude_later_fragment_witness :
  0 < 7878 < 2 ^ 16 /\ 0 < 185 < 2 ^ 13 /\
  exists data p, link_payload (H := registry) (LinkTypeEthernet (LinkTypes := registry)) data etherTypeIPv4 p /\
    fragment_offset p = 185 /\
    Exclude (H := registry) (NewExcluder (LinkTypeEthernet (LinkTypes := registry)) [7878] []) data = Some true.
Proof. split; [lia|]. split; [lia|]. apply (Exclude_later_fragment (H := registry) 7878 185); lia. Defined.

(** A packet of the drain behind a VLAN tag is dropped, one of a game service is
    kept, and one to a managed network is dropped. *)
Definition drain_frame (sp dp : Z) (dst : list byte) : list byte :=
  replicate 12 x02 ++ be_enc 2 etherTypeVLAN ++ [x00; x07] ++ be_enc 2 etherTypeIPv4 ++
  [x45] ++ replicate 8 x00 ++ [x06] ++ [x00; x00] ++ [x0a; x3c; x01; x02] ++ dst ++
  be_enc 2 sp ++ be_enc 2 dp ++ replicate 12 x00.

Example drain_frames :
  let e := NewExcluder 1 [7878; 0; 70000] [str " 10.10.0.0/16 "; str "2001:db8::1"; str "not an address"] in
  (fun f => Exclude (H := registry) e f) <$>
    [drain_frame 40000 7878 [x0a; x3c; x02; x03]; drain_frame 40000 80 [x0a; x3c; x02; x03];
     drain_frame 40000 80 [x0a; x0a; xff; x03]; take 30 (drain_frame 40000 7878 [x0a; x3c; x02; x03])]
  = [Some true; Some false; Some true; Some false].
Proof. by vm_compute. Qed.
