(* ===== verification/Systemd.v ===== *)
(** * Notifications to systemd (internal/systemd/notify.go)

    The notifier, with the socket as the list of the datagrams it was sent, and
    the interval of the watchdog. *)

From S2P Require Import Prelude Bytes.

(** [conn] is [None] for the no-op notifier, else what was written to it.  A
    write that fails is ignored; [lost] is how many next writes do. *)
Record Notifier : Type := mkNotifier {
  nt_conn : option (list (list byte));
  nt_lost : list bool
}.

(** [New]: [addr] is [NOTIFY_SOCKET], [dialled] whether the socket could be
    connected, and [lost] which of the writes to it will fail. *)
Definition New (addr : list byte) (dialled : bool) (lost : list bool) : Notifier :=
  if bool_decide (addr = []) then mkNotifier None lost
  else if dialled then mkNotifier (Some []) lost
  else mkNotifier None lost.

Definition send (state : list byte) (n : Notifier) : Notifier :=
  match nt_conn n with
  | None => n
  | Some sent =>
      mkNotifier (Some (if hd false (nt_lost n) then sent else sent ++ [state])) (tail (nt_lost n))
  end.

Definition Ready : Notifier -> Notifier := send (str "READY=1").
Definition Watchdog : Notifier -> Notifier := send (str "WATCHDOG=1").
Definition Status (s : list byte) : Notifier -> Notifier := send (str "STATUS=" ++ s).

(** [strconv.ParseInt(s, 10, 64)]. *)
Definition ParseInt64 (s : list byte) : option Z :=
  let '(neg, digits) :=
    match s with
    | x2d :: t => (true, t)
    | x2b :: t => (false, t)
    | _ => (false, s)
    end in
  match digits with
  | [] => None
  | _ =>
      v ← parse_digits 0 digits;
      let v := if neg : bool then - v else v in
      if (- 2 ^ 63 <=? v) && (v <? 2 ^ 63) then Some v else None
  end.

(** In nanoseconds; [usecStr] is [WATCHDOG_USEC].  The product is one of 64-bit
    integers, the division rounds towards zero. *)
Definition WatchdogInterval (usecStr : list byte) : Z :=
  if bool_decide (usecStr = []) then 0
  else
    match ParseInt64 usecStr with
    | None => 0
    | Some usec => if usec <=? 0 then 0 else Z.quot (i64 (usec * 1000)) 2
    end.

Example WatchdogInterval_30s : WatchdogInterval (str "30000000") = 15 * 10 ^ 9.
Proof. by vm_compute. Qed.
