(* ===== verification/Demux.v ===== *)
(** * The collector's demultiplexer (internal/collector/demux.go)

    Decodes the frame stream of one agent connection, drops packets the mirror
    has, commits the rest in strict order and acknowledges them. *)

From S2P Require Import Prelude Bytes GoIO Pcapio Proto Os Durable Json Spool Mirror Keylog Metrics Conn.

(** The keylog file is in another directory: the sink comes with the world it
    works on.  Durations and times are nanoseconds. *)
Record Demux : Type := mkDemux {
  d_srcID : Z;
  d_mirror : Mirror;
  d_ackOut : option conn;
  d_m : option Registry;
  d_keylog : option (KeylogSink * world);
  d_lastAckAt : Z;
  d_committedAt : Z;
  d_headGpidx : Z
}.

Definition NewDemux (srcID : Z) (mirror : Mirror) (ackOut : option conn) (m : option Registry)
    (keylog : option (KeylogSink * world)) : Demux :=
  mkDemux srcID mirror ackOut m keylog 0 0 0.

Definition set_mirror (m : Mirror) (d : Demux) : Demux :=
  mkDemux (d_srcID d) m (d_ackOut d) (d_m d) (d_keylog d) (d_lastAckAt d) (d_committedAt d) (d_headGpidx d).
Definition set_metrics (f : option Registry -> option Registry) (d : Demux) : Demux :=
  mkDemux (d_srcID d) (d_mirror d) (d_ackOut d) (f (d_m d)) (d_keylog d) (d_lastAckAt d) (d_committedAt d)
    (d_headGpidx d).
Definition set_keylog (k : option (KeylogSink * world)) (d : Demux) : Demux :=
  mkDemux (d_srcID d) (d_mirror d) (d_ackOut d) (d_m d) k (d_lastAckAt d) (d_committedAt d) (d_headGpidx d).
Definition set_ackOut (c : option conn) (d : Demux) : Demux :=
  mkDemux (d_srcID d) (d_mirror d) c (d_m d) (d_keylog d) (d_lastAckAt d) (d_committedAt d) (d_headGpidx d).
Definition set_headGpidx (h : Z) (d : Demux) : Demux :=
  mkDemux (d_srcID d) (d_mirror d) (d_ackOut d) (d_m d) (d_keylog d) (d_lastAckAt d) (d_committedAt d) h.
Definition set_acked (committed at_ : Z) (d : Demux) : Demux :=
  mkDemux (d_srcID d) (d_mirror d) (d_ackOut d) (d_m d) (d_keylog d) at_ committed (d_headGpidx d).

Definition on_mirror {A} (m : M Mirror A) : M Demux A := zoom d_mirror set_mirror m.

(** A call on the sink, which may be nil. *)
Definition on_keylog (line : list byte) : M Demux unit := fun s =>
  match d_keylog s.1 with
  | None => (Ret (), s)
  | Some kw =>
      let '(o, kw') := KeylogSink_Write line kw in (o, (set_keylog (Some kw') s.1, s.2))
  end.

Definition isCorruptErr (e : goerror) : bool :=
  match e with
  | proto_ErrPayCRC | proto_ErrHdrCRC | proto_ErrBadMagic | proto_ErrBadVersion | proto_ErrPayloadHuge => true
  | _ => false
  end.

Definition protoToPcap (pr : PktRecord) : PcapRecord :=
  mkPcapRecord (u32 (pk_TsSec pr)) (pk_TsNsec pr / 1000) (pk_OrigLen pr) (pk_Data pr).

(** The loop of [commit] from packet [i] on; [keep] in order. *)
Fixpoint keep_loop (base committed i : Z) (recs : list PktRecord) (keep : list PcapRecord)
    : res (list PcapRecord) :=
  match recs with
  | [] => Ok keep
  | pr :: recs =>
      let gp := u64 (base + i) in
      if gp <? committed then keep_loop base committed (i + 1) recs keep
      else if u64 (committed + len keep) <? gp then Err collector_forward_jump
      else keep_loop base committed (i + 1) recs (keep ++ [protoToPcap pr])
  end.

(** The byte count of the metric. *)
Definition keep_bytes (keep : list PcapRecord) : Z :=
  foldl (fun n r => n + (RecordHeaderLen + len (Data r))) 0 keep.

Definition commit (base : Z) (recs : list PktRecord) (seq : Z) : M Demux unit :=
  d ← get;
  match keep_loop base (Committed (d_mirror d)) 0 recs [] with
  | Err e => fail e
  | Ok [] => mret ()
  | Ok keep =>
      on_mirror (Append keep seq) ;;
      d ← get;
      modify (set_metrics (onCommit (Committed (d_mirror d)) (keep_bytes keep)))
  end.

Definition handleGap (payload : list byte) : M Demux unit :=
  gap ← of_res (DecodeGap payload);
  d ← get;
  if ToGpidx gap <=? Committed (d_mirror d) then mret ()
  else
    modify (set_metrics onGap) ;;
    on_mirror (NewSession (ToGpidx gap)).

Definition reconcileEpoch (epoch : list byte) (from : Z) : M Demux unit :=
  match epoch with
  | [] => mret ()
  | _ =>
      d ← get;
      match Mirror_Epoch (d_mirror d) with
      | [] => on_mirror (AdoptEpoch epoch)
      | have =>
          if decide (have = epoch) then mret () else on_mirror (ResetForEpoch epoch from)
      end
  end.

Definition second : Z := 10 ^ 9.

Definition maybeAck (force : bool) : M Demux unit :=
  d ← get;
  let committed := Committed (d_mirror d) in
  due ← (if force then mret true
         else if u64 (committed - d_committedAt d) <? 256
              then t ← Now; mret (second <=? t - d_lastAckAt d)
              else mret true);
  if negb due then mret ()
  else
    match d_ackOut d with
    | None => mret ()
    | Some c =>
        let payload := Ack_Encode (mkAck (d_srcID d) committed (LastSeq (m_state (d_mirror d)))) in
        let '(ok, c) := conn_Write (Frame_AppendTo (mkFrame FrameAck 0 (d_srcID d) 0 0 payload) []) c in
        modify (set_ackOut (Some c)) ;;
        if ok : bool then t ← Now; modify (set_acked committed t) else mret ()
    end.

Section Run.
Context `{CborCodec PreambleHeader, CborCodec Stats, ZstdCodec}.

(** One frame behind the source filter, up to [maybeAck]. *)
Definition handle_frame (f : Frame) : M Demux unit :=
  if f_Type f =? FramePktBatch then
    payload ← of_res (if negb (Z.land (f_Flags f) FlagCompressed =? 0)
                      then DecompressBatch (f_Payload f) else Ok (f_Payload f));
    recs ← of_res (DecodePktBatch payload);
    commit (f_BaseGpidx f) recs (f_Seq f)
  else if f_Type f =? FrameGap then handleGap (f_Payload f)
  else if f_Type f =? FrameHeartbeat then
    match DecodeHeartbeat (f_Payload f) with
    | Err _ => mret ()
    | Ok hb =>
        modify (set_headGpidx (HeadGpidx hb)) ;;
        d ← get;
        modify (set_metrics (onLag (HeadGpidx hb) (Committed (d_mirror d))))
    end
  else if f_Type f =? FrameStats then
    match DecodeStats (f_Payload f) with
    | Err _ => mret ()
    | Ok st => modify (set_metrics (onStats (Captured st) (DroppedKern st) (IfDrop st) (SpoolBytes st)))
    end
  else if f_Type f =? FrameTLSKeylog then on_keylog (f_Payload f)
  else if f_Type f =? FrameSrcInfo then mret ()
  else if negb (Skippable (f_Type f)) then fail collector_errUnknownFrame
  else mret ().

(** The loop over the frames.  [ctx] says, round by round, whether the context is
    cancelled.  A frame takes 36 bytes at least, so the bytes that are left are
    fuel enough. *)
Fixpoint run_loop (fuel : nat) (ctx : list bool) (r : stream) : M Demux unit :=
  match fuel with
  | O => mret ()
  | S fuel =>
      match ctx with
      | true :: _ => mret ()
      | _ =>
          match ReadFrame r with
          | (Err e, _) =>
              (if isCorruptErr e then modify (set_metrics onCorrupt) else mret ()) ;;
              fail e
          | (Ok f, r) =>
              d ← get;
              (if negb (f_SourceID f =? d_srcID d) && negb (f_SourceID f =? 0) &&
                  negb (f_Type f =? FrameHeartbeat)
               then mret ()
               else handle_frame f ;; maybeAck false) ;;
              run_loop fuel (tail ctx) r
          end
      end
  end.

(** The loop over the sources of the preamble. *)
Fixpoint handshake (acks : gmap Z Z) (sources : list SrcInfo) : M Demux unit :=
  match sources with
  | [] => mret ()
  | s :: rest =>
      d ← get;
      (if si_ID s =? d_srcID d then
         on_mirror (SetHeader (mkGlobalHeader (si_Snaplen s) (si_Linktype s))) ;;
         reconcileEpoch (si_Epoch s) (default 0 (acks !! d_srcID d))
       else mret ()) ;;
      handshake acks rest
  end.

Definition Run (ctx : list bool) (r : stream) : M Demux unit :=
  match ReadPreamble r with
  | (Err e, _) => fail e
  | (Ok pre, r) =>
      handshake (ResumeAck pre) (Sources pre) ;;
      d ← get;
      t ← Now;
      modify (set_acked (Committed (d_mirror d)) t) ;;
      run_loop (S (length (st_data r))) ctx r
  end.
End Run.
