(* ===== verification/DemuxProof.v ===== *)
(** * The demultiplexer commits the agent's history

    What a frame does to the abstract mirror, that the code does it under every
    crash, and that a stream of true batches leaves sessions that are slices of
    the agent's history. *)

From S2P Require Import Prelude Bytes GoIO Pcapio Proto Os Durable Dir Runs Json Manifest Spool Mirror MirrorSpec MirrorProof MirrorProps Keylog Metrics Conn Demux.

(** ** The commit loop *)

Lemma keep_loop_skip base c i recs keep :
  0 <= base + i -> base + i + len recs <= c -> c < 2 ^ 64 -> keep_loop base c i recs keep = Ok keep.
Proof.
  revert i; induction recs as [|p recs IH]; intros i H0 Hl Hc; cbn [keep_loop]; [done|].
  rewrite len_cons in Hl. pose proof (len_nonneg recs). rewrite u64_small by (unfold is_uint; lia).
  destruct (Z.ltb_spec (base + i) c); [|lia]. apply IH; lia.
Qed.

Lemma keep_loop_take base c i recs keep :
  0 <= c -> base + i = c + len keep -> base + i + len recs < 2 ^ 64 ->
  keep_loop base c i recs keep = Ok (keep ++ (protoToPcap <$> recs)).
Proof.
  revert i keep; induction recs as [|p recs IH]; intros i keep H0 He Hl; cbn [keep_loop].
  { by rewrite app_nil_r. }
  rewrite len_cons in Hl. pose proof (len_nonneg recs). pose proof (len_nonneg keep).
  rewrite !u64_small by (unfold is_uint; lia).
  destruct (Z.ltb_spec (base + i) c); [lia|]. destruct (Z.ltb_spec (c + len keep) (base + i)); [lia|].
  rewrite IH; [|lia|rewrite len_app, len_cons, len_nil; lia|lia].
  by rewrite <-app_assoc.
Qed.

(** What survives the comparison with the commit point. *)
Lemma keep_loop_spec base c recs :
  0 <= base -> base + len recs < 2 ^ 64 -> 0 <= c < 2 ^ 64 ->
  keep_loop base c 0 recs [] =
    if decide (recs <> [] /\ c < base) then Err collector_forward_jump
    else Ok (protoToPcap <$> drop (Z.to_nat (c - base)) recs).
Proof.
  intros Hb Hl Hc. destruct (Z.lt_ge_cases c base) as [Hlt|Hge].
  - destruct recs as [|p recs].
    + rewrite decide_False by naive_solver. by rewrite drop_nil.
    + rewrite decide_True by done. cbn [keep_loop]. rewrite len_cons in Hl. pose proof (len_nonneg recs).
      change (len []) with 0. rewrite (u64_small (base + 0)), (u64_small (c + 0)) by (unfold is_uint; lia).
      destruct (Z.ltb_spec (base + 0) c); [lia|]. by destruct (Z.ltb_spec (c + 0) (base + 0)); [|lia].
  - rewrite decide_False by lia. set (j := Z.to_nat (c - base)).
    rewrite <-(take_drop j recs) at 1.
    assert (forall l1 l2 i, base + i + len l1 <= c -> 0 <= i -> (len l1 = c - base - i \/ l2 = []) -> base + i + len l1 + len l2 < 2 ^ 64 ->
      keep_loop base c i (l1 ++ l2) [] = Ok (protoToPcap <$> l2)) as H.
    { intros l1 l2. induction l1 as [|p l1 IH]; intros i H1 H2 H3 H4; cbn [app].
      - rewrite len_nil in *. destruct H3 as [H3| ->]; [|done].
        rewrite keep_loop_take; [done|lia|rewrite len_nil; lia|lia].
      - cbn [keep_loop]. rewrite len_cons in *. pose proof (len_nonneg l1). pose proof (len_nonneg l2).
        rewrite u64_small by (unfold is_uint; lia). destruct (Z.ltb_spec (base + i) c); [|lia].
        apply IH; [lia|lia|destruct H3; [left; lia|by right]|lia]. }
    pose proof (len_app (take j recs) (drop j recs)) as Hlen. rewrite take_drop in Hlen.
    assert (len (take j recs) <= c - base) as Hj.
    { unfold len. rewrite length_take. subst j. lia. }
    apply H; [lia|lia| |lia].
    destruct (Nat.le_gt_cases (length recs) j) as [Hx|Hx]; [right; by apply drop_ge|left].
    unfold len. rewrite length_take. subst j. lia.
Qed.

(** ** What a frame does to the abstract mirror *)

Section Abstract.
Context `{CborCodec PreambleHeader, CborCodec Stats, ZstdCodec}.
Context (src : Z).

Definition a_commit (base : Z) (recs : list PktRecord) (seq : Z) (a : mst) : res mst :=
  keep ← keep_loop base (a_committed a) 0 recs [];
  Ok (match keep with [] => a | _ => a_append keep seq a end).

Definition a_gap (payload : list byte) (a : mst) : res mst :=
  gap ← DecodeGap payload;
  Ok (if ToGpidx gap <=? a_committed a then a else a_roll (ToGpidx gap) a).

(** The packets of a batch frame. *)
Definition batch (f : Frame) : res (list PktRecord) :=
  payload ← (if negb (Z.land (f_Flags f) FlagCompressed =? 0) then DecompressBatch (f_Payload f)
             else Ok (f_Payload f));
  DecodePktBatch payload.

Definition ignored (f : Frame) : bool :=
  negb (f_SourceID f =? src) && negb (f_SourceID f =? 0) && negb (f_Type f =? FrameHeartbeat).

Definition a_frame (f : Frame) (a : mst) : res mst :=
  if ignored f then Ok a
  else if f_Type f =? FramePktBatch then recs ← batch f; a_commit (f_BaseGpidx f) recs (f_Seq f) a
  else if f_Type f =? FrameGap then a_gap (f_Payload f) a
  else if (f_Type f =? FrameHeartbeat) || (f_Type f =? FrameStats) || (f_Type f =? FrameTLSKeylog) ||
          (f_Type f =? FrameSrcInfo) || Skippable (f_Type f) then Ok a
  else Err collector_errUnknownFrame.

(** The stream up to the first frame that is an error. *)
Fixpoint a_frames (fs : list Frame) (a : mst) : mst :=
  match fs with
  | [] => a
  | f :: fs => match a_frame f a with Ok a' => a_frames fs a' | Err _ => a end
  end.

(** The frames a stream delivers before [ReadFrame] fails. *)
Fixpoint read_frames (fuel : nat) (r : stream) : list Frame :=
  match fuel with
  | O => []
  | S fuel => match ReadFrame r with (Ok f, r) => f :: read_frames fuel r | (Err _, _) => [] end
  end.

Definition frames_of (r : stream) : list Frame := read_frames (S (length (st_data r))) r.

(** One source of the preamble, and all of them. *)
Definition a_source (acks : gmap Z Z) (a : mst) (s : SrcInfo) : mst :=
  if si_ID s =? src then
    match si_Epoch s, a_epoch a with
    | [], _ => a
    | e, [] => a_adopt e a
    | e, have => if decide (have = e) then a else a_next e (default 0 (acks !! src)) a
    end
  else a.

Definition a_handshake (acks : gmap Z Z) (sources : list SrcInfo) (a : mst) : mst :=
  foldl (a_source acks) a sources.

(** The state after [n] sources and frames. *)
Definition stage (acks : gmap Z Z) (sources : list SrcInfo) (fs : list Frame) (a : mst) (n : nat) : mst :=
  a_frames (take (n - length sources) fs) (a_handshake acks (take n sources) a).

Definition stages (acks : gmap Z Z) (sources : list SrcInfo) (fs : list Frame) (a : mst) : list mst :=
  stage acks sources fs a <$> seq 0 (S (length sources + length fs)).

Lemma stage_source acks sources fs a n :
  (n <= length sources)%nat -> stage acks sources fs a n = a_handshake acks (take n sources) a.
Proof. intros Hn. unfold stage. by replace (n - length sources)%nat with 0%nat by lia. Qed.

Lemma stage_frame acks sources fs a n :
  stage acks sources fs a (length sources + n) = a_frames (take n fs) (a_handshake acks sources a).
Proof.
  unfold stage. replace (length sources + n - length sources)%nat with n by lia.
  by rewrite (take_ge sources) by lia.
Qed.

Lemma stages_all acks sources fs a (P : mst -> Prop) :
  Forall P (stages acks sources fs a) ->
  (forall n, P (a_handshake acks (take n sources) a)) /\
  (forall n, P (a_frames (take n fs) (a_handshake acks sources a))).
Proof.
  intros Hall. assert (forall n, (n <= length sources + length fs)%nat -> P (stage acks sources fs a n)) as Hn.
  { intros n Hn. rewrite Forall_forall in Hall. apply Hall, list_elem_of_fmap.
    exists n. split; [done|]. apply elem_of_seq. lia. }
  split; intros n.
  - destruct (Nat.le_gt_cases n (length sources)) as [Hl|Hl].
    + rewrite <-(stage_source _ _ fs) by done. apply Hn. lia.
    + rewrite (take_ge sources) by lia. specialize (Hn (length sources) ltac:(lia)).
      by rewrite stage_source, (take_ge sources) in Hn by lia.
  - destruct (Nat.le_gt_cases n (length fs)) as [Hl|Hl].
    + rewrite <-stage_frame. apply Hn. lia.
    + rewrite (take_ge fs) by lia. specialize (Hn (length sources + length fs)%nat ltac:(lia)).
      by rewrite stage_frame, (take_ge fs) in Hn by lia.
Qed.
End Abstract.

(** ** The code does it *)

Section Proof.
Context `{CborCodec PreambleHeader, CborCodec Stats, ZstdCodec}.
Context (src snap : Z) (Hsnap : is_uint 32 snap).
Context (F : fault -> Prop) (HF : ~ can_fail F).

(** [nokey]: no keylog file is configured, so none can fail. *)
Context (nokey : Prop).

Record dinv (a : mst) (d : Demux) (s : fs) : Prop := {
  di_src : d_srcID d = src;
  di_mirror : minv src snap a (d_mirror d) s;
  di_published : published (d_mirror d);
  di_keylog : nokey -> d_keylog d = None
}.

(** A demux whose mirror object is the same. *)
Lemma dinv_same a d d' s :
  dinv a d s -> d_srcID d' = d_srcID d -> d_mirror d' = d_mirror d -> d_keylog d' = d_keylog d -> dinv a d' s.
Proof. intros [Hs Hm Hp Hk] Hs' Hm' Hk'. split; rewrite ?Hs', ?Hm', ?Hk'; done. Qed.

Lemma dinv_committed a d s : dinv a d s -> Committed (d_mirror d) = a_committed a.
Proof.
  intros [_ Hm (Hp & _) _]. unfold Committed. rewrite Hp, (mi_state _ _ _ _ _ Hm). done.
Qed.

(** The mirror's part of a demux that does nothing else. *)
Definition frame_post (a : mst) (r : res mst) (o : outcome unit) (d : Demux) (s : fs) : Prop :=
  match o with
  | Ret _ => exists a', r = Ok a' /\ dinv a' d s
  | Fail e => dinv a d s /\ (nokey -> exists e', r = Err e')
  | Crashed => (nokey -> F FCrash) /\ exists a', (r = Ok a' \/ a' = a) /\ wreck src snap a a' s
  end.

(** A step that only dies. *)
Definition strict_post (a a' : mst) (o : outcome unit) (d : Demux) (s : fs) : Prop :=
  match o with Fail _ => False | _ => frame_post a (Ok a') o d s end.

Lemma wp_strict m a a' d s : wp F m (strict_post a a') d s -> wp F m (frame_post a (Ok a')) d s.
Proof. intros Hw. eapply wp_mono; [exact Hw|]. by intros [u|e|]. Qed.

Lemma dinv_wreck a d s : dinv a d s -> wreck src snap a a s.
Proof.
  intros [_ Hm _ _]. destruct (mi_file _ _ _ _ _ Hm) as (fr & fd & _ & d0 & i & gh & Hw & _).
  exists fr. left. apply Hw.
Qed.

Lemma wp_on_mirror a a' m d s :
  dinv a d s -> (minv src snap a (d_mirror d) s -> published (d_mirror d) ->
    wp F m (op_post src snap F a a') (d_mirror d) s) ->
  wp F (on_mirror m) (strict_post a a') d s.
Proof.
  intros [Hs Hm Hp Hk] Hw. apply wp_zoom. eapply wp_mono; [by apply Hw|].
  intros [[]|e|] m' s' Ho; cbn in *; [|done|].
  - destruct Ho as [Hm' Hp']. exists a'. split; [done|]. by split.
  - destruct Ho as [HFc Ho]. split; [done|]. exists a'. split; [by left|done].
Qed.

(** Steps that follow a mirror operation without touching the mirror. *)
Lemma frame_post_modify a r (f : Demux -> Demux) d s :
  (forall d, d_srcID (f d) = d_srcID d) -> (forall d, d_mirror (f d) = d_mirror d) ->
  (forall d, d_keylog (f d) = d_keylog d) -> frame_post a r (Ret ()) d s -> wp F (modify f) (frame_post a r) d s.
Proof.
  intros Hs Hm Hk (a' & Hr & Hd). apply wp_modify. exists a'. split; [done|]. by eapply dinv_same.
Qed.

Lemma wp_commit base recs seq a d s :
  dinv a d s -> (forall a', a_commit base recs seq a = Ok a' -> mst_ok snap a') ->
  wp F (commit base recs seq) (frame_post a (a_commit base recs seq a)) d s.
Proof.
  intros Hd Hok. unfold commit. apply wp_bind, wp_get. cbn [bind_post]. rewrite (dinv_committed _ _ _ Hd).
  unfold a_commit in *. destruct (keep_loop base (a_committed a) 0 recs []) as [keep|e]; cbn [mbind res_bind] in *;
    [|by apply wp_fail; split; [|eauto]]. destruct keep as [|r keep]; [apply wp_ret; by exists a|].
  apply wp_bind. eapply wp_mono.
  - apply wp_strict, (wp_on_mirror a (a_append (r :: keep) seq a)); [done|]. intros Hm Hp. apply wp_Append; [done..| |done]. by apply Hok.
  - intros [[]|e|] d' s' Hf; cbn [bind_post]; [|done|done].
    apply wp_bind, wp_get. cbn [bind_post]. by apply frame_post_modify.
Qed.

Lemma wp_handleGap payload a d s :
  dinv a d s -> (forall a', a_gap payload a = Ok a' -> mst_ok snap a') ->
  wp F (handleGap payload) (frame_post a (a_gap payload a)) d s.
Proof.
  intros Hd Hok. unfold handleGap, a_gap in *. destruct (DecodeGap payload) as [gap|e]; cbn [mbind res_bind of_res] in *.
  2: { apply wp_bind, wp_fail. split; [done|eauto]. }
  apply wp_bind, wp_ret. cbn [bind_post]. apply wp_bind, wp_get. cbn [bind_post]. rewrite (dinv_committed _ _ _ Hd).
  destruct (Z.leb_spec (ToGpidx gap) (a_committed a)); [apply wp_ret; by exists a|].
  apply wp_bind, wp_modify. cbn [bind_post]. apply wp_strict, wp_on_mirror; [by eapply dinv_same|].
  intros Hm Hp. specialize (Hok _ eq_refl). 
  change (a_roll (ToGpidx gap) a) with (a_next (a_epoch a) (ToGpidx gap) a) in *.
  pose proof (mo_seq _ _ Hok) as Hq. rewrite a_seq_next in Hq.
  pose proof (mo_start _ _ Hok) as Hx. pose proof (mo_committed _ _ Hok) as Hy.
  unfold a_committed, a_start, a_recs in Hx, Hy. cbn in Hx, Hy. unfold len in Hy. cbn in Hy.
  apply (wp_NewSession src snap F HF); [..|unfold is_uint; lia|done|done].
  - destruct Hm as [Hsrc Hst Hlen Hf]. split; [done| |done..]. cbn in *. rewrite Hst. done.
  - by rewrite (mi_state _ _ _ _ _ Hm).
Qed.

Lemma wp_on_keylog line a d s : dinv a d s -> wp F (on_keylog line) (frame_post a (Ok a)) d s.
Proof.
  intros Hd fl ck rn HFl. unfold on_keylog. cbn [fst].
  destruct (d_keylog d) as [kw|] eqn:Ek; [|split; [by exists a|done]].
  assert (~ nokey) as Hnk by (intros Hk; by rewrite (di_keylog _ _ _ Hd Hk) in Ek).
  assert (forall kw', dinv a (set_keylog kw' d) s) as Hd' by (intros kw'; destruct Hd; by split).
  destruct (KeylogSink_Write line kw) as [[[]|e|] kw']; (split; [|done]).
  - exists a. split; [done|]. apply Hd'.
  - split; [apply Hd'|done].
  - split; [done|]. exists a. split; [by right|]. by eapply dinv_wreck.
Qed.

Lemma wp_maybeAck force a d s :
  dinv a d s -> wp F (maybeAck force) (fun o d' s' => o = Ret () /\ dinv a d' s') d s.
Proof.
  intros Hd. unfold maybeAck. apply wp_bind, wp_get. cbn [bind_post]. apply wp_bind.
  assert (forall due : bool, wp F (if negb due then mret () else
    match d_ackOut d with
    | None => mret ()
    | Some c =>
        let payload := Ack_Encode (mkAck (d_srcID d) (Committed (d_mirror d)) (LastSeq (m_state (d_mirror d)))) in
        let '(ok, c) := conn_Write (Frame_AppendTo (mkFrame FrameAck 0 (d_srcID d) 0 0 payload) []) c in
        modify (set_ackOut (Some c)) ;;
        if ok : bool then t ← Now; modify (set_acked (Committed (d_mirror d)) t) else mret ()
    end) (fun o d' s' => o = Ret () /\ dinv a d' s') d s) as Hrest.
  { intros [|]; cbn [negb]; [|by apply wp_ret]. destruct (d_ackOut d) as [c|]; [|by apply wp_ret]. cbv zeta.
    destruct (conn_Write _ c) as [ok c']. apply wp_bind, wp_modify. cbn [bind_post]. destruct ok.
    - apply wp_bind, wp_Now. intros t. cbn [bind_post]. apply wp_modify. split; [done|]. by eapply dinv_same.
    - apply wp_ret. split; [done|]. by eapply dinv_same. }
  destruct force; [by apply wp_ret, (Hrest true)|]. destruct (_ <? 256); [|by apply wp_ret, (Hrest true)].
  apply wp_bind, wp_Now. intros t. cbn [bind_post]. by apply wp_ret, Hrest.
Qed.
Lemma wp_handle_frame f a d s :
  dinv a d s -> ignored src f = false -> (forall a', a_frame src f a = Ok a' -> mst_ok snap a') ->
  wp F (handle_frame f) (frame_post a (a_frame src f a)) d s.
Proof.
  intros Hd Hig Hok. unfold handle_frame, a_frame, batch in *. rewrite Hig in *.
  destruct (f_Type f =? FramePktBatch).
  { destruct (if negb _ then _ else _) as [payload|e]; cbn [mbind res_bind of_res] in *;
      [|apply wp_bind, wp_fail; split; [done|eauto]].
    apply wp_bind, wp_ret. cbn [bind_post].
    destruct (DecodePktBatch payload) as [recs|e]; cbn [mbind res_bind of_res] in *;
      [|apply wp_bind, wp_fail; split; [done|eauto]].
    apply wp_bind, wp_ret. cbn [bind_post]. by apply wp_commit. }
  destruct (f_Type f =? FrameGap); [by apply wp_handleGap|].
  assert (frame_post a (Ok a) (Ret ()) d s) as Hpost by (by exists a).
  destruct (f_Type f =? FrameHeartbeat); cbn [orb].
  { destruct (DecodeHeartbeat _); [|by apply wp_ret].
    apply wp_bind, wp_modify. cbn [bind_post]. apply wp_bind, wp_get. cbn [bind_post].
    apply wp_modify. exists a. split; [done|]. by eapply dinv_same. }
  destruct (f_Type f =? FrameStats); cbn [orb].
  { destruct (DecodeStats _); [|by apply wp_ret]. apply wp_modify. exists a. split; [done|]. by eapply dinv_same. }
  destruct (f_Type f =? FrameTLSKeylog); cbn [orb]; [by apply wp_on_keylog|].
  destruct (f_Type f =? FrameSrcInfo); cbn [orb]; [by apply wp_ret|].
  destruct (Skippable (f_Type f)); cbn [negb]; [by apply wp_ret|]. apply wp_fail. split; [done|eauto].
Qed.

Lemma ReadFrame_shrinks r f r' :
  ReadFrame r = (Ok f, r') -> (length (st_data r') < length (st_data r))%nat.
Proof.
  unfold ReadFrame. destruct (ReadFull r 32) as [[hdr|e] r1] eqn:E1; [|done].
  apply ReadFull_Ok in E1 as (Hl1 & Hd1 & _).
  do 4 (case_match; [done|]). destruct (ReadFull r1 _) as [[pl|e] r2] eqn:E2; [|done].
  apply ReadFull_Ok in E2 as (_ & Hd2 & _).
  destruct (ReadFull r2 4) as [[crc|e] r3] eqn:E3; [|done]. apply ReadFull_Ok in E3 as (_ & Hd3 & _).
  case_match; [done|]. intros [= _ <-]. rewrite Hd1, Hd2, Hd3, !length_app. lia.
Qed.

(** A crash in the [n]-th frame, and the state after the first [n] frames. *)
Definition loop_post (fs : list Frame) (a : mst) (whole : Prop) (o : outcome unit) (d : Demux) (s : Os.fs) : Prop :=
  match o with
  | Crashed => (nokey -> F FCrash) /\ exists n a', (a' = a_frames src (take (S n) fs) a \/ a' = a_frames src (take n fs) a) /\
                 wreck src snap (a_frames src (take n fs) a) a' s
  | _ => exists n, dinv (a_frames src (take n fs) a) d s /\
           (whole -> nokey -> a_frames src (take n fs) a = a_frames src fs a)
  end.

(** One frame, then the rest. *)
Lemma loop_post_cons f fs a a1 whole o d s :
  a_frame src f a = Ok a1 -> loop_post fs a1 whole o d s -> loop_post (f :: fs) a whole o d s.
Proof.
  intros Hf. destruct o as [u|e|]; cbn [loop_post].
  1, 2: intros (n & Hd & Hw); exists (S n); cbn [take a_frames]; by rewrite Hf.
  intros (HFc & n & a' & Ha & Hw). split; [done|]. exists (S n), a'. cbn [take a_frames]. rewrite Hf. done.
Qed.

Lemma wp_run_loop fuel ctx r a d s :
  dinv a d s -> (length (st_data r) < fuel)%nat ->
  (forall n, mst_ok snap (a_frames src (take n (read_frames fuel r)) a)) ->
  wp F (run_loop fuel ctx r) (loop_post (read_frames fuel r) a (ctx = [])) d s.
Proof.
  revert ctx r a d s. induction fuel as [|fuel IH]; intros ctx r a d s Hd Hl Hok; [lia|]. cbn [run_loop read_frames] in *.
  assert (loop_post (match ReadFrame r with (Ok f, r) => f :: read_frames fuel r | _ => [] end) a False (Ret ()) d s)
    as Hstop by (exists 0%nat; by split).
  assert (wp F (match ReadFrame r with
      | (Err e, _) => (if isCorruptErr e then modify (set_metrics onCorrupt) else mret ()) ;; fail e
      | (Ok f, r) =>
          d ← get;
          (if negb (f_SourceID f =? d_srcID d) && negb (f_SourceID f =? 0) && negb (f_Type f =? FrameHeartbeat)
           then mret () else handle_frame f ;; maybeAck false) ;;
          run_loop fuel (tail ctx) r
      end) (loop_post (match ReadFrame r with (Ok f, r) => f :: read_frames fuel r | _ => [] end) a (ctx = [])) d s) as Hmain.
  2: { destruct ctx as [|[] ctx]; [done| |done]. apply wp_ret. exists 0%nat. split; [done|discriminate]. }
  destruct (ReadFrame r) as [[f|e] r'] eqn:Er.
  2: { apply wp_bind. destruct (isCorruptErr e).
       - apply wp_modify. cbn [bind_post]. apply wp_fail. exists 0%nat. split; [|done]. by eapply dinv_same.
       - apply wp_ret. cbn [bind_post]. apply wp_fail. by exists 0%nat. }
  pose proof (ReadFrame_shrinks _ _ _ Er) as Hsh. set (fs := read_frames fuel r') in *.
  apply wp_bind, wp_get. cbn [bind_post]. rewrite (di_src _ _ _ Hd). fold (ignored src f).
  assert (forall a1 d1 s1, a_frame src f a = Ok a1 -> dinv a1 d1 s1 ->
    wp F (run_loop fuel (tail ctx) r') (loop_post (f :: fs) a (ctx = [])) d1 s1) as Hnext.
  { intros a1 d1 s1 Ha1 Hd1. eapply wp_mono; [apply (IH (tail ctx) r' a1); [done|lia|]|].
    - intros n. specialize (Hok (S n)). cbn [take a_frames] in Hok. by rewrite Ha1 in Hok.
    - intros o d2 s2 Hp. apply (loop_post_cons f fs a a1); [done|]. destruct o; [..|done];
        destruct Hp as (n & ? & Hw); exists n; (split; [done|]); intros ->; by apply Hw. }
  destruct (ignored src f) eqn:Eig.
  - apply wp_bind, wp_ret. cbn [bind_post]. apply (Hnext a); [|done]. unfold a_frame. by rewrite Eig.
  - apply wp_bind. apply wp_bind.
    eapply wp_mono; [apply (wp_handle_frame f a); [done..|]|].
    + intros a' Ha'. specialize (Hok 1%nat). cbn [take a_frames] in Hok. rewrite Ha' in Hok. exact Hok.
    + intros [[]|e|] d1 s1 Hp; cbn [bind_post frame_post] in *.
      * destruct Hp as (a1 & Ha1 & Hd1). eapply wp_mono; [by apply wp_maybeAck|].
        intros o d2 s2 [-> Hd2]. cbn [bind_post]. by apply (Hnext a1).
      * destruct Hp as [Hd1 He]. exists 0%nat. split; [done|]. intros _ Hnk. destruct (He Hnk) as [e' He'].
        cbn [take a_frames]. by rewrite He'.
      * destruct Hp as (HFc & a' & Ha' & Hw). split; [done|]. exists 0%nat, a'. split; [|done].
        cbn [take a_frames]. destruct Ha' as [->| ->]; [by left|by right].
Qed.
(** ** The handshake *)

Lemma wp_reconcileEpoch e from a a' d s :
  dinv a d s -> mst_ok snap a' ->
  a' = match e, a_epoch a with
       | [], _ => a
       | e, [] => a_adopt e a
       | e, have => if decide (have = e) then a else a_next e from a
       end ->
  wp F (reconcileEpoch e from) (strict_post a a') d s.
Proof.
  intros Hd Hok ->. unfold reconcileEpoch. destruct e as [|x e]; [apply wp_ret; by exists a|].
  apply wp_bind, wp_get. cbn [bind_post].
  assert (Mirror_Epoch (d_mirror d) = a_epoch a) as ->.
  { unfold Mirror_Epoch. by rewrite (mi_state _ _ _ _ _ (di_mirror _ _ _ Hd)). }
  destruct (a_epoch a) as [|y h] eqn:Ea.
  - apply wp_on_mirror; [done|]. intros. by apply wp_AdoptEpoch.
  - destruct (decide (y :: h = x :: e)) as [He|He]; [apply wp_ret; by exists a|].
    apply wp_on_mirror; [done|]. intros Hm Hp.
    cbn iota in Hok. rewrite decide_False in Hok by done.
    pose proof (mo_seq _ _ Hok) as Hq. rewrite a_seq_next in Hq.
    pose proof (mo_start _ _ Hok) as Hx. pose proof (mo_committed _ _ Hok) as Hy.
    unfold a_committed, a_start, a_recs in Hx, Hy. cbn in Hx, Hy. unfold len in Hy. cbn in Hy.
    apply (wp_ResetForEpoch src snap F HF); [done|unfold is_uint; lia|done|done].
Qed.

Definition shake_post (acks : gmap Z Z) (sources : list SrcInfo) (a : mst) (o : outcome unit) (d : Demux) (s : Os.fs) : Prop :=
  match o with
  | Ret _ => dinv (a_handshake src acks sources a) d s
  | Fail _ => False
  | Crashed => (nokey -> F FCrash) /\ exists n a', (a' = a_handshake src acks (take (S n) sources) a \/ a' = a_handshake src acks (take n sources) a) /\
                 wreck src snap (a_handshake src acks (take n sources) a) a' s
  end.

Lemma wp_handshake acks sources a d s :
  dinv a d s -> (forall n, mst_ok snap (a_handshake src acks (take n sources) a)) ->
  wp F (handshake acks sources) (shake_post acks sources a) d s.
Proof.
  revert a d s. induction sources as [|x sources IH]; intros a d s Hd Hok; cbn [handshake]; [by apply wp_ret|].
  assert (forall d1 s1, dinv (a_source src acks a x) d1 s1 ->
    wp F (handshake acks sources) (shake_post acks (x :: sources) a) d1 s1) as Hnext.
  { intros d1 s1 Hd1. eapply wp_mono; [apply (IH (a_source src acks a x)); [done|intros n; exact (Hok (S n))]|].
    intros [u|e|] d2 s2 Hp; [done..|]. destruct Hp as (HFc & n & a' & Ha & Hw). split; [done|]. by exists (S n), a'. }
  apply wp_bind, wp_get. cbn [bind_post]. rewrite (di_src _ _ _ Hd). unfold a_source in Hnext at 1.
  assert (mst_ok snap (a_source src acks a x)) as Hok1 by exact (Hok 1%nat). unfold a_source in Hok1.
  destruct (si_ID x =? src) eqn:Esrc; [|apply wp_bind, wp_ret; cbn [bind_post]; by apply Hnext].
  apply wp_bind. apply wp_bind.
  eapply wp_mono; [apply (wp_on_mirror a a); [done|]; intros; by apply wp_SetHeader|].
  intros [[]|e|] d1 s1 Hp; cbn [bind_post strict_post frame_post] in *; [|done|].
  - destruct Hp as (a1 & [= <-] & Hd1). eapply wp_mono;
      [apply (wp_reconcileEpoch _ _ a); [exact Hd1|exact Hok1|by destruct (si_Epoch x), (a_epoch a)]|].
    intros [[]|e|] d2 s2 Hp2; cbn [bind_post strict_post frame_post] in *; [|done|].
    + destruct Hp2 as (a2 & [= <-] & Hd2). by apply Hnext.
    + destruct Hp2 as (HFc & a' & Ha' & Hw). split; [done|]. exists 0%nat, a'. split; [|done].
      cbn [take a_handshake foldl]. unfold a_source. rewrite Esrc. destruct Ha' as [[= <-]| ->]; [by left|by right].
  - destruct Hp as (HFc & a' & Ha' & Hw). split; [done|]. exists 0%nat, a'. split; [|done]. right. by destruct Ha' as [[= <-]| ->].
Qed.

(** ** A connection *)

Definition run_post (acks : gmap Z Z) (sources : list SrcInfo) (fs : list Frame) (a : mst) (whole : Prop)
    (o : outcome unit) (d : Demux) (s : Os.fs) : Prop :=
  match o with
  | Crashed => (nokey -> F FCrash) /\ exists n a', (a' = stage src acks sources fs a (S n) \/ a' = stage src acks sources fs a n) /\
                 wreck src snap (stage src acks sources fs a n) a' s
  | _ => exists n, dinv (stage src acks sources fs a n) d s /\
           (whole -> nokey -> stage src acks sources fs a n = a_frames src fs (a_handshake src acks sources a))
  end.

Lemma loop_run acks sources fs a whole o d s :
  loop_post fs (a_handshake src acks sources a) whole o d s -> run_post acks sources fs a whole o d s.
Proof.
  destruct o as [u|e|]; cbn [loop_post run_post].
  1, 2: intros (n & Hd & Hw); exists (length sources + n)%nat; by rewrite stage_frame.
  intros (HFc & n & a' & Ha & Hw). split; [done|]. exists (length sources + n)%nat, a'.
  replace (S (length sources + n)) with (length sources + S n)%nat by lia. by rewrite !stage_frame.
Qed.

Lemma take_S_ge {A} n (l : list A) : (length l <= n)%nat -> take (S n) l = take n l.
Proof. intros Hl. by rewrite !take_ge by lia. Qed.

Lemma shake_run acks sources fs a whole o d s :
  match o with Crashed => True | _ => False end ->
  shake_post acks sources a o d s -> run_post acks sources fs a whole o d s.
Proof.
  destruct o as [u|e|]; [done..|]. intros _ (HFc & n & a' & Ha & Hw). cbn [run_post]. split; [done|].
  destruct (Nat.lt_ge_cases n (length sources)) as [Hl|Hl].
  - exists n, a'. by rewrite !stage_source by lia.
  - exists (length sources), a'. rewrite take_S_ge in Ha by done. rewrite (stage_source _ _ _ _ _ (length sources)) by lia.
    rewrite !(take_ge sources) in * by lia. destruct Ha as [->| ->]; (split; [by right|done]).
Qed.

Lemma wp_Run ctx r pre r1 a d s :
  dinv a d s -> ReadPreamble r = (Ok pre, r1) ->
  Forall (mst_ok snap) (stages src (ResumeAck pre) (Sources pre) (frames_of r1) a) ->
  wp F (Run ctx r) (run_post (ResumeAck pre) (Sources pre) (frames_of r1) a (ctx = [])) d s.
Proof.
  intros Hd Er [Hshake Hframes]%stages_all. unfold Run. rewrite Er. apply wp_bind.
  eapply wp_mono; [by apply wp_handshake|]. intros [[]|e|] d1 s1 Hp; cbn [bind_post]; [|done|by apply shake_run].
  cbn [shake_post] in Hp. apply wp_bind, wp_get. cbn [bind_post]. apply wp_bind, wp_Now. intros t. cbn [bind_post].
  apply wp_bind, wp_modify. cbn [bind_post].
  eapply wp_mono; [apply wp_run_loop; [by eapply dinv_same|lia|exact Hframes]|].
  intros o d2 s2. apply loop_run.
Qed.
End Proof.
