(* ===== verification/DemuxProps.v ===== *)
(** * The mirror holds the agent's history

    A connection refines the abstract mirror for every stream of bytes; over
    connections that tell the truth about a history of packets, every session
    file is a slice of that history. *)

From S2P Require Import Prelude Bytes GoIO Pcapio Proto Os Durable Dir Runs Json Manifest Spool Mirror MirrorSpec MirrorProof MirrorProps Keylog Metrics Conn Demux DemuxProof.

(** ** The agent's history *)

(** The packets of one incarnation of the agent, gpidx 0 first. *)
Definition history := list PktRecord.

Definition wf_history (snap : Z) (h : history) : Prop :=
  Forall (fun p => wf_pkt p /\ len (pk_Data p) <= snap) h /\ len h < 2 ^ 64 /\
  24 + len (enc_records (protoToPcap <$> h)) < 2 ^ 63.

(** A session that holds the packets of [h] from its start on. *)
Definition true_to (h : history) (x : session) : Prop :=
  0 <= ss_start x /\ ss_recs x = protoToPcap <$> slice (Z.to_nat (ss_start x)) (length (ss_recs x)) h.

(** A batch frame whose packets are the ones of [h] at its base. *)
Definition true_batch (h : history) (base : Z) (recs : list PktRecord) : Prop :=
  0 <= base /\ base + len recs <= len h /\ recs = slice (Z.to_nat base) (length recs) h.

Lemma protoToPcap_wf snap p : wf_pkt p -> len (pk_Data p) <= snap -> wf_record snap (protoToPcap p).
Proof.
  intros (H1 & H2 & H3 & _ & _) Hl. unfold protoToPcap, wf_record, is_uint, u32 in *. cbn.
  pose proof (Z.mod_pos_bound (pk_TsSec p) (2 ^ 32)). pose proof (Z.div_lt_upper_bound (pk_TsNsec p) 1000 (2 ^ 32)).
  pose proof (Z.div_pos (pk_TsNsec p) 1000). split_and!; lia.
Qed.

Lemma true_start h start : 0 <= start -> true_to h (Session start []).
Proof. done. Qed.

Lemma true_append h x base recs :
  true_to h x -> true_batch h base recs -> base <= ss_start x + len (ss_recs x) ->
  true_to h (Session (ss_start x) (ss_recs x ++
    (protoToPcap <$> drop (Z.to_nat (ss_start x + len (ss_recs x) - base)) recs))).
Proof.
  destruct x as [start l]. cbn [ss_start ss_recs]. intros [Hs Hr] (Hb & Hl & Hrecs) Hc.
  split; [done|]. cbn [ss_start ss_recs] in *. unfold len in *.
  rewrite length_app, length_fmap, length_drop.
  rewrite Hr at 1. rewrite Hrecs at 1. rewrite drop_slice, <-fmap_app. f_equal.
  rewrite <-slice_snoc_slice. f_equal.
  destruct (Nat.le_gt_cases (length recs) (Z.to_nat (start + Z.of_nat (length l) - base))) as [Hd|Hd].
  - unfold slice. rewrite !(proj2 (Nat.sub_0_le _ _) Hd). done.
  - f_equal. lia.
Qed.

Lemma enc_slice_le h i n : len (enc_records (protoToPcap <$> slice i n h)) <= len (enc_records (protoToPcap <$> h)).
Proof.
  unfold slice. rewrite <-(take_drop i h) at 2. rewrite <-(take_drop n (drop i h)) at 2.
  rewrite !fmap_app, !enc_records_app, !len_app.
  pose proof (len_nonneg (enc_records (protoToPcap <$> take i h))).
  pose proof (len_nonneg (enc_records (protoToPcap <$> drop n (drop i h)))). lia.
Qed.

Lemma true_wf snap h x :
  wf_history snap h -> true_to h x ->
  Forall (wf_record snap) (ss_recs x) /\ 24 + len (enc_records (ss_recs x)) < 2 ^ 63.
Proof.
  intros (Hw & _ & Hb) [_ Hr]. rewrite Hr. split.
  - apply Forall_fmap. unfold slice. apply Forall_take, Forall_drop. eapply Forall_impl; [exact Hw|].
    intros p [Hp Hl]. by apply protoToPcap_wf.
  - pose proof (enc_slice_le h (Z.to_nat (ss_start x)) (length (ss_recs x))). lia.
Qed.

Lemma true_end h x : true_to h x -> ss_recs x <> [] -> ss_start x + len (ss_recs x) <= len h.
Proof.
  intros [Hs Hr] Hne. apply (f_equal length) in Hr. rewrite length_fmap in Hr. unfold slice in Hr.
  rewrite length_take, length_drop in Hr. unfold len. destruct (ss_recs x); [done|]. cbn [length] in *. lia.
Qed.

(** ** Frames that tell the truth *)

Lemma ReadFrame_wf r f r' : ReadFrame r = (Ok f, r') -> wf_frame f.
Proof.
  unfold ReadFrame. destruct (ReadFull r 32) as [[hdr|e] r1]; [|done].
  do 3 (case_match; [done|]). destruct (Z.ltb_spec MaxPayloadLen (be_u32 24 hdr)) as [|Hm]; [done|].
  destruct (ReadFull r1 _) as [[pl|e] r2] eqn:E2; [|done].
  destruct (ReadFull r2 4) as [[crc|e] r3]; [|done]. case_match; [done|]. intros [= <- _].
  apply ReadFull_Ok in E2 as (Hl & _ & _). pose proof (be_range 24 4 hdr) as Hn. fold (be_u32 24 hdr) in Hn.
  unfold is_uint in Hn. unfold wf_frame. cbn. split_and!.
  - unfold byte_at, is_uint. pose proof (Z_of_byte_range (nth 3 hdr x00)). lia.
  - apply (be_range 4 2).
  - apply (be_range 6 2).
  - apply (be_range 8 8).
  - apply (be_range 16 8).
  - unfold len. lia.
Qed.

Lemma read_frames_wf fuel r : Forall wf_frame (read_frames fuel r).
Proof.
  revert r; induction fuel as [|fuel IH]; intros r; [constructor|]. cbn [read_frames].
  destruct (ReadFrame r) as [[f|e] r'] eqn:E; [|constructor]. constructor; [by eapply ReadFrame_wf|done].
Qed.

Lemma true_empty h x : 0 <= ss_start x -> ss_recs x = [] -> true_to h x.
Proof. intros Hs Hr. split; [done|]. by rewrite Hr. Qed.

Section Honest.
Context `{CborCodec PreambleHeader, CborCodec Stats, ZstdCodec}.
Context (src snap : Z) (agent : list byte -> history) (Hwf : forall e, wf_history snap (agent e)).

(** Every session tells the truth about some incarnation, the current one about
    the incarnation the mirror follows. *)
Record told (a : mst) : Prop := {
  td_old : Forall (fun x => exists e, true_to (agent e) x) (a_old a);
  td_cur : true_to (agent (a_epoch a)) (a_cur a);
  td_first : a_epoch a = [] -> a_recs a = []
}.

(** With room for [b] more sessions. *)
Definition fine (b : Z) (a : mst) : Prop := told a /\ mst_ok snap a /\ a_seq a + b < 2 ^ 64.

Definition honest_frame (e : list byte) (f : Frame) : Prop :=
  ignored src f = false -> f_Type f = FramePktBatch ->
  forall recs, batch f = Ok recs -> true_batch (agent e) (f_BaseGpidx f) recs.

(** A stream from an agent with history [agent e]: [e] is the epoch of the source in
    the preamble, and the batches are true. *)
Definition honest (r : stream) : Prop :=
  match ReadPreamble r with
  | (Err _, _) => True
  | (Ok pre, r1) => exists e, e <> [] /\ is_uint 64 (default 0 (ResumeAck pre !! src)) /\
      Forall (fun s => si_ID s = src -> si_Epoch s = e) (Sources pre) /\
      Exists (fun s => si_ID s = src) (Sources pre) /\ Forall (honest_frame e) (frames_of r1)
  end.

Lemma fine_le b b' a : b' <= b -> fine b a -> fine b' a.
Proof. intros Hb (Ht & Ha & Hq). split_and!; [done..|lia]. Qed.

Lemma told_ok a :
  told a -> a_seq a < 2 ^ 64 -> is_uint 64 (a_last a) -> a_start a < 2 ^ 64 -> mst_ok snap a.
Proof.
  intros Ht Hq Hl Hs. destruct (true_wf _ _ _ (Hwf _) (td_cur _ Ht)) as [Hr Hb].
  destruct (td_cur _ Ht) as [Hs0 _]. split; [done| |done..]. unfold a_committed, a_recs.
  destruct (decide (ss_recs (a_cur a) = [])) as [->|Hne]; [rewrite len_nil; lia|].
  pose proof (true_end _ _ (td_cur _ Ht) Hne). destruct (Hwf (a_epoch a)) as (_ & Hh & _). unfold a_start. lia.
Qed.

Lemma fine_roll b start e a :
  fine (b + 1) a -> 0 <= b -> is_uint 64 start -> e <> [] -> fine b (a_next e start a).
Proof.
  intros (Ht & Ha & Hq) Hb Hs He. pose proof (a_seq_next e start a) as Hn.
  assert (told (a_next e start a)) as Ht'.
  { split; cbn.
    - apply Forall_app. split; [apply Ht|]. constructor; [|done]. exists (a_epoch a). apply Ht.
    - apply true_start. apply Hs.
    - done. }
  split_and!; [done| |lia]. apply told_ok; [done|lia|apply (mo_last _ _ Ha)|apply Hs].
Qed.

Lemma fine_commit b base recs q a a' :
  fine b a -> 0 <= b -> true_batch (agent (a_epoch a)) base recs -> is_uint 64 q ->
  a_commit base recs q a = Ok a' -> a_epoch a <> [] -> fine b a' /\ a_epoch a' = a_epoch a.
Proof.
  intros (Ht & Ha & Hq) Hb Htrue Hseq Hc He. pose proof Htrue as (Hb0 & Hle & _).
  pose proof (mo_start _ _ Ha) as Hs0. pose proof (mo_committed _ _ Ha) as Hc1. pose proof (len_nonneg (a_recs a)) as Hl0.
  destruct (Hwf (a_epoch a)) as (_ & Hh & _).
  unfold a_commit in Hc. rewrite keep_loop_spec in Hc by (unfold a_committed in *; lia).
  destruct (decide (recs <> [] /\ a_committed a < base)) as [|Hd]; [done|]. cbn [mbind res_bind] in Hc.
  set (keep := protoToPcap <$> drop _ recs) in *. destruct keep as [|r keep'] eqn:Ek.
  { injection Hc as <-. done. }
  injection Hc as <-. split; [|done].
  assert (base <= a_committed a) as Hge.
  { destruct (Z.le_gt_cases base (a_committed a)); [done|]. destruct recs; [by subst keep; rewrite drop_nil in Ek|].
    exfalso. by apply Hd. }
  assert (told (a_append (r :: keep') q a)) as Ht'.
  { split; cbn; [apply Ht| |done]. rewrite <-Ek. subst keep. by apply true_append; [apply Ht|..]. }
  split_and!; [done| |done]. apply told_ok; [done| |done|].
  - change (a_seq (a_append (r :: keep') q a)) with (a_seq a). lia.
  - change (a_start (a_append (r :: keep') q a)) with (a_start a). unfold a_committed in *. lia.
Qed.

Lemma fine_frame b e f a a' :
  fine (b + 1) a -> 0 <= b -> e <> [] -> a_epoch a = e -> honest_frame e f -> wf_frame f ->
  a_frame src f a = Ok a' -> fine b a' /\ a_epoch a' = e.
Proof.
  intros Hf Hb He Hep Hh Hw Ha. assert (fine b a) as Hf' by (eapply fine_le; [|exact Hf]; lia).
  unfold a_frame in Ha. destruct (ignored src f) eqn:Eig; [by simplify_eq|].
  destruct (Z.eqb_spec (f_Type f) FramePktBatch) as [Et|_].
  { destruct (batch f) as [recs|] eqn:Eb; [|done]. cbn [mbind res_bind] in Ha.
    subst e. apply (fine_commit b (f_BaseGpidx f) recs (f_Seq f)); [done|done|by apply Hh| |done|done].
    by destruct Hw as (_ & _ & _ & _ & ? & _). }
  destruct (f_Type f =? FrameGap).
  { unfold a_gap in Ha. destruct (DecodeGap (f_Payload f)) as [gap|] eqn:Eg; [|done]. cbn [mbind res_bind] in Ha.
    assert (is_uint 64 (ToGpidx gap)) as Hto.
    { unfold DecodeGap in Eg. destruct (_ <? 18); [done|]. injection Eg as <-. apply (be_range 10 8). }
    simplify_eq/=. case_match; [done|]. split; [|done].
    change (a_roll (ToGpidx gap) a) with (a_next (a_epoch a) (ToGpidx gap) a). by apply fine_roll. }
  by destruct (_ || _ || _ || _ || _); simplify_eq.
Qed.

Lemma fine_frames e fs a n :
  fine (len fs) a -> e <> [] -> a_epoch a = e -> Forall (honest_frame e) fs -> Forall wf_frame fs ->
  fine 0 (a_frames src (take n fs) a).
Proof.
  revert a n. induction fs as [|f fs IH]; intros a n Hf He Hep Hh Hw.
  { by rewrite take_nil. }
  destruct n as [|n]; [eapply fine_le; [|exact Hf]; apply len_nonneg|].
  apply Forall_cons in Hh as [Hh Hhs]. apply Forall_cons in Hw as [Hw Hws].
  rewrite len_cons, Z.add_comm in Hf. cbn [take a_frames]. pose proof (len_nonneg fs).
  destruct (a_frame src f a) as [a1|] eqn:Ea; [|eapply fine_le; [|exact Hf]; lia].
  destruct (fine_frame _ _ _ _ _ Hf ltac:(lia) He Hep Hh Hw Ea). by apply IH.
Qed.

Lemma fine_source b e acks s a :
  fine (b + 1) a -> 0 <= b -> e <> [] -> (si_ID s = src -> si_Epoch s = e) ->
  is_uint 64 (default 0 (acks !! src)) ->
  fine b (a_source src acks a s) /\ (si_ID s = src \/ a_epoch a = e -> a_epoch (a_source src acks a s) = e).
Proof.
  intros Hf Hb He Hs Hu. assert (fine b a) as Hf' by (eapply fine_le; [|exact Hf]; lia).
  unfold a_source. destruct (Z.eqb_spec (si_ID s) src) as [Hid|Hid]; [|by split; [|intros [|]]].
  rewrite Hs by done. destruct e as [|x e]; [done|]. destruct (a_epoch a) as [|y h] eqn:Ea.
  - split; [|done]. destruct Hf' as (Ht & Ha & Hq).
    assert (told (a_adopt (x :: e) a)) as Ht'.
    { split; cbn; [apply Ht| |done]. apply true_empty; [apply (mo_start _ _ Ha)|by apply (td_first _ Ht)]. }
    split_and!; [done| |done]. by destruct Ha.
  - destruct (decide _) as [Heq|]; [split; [done|by rewrite Ea]|]. split; [by apply fine_roll|done].
Qed.

Lemma fine_sources b e acks sources a :
  fine (b + len sources) a -> 0 <= b -> e <> [] -> Forall (fun s => si_ID s = src -> si_Epoch s = e) sources ->
  is_uint 64 (default 0 (acks !! src)) ->
  fine b (a_handshake src acks sources a) /\
  (Exists (fun s => si_ID s = src) sources \/ a_epoch a = e -> a_epoch (a_handshake src acks sources a) = e).
Proof.
  intros Hf Hb He Hs Hu. revert a Hf. induction Hs as [|s sources Hs Hss IH]; intros a Hf.
  { rewrite len_nil, Z.add_0_r in Hf. split; [done|]. by intros [?%Exists_nil|]. }
  rewrite len_cons in Hf. pose proof (len_nonneg sources).
  destruct (fine_source (b + len sources) e acks s a) as [Hf1 He1]; [by replace (b + len sources + 1) with (b + (1 + len sources)) by lia|lia|done..|].
  destruct (IH _ Hf1) as [Hf2 He2]. split; [done|]. rewrite Exists_cons. intros Hor. apply He2. naive_solver.
Qed.

(** A true connection goes through true states only. *)
Lemma honest_stages r pre r1 a :
  honest r -> ReadPreamble r = (Ok pre, r1) -> fine (len (Sources pre) + len (frames_of r1)) a ->
  Forall (fine 0) (stages src (ResumeAck pre) (Sources pre) (frames_of r1) a) /\
  forall n, fine 0 (stage src (ResumeAck pre) (Sources pre) (frames_of r1) a n).
Proof.
  unfold honest. intros Hh Er Hf. rewrite Er in Hh. destruct Hh as (e & He & Hu & Hs & Hex & Hfs).
  set (fs := frames_of r1) in *. pose proof (len_nonneg fs).
  assert (forall n, fine 0 (stage src (ResumeAck pre) (Sources pre) fs a n)) as Hn.
  { intros n. destruct (Nat.le_gt_cases n (length (Sources pre))) as [Hl|Hl].
    - rewrite stage_source by done. apply (fine_sources 0 e); [|done|done|by apply Forall_take|done].
      eapply fine_le; [|exact Hf]. unfold len in *. rewrite length_take. lia.
    - replace n with (length (Sources pre) + (n - length (Sources pre)))%nat by lia. rewrite stage_frame.
      destruct (fine_sources (len fs) e (ResumeAck pre) (Sources pre) a) as [Hf1 He1]; [by rewrite Z.add_comm|done..|].
      apply (fine_frames e); [done|done|by apply He1; left|done|apply read_frames_wf]. }
  split; [|done]. unfold stages. by apply Forall_fmap, Forall_true.
Qed.
End Honest.

(** ** Connections *)

Inductive cevent : Type :=
  | CMirror (e : mevent)                    (** the process starts or dies between connections *)
  | CRun (ctx : list bool) (r : stream)
  | CRunCrash (ctx : list bool) (r : stream).

Section Collector.
Context `{CborCodec PreambleHeader, CborCodec Stats, ZstdCodec}.
Context (src : Z) (gh : GlobalHeader) (agent : list byte -> history).
Abbreviation snap := (gh_Snaplen gh).

(** The session counter does not overflow. *)
Definition room (m : Mirror) (r : stream) : Prop :=
  match ReadPreamble r with
  | (Err _, _) => True
  | (Ok pre, r1) => SessionSeq (m_state m) + (len (Sources pre) + len (frames_of r1)) < 2 ^ 64
  end.

(** The collector process over its mirror: it opens, serves one connection after
    another with the same mirror, and dies anywhere. *)
Inductive cstep : mconf -> cevent -> mconf -> Prop :=
  | cs_mirror k e k' :
      e = MOpen \/ e = MCrash None -> mstep src gh k e k' -> cstep k (CMirror e) k'
  | cs_run m s ackOut reg keylog ctx r faults clock rand o d' wd :
      honest src agent r -> room m r -> Forall crash_only faults -> o <> Crashed ->
      Run ctx r (NewDemux src m ackOut reg keylog, World s faults clock rand) = (o, (d', wd)) ->
      cstep (MConf (Some m) s) (CRun ctx r) (MConf (Some (d_mirror d')) (w_fs wd))
  | cs_run_crash m s ackOut reg keylog ctx r faults clock rand d' wd s' :
      honest src agent r -> room m r -> Forall crash_only faults ->
      Run ctx r (NewDemux src m ackOut reg keylog, World s faults clock rand) = (Crashed, (d', wd)) ->
      crash_fs (w_fs wd) s' -> cstep (MConf (Some m) s) (CRunCrash ctx r) (MConf None s').

(** What the running mirror and its directory hold. *)
Definition mirrors (m : Mirror) (s : fs) : Prop :=
  (exists gh0 n, content s (mirrorName src (SessionSeq (m_state m))) =
       Some (session_bytes gh0 (protoToPcap <$>
         slice (Z.to_nat (SessionStartGpidx (m_state m))) n (agent (Mirror_Epoch m)))) /\
     Committed m = SessionStartGpidx (m_state m) + Z.of_nat n) /\
  forall q b, 0 <= q < SessionSeq (m_state m) -> content s (mirrorName src q) = Some b ->
    exists gh0 e start n, b = session_bytes gh0 (protoToPcap <$> slice start n (agent e)).

Context (Hsnap : is_uint 32 snap) (Hwf : forall e, wf_history snap (agent e)).

Definition crel (k : mconf) (a : mst) : Prop := mrel src gh k a /\ told agent a.

Lemma dinv_start F nokey a m s ackOut reg keylog :
  F = crash_only -> mrel src gh (MConf (Some m) s) a -> (nokey -> keylog = None) ->
  dinv src snap nokey a (NewDemux src m ackOut reg keylog) s.
Proof. intros -> [Hm Hp] Hk. by split. Qed.

Lemma wreck_crash a a' s s' :
  wreck src snap a a' s -> crash_fs s s' -> exists b, (b = a \/ b = a') /\ mrel src gh (MConf None s') b.
Proof.
  intros [fr [Hd|Hd]] Hcr; destruct (disk_crash _ _ _ _ _ Hd Hcr) as (b & fr' & Hb & Hdb); exists b;
    (split; [|by exists fr']); destruct Hb as [->|Hb]; cbn; eauto; [done|]. right. by injection Hb.
Qed.

(** A connection from a running mirror. *)
Lemma Run_stages m s a ackOut reg keylog ctx r pre r1 faults clock rand o d' wd :
  mrel src gh (MConf (Some m) s) a -> ReadPreamble r = (Ok pre, r1) ->
  Forall (mst_ok snap) (stages src (ResumeAck pre) (Sources pre) (frames_of r1) a) -> Forall crash_only faults ->
  Run ctx r (NewDemux src m ackOut reg keylog, World s faults clock rand) = (o, (d', wd)) ->
  run_post src snap crash_only (keylog = None) (ResumeAck pre) (Sources pre) (frames_of r1) a (ctx = []) o d' (w_fs wd).
Proof.
  intros Hr Er Hst Hfl Hrun.
  pose proof (dinv_start crash_only (keylog = None) a m s ackOut reg keylog eq_refl Hr id) as Hd.
  exact (wp_run _ _ _ _ (World s faults clock rand) _ _ _
    (wp_Run src snap Hsnap crash_only crash_only_no_fail (keylog = None) ctx r pre r1 a _ s Hd Er Hst) eq_refl Hfl Hrun).
Qed.

Lemma crel_stages m s a r pre r1 :
  crel (MConf (Some m) s) a -> honest src agent r -> room m r -> ReadPreamble r = (Ok pre, r1) ->
  Forall (mst_ok snap) (stages src (ResumeAck pre) (Sources pre) (frames_of r1) a) /\
  forall n, told agent (stage src (ResumeAck pre) (Sources pre) (frames_of r1) a n).
Proof.
  intros [[Hm Hp] Ht] Hh Hroom Er. unfold room in Hroom. rewrite Er in Hroom.
  destruct (honest_stages src snap agent Hwf r pre r1 a Hh Er) as [Hall Hn].
  { split_and!; [done|by eapply minv_mst_ok|]. by rewrite (mi_state _ _ _ _ _ Hm) in Hroom. }
  split; [|intros n; apply Hn]. eapply Forall_impl; [exact Hall|]. by intros x (_ & ? & _).
Qed.

Lemma cstep_sim k e k' a : cstep k e k' -> crel k a -> exists a', crel k' a'.
Proof.
  intros Hs Hr. destruct Hs as [k e k' He Hs|m s ao rg kl ctx r fl ck rn o d' wd Hh Hroom Hfl Ho Hrun|
    m s ao rg kl ctx r fl ck rn d' wd s' Hh Hroom Hfl Hrun Hcr].
  - destruct Hr as [Hr Ht]. destruct (mstep_sim _ _ Hsnap _ _ _ _ Hs Hr) as (a' & Ha & Hr').
    exists a'. split; [done|]. destruct He as [->| ->]; inversion Ha; by subst.
  - destruct (ReadPreamble r) as [[pre|e] r1] eqn:Er.
    + destruct (crel_stages _ _ _ _ _ _ Hr Hh Hroom Er) as [Hst Hn]. destruct Hr as [Hr Ht].
      pose proof (Run_stages _ _ _ _ _ _ _ _ _ _ _ _ _ _ _ _ Hr Er Hst Hfl Hrun) as Hp.
      destruct o as [u|e|]; [..|done]; destruct Hp as (n & Hd & _);
        eexists; (split; [split; [apply (di_mirror _ _ _ _ _ _ Hd)|apply (di_published _ _ _ _ _ _ Hd)]|apply Hn]).
    + unfold Run in Hrun. rewrite Er in Hrun. injection Hrun as <- <- <-. by exists a.
  - destruct (ReadPreamble r) as [[pre|e] r1] eqn:Er.
    + destruct (crel_stages _ _ _ _ _ _ Hr Hh Hroom Er) as [Hst Hn]. destruct Hr as [Hr Ht].
      destruct (Run_stages _ _ _ _ _ _ _ _ _ _ _ _ _ _ _ _ Hr Er Hst Hfl Hrun) as (_ & n & a' & Ha & Hw).
      destruct (wreck_crash _ _ _ _ Hw Hcr) as (b & Hb & Hd). exists b. split; [done|].
      destruct Hb as [->| ->]; [apply Hn|]. destruct Ha as [->| ->]; apply Hn.
    + unfold Run in Hrun. by rewrite Er in Hrun.
Qed.

Lemma crel_mirrors m s a : crel (MConf (Some m) s) a -> mirrors m s.
Proof.
  intros [Hr [Hold [Hs0 Hcur] _]]. pose proof (mrel_shows _ _ _ _ _ Hr) as [Hc Hst _ Hf _ Ho].
  unfold mirrors, Mirror_Epoch. rewrite Hst. cbn [state_of SessionSeq SessionStartGpidx rs_Epoch]. split.
  - destruct Hf as [gh0 Hf]. exists gh0, (length (a_recs a)). split; [|done]. rewrite Hf. do 2 f_equal. exact Hcur.
  - intros q b Hq Hb. destruct (lookup_lt_is_Some_2 (a_old a) (Z.to_nat q)) as [x Hx]; [unfold a_seq, len in Hq; lia|].
    specialize (Ho _ _ Hx). unfold shows_file in Ho. rewrite Z2Nat.id, Hb in Ho by lia.
    destruct Ho as [gh0 ->]. rewrite Forall_forall in Hold.
    destruct (Hold x) as (e & Hs & Hrecs); [by eapply list_elem_of_lookup_2|]. eexists gh0, e, _, _. by rewrite <-Hrecs.
Qed.

Lemma cstep_mirrors es k m :
  steps cstep first_mconf es k -> mproc k = Some m -> mirrors m (mdir k).
Proof.
  intros Hs Hm. assert (exists a, crel k a) as [a Ha].
  { assert (forall k1 k2, steps cstep k1 es k2 -> forall a, crel k1 a -> exists a', crel k2 a') as Hsim.
    { clear Hs. intros k1 k2 Hs. induction Hs as [|k1 e k3 es k2 Hst Hss IH]; intros a Ha; [by exists a|].
      destruct (cstep_sim _ _ _ _ Hst Ha) as [a1 Ha1]. by apply (IH a1). }
    apply (Hsim _ _ Hs a_zero). split; [apply mrel_empty|]. by split. }
  destruct k as [p s]. cbn in Hm |- *. subst p. by eapply crel_mirrors.
Qed.

(** C3: over any sequence of connections that tell the truth about the agent's
    history (of the incarnation their epoch names), with restarts of the collector
    and host crashes anywhere, the current session file of the mirror is exactly
    the history from the session's start up to the commit point, and every
    finished one is a slice of a history: no packet is lost inside a session,
    duplicated, reordered or mixed up between incarnations. *)
Theorem mirror_holds_history es k m :
  steps cstep first_mconf es k -> mproc k = Some m -> mirrors m (mdir k).
Proof. exact (cstep_mirrors es k m). Qed.

(** C13: one connection with a readable preamble, wherever its bytes end and
    wherever the host dies, whose frames keep the mirror within its snap length and
    the range of its counters ([mst_ok]): the mirror ends in the state after some number of the preamble's sources and
    of the frames the stream delivers, handled in order; it is the state after
    all of them when the context is not cancelled and no keylog file fails. *)
Theorem Run_refines_frames m s a ackOut reg keylog ctx r pre r1 faults clock rand o d' wd :
  mrel src gh (MConf (Some m) s) a -> ReadPreamble r = (Ok pre, r1) ->
  Forall (mst_ok snap) (stages src (ResumeAck pre) (Sources pre) (frames_of r1) a) -> Forall crash_only faults ->
  Run ctx r (NewDemux src m ackOut reg keylog, World s faults clock rand) = (o, (d', wd)) ->
  match o with
  | Crashed => forall s', crash_fs (w_fs wd) s' -> exists n,
      mrel src gh (MConf None s') (stage src (ResumeAck pre) (Sources pre) (frames_of r1) a n)
  | _ => exists n, let a' := stage src (ResumeAck pre) (Sources pre) (frames_of r1) a n in
      mrel src gh (MConf (Some (d_mirror d')) (w_fs wd)) a' /\ shows src a' (d_mirror d') (w_fs wd) /\
      (ctx = [] -> keylog = None ->
       a' = a_frames src (frames_of r1) (a_handshake src (ResumeAck pre) (Sources pre) a))
  end.
Proof.
  intros Hr Er Hst Hfl Hrun. pose proof (Run_stages _ _ _ _ _ _ _ _ _ _ _ _ _ _ _ _ Hr Er Hst Hfl Hrun) as Hp.
  assert (forall a', dinv src snap (keylog = None) a' d' (w_fs wd) ->
    mrel src gh (MConf (Some (d_mirror d')) (w_fs wd)) a' /\ shows src a' (d_mirror d') (w_fs wd)) as Hd.
  { intros a' Hd. assert (mrel src gh (MConf (Some (d_mirror d')) (w_fs wd)) a') as Hm.
    { split; [apply (di_mirror _ _ _ _ _ _ Hd)|apply (di_published _ _ _ _ _ _ Hd)]. }
    split; [done|by eapply mrel_shows]. }
  destruct o as [u|e|]; cbn [run_post] in Hp.
  1, 2: destruct Hp as (n & Hn & Hw); exists n; cbn zeta; destruct (Hd _ Hn); done.
  destruct Hp as (_ & n & a' & Ha & Hw). intros s' Hcr. destruct (wreck_crash _ _ _ _ Hw Hcr) as (b & Hb & Hm).
  destruct Hb as [->| ->]; [by exists n|]. destruct Ha as [->| ->]; [by exists (S n)|by exists n].
Qed.
(** C17: what [commit] does with packets when nothing fails, on every branch: a
    batch that starts behind the commit point is refused and changes nothing;
    otherwise exactly the packets at and after the commit point are appended to
    the session file, and the commit point becomes the end of the batch unless it
    was already past it. *)
Theorem commit_appends_suffix m s a ackOut reg base recs q clock rand o d' wd :
  mrel src gh (MConf (Some m) s) a -> recs <> [] -> 0 <= base -> base + len recs < 2 ^ 64 ->
  (base <= Committed m -> mst_ok snap (a_append (protoToPcap <$> drop (Z.to_nat (Committed m - base)) recs) q a)) ->
  commit base recs q (NewDemux src m ackOut reg None, World s [] clock rand) = (o, (d', wd)) ->
  if decide (Committed m < base)
  then o = Fail collector_forward_jump /\ d_mirror d' = m /\ w_fs wd = s
  else o = Ret () /\ Committed (d_mirror d') = Z.max (Committed m) (base + len recs) /\
    exists gh0, content (w_fs wd) (mirrorName src (SessionSeq (m_state m))) =
      Some (session_bytes gh0 (a_recs a ++ (protoToPcap <$> drop (Z.to_nat (Committed m - base)) recs))).
Proof.
  intros Hr Hne Hb Hl Hok Hrun. pose proof Hr as [Hm Hp]. pose proof (minv_mst_ok _ _ _ _ _ Hm) as Ha.
  assert (dinv src snap True a (NewDemux src m ackOut reg None) s) as Hd by (by split).
  pose proof (dinv_committed _ _ _ _ _ _ Hd) as Hcm. change (Committed m = a_committed a) in Hcm.
  pose proof (mo_start _ _ Ha). pose proof (mo_committed _ _ Ha). pose proof (len_nonneg (a_recs a)).
  assert (0 <= Committed m < 2 ^ 64) as Hc by (rewrite Hcm; unfold a_committed in *; lia).
  pose proof (keep_loop_spec base (Committed m) recs Hb Hl Hc) as Hk. destruct (decide (Committed m < base)) as [Hj|Hj].
  { rewrite decide_True in Hk by done. unfold commit, mbind, M_bind, get in Hrun. cbn -[keep_loop] in Hrun.
    rewrite Hk in Hrun. unfold fail in Hrun. by simplify_eq/=. }
  rewrite decide_False in Hk by (by intros [_ ?]).
  set (keep := protoToPcap <$> drop (Z.to_nat (Committed m - base)) recs) in *.
  set (a' := match keep with [] => a | _ => a_append keep q a end).
  assert (a_commit base recs q a = Ok a') as Hac.
  { unfold a_commit. rewrite <-Hcm, Hk. subst a'. by destruct keep. }
  assert (len keep = Z.max 0 (base + len recs - Committed m)) as Hlen.
  { subst keep. unfold len in *. rewrite length_fmap, length_drop. lia. }
  assert (a_recs a' = a_recs a ++ keep /\ a_seq a' = a_seq a /\ a_start a' = a_start a) as (Hrecs & Hq & Hst).
  { subst a'. destruct keep; [by rewrite app_nil_r|done]. }
  pose proof (wp_commit src snap no_faults no_faults_no_fail True base recs q a _ s Hd) as Hw.
  rewrite Hac in Hw. specialize (Hw ltac:(intros b [= <-]; subst a'; destruct keep; [done|]; apply Hok; lia) [] clock rand ltac:(constructor)).
  rewrite Hrun in Hw. destruct Hw as [Hw _]. destruct o as [[]|e|]; cbn [frame_post] in Hw.
  - destruct Hw as (b & [= <-] & Hd'). split; [done|].
    assert (mrel src gh (MConf (Some (d_mirror d')) (w_fs wd)) a') as Hr'
      by (split; [apply (di_mirror _ _ _ _ _ _ Hd')|apply (di_published _ _ _ _ _ _ Hd')]).
    destruct (mrel_shows _ _ _ _ _ Hr') as [Hc' _ _ [gh0 Hf] _ _]. rewrite (mi_state _ _ _ _ _ Hm). cbn [state_of SessionSeq].
    rewrite Hc'. split; [|exists gh0; by rewrite <-Hq, <-Hrecs].
    rewrite Hcm. unfold a_committed in *. rewrite Hrecs, len_app, Hlen, Hst. lia.
  - destruct Hw as [_ He]. destruct (He I) as [e1 He1]; discriminate He1.
  - destruct Hw as [HF _]. by specialize (HF I).
Qed.
End Collector.

(** ** Executions *)

#[export] Instance PktRecord_eq_dec : EqDecision PktRecord.
Proof. solve_decision. Defined.

#[export] Instance true_batch_dec h base recs : Decision (true_batch h base recs).
Proof. unfold true_batch; apply _. Defined.

#[export] Instance wf_history_dec snap h : Decision (wf_history snap h).
Proof. unfold wf_history; apply _. Defined.

Section Exec.
Context `{CborCodec PreambleHeader, CborCodec Stats, ZstdCodec}.
Context (src : Z) (gh : GlobalHeader) (agent : list byte -> history).

#[export] Instance honest_frame_dec e f : Decision (honest_frame src agent e f).
Proof.
  unfold honest_frame. destruct (ignored src f); [by left|].
  destruct (decide (f_Type f = FramePktBatch)); [|by left].
  destruct (batch f) as [recs|]; [|by left].
  destruct (decide (true_batch (agent e) (f_BaseGpidx f) recs)) as [Hy|Hn]; [left|right; by intros Hx; apply Hn, Hx].
  intros _ _ recs' [= <-]. done.
Defined.

(** The epoch the preamble gives the source. *)
Definition epoch_of (pre : PreambleHeader) : list byte :=
  match filter (fun s => si_ID s = src) (Sources pre) with s :: _ => si_Epoch s | [] => [] end.

Definition honest_b (r : stream) : bool :=
  match ReadPreamble r with
  | (Err _, _) => true
  | (Ok pre, r1) =>
      let e := epoch_of pre in
      bool_decide (e <> [] /\ is_uint 64 (default 0 (ResumeAck pre !! src)) /\
        Forall (fun s => si_ID s = src -> si_Epoch s = e) (Sources pre) /\
        Exists (fun s => si_ID s = src) (Sources pre) /\ Forall (honest_frame src agent e) (frames_of r1))
  end.

Lemma honest_b_true r : honest_b r = true -> honest src agent r.
Proof.
  unfold honest_b, honest. destruct (ReadPreamble r) as [[pre|e] r1]; [|done].
  intros Hx%bool_decide_eq_true. by exists (epoch_of pre).
Qed.

#[export] Instance room_dec m r : Decision (room m r).
Proof. unfold room. destruct (ReadPreamble r) as [[pre|e] r1]; apply _. Defined.

(** The collector without faults, on streams that pass a test. *)
Definition cexec_on (good : stream -> bool) (k : mconf) (e : cevent) : option mconf :=
  match e, mproc k with
  | CMirror MOpen, _ => mexec src gh k MOpen
  | CMirror (MCrash None), _ => mexec src gh k (MCrash None)
  | CRun ctx r, Some m =>
      if good r && bool_decide (room m r) then
        match Run ctx r (NewDemux src m None None None, World (mdir k) [] [] []) with
        | (Crashed, _) => None
        | (_, (d, wd)) => Some (MConf (Some (d_mirror d)) (w_fs wd))
        end
      else None
  | _, _ => None
  end.

Lemma cexec_on_step good (R : mconf -> cevent -> mconf -> Prop) k e k' :
  (forall k e k', e = MOpen \/ e = MCrash None -> mstep src gh k e k' -> R k (CMirror e) k') ->
  (forall m s ctx r o d' wd, good r = true -> room m r -> o <> Crashed ->
     Run ctx r (NewDemux src m None None None, World s [] [] []) = (o, (d', wd)) ->
     R (MConf (Some m) s) (CRun ctx r) (MConf (Some (d_mirror d')) (w_fs wd))) ->
  cexec_on good k e = Some k' -> R k e k'.
Proof.
  intros Hm Hr. destruct k as [p s]. destruct e as [[|op|[op|]]|ctx r|ctx r]; cbn [cexec_on mproc]; [|done|done| | |by destruct p].
  - intros Hx%mexec_step. by apply Hm; [left|].
  - intros Hx%mexec_step. by apply Hm; [right|].
  - destruct p as [m|]; [|done]. destruct (good r) eqn:Eh; [|done]. cbn [andb].
    destruct (bool_decide_reflect (room m r)) as [Hroom|]; [|done].
    destruct (Run _ _ _) as [o [d wd]] eqn:Er. intros Hx.
    assert (o <> Crashed /\ k' = MConf (Some (d_mirror d)) (w_fs wd)) as [Ho ->] by (destruct o; by simplify_eq).
    by eapply Hr.
Qed.

Definition cexec : mconf -> cevent -> option mconf := cexec_on honest_b.

Lemma cexec_step k e k' : cexec k e = Some k' -> cstep src gh agent k e k'.
Proof.
  apply cexec_on_step; [by apply cs_mirror|]. intros. eapply cs_run; [by apply honest_b_true|done|constructor|done|done].
Qed.

Lemma cexec_runs es k k' : exec_all cexec k es = Some k' -> steps (cstep src gh agent) k es k'.
Proof.
  intros He. apply (exec_steps (cstep src gh agent) (fun _ => True) cexec); [|done..].
  intros. split; [by apply cexec_step|done].
Qed.
End Exec.

(** Codecs that know one preamble and one statistics record, and a compressor
    that compresses nothing. *)
Definition example_preamble : PreambleHeader :=
  mkPreambleHeader CompressionNone [mkSrcInfo 3 (str "eth0") 1 65536 (str "afpacket") (str "e1")] {[3 := 0]}.

Definition example_codec : CborCodec PreambleHeader :=
  {| cbor_Marshal := fun _ => Ok [x61; x62]; cbor_Unmarshal := fun _ => Ok example_preamble |}.
Definition example_stats : CborCodec Stats :=
  {| cbor_Marshal := fun _ => Ok []; cbor_Unmarshal := fun _ => Err cbor_err |}.
Definition example_zstd : ZstdCodec := {| zstd_EncodeAll := id; zstd_DecodeAll := Ok |}.

Definition example_history (e : list byte) : history :=
  [mkPktRecord 10 5000 60 2 [x61; x62]; mkPktRecord 11 0 60 1 [x63]; mkPktRecord 12 7000 1500 0 [];
   mkPktRecord 13 0 4 1 [x64]].

Definition example_frame (base seq : Z) (recs : list PktRecord) : list byte :=
  Frame_bytes (mkFrame FramePktBatch 0 3 base seq (EncodePktBatch recs)).

Definition example_stream (frames : list byte) : stream :=
  match @WritePreamble example_codec example_preamble with
  | Ok b => Stream (b ++ frames) io_EOF
  | Err _ => Stream [] io_EOF
  end.

(** The first connection breaks in the middle of a frame; the second overlaps
    it; between them the host crashes. *)
Definition example_stream1 : stream :=
  example_stream (example_frame 0 0 (take 2 (example_history [])) ++ take 40 (example_frame 2 1 (drop 2 (example_history [])))).
Definition example_stream2 : stream :=
  example_stream (example_frame 1 0 (drop 1 (example_history [])) ++
    Frame_bytes (mkFrame FrameGap FlagGap 3 0 0 (Gap_Encode (mkGap 3 4 9)))).

Definition example_cevents : list cevent :=
  [CMirror MOpen; CRun [] example_stream1; CMirror (MCrash None); CMirror MOpen; CRun [] example_stream2].

Definition example_cexec := @cexec example_codec example_stats example_zstd 3 example_gh example_history.
Definition example_cconf : mconf := exec_end example_cexec first_mconf example_cevents.

Lemma example_history_wf e : wf_history 65536 (example_history e).
Proof. apply (bool_decide_unpack _). vm_compute. exact I. Qed.

Lemma mirror_holds_history_witness :
  mirrors 3 example_history (proc_of example_cconf) (mdir example_cconf).
Proof.
  apply (@mirror_holds_history example_codec example_stats example_zstd 3 example_gh example_history
    ltac:(apply (bool_decide_unpack _); vm_compute; exact I) example_history_wf
    example_cevents example_cconf (proc_of example_cconf)).
  - apply cexec_runs. apply (exec_ok_end example_cexec first_mconf example_cevents). vm_compute. reflexivity.
  - apply some_proc. vm_compute. reflexivity.
Defined.

Definition example_opened : mconf := exec_end (mexec 3 example_gh) first_mconf [MOpen].

Lemma example_opened_mrel :
  mrel 3 example_gh (MConf (Some (proc_of example_opened)) (mdir example_opened)) a_zero.
Proof.
  assert (steps (mstep 3 example_gh) first_mconf [MOpen] example_opened) as Hs.
  { apply mexec_runs. apply (exec_ok_end (mexec 3 example_gh) first_mconf [MOpen]). vm_compute. reflexivity. }
  destruct (msteps_sim 3 example_gh _ _ _ a_zero ltac:(apply (bool_decide_unpack _); vm_compute; exact I) Hs (mrel_empty _ _))
    as (a & Ha & Hr).
  assert (a = a_zero) as -> by (inversion Ha as [|? ? ? ? ? Hx Hy]; subst; inversion Hx; subst; by inversion Hy).
  assert (mproc example_opened = Some (proc_of example_opened)) as Hp by (apply some_proc; vm_compute; reflexivity).
  destruct example_opened as [p s]. cbn in Hp |- *. rewrite Hp in Hr. exact Hr.
Qed.

Definition example_run : outcome unit * (Demux * world) :=
  @Run example_codec example_stats example_zstd [] example_stream1
    (NewDemux 3 (proc_of example_opened) None None None, World (mdir example_opened) [] [] []).

(** The frames behind the preamble. *)
Definition example_rest : stream :=
  match @ReadPreamble example_codec example_stream1 with (_, r) => r end.

Lemma Run_refines_frames_witness :
  match example_run.1 with
  | Crashed => forall s', crash_fs (w_fs example_run.2.2) s' -> exists n,
      mrel 3 example_gh (MConf None s') (@stage example_zstd 3 {[3 := 0]} (Sources example_preamble)
        (frames_of example_rest) a_zero n)
  | _ => exists n, let a' := @stage example_zstd 3 {[3 := 0]} (Sources example_preamble)
        (frames_of example_rest) a_zero n in
      mrel 3 example_gh (MConf (Some (d_mirror example_run.2.1)) (w_fs example_run.2.2)) a' /\
      shows 3 a' (d_mirror example_run.2.1) (w_fs example_run.2.2) /\
      ([] = @nil bool -> @None (KeylogSink * world) = None ->
       a' = @a_frames example_zstd 3 (frames_of example_rest)
         (a_handshake 3 {[3 := 0]} (Sources example_preamble) a_zero))
  end.
Proof.
  apply (@Run_refines_frames example_codec example_stats example_zstd 3 example_gh
    ltac:(apply (bool_decide_unpack _); vm_compute; exact I)
    (proc_of example_opened) (mdir example_opened) a_zero None None None [] example_stream1
    example_preamble example_rest [] [] [] example_run.1 example_run.2.1 example_run.2.2).
  - exact example_opened_mrel.
  - vm_compute. reflexivity.
  - apply (bool_decide_unpack _). vm_compute. exact I.
  - constructor.
  - exact (run_parts example_run).
Defined.

Lemma commit_appends_suffix_witness :
  let recs := example_history [] in
  let run := commit 0 recs 7 (NewDemux 3 (proc_of example_opened) None None None, World (mdir example_opened) [] [] []) in
  if decide (Committed (proc_of example_opened) < 0)
  then run.1 = Fail collector_forward_jump /\ d_mirror run.2.1 = proc_of example_opened /\ w_fs run.2.2 = mdir example_opened
  else run.1 = Ret () /\ Committed (d_mirror run.2.1) = Z.max (Committed (proc_of example_opened)) (0 + len recs) /\
    exists gh0, content (w_fs run.2.2) (mirrorName 3 (SessionSeq (m_state (proc_of example_opened)))) =
      Some (session_bytes gh0 (a_recs a_zero ++ (protoToPcap <$> drop (Z.to_nat (Committed (proc_of example_opened) - 0)) recs))).
Proof.
  intros recs run.
  apply (commit_appends_suffix 3 example_gh
    (proc_of example_opened) (mdir example_opened) a_zero None None 0 recs 7 [] [] run.1 run.2.1 run.2.2).
  - exact example_opened_mrel.
  - discriminate.
  - lia.
  - vm_compute. reflexivity.
  - intros _. apply (bool_decide_unpack _). vm_compute. exact I.
  - exact (run_parts run).
Defined.
