(* ===== verification/EpochProof.v ===== *)
(** * The spool's instance id

    Drawing the id touches no file of the spool; an id that was drawn is durable,
    and a crash while it is drawn can leave a blank one for good. *)

From S2P Require Import Prelude Bytes GoIO Os Keeps Durable Dir Json Manifest Spool SpoolSpec SpoolProof RecoverProof RestartProof Reader ReaderProof TailProof TailProps Janitor.

(** ** The rest of the spool is not touched *)

(** The names that no part of the spool's description is about. *)
Definition free_name (src : Z) (n : list byte) : Prop :=
  is_segment src n = false /\ n <> manifestName /\ ~ touched headName n.

Lemma epoch_free src : free_name src epochName.
Proof.
  split_and!; [|by vm_compute|intros [H|H]; by vm_compute in H].
  unfold is_segment. apply andb_false_iff. left. destruct (HasPrefix epochName _) eqn:E; [|done].
  apply HasPrefix_trans in E. by vm_compute in E.
Qed.

Section Aside.
Context (c0 : Config) (g : ghost) (w : Writer).

Abbreviation c := (applyDefaults c0).

Lemma spec_free n o :
  ghost_ok (Snaplen c) (LinkType c) g -> free_name (SrcID c) n -> spool_spec (SrcID c) (Snaplen c) (LinkType c) g n o.
Proof.
  intros Hg (H1 & H2 & _).
  assert (forall x, x ∈ g_segs g -> n <> gs_name (SrcID c) x) as Hne.
  { intros x Hx ->. rewrite (gs_name_segment (SrcID c) (Snaplen c) (LinkType c)) in H1; [done|by eapply seg_ok]. }
  split; [intros x Hx Heq; by destruct (Hne x (closed_in_segs _ _ Hx))|intros Heq; by destruct (Hne _ (act_in_segs g))| |done].
  by rewrite H1.
Qed.

Lemma winv_editing n s s' fd d i :
  winv c g w s -> free_name (SrcID c) n -> editing s s' n fd d i -> winv c g w s'.
Proof.
  intros [[W1 W2 W3 (f & df & fi & F1 & F2 & F3) (m & dm & im & M1 & M2 & M3) W6 W7 W8] Hn] Hf He.
  pose proof W1 as [Hg Hd]. pose proof Hf as (Hf1 & Hf2 & Hf3). pose proof (ed_frame _ _ _ _ _ _ He) as Hfr.
  assert (n <> gs_name (SrcID c) (g_act g)) as Hna.
  { intros ->. rewrite (gs_name_segment (SrcID c) (Snaplen c) (LinkType c)) in Hf1; [done|by eapply act_ok]. }
  assert (forall m, m <> n -> forall t, n = t -> apart s t m) as Hap.
  { intros m' Hm t <-. eapply dir_apart; [exact Hd|congruence|by intros [? _]]. }
  split; [|done]. split; try done.
  - split; [done|]. eapply dir_editing; [done..|]. repeat intro. by apply spec_free.
  - exists f, df, fi. split; [done|]. split.
    + eapply (open_frame headName false Hd (eq n)); [done|done|by apply Hap|done].
    + destruct F3 as (A1 & A2 & A3 & A4). split_and!; try done. eapply (bound_frame (eq n)); [exact Hfr| |eassumption]; congruence.
  - exists m, dm, im. split; [done|]. split.
    + eapply (open_frame headName false Hd (eq n)); [done|done|by apply Hap|done].
    + destruct M3 as (A1 & A2 & A3). split_and!; try done. eapply (bound_frame (eq n)); [exact Hfr| |eassumption]; congruence.
Qed.

Lemma winv_synced s : winv c g w s -> winv c g w (synced_dir s).
Proof.
  intros [[W1 W2 W3 (f & df & fi & F1 & [F21 F22 F23] & F3) (m & dm & im & M1 & [M21 M22 M23] & M3) W6 W7 W8] Hn].
  assert (forall n ino, bound_or s n ino False -> bound_or (synced_dir s) n ino False) as Hb.
  { intros n ino Hb d ->%list_elem_of_singleton. apply Hb. left. }
  split; [|done]. split; try done.
  - destruct W1 as [Hg Hd]. split; [done|]. by apply (dir_sync headName false Hd).
  - exists f, df, fi. split; [done|]. split; [by split|]. destruct F3 as (A1 & A2 & A3 & A4). split_and!; auto.
  - exists m, dm, im. split; [done|]. split; [by split|]. destruct M3 as (A1 & A2 & A3). split_and!; auto.
Qed.

Lemma winv_close s fd : winv c g w s -> not_own fd w -> winv c g w (set_fds (delete fd) s).
Proof.
  intros Hw Hn. apply (winv_outside c0 g w (mkReader 0 0 [] 0 0 0 (Some fd) 0 0) s); [done|by intros ? [= <-]|].
  split; [by eapply idle_close, served_wf, winv_served|]. apply kept_fds_close. intros Hf. by apply Hf.
Qed.

Lemma winv_fd_fresh s fd : winv c g w s -> (fs_next s <= fd)%nat -> not_own fd w.
Proof.
  intros Hw Hle. assert (fs_wf s) as Hwf by (by eapply served_wf, winv_served).
  destruct Hw as [[_ _ _ (f & d & i & F1 & [_ F2 _] & _) (m & dm & im & M1 & [_ M2 _] & _) _ _ _] _].
  apply (wf_fds s Hwf) in F2, M2. split; rewrite ?F1, ?M1; intros [= ->]; lia.
Qed.
End Aside.

(** ** Drawing the id *)

Section Epoch.
Context (F : fault -> Prop) (Inv : fs -> Prop) (Hwf : forall s, Inv s -> fs_wf s).
Context (Hedit : forall s s' fd d i, Inv s -> editing s s' epochName fd d i -> Inv s' /\ Inv (set_fds (delete fd) s')).
Context (Hsync : forall s, Inv s -> Inv (synced_dir s)).

(** The id was read, or drawn and is durable. *)
Definition drawn (s : fs) (id : list byte) (s' : fs) : Prop :=
  (s' = s /\ exists b, content s epochName = Some b /\ id = TrimSpace b) \/
  (content s epochName = None /\ (exists raw, length raw = 8%nat /\ id = hex_encode raw) /\
   holds s' epochName (eq (Some (id ++ [x0a])))).

Definition epoch_post {X} (x : X) (s : fs) (o : outcome (list byte)) (x' : X) (s' : fs) : Prop :=
  x' = x /\ Inv s' /\
  match o with Ret id => drawn s id s' | Fail _ => can_fail F | Crashed => F FCrash end.

Lemma wp_readEpoch {X} (x : X) s (Φ : outcome (list byte) -> X -> fs -> Prop) :
  fs_wf s -> (F FCrash -> Φ Crashed x s) -> (can_fail F -> Φ (Fail os_err) x s) ->
  Φ (Ret (match content s epochName with Some b => TrimSpace b | None => [] end)) x s ->
  wp F (readEpoch epochName) Φ x s.
Proof.
  intros Hw Hc Hf Hr. unfold readEpoch. apply wp_bind, wp_try, wp_sys; [exact Hc| |].
  { intros Hcf. cbn [bind_post]. rewrite decide_False by done. by apply wp_fail, Hf. }
  unfold content in Hr. destruct (fs_dir s !! epochName) as [ino|] eqn:En; cbn in Hr.
  - destruct (wf_dirs s Hw (fs_dir s) epochName ino) as [_ [i Hi]]; [left|done|]. rewrite Hi in *. cbn [bind_post].
    by apply wp_ret.
  - cbn [bind_post]. rewrite decide_True by done. by apply wp_ret.
Qed.

Lemma open_excl s :
  fs_wf s -> content s epochName = None ->
  exists fd ino s', open_call epochName (OFlags true false true false) s = Ok (fd, s') /\
    editing s s' epochName fd (Fdesc ino 0 false false) empty_inode.
Proof.
  intros Hw Hn. assert (fs_dir s !! epochName = None) as Hd.
  { unfold content in Hn. destruct (fs_dir s !! epochName) as [ino|] eqn:En; [|done].
    destruct (wf_dirs s Hw (fs_dir s) epochName ino) as [_ [i Hi]]; [left|done|]. cbn in Hn. by rewrite Hi in Hn. }
  destruct (open_create epochName (OFlags true false false false) s Hw) as (fd & ino & i & s' & Hcall & Ho); [done..|].
  exists fd, ino, s'. split.
  - unfold open_call in *. rewrite Hd in *. exact Hcall.
  - pose proof (op_which _ _ _ _ _ _ _ Ho) as Hwh. rewrite Hd in Hwh. destruct Hwh as (_ & -> & _).
    by apply (editing_opened _ _ _ _ _ _ _ Ho).
Qed.

Lemma open_excl_exists s b :
  content s epochName = Some b -> open_call epochName (OFlags true false true false) s = Err os_ErrExist.
Proof. unfold content, open_call. by destruct (fs_dir s !! epochName). Qed.

(** A failing write closes the file. *)
Lemma wp_closing {X} s0 (x : X) s fd d i (m : M X unit) (K : M X (list byte)) :
  Inv s0 -> editing s0 s epochName fd d i ->
  wp F m (fun o x' s' => x' = x /\ exists d' i', editing s0 s' epochName fd d' i' /\
    match o with Ret _ => wp F K (epoch_post x s0) x s' | Fail _ => can_fail F | Crashed => F FCrash end) x s ->
  wp F (on_error m (Close fd) ;; K) (epoch_post x s0) x s.
Proof.
  intros H0 He Hm. apply wp_bind, wp_on_error. eapply wp_mono; [exact Hm|].
  intros [[]|e|] x' s' (-> & d' & i' & He' & Ho); cbn [bind_post].
  - done.
  - apply wp_seq_fail, wp_Close. cbn [bind_post]. split; [done|]. split; [|done]. by eapply Hedit.
  - split; [done|]. split; [|done]. by eapply Hedit.
Qed.

Lemma wp_draw {X} (x : X) s raw :
  Inv s -> content s epochName = None -> length raw = 8%nat ->
  let id := hex_encode raw in
  wp F (r ← try (OpenFile epochName (OFlags true false true false));
    match r with
    | Err e => if decide (e = os_ErrExist) then readEpoch epochName else fail e
    | Ok f =>
        on_error (Write f (id ++ [x0a])) (Close f) ;;
        on_error (Fdatasync f) (Close f) ;;
        CloseErr f ;;
        SyncDir ;;
        mret id
    end) (epoch_post x s) x s.
Proof.
  intros H0 Hn Hraw id. pose proof (Hwf _ H0) as Hw.
  destruct (open_excl s Hw Hn) as (fd & ino & s1 & Hcall & He).
  apply wp_bind, wp_try, wp_sys; [intros HFx; by split_and!| |rewrite Hcall; cbn [bind_post]].
  { intros Hcf. cbn [bind_post]. rewrite decide_False by done. apply wp_fail. by split_and!. }
  eapply wp_closing; [done..|]. eapply wp_Write; [exact (ed_fd _ _ _ _ _ _ He)|exact (ed_inode _ _ _ _ _ _ He)|..].
  1,2: intros HFx; split; [done|by eexists _, _].
  { intros n Hcf. split; [done|]. destruct (editing_write _ _ _ _ _ _ (take n (id ++ [x0a])) He) as (d' & i' & He' & _).
    by eexists _, _. }
  split; [done|]. destruct (editing_write _ _ _ _ _ _ (id ++ [x0a]) He) as (d' & i' & He' & Hd' & _ & _ & _ & _ & Hdat).
  exists d', i'. split; [exact He'|]. set (s2 := write_fs _ _ _ _ _) in *.
  change (i_data i' = overwrite 0 (id ++ [x0a]) []) in Hdat. rewrite overwrite_nil in Hdat.
  eapply wp_closing; [done..|]. pose proof (editing_sync _ _ _ _ _ _ He') as He3.
  apply wp_sys; [intros HFc; split; [done|by eexists _, _]|intros Hcf; split; [done|by eexists _, _]|].
  rewrite (editing_with_fd _ _ _ _ _ _ _ He'). split; [done|]. exists d', (inode_sync i'). split; [exact He3|].
  set (s3 := set_inodes _ s2) in *. destruct (Hedit _ _ _ _ _ H0 He3) as [H3 H3'].
  apply wp_bind, wp_sys; [intros HFx; by split_and!|intros HFx; by split_and!|]. cbn [bind_post].
  apply wp_bind, wp_sys; [intros HFx; by split_and!|intros HFx; by split_and!|]. cbn [bind_post]. apply wp_ret.
  split; [done|]. split; [exact (Hsync _ H3')|]. right. split; [done|]. split; [by exists raw|].
  intros dd ->%list_elem_of_singleton.
  pose proof (ed_live _ _ _ _ _ _ He3) as Hl3. change (fs_dir s3 !! epochName = Some (fd_ino d')) in Hl3. change (match fs_dir s3 !! epochName with Some ino0 => exists i0, fs_inodes s3 !! ino0 = Some i0 /\ survives i0 (fun c => Some (id ++ [x0a]) = Some c) | None => Some (id ++ [x0a]) = None end). rewrite Hl3.
  exists (inode_sync i'). split; [exact (ed_inode _ _ _ _ _ _ He3)|].
  apply survives_settled; [by split|]. cbn. by rewrite Hdat.
Qed.

Lemma wp_Epoch {X} (x : X) s : Inv s -> wp F Epoch (epoch_post x s) x s.
Proof.
  intros H0. pose proof (Hwf _ H0) as Hw. unfold Epoch. apply wp_bind, wp_readEpoch; [done|intros HFx; by split_and!..|]. cbn [bind_post].
  destruct (content s epochName) as [b|] eqn:Eb.
  - case_decide as Hid; [apply wp_ret; split_and!; [done..|]; left; split; [done|by exists b]|].
    apply wp_bind, wp_sys; [intros HFx; by split_and!|intros HFx; by split_and!|]. cbn [bind_post].
    apply wp_bind, wp_RandRead; [intros HFx; by split_and!|intros HFx; by split_and!|]. intros raw Hraw. cbn [bind_post].
    apply wp_bind, wp_try, wp_sys; [intros HFx; by split_and!| |].
    { intros Hcf. cbn [bind_post]. rewrite decide_False by done. apply wp_fail. by split_and!. }
    rewrite (open_excl_exists _ _ Eb). cbn [bind_post]. rewrite decide_True by done.
    apply wp_readEpoch; [done|intros HFx; by split_and!..|]. rewrite Eb. split_and!; [done..|]. left. split; [done|by exists b].
  - rewrite decide_False by (intros Hx; by apply Hx).
    apply wp_bind, wp_sys; [intros HFx; by split_and!|intros HFx; by split_and!|]. cbn [bind_post].
    apply wp_bind, wp_RandRead; [intros HFx; by split_and!|intros HFx; by split_and!|]. intros raw Hraw. cbn [bind_post].
    by apply wp_draw.
Qed.
End Epoch.
