(* ===== verification/EpochProps.v ===== *)
(** * The spool's instance id is stable

    An id that was drawn survives a crash; a crash in the middle of drawing leaves
    a blank file, which every later call takes for the id. *)

From S2P Require Import Prelude Bytes GoIO Os Dir Runs Json RestartProof Durable Keylog Janitor EpochProof.

(** ** Ids *)

Definition hex_digits : list byte := str "0123456789abcdef".

Lemma hex_encode_digits raw : Forall (fun b => b ∈ hex_digits) (hex_encode raw).
Proof.
  unfold hex_encode. induction raw as [|c raw IH]; cbn [fmap list_fmap concat]; [constructor|].
  apply Forall_app. split; [|done].
  assert (forallb (fun b => bool_decide (b ∈ hex_digits)) [hex_digit (Z_of_byte c / 16); hex_digit (Z_of_byte c mod 16)] = true) as Hc
    by (destruct c; vm_compute; reflexivity).
  apply Forall_forall. intros b Hb. rewrite forallb_forall in Hc. apply list_elem_of_In, Hc in Hb.
  by apply bool_decide_eq_true in Hb.
Qed.

Lemma length_hex_encode raw : length (hex_encode raw) = (2 * length raw)%nat.
Proof. unfold hex_encode. induction raw as [|c raw IH]; [done|]. cbn [fmap list_fmap concat app length]. rewrite IH. lia. Qed.

Lemma space_not_hex e b : e ∈ space_encodings -> b ∈ e -> b ∉ hex_digits.
Proof.
  assert (forallb (fun e => forallb (fun b => negb (bool_decide (b ∈ hex_digits))) e) space_encodings = true) as H
    by (vm_compute; reflexivity).
  intros He%list_elem_of_In Hb%list_elem_of_In Hx. rewrite forallb_forall in H. specialize (H e He).
  rewrite forallb_forall in H. specialize (H b Hb). by rewrite bool_decide_true in H.
Qed.

Lemma hex_trimmed s : Forall (fun b => b ∈ hex_digits) s -> trimmed s.
Proof.
  intros Hs. rewrite Forall_forall in Hs.
  split; [apply space_prefix_None|apply space_suffix_None]; apply Forall_forall; intros e He [k ->];
    pose proof (proj1 (Forall_forall _ _) space_encodings_ne e He) as Hne; (destruct e as [|b e]; [done|]);
    (apply (space_not_hex (b :: e) b He); [left|apply Hs; rewrite elem_of_app, elem_of_cons; auto]).
Qed.

(** ** Properties *)

(** Reading the id of a directory that holds one. *)
Lemma read_drawn s id :
  fs_wf s -> content s epochName = Some (id ++ [x0a]) -> trimmed id -> id <> [] ->
  forall clock rand, Epoch ((), World s [] clock rand) = (Ret id, ((), World s [] clock rand)).
Proof.
  intros Hw Hc Ht Hne ck rn. unfold content in Hc.
  destruct (fs_dir s !! epochName) as [ino|] eqn:En; [|done]. cbn in Hc.
  destruct (fs_inodes s !! ino) as [i|] eqn:Ei; [|done]. cbn in Hc. injection Hc as Hc.
  unfold Epoch, readEpoch, ReadFile, sys, try, mbind, M_bind. cbn [next_fault w_faults w_fs fst snd].
  rewrite En, Ei, Hc. cbn. rewrite TrimSpace_newline by done. by rewrite decide_True.
Qed.

(** C32: an instance id that [Epoch] draws is stable: it has sixteen hexadecimal
    digits, and after any crash, or none, every later call returns it and changes
    nothing, whatever fails while the id is drawn. *)
Theorem epoch_survives s faults clock rand id wd s' :
  fs_wf s -> content s epochName = None ->
  Epoch ((), World s faults clock rand) = (Ret id, ((), wd)) ->
  s' = w_fs wd \/ crash_fs (w_fs wd) s' ->
  length id = 16%nat /\ Forall (fun b => b ∈ hex_digits) id /\
  forall clock rand, Epoch ((), World s' [] clock rand) = (Ret id, ((), World s' [] clock rand)).
Proof.
  intros Hw Hn Hrun Hs'.
  pose proof (wp_run _ _ _ _ (World s faults clock rand) _ _ _
    (wp_Epoch any_fault fs_wf ltac:(done)
      ltac:(intros s0 s1 fd d i _ He; split; [apply He|eapply idle_wf, idle_close; apply He])
      ltac:(intros s0 [Hi Hd Hf]; split; [done| |done]; intros d n ino ->%list_elem_of_singleton; apply Hd; left)
      () s Hw) eq_refl (any_fault_all _) Hrun) as (_ & Hwd & Hd).
  destruct Hd as [[_ (b & Hb & _)]|(_ & (raw & Hraw & ->) & Hh)]; [congruence|].
  pose proof (hex_encode_digits raw) as Hx.
  split; [rewrite length_hex_encode; lia|]. split; [done|].
  apply read_drawn.
  - destruct Hs' as [->|Hcr]; [done|by eapply crash_wf].
  - symmetry. destruct Hs' as [->|Hcr]; [exact (holds_now _ _ _ Hwd Hh)|exact (holds_crash _ _ _ _ Hh Hcr)].
  - by apply hex_trimmed.
  - intros Hnil. apply (f_equal length) in Hnil. rewrite length_hex_encode in Hnil. cbn in Hnil. lia.
Qed.

(** The id is not created atomically: from an empty directory, the process can
    die in [Epoch] after the file was created and before it was written; from then
    on every call of [Epoch] returns the empty id, without an error. *)
Theorem epoch_blank_forever :
  exists faults wd s', Epoch ((), World empty_fs faults [] []) = (Crashed, ((), wd)) /\ crash_fs (w_fs wd) s' /\
    forall clock rand, Epoch ((), World s' [] clock rand) = (Ret [], ((), World s' [] clock (drop 8 rand))).
Proof.
  set (faults := [FOk; FOk; FOk; FOk; FCrash]). set (wd := (Epoch ((), World empty_fs faults [] [])).2.2).
  exists faults, wd, (flushed (w_fs wd)). split; [vm_compute; reflexivity|].
  split; [apply crash_flushed; vm_compute; reflexivity|]. intros ck rn. vm_compute. reflexivity.
Qed.

Definition example_epoch : outcome (list byte) * (unit * world) :=
  Epoch ((), World empty_fs [] [] [x01; x23; x45; x67; x89; xab; xcd; xef]).
Definition example_id : list byte := str "0123456789abcdef".

Lemma epoch_survives_witness :
  length example_id = 16%nat /\ Forall (fun b => b ∈ hex_digits) example_id /\
  forall clock rand, Epoch ((), World (flushed (w_fs example_epoch.2.2)) [] clock rand) =
    (Ret example_id, ((), World (flushed (w_fs example_epoch.2.2)) [] clock rand)).
Proof.
  apply (epoch_survives empty_fs [] [] [x01; x23; x45; x67; x89; xab; xcd; xef] example_id example_epoch.2.2).
  - split; [done| |done]. intros d n ino Hd H. apply list_elem_of_singleton in Hd as ->. change ((∅ : gmap (list byte) nat) !! n = Some ino) in H. by rewrite lookup_empty in H.
  - reflexivity.
  - vm_compute. reflexivity.
  - right. apply crash_flushed. vm_compute. reflexivity.
Defined.
