(* ===== verification/Capture.v ===== *)
(** * The capture process (internal/agent/capture_cmd.go, internal/capture)

    Packet sources, the read loop that spools what the filter keeps, and the
    maintenance goroutine.  The libraries the sources sit on ([pcapgo] and
    [afpacket]) are parameters. *)

From S2P Require Import Prelude Bytes GoIO Pcapio Proto Os Durable Json Manifest Recover Spool Janitor Conn Streamer Net Excluder Systemd.

(** ** Sources *)

(** [time.Time]: seconds and nanoseconds since 1970. *)
Record Time : Type := mkTime { Unix : Z; Nanosecond : Z }.

(** The zero time is the first of January of the year 1. *)
Definition IsZero (t : Time) : bool := (Unix t =? -62135596800) && (Nanosecond t =? 0).

(** What [ReadPacket] returns without an error. *)
Record RawPacket : Type := mkRawPacket { rp_ts : Time; rp_data : list byte; rp_origLen : Z }.

(** [gopacket.CaptureInfo], as far as it is used. *)
Record CaptureInfo : Type := mkCaptureInfo { ci_Timestamp : Time; ci_Length : Z }.

Record CaptureStats : Type := mkCaptureStats { Received : Z; DroppedKernel : Z; DroppedIface : Z }.

(** [capture.Source]. *)
Class Source (S : Type) : Type := {
  ReadPacket : S -> res RawPacket * S;
  src_LinkType : S -> Z;
  src_Stats : S -> res CaptureStats
}.

(** A reader of [pcapgo] and a ring of [afpacket].  [tp_timeout] tells the
    timeout of the ring from its other errors. *)
Class CaptureLibs : Type := {
  pcap_reader : Type;
  NewReader : list byte -> res pcap_reader;
  reader_LinkType : pcap_reader -> Z;
  ReadPacketData : pcap_reader -> res (list byte * CaptureInfo) * pcap_reader;
  ring : Type;
  NewTPacket : list byte -> Z -> Z -> Z -> res ring;
  ZeroCopyReadPacketData : ring -> res (list byte * CaptureInfo) * ring;
  tp_timeout : goerror -> bool;
  SocketStats : ring -> res (Z * Z)
}.

Section Sources.
Context `{CaptureLibs}.

(** *** pcapfile.go *)

Record FileSource : Type := mkFileSource { f_r : pcap_reader; f_linkType : Z; f_count : Z }.

(** [contents] is what the file holds, if it can be opened. *)
Definition OpenPcapFile (contents : res (list byte)) : res FileSource :=
  b ← contents;
  r ← NewReader b;
  Ok (mkFileSource r (reader_LinkType r) 0).

Definition FileSource_ReadPacket (s : FileSource) : res RawPacket * FileSource :=
  match ReadPacketData (f_r s) with
  | (Err e, r) => (Err e, mkFileSource r (f_linkType s) (f_count s))
  | (Ok (data, ci), r) =>
      let ts := if IsZero (ci_Timestamp ci) then mkTime 0 0 else ci_Timestamp ci in
      (Ok (mkRawPacket ts data (ci_Length ci)), mkFileSource r (f_linkType s) (u64 (f_count s + 1)))
  end.

#[export] Instance FileSource_source : Source FileSource := {
  ReadPacket := FileSource_ReadPacket;
  src_LinkType := f_linkType;
  src_Stats s := Ok (mkCaptureStats (f_count s) 0 0)
}.

(** *** afpacket_linux.go *)

Record AFPacketSource : Type := mkAFPacketSource { a_tp : ring; a_linkType : Z }.

(** Frame size, block size and number of blocks; [None] is a ring too small. *)
Definition computeRing (targetMiB snaplen pageSize : Z) : option (Z * Z * Z) :=
  let frameSize :=
    if snaplen <? pageSize then Z.quot pageSize (Z.quot pageSize snaplen)
    else i64 (i64 (Z.quot snaplen pageSize + 1) * pageSize) in
  let blockSize := i64 (frameSize * 128) in
  let numBlocks := Z.quot (i64 (targetMiB * 1024 * 1024)) blockSize in
  if numBlocks =? 0 then None else Some (frameSize, blockSize, numBlocks).

(** [content] is what [/sys/class/net/<iface>/type] holds. *)
Definition linkTypeForIface `{LinkTypes} (content : res (list byte)) : Z :=
  match content with
  | Err _ => LinkTypeEthernet
  | Ok b => if bool_decide (TrimSpace b = str "65534") then LinkTypeRaw else LinkTypeEthernet
  end.

Definition OpenAFPacket `{LinkTypes} (iface : list byte) (ringMiB snaplen pageSize : Z) (sysfs : res (list byte)) :
    res AFPacketSource :=
  let ringMiB := if ringMiB <=? 0 then 256 else ringMiB in
  let snaplen := if snaplen <=? 0 then 65536 else snaplen in
  match computeRing ringMiB snaplen pageSize with
  | None => Err fmt_err
  | Some (frameSize, blockSize, numBlocks) =>
      tp ← NewTPacket iface frameSize blockSize numBlocks;
      Ok (mkAFPacketSource tp (linkTypeForIface sysfs))
  end.

Definition AFPacketSource_ReadPacket (s : AFPacketSource) : res RawPacket * AFPacketSource :=
  match ZeroCopyReadPacketData (a_tp s) with
  | (Err e, tp) => (Err (if tp_timeout e then capture_ErrTimeout else e), mkAFPacketSource tp (a_linkType s))
  | (Ok (data, ci), tp) =>
      (Ok (mkRawPacket (ci_Timestamp ci) data (ci_Length ci)), mkAFPacketSource tp (a_linkType s))
  end.

#[export] Instance AFPacketSource_source : Source AFPacketSource := {
  ReadPacket := AFPacketSource_ReadPacket;
  src_LinkType := a_linkType;
  src_Stats s :=
    match SocketStats (a_tp s) with Err e => Err e | Ok (packets, drops) => Ok (mkCaptureStats packets drops 0) end
}.

End Sources.

(** ** The process *)

Record CaptureOptions : Type := mkCaptureOptions {
  co_SrcID : Z;
  co_Snaplen : Z;
  co_ExcludePorts : list Z;
  co_Mgmt : list (list byte);
  co_RetentionBytes : Z;
  co_RotateBytes : Z
}.

Definition capture_snaplen (o : CaptureOptions) : Z := if co_Snaplen o <=? 0 then 65536 else co_Snaplen o.

(** The configuration of the writer. *)
Definition capture_config (o : CaptureOptions) (linkType : Z) : Config :=
  mkConfig (co_SrcID o) (u32 (capture_snaplen o)) linkType (co_RotateBytes o) 0 0 0.

(** The record that is spooled for a packet. *)
Definition capture_record (p : RawPacket) : PcapRecord :=
  mkPcapRecord (u32 (Unix (rp_ts p))) (u32 (Z.quot (Nanosecond (rp_ts p)) 1000)) (u32 (rp_origLen p)) (rp_data p).

Section Capture.
Context {S : Type} `{Source S} `{LinkTypes}.

(** The variables of [RunCapture]. *)
Record capture : Type := mkCapture {
  cp_w : Writer;
  cp_src : S;
  cp_sd : Notifier;
  cp_lastPing : Z
}.

Definition set_cw (w : Writer) (c : capture) : capture := mkCapture w (cp_src c) (cp_sd c) (cp_lastPing c).
Definition set_src (s : S) (c : capture) : capture := mkCapture (cp_w c) s (cp_sd c) (cp_lastPing c).
Definition set_sd (n : Notifier) (c : capture) : capture := mkCapture (cp_w c) (cp_src c) n (cp_lastPing c).
Definition set_ping (t : Z) (c : capture) : capture := mkCapture (cp_w c) (cp_src c) (cp_sd c) t.

Definition on_writer {A} (m : M Writer A) : M capture A := zoom cp_w set_cw m.

Definition capture_read : M capture (res RawPacket) := fun s =>
  let '(r, src) := ReadPacket (cp_src s.1) in (Ret r, (set_src src s.1, s.2)).

(** [publishStats]. *)
Definition publishStats : M capture unit :=
  c ← get;
  match src_Stats (cp_src c) with
  | Err _ => mret ()
  | Ok st =>
      bytes ← on_writer SpoolBytes;
      head ← on_writer Head;
      oldest ← on_writer OldestGpidx;
      _ ← try (writeStats (mkStats (Received st) (DroppedKernel st) (DroppedIface st) (u64 bytes) oldest head));
      mret ()
  end.

(** What the maintenance goroutine does when one of its tickers fires.  Both
    threads use the writer under its lock, so an action is a step of its own. *)
Inductive maintenance : Type := TickerFired | ReapFired.

Definition maintain (retentionBytes : Z) (m : maintenance) : M capture unit :=
  match m with
  | TickerFired => _ ← try (on_writer Tick); mret ()
  | ReapFired =>
      publishStats ;;
      if 0 <? retentionBytes then
        _ ← on_writer SpoolBytes;     (* for a warning *)
        _ ← try (on_writer (Reap retentionBytes));
        mret ()
      else mret ()
  end.

(** The ping of the watchdog at the top of a round. *)
Definition ping (interval : Z) : M capture unit :=
  if 0 <? interval then
    c ← get;
    t ← Now;
    if interval <=? t - cp_lastPing c then
      modify (fun c => set_sd (Watchdog (cp_sd c)) c) ;;
      t ← Now;
      modify (set_ping t)
    else mret ()
  else mret ().

(** One round of the read loop behind its first look at the context; [done] is
    what a second look shows.  [Some]: [RunCapture] returns.  A run-time panic of
    the filter leaves the loop too. *)
Definition capture_round (e : Excluder) (offline : bool) (interval : Z) (done : bool) : M capture (option (res unit)) :=
  ping interval ;;
  r ← capture_read;
  match r with
  | Err err =>
      if done then mret (Some (Ok ()))
      else if decide (err = capture_ErrTimeout) then mret None
      else if offline && bool_decide (err = io_EOF) then mret (Some (Ok ()))
      else if offline then mret (Some (Err err))
      else mret None
  | Ok p =>
      match Exclude e (rp_data p) with
      | None => fail fmt_err
      | Some true => mret None
      | Some false =>
          r ← try (on_writer (WritePacket (capture_record p)));
          mret (match r with Ok _ => None | Err err => Some (Err err) end)
      end
  end.

(** What the other threads do around a round: the maintenance in front of it and
    whether the two looks at the context find it cancelled. *)
Record turn : Type := mkTurn { tn_maintenance : list maintenance; tn_cancelled : bool; tn_done : bool }.

Definition maintain_all (retentionBytes : Z) (ms : list maintenance) : M capture unit :=
  foldr (fun m k => maintain retentionBytes m ;; k) (mret ()) ms.

(** The loop; [None] is a loop that still runs. *)
Fixpoint capture_loop (e : Excluder) (offline : bool) (interval retentionBytes : Z) (turns : list turn) :
    M capture (option (res unit)) :=
  match turns with
  | [] => mret None
  | t :: turns =>
      maintain_all retentionBytes (tn_maintenance t) ;;
      if tn_cancelled t then mret (Some (Ok ()))
      else
        r ← capture_round e offline interval (tn_done t);
        match r with
        | None => capture_loop e offline interval retentionBytes turns
        | Some r => mret (Some r)
        end
  end.

(** The start of the process: the writer, and systemd learns of it. *)
Definition capture_start (opts : CaptureOptions) : M capture unit :=
  c ← get;
  on_writer (NewWriter (capture_config opts (src_LinkType (cp_src c)))) ;;
  modify (fun c => set_sd (Status (str "capturing") (Ready (cp_sd c))) c).

(** [RunCapture] behind the opening of its source.  [None]: it still runs. *)
Definition RunCapture (opts : CaptureOptions) (offline : bool) (watchdogUsec : list byte) (turns : list turn) :
    M capture (option unit) :=
  c ← get;
  let linkType := src_LinkType (cp_src c) in
  let e := NewExcluder linkType (co_ExcludePorts opts) (co_Mgmt opts) in
  capture_start opts ;;
  modify (set_ping (-62135596800 * 10 ^ 9)) ;;     (* the zero time *)
  r ← try (capture_loop e offline (WatchdogInterval watchdogUsec) (co_RetentionBytes opts) turns);
  match r with
  | Ok None => mret None
  | Ok (Some r) => _ ← try (on_writer Writer_Close); of_res r ;; mret (Some ())
  | Err err => _ ← try (on_writer Writer_Close); fail err
  end.

End Capture.

Arguments capture : clear implicits.

(** ** recover_cmd.go *)

(** The report: head, oldest gpidx and size of the recovered spool. *)
Definition RecoverReport (srcID snaplen linkType : Z) : M Writer (Z * Z * Z) :=
  NewWriter (mkConfig srcID snaplen linkType 0 0 0 0) ;;
  head ← Head;
  oldest ← OldestGpidx;
  bytes ← SpoolBytes;
  _ ← try Writer_Close;
  mret (head, oldest, bytes).
