(* ===== verification/CaptureProof.v ===== *)
(** * The capture process as a durable log

    Runs of [RunCapture] (starts, maintenance, rounds of the read loop, orderly
    stops, host crashes) refine an abstract log of the packets that the filter
    keeps; a replay ends with its file. *)

From S2P Require Import Prelude Bytes GoIO Pcapio Proto Os Durable Dir Runs Json Manifest Recover Spool SpoolSpec SpoolProof RecoverProof RestartProof SpoolProps Janitor Conn Streamer Net Excluder ExcluderProof Systemd Capture.

(** ** Closing the writer *)

Section Close.
Context (c : Config).
Abbreviation disk := (spool_disk (SrcID c) (Snaplen c) (LinkType c)).

Lemma gs_len_lt x j : (j < length (gs_recs x))%nat -> gs_len x j < gs_len x (length (gs_recs x)).
Proof.
  intros Hj. unfold gs_len. rewrite firstn_all. rewrite <-(take_drop j (gs_recs x)) at 2.
  rewrite enc_records_app, len_app. destruct (drop j (gs_recs x)) as [|r t] eqn:E.
  { apply (f_equal length) in E. rewrite length_drop in E. cbn in E. lia. }
  rewrite enc_records_cons, len_app. pose proof (len_nonneg (enc_records t)).
  unfold len at 3. rewrite length_PcapRecord_bytes. lia.
Qed.

(** Closed: everything is durable. *)
Definition closed_post (F : fault -> Prop) (g : ghost) {A} (o : outcome A) (s : fs) : Prop :=
  exists g', evolves [] g g' /\ disk g' s /\
  match o with Ret _ => durable_end g' = next_gpidx g' | _ => allowed F o end.

Lemma disk_close g s fd : disk g s -> disk g (set_fds (delete fd) s).
Proof. intros [Hg Hd]. split; [done|]. by apply (dir_close headName false Hd). Qed.

Lemma wp_Writer_Close F g w s :
  ~ can_fail F -> winv c g w s ->
  wp F Writer_Close (fun o w' s' => closed_post F g o s') w s.
Proof.
  intros HF Hw. pose proof Hw as [Hc _]. pose proof Hc as [Hd _ _ (f & d & i & Hf & _) (m & dm & im & Hm & _) _ _ Ho].
  pose proof Hd as [Hg _]. pose proof (ok_sync _ _ _ Hg) as Hsy.
  unfold Writer_Close. apply wp_bind, wp_get. cbn [bind_post]. rewrite Hf, Hm.
  assert (wp F (if 0 <? pendingBytes w then try sync else mret (Ok ()))
    (fun o w' s' => exists g', evolves [] g g' /\ disk g' s' /\
       match o with Ret (Ok _) => durable_end g' = next_gpidx g' | Ret (Err _) => False
       | Fail _ => False | Crashed => F FCrash end) w s) as Hsync.
  { destruct (Z.ltb_spec 0 (pendingBytes w)) as [Hp|Hp].
    - apply wp_try. eapply wp_mono; [by apply wp_sync|]. intros o w1 s1 H1.
      destruct o as [[]|e|].
      + destruct H1 as [Hc1 _]. exists (g_synced g). split; [by apply (evolves_synced (Snaplen c) (LinkType c))|].
        split; [apply Hc1|]. unfold durable_end, next_gpidx, gs_end, len. done.
      + by destruct H1 as [H1 _].
      + destruct H1 as [Hcr (g' & Hd' & [He|He])]; by exists g'.
    - apply wp_ret. exists g. split; [apply evolves_refl|]. split; [done|].
      destruct Ho as (H1 & H2 & _ & H4). rewrite H1, H2 in H4.
      unfold durable_end, next_gpidx, gs_end, len.
      destruct (decide (g_sync g = length (gs_recs (g_act g)))) as [->|Hne]; [done|].
      pose proof (gs_len_lt (g_act g) (g_sync g)) as Hlt. rewrite (gs_len_full (Snaplen c) (LinkType c)) in Hlt. lia. }
  apply wp_bind, wp_bind. eapply wp_mono; [exact Hsync|]. intros o w1 s1 (g1 & He1 & Hd1 & Hend).
  destruct o as [[[]|e]|e|]; cbn [bind_post]; try done; [|by exists g1].
  assert (forall (X : Type) fd s2 (x : X), disk g1 s2 ->
    wp F (try (CloseErr fd)) (fun o x' s' => x' = x /\ disk g1 s' /\
      match o with Ret (Ok _) => True | Crashed => F FCrash | _ => False end) x s2) as Hclose.
  { intros X fd s2 x Hd2. apply wp_try. apply wp_sys; [done|intros Hcf; by destruct HF|].
    cbn. split; [done|]. split; [by apply disk_close|done]. }
  apply wp_bind. eapply wp_mono; [by apply Hclose|]. intros o w2 s2 (-> & Hd2 & H2).
  destruct o as [[[]|e]|e|]; cbn [bind_post]; try done; [|by exists g1].
  apply wp_ret. cbn [first_err]. apply wp_bind. apply wp_bind. eapply wp_mono; [by apply Hclose|]. intros o w3 s3 (-> & Hd3 & H3).
  destruct o as [[[]|e]|e|]; cbn [bind_post]; try done; [|by exists g1].
  apply wp_ret. cbn [first_err of_res bind_post]. apply wp_ret. by exists g1.
Qed.
End Close.

(** ** The operations on a running writer *)

(** What is spooled of a read. *)
Definition kept `{LinkTypes} (e : Excluder) (r : res RawPacket) : list PcapRecord :=
  match r with
  | Ok p => match Exclude e (rp_data p) with Some false => [capture_record p] | _ => [] end
  | Err _ => []
  end.

Section Rounds.
Context {S : Type} `{Source S} `{LinkTypes}.
Context (c0 : Config) (F : fault -> Prop) (HF : ~ can_fail F).
Abbreviation c := (applyDefaults c0).

(** The writer holds on to the packets of [g] and those of [rs]. *)
Definition spooled (rs : list PcapRecord) (g : ghost) {A} (o : outcome A) (cp : capture S) (s : fs) : Prop :=
  match o with
  | Ret _ => exists g', evolves (stored <$> rs) g g' /\ winv c g' (cp_w cp) s
  | Fail _ => False
  | Crashed => broken c (F FCrash) (stored <$> rs) g s
  end.

Lemma allowed_fail {A} e : ~ allowed F (Fail e : outcome A).
Proof. exact HF. Qed.

Lemma spooled_crash rs g s cp : F FCrash -> winv c g (cp_w cp) s -> spooled rs g (Crashed : outcome unit) cp s.
Proof. intros Hc Hw. apply broken_same; [done|]. apply Hw. Qed.

Lemma wp_tick ret g (cp : capture S) s :
  winv c g (cp_w cp) s -> nextSeq (cp_w cp) + 1 < 2 ^ 64 ->
  wp F (maintain ret TickerFired) (fun o cp' s' => spooled [] g o cp' s' /\ cp_src cp' = cp_src cp) cp s.
Proof.
  intros Hw Hn. cbn [maintain]. apply wp_bind, wp_try. unfold on_writer. apply wp_zoom.
  eapply wp_mono; [by apply wp_Tick|]. intros [[]|e|] w' s' H'; cbn [bind_post settled_post] in *.
  - apply wp_ret. split; [|done]. exact H'.
  - by destruct H' as [Hf _].
  - by split.
Qed.

Lemma wp_ping interval g (cp : capture S) s (Φ : outcome unit -> capture S -> fs -> Prop) :
  winv c g (cp_w cp) s ->
  (forall cp', cp_w cp' = cp_w cp -> cp_src cp' = cp_src cp -> Φ (Ret ()) cp' s) -> wp F (ping interval) Φ cp s.
Proof.
  intros Hw HΦ. unfold ping. case_match; [|by apply wp_ret, HΦ]. apply wp_bind, wp_get. cbn [bind_post].
  apply wp_bind, wp_Now. intros t. cbn [bind_post]. case_match; [|by apply wp_ret, HΦ].
  apply wp_bind, wp_modify. cbn [bind_post]. apply wp_bind, wp_Now. intros t'. cbn [bind_post].
  apply wp_modify. by apply HΦ.
Qed.

Lemma wp_read (cp : capture S) s (Φ : outcome (res RawPacket) -> capture S -> fs -> Prop) :
  Φ (Ret (ReadPacket (cp_src cp)).1) (set_src (ReadPacket (cp_src cp)).2 cp) s -> wp F capture_read Φ cp s.
Proof.
  intros HΦ fl ck rn Hfl. unfold capture_read. cbn. destruct (ReadPacket (cp_src cp)) as [r src]. by split.
Qed.

Lemma wp_capture_round e offline interval done g (cp : capture S) s :
  let r := (ReadPacket (cp_src cp)).1 in
  winv c g (cp_w cp) s -> Forall (room c0 (cp_w cp)) (kept e r) ->
  wp F (capture_round e offline interval done)
    (fun o cp' s' => spooled (kept e r) g o cp' s' /\ cp_src cp' = (ReadPacket (cp_src cp)).2) cp s.
Proof.
  intros r Hw Hroom. unfold capture_round. apply wp_bind, (wp_ping _ g); [done|]. intros cp1 Hcw Hcs. cbn [bind_post].
  apply wp_bind, wp_read. cbn [bind_post]. rewrite Hcs. fold r. set (cp2 := set_src _ cp1).
  assert (winv c g (cp_w cp2) s) as Hw2 by (by rewrite <-Hcw in Hw).
  assert (forall v : option (res unit), kept e r = [] ->
    spooled (kept e r) g (Ret v) cp2 s /\ cp_src cp2 = (ReadPacket (cp_src cp)).2) as Hskip.
  { intros v Hk. split; [|done]. rewrite Hk. exists g. split; [apply evolves_refl|done]. }
  destruct r as [p|err] eqn:Er.
  - destruct (Exclude_rules e (rp_data p)) as ([|] & Hex & _); rewrite Hex.
    + apply wp_ret, Hskip. unfold kept. by rewrite Hex.
    + assert (kept e (Ok p) = [capture_record p]) as Hk by (unfold kept; by rewrite Hex).
      rewrite Hk in *. rewrite Forall_singleton, <-Hcw in Hroom.
      apply wp_bind, wp_try. unfold on_writer. apply wp_zoom. eapply wp_mono.
      { apply (wp_WritePacket c F g); [exact Hw2|by apply (room_fits c0 g (cp_w cp2) s)|apply Hroom]. }
      intros o w' s' H'. destruct o as [gp|e'|]; cbn [bind_post].
      * destruct H' as (_ & H'). apply wp_ret. by split.
      * by destruct H' as [Hf _].
      * by split.
  - repeat case_match; apply wp_ret; by apply Hskip.
Qed.

(** The start and the stop. *)
Lemma wp_capture_start opts g (cp : capture S) s0 s :
  capture_config opts (src_LinkType (cp_src cp)) = c0 -> config_ok c ->
  spool_disk (SrcID c) (Snaplen c) (LinkType c) g s0 -> crash_fs s0 s -> untorn s -> small_seqs c s ->
  wp F (capture_start opts) (fun o cp' s' => cp_src cp' = cp_src cp /\
    match o with
    | Ret _ => exists g', restarts g g' /\ winv c g' (cp_w cp') s'
    | Fail _ => False
    | Crashed => F FCrash /\ exists g', restarts g g' /\ spool_disk (SrcID c) (Snaplen c) (LinkType c) g' s'
    end) cp s.
Proof.
  intros Hcfg Hc Hd Hcr Hu Hs. unfold capture_start. apply wp_bind, wp_get. cbn [bind_post]. rewrite Hcfg.
  apply wp_bind. unfold on_writer. apply wp_zoom.
  eapply wp_mono; [by apply (wp_NewWriter F c0 g (cp_w cp) s0 s)|].
  intros [[]|e|] w' s' H'; cbn [bind_post]; [|done|by split].
  destruct H' as (g' & Hr & Hw & _). apply wp_modify. split; [done|]. by exists g'.
Qed.

Lemma wp_capture_close g (cp : capture S) s :
  winv c g (cp_w cp) s ->
  wp F (on_writer Writer_Close) (fun o cp' s' => closed_post c F g o s') cp s.
Proof. intros Hw. unfold on_writer. apply wp_zoom. by apply wp_Writer_Close. Qed.
End Rounds.

(** ** What the operations leave alone *)

Section Leaves.
Context {X Y : Type} (f : X -> Y).

(** [m] does not change what [f] sees of the object. *)
Definition leaves {A} (m : M X A) : Prop := forall x, f (m x).2.1 = f x.1.

Lemma leaves_ret {A} (a : A) : leaves (mret a).
Proof. done. Qed.

Lemma leaves_bind {A B} (m : M X A) (k : A -> M X B) : leaves m -> (forall a, leaves (k a)) -> leaves (m ≫= k).
Proof.
  intros Hm Hk x. specialize (Hm x). unfold mbind, M_bind. destruct (m x) as [[a|e|] x1]; cbn in *; [|done..].
  by rewrite Hk.
Qed.

Lemma leaves_get : leaves get.
Proof. done. Qed.

Lemma leaves_modify (h : X -> X) : (forall x, f (h x) = f x) -> leaves (modify h).
Proof. intros Hh x. apply Hh. Qed.

Lemma leaves_try {A} (m : M X A) : leaves m -> leaves (try m).
Proof. intros Hm x. specialize (Hm x). unfold try. by destruct (m x) as [[a|e|] x1]. Qed.

Lemma leaves_on_error {A} (m : M X A) (cl : M X unit) : leaves m -> leaves cl -> leaves (on_error m cl).
Proof.
  intros Hm Hc. apply leaves_bind; [by apply leaves_try|]. intros [a|e]; [apply leaves_ret|].
  apply leaves_bind; [done|]. by intros _ x.
Qed.

Lemma leaves_zoom {Z A} (g : X -> Z) (p : Z -> X -> X) (m : M Z A) : (forall z x, f (p z x) = f x) -> leaves (zoom g p m).
Proof. intros Hp x. unfold zoom. destruct (m (g x.1, x.2)) as [o [z w]]. apply Hp. Qed.

Lemma leaves_sys {A} (call : fs -> res (A * fs)) : leaves (sys call).
Proof. intros x. unfold sys. destruct (next_fault x.2) as [[] w]; try done. by destruct (call _) as [[a s]|e]. Qed.

Lemma leaves_Now : leaves Now.
Proof. intros x. unfold Now. by destruct (w_clock x.2). Qed.

Lemma leaves_Write fd buf : leaves (Write fd buf).
Proof. intros x. unfold Write. destruct (next_fault x.2) as [fl w]. repeat (case_match; try done). Qed.

Lemma leaves_Close fd : leaves (Close fd).
Proof. done. Qed.

Lemma leaves_WriteFileAtomic path b durable : leaves (WriteFileAtomic path b durable).
Proof.
  unfold WriteFileAtomic. apply leaves_bind; [apply leaves_sys|]. intros fd.
  apply leaves_bind; [apply leaves_on_error; [apply leaves_Write|apply leaves_Close]|]. intros _.
  apply leaves_bind; [destruct durable; [apply leaves_on_error; [apply leaves_sys|apply leaves_Close]|apply leaves_ret]|]. intros _.
  apply leaves_bind; [apply leaves_sys|]. intros _. apply leaves_bind; [apply leaves_sys|]. intros _. apply leaves_sys.
Qed.
End Leaves.

#[export] Hint Resolve leaves_ret leaves_get leaves_try leaves_on_error leaves_sys leaves_Now leaves_Write leaves_Close
  leaves_WriteFileAtomic : ipcap.

Section Source.
Context {S : Type} `{Source S} `{LinkTypes}.

Lemma leaves_on_writer {A} (m : M Writer A) : leaves (cp_src (S := S)) (on_writer m).
Proof. by apply leaves_zoom. Qed.

Lemma leaves_maintain ret m : leaves (cp_src (S := S)) (maintain ret m).
Proof.
  destruct m; cbn [maintain].
  - apply leaves_bind; [apply leaves_try, leaves_on_writer|auto with ipcap].
  - apply leaves_bind.
    + unfold publishStats. apply leaves_bind; [auto with ipcap|]. intros cp. case_match; [|auto with ipcap].
      do 3 (apply leaves_bind; [apply leaves_on_writer|intros]).
      apply leaves_bind; [apply leaves_try; unfold writeStats; auto with ipcap|auto with ipcap].
    + intros _. case_match; [|auto with ipcap]. apply leaves_bind; [apply leaves_on_writer|]. intros _.
      apply leaves_bind; [apply leaves_try, leaves_on_writer|auto with ipcap].
Qed.

Lemma leaves_maintain_all ret ms : leaves (cp_src (S := S)) (maintain_all ret ms).
Proof.
  induction ms as [|m ms IH]; [apply leaves_ret|]. apply leaves_bind; [apply leaves_maintain|by intros _].
Qed.

Lemma leaves_ping interval : leaves (cp_src (S := S)) (ping interval).
Proof.
  unfold ping. case_match; [|auto with ipcap]. apply leaves_bind; [auto with ipcap|]. intros cp.
  apply leaves_bind; [auto with ipcap|]. intros t. case_match; [|auto with ipcap].
  apply leaves_bind; [by apply leaves_modify|]. intros _. apply leaves_bind; [auto with ipcap|]. intros t'.
  by apply leaves_modify.
Qed.

Lemma leaves_capture_start opts : leaves (cp_src (S := S)) (capture_start opts).
Proof.
  unfold capture_start. apply leaves_bind; [auto with ipcap|]. intros cp.
  apply leaves_bind; [apply leaves_on_writer|]. intros _. by apply leaves_modify.
Qed.
End Source.
