(* ===== verification/CaptureProps.v ===== *)
(** * What the capture process spools

    The capture process as a system of its steps; what it leaves on the disk is
    an abstract log of the packets the filter keeps, and the replay of a file ends
    with the file. *)

From S2P Require Import Prelude Bytes GoIO Pcapio Proto Os Durable Dir Runs Json Manifest Recover Spool SpoolSpec SpoolProof RecoverProof RestartProof SpoolProps Janitor Conn Streamer Net Excluder ExcluderProof Systemd Capture CaptureProof.

(** ** The system *)

Section System.
Context {S : Type} `{Source S} `{LinkTypes}.

(** The process, if it runs, and the spool directory. *)
Record kconf : Type := KConf { k_proc : option (capture S); k_dir : fs }.

(** [KTurn r]: a round in which the source returned [r]; [KStop]: the process
    closes the writer and ends; a crash comes while a read is being spooled, or
    at any other moment. *)
Inductive kevent : Type :=
  | KStart
  | KTick
  | KTurn (r : res RawPacket)
  | KStop
  | KCrash (r : res RawPacket).

Context (opts : CaptureOptions) (offline : bool) (interval : Z) (linkType : Z).
Abbreviation c0 := (capture_config opts linkType).
Abbreviation filter_of := (NewExcluder linkType (co_ExcludePorts opts) (co_Mgmt opts)).

(** No call fails, and the host crashes anywhere.  Stopping is allowed at every
    moment: the context can be cancelled at every moment. *)
Inductive kstep : kconf -> kevent -> kconf -> Prop :=
  | kstep_start s cp faults clock rand cp' wd :
      startable c0 s -> src_LinkType (cp_src cp) = linkType -> Forall crash_only faults ->
      capture_start opts (cp, World s faults clock rand) = (Ret (), (cp', wd)) ->
      kstep (KConf None s) KStart (KConf (Some cp') (w_fs wd))
  | kstep_start_crash s cp faults clock rand cp' wd s' :
      startable c0 s -> src_LinkType (cp_src cp) = linkType -> Forall crash_only faults ->
      capture_start opts (cp, World s faults clock rand) = (Crashed, (cp', wd)) -> crash_fs (w_fs wd) s' ->
      kstep (KConf None s) (KCrash (Err io_EOF)) (KConf None s')
  | kstep_tick cp s faults clock rand cp' wd :
      nextSeq (cp_w cp) + 1 < 2 ^ 64 -> Forall crash_only faults ->
      maintain (co_RetentionBytes opts) TickerFired (cp, World s faults clock rand) = (Ret (), (cp', wd)) ->
      kstep (KConf (Some cp) s) KTick (KConf (Some cp') (w_fs wd))
  | kstep_tick_crash cp s faults clock rand cp' wd s' :
      nextSeq (cp_w cp) + 1 < 2 ^ 64 -> Forall crash_only faults ->
      maintain (co_RetentionBytes opts) TickerFired (cp, World s faults clock rand) = (Crashed, (cp', wd)) ->
      crash_fs (w_fs wd) s' ->
      kstep (KConf (Some cp) s) (KCrash (Err io_EOF)) (KConf None s')
  | kstep_turn cp s faults clock rand done v cp' wd :
      Forall (room c0 (cp_w cp)) (kept filter_of (ReadPacket (cp_src cp)).1) -> Forall crash_only faults ->
      capture_round filter_of offline interval done (cp, World s faults clock rand) = (Ret v, (cp', wd)) ->
      kstep (KConf (Some cp) s) (KTurn (ReadPacket (cp_src cp)).1) (KConf (Some cp') (w_fs wd))
  | kstep_turn_crash cp s faults clock rand done cp' wd s' :
      Forall (room c0 (cp_w cp)) (kept filter_of (ReadPacket (cp_src cp)).1) -> Forall crash_only faults ->
      capture_round filter_of offline interval done (cp, World s faults clock rand) = (Crashed, (cp', wd)) ->
      crash_fs (w_fs wd) s' ->
      kstep (KConf (Some cp) s) (KCrash (ReadPacket (cp_src cp)).1) (KConf None s')
  | kstep_stop cp s faults clock rand cp' wd s' :
      Forall crash_only faults ->
      on_writer Writer_Close (cp, World s faults clock rand) = (Ret (), (cp', wd)) -> crash_fs (w_fs wd) s' ->
      kstep (KConf (Some cp) s) KStop (KConf None s')
  | kstep_stop_crash cp s faults clock rand cp' wd s' :
      Forall crash_only faults ->
      on_writer Writer_Close (cp, World s faults clock rand) = (Crashed, (cp', wd)) -> crash_fs (w_fs wd) s' ->
      kstep (KConf (Some cp) s) (KCrash (Err io_EOF)) (KConf None s')
  | kstep_crash cp s s' :
      crash_fs s s' -> kstep (KConf (Some cp) s) (KCrash (Err io_EOF)) (KConf None s').

(** ** The abstract log of the capture *)

Definition spooled_of (r : res RawPacket) : list PcapRecord := stored <$> kept filter_of r.

Inductive klog : log -> kevent -> log -> Prop :=
  | klog_start l l' : log_step l EvStart l' -> klog l KStart l'
  | klog_tick l l' : log_step l EvTick l' -> klog l KTick l'
  | klog_turn l r d :
      l_durable l <= d <= len (l_packets l ++ spooled_of r) ->
      klog l (KTurn r) (Log (l_packets l ++ spooled_of r) d)
  | klog_stop l : klog l KStop (Log (l_packets l) (len (l_packets l)))
  | klog_crash l r l' : log_step l (EvCrash (spooled_of r)) l' -> klog l (KCrash r) l'.

(** What a run without crashes has captured. *)
Definition captured (es : list kevent) : list PcapRecord :=
  concat ((fun e => match e with KTurn r => spooled_of r | _ => [] end) <$> es).

Definition orderly (es : list kevent) : Prop := Forall (fun e => match e with KCrash _ => False | _ => True end) es.

(** ** The refinement *)

Section Refine.
Context (Hcfg : config_ok (applyDefaults c0)).
Abbreviation c := (applyDefaults c0).

Definition krel (k : kconf) (l : log) : Prop := rel c0 (Conf (cp_w <$> k_proc k) (k_dir k)) l.

Lemma spooled_log {A} g (a : A) (cp : capture S) s r :
  base g = 0 -> spooled c0 crash_only (kept filter_of r) g (Ret a) cp s ->
  exists l', klog (ghost_log g) (KTurn r) l' /\ krel (KConf (Some cp) s) l'.
Proof.
  intros Hb (g' & (H1 & H2 & H3 & _) & Hw). exists (ghost_log g'). split.
  - pose proof (ghost_log_ok c0 g' ltac:(apply Hw) ltac:(congruence)) as Hl. unfold log_ok, ghost_log in *. cbn in Hl.
    rewrite H1 in Hl |- *. by apply (klog_turn (ghost_log g) r).
  - exists g'. split_and!; [done|congruence|done].
Qed.

Lemma spooled_cut {A} g (cp : capture S) s r s' :
  base g = 0 -> spooled c0 crash_only (kept filter_of r) g (Crashed : outcome A) cp s -> crash_fs s s' ->
  exists l', klog (ghost_log g) (KCrash r) l' /\ krel (KConf None s') l'.
Proof.
  intros Hb Hs Hcr. destruct (broken_crash c0 g (spooled_of r) s s' _ Hb Hs Hcr) as (l' & Hl & Hr).
  exists l'. split; [by apply klog_crash|done].
Qed.

Lemma closed_log {A} g (o : outcome A) s s' :
  base g = 0 -> closed_post c crash_only g o s -> crash_fs s s' ->
  exists l', klog (ghost_log g) (match o with Ret _ => KStop | _ => KCrash (Err io_EOF) end) l' /\
    krel (KConf None s') l'.
Proof.
  intros Hb (g' & (H1 & H2 & H3 & _) & Hd & Ho) Hcr. rewrite app_nil_r in H1.
  assert (krel (KConf None s') (ghost_log g')) as Hr by (exists g', s; split_and!; [done|done|congruence|done]).
  assert (klog (ghost_log g) (KCrash (Err io_EOF)) (ghost_log g')) as Hcl.
  { apply klog_crash. apply (log_crash_restarts c0); [apply Hd|done| |done|done].
    cbn. by rewrite app_nil_r, H1. }
  destruct o as [a|e|]; exists (ghost_log g'); (split; [|done]); [|done..].
  unfold ghost_log. rewrite Ho, H1. rewrite (next_hist c0 g' ltac:(apply Hd)), H3, Hb, H1.
  apply (klog_stop (ghost_log g)).
Qed.

Lemma not_failed {A} (o : outcome A) (P : A -> Prop) (Q : Prop) :
  o = Crashed -> match o with Ret a => P a | Fail _ => False | Crashed => Q end -> Q.
Proof. by intros ->. Qed.

Lemma kstep_log k e k' l : kstep k e k' -> krel k l -> exists l', klog l e l' /\ krel k' l'.
Proof.
  intros Hs Hr. pose proof crash_only_no_fail as HF.
  destruct Hs as [s cp fl ck rn cp' wd [Hu Hq] Hlt Hfl Hrun|s cp fl ck rn cp' wd s' [Hu Hq] Hlt Hfl Hrun Hcr|
    cp s fl ck rn cp' wd Hn Hfl Hrun|cp s fl ck rn cp' wd s' Hn Hfl Hrun Hcr|
    cp s fl ck rn dn v cp' wd Hroom Hfl Hrun|cp s fl ck rn dn cp' wd s' Hroom Hfl Hrun Hcr|
    cp s fl ck rn cp' wd s' Hfl Hrun Hcr|cp s fl ck rn cp' wd s' Hfl Hrun Hcr|cp s s' Hcr].
  - destruct Hr as (g & s0 & Hd & Hcr & Hb & <-). cbn in Hd, Hcr.
    assert (capture_config opts (src_LinkType (cp_src cp)) = c0) as Hc by (by rewrite Hlt).
    pose proof (wp_run _ _ _ _ (World s fl ck rn) _ _ _ (wp_capture_start c0 crash_only HF opts g cp s0 s Hc Hcfg Hd Hcr Hu Hq)
      eq_refl Hfl Hrun) as (_ & g' & (H1 & H2 & H3 & _) & Hw).
    exists (ghost_log g'). split; [|by exists g'; split_and!; [|congruence|]].
    apply klog_start, log_start; [done|]. split; [done|]. apply (ghost_log_ok c0); [apply Hw|congruence].
  - destruct Hr as (g & s0 & Hd & Hcr0 & Hb & <-). cbn in Hd, Hcr0.
    assert (capture_config opts (src_LinkType (cp_src cp)) = c0) as Hc by (by rewrite Hlt).
    pose proof (wp_run _ _ _ _ (World s fl ck rn) _ _ _ (wp_capture_start c0 crash_only HF opts g cp s0 s Hc Hcfg Hd Hcr0 Hu Hq)
      eq_refl Hfl Hrun) as (_ & _ & g' & (H1 & H2 & H3 & _) & Hd').
    exists (ghost_log g'). split; [|by exists g', (w_fs wd); split_and!; [..|congruence|]].
    apply klog_crash, (log_crash_restarts c0); try done; [apply Hd'|by rewrite app_nil_r].
  - destruct Hr as (g & Hw & Hb & <-). cbn in Hw.
    pose proof (wp_run _ _ _ _ (World s fl ck rn) _ _ _ (wp_tick c0 crash_only HF (co_RetentionBytes opts) g cp s Hw Hn) eq_refl Hfl Hrun)
      as [(g' & (H1 & H2 & H3 & _) & Hw') _].
    exists (ghost_log g'). split; [|by exists g'; split_and!; [|congruence|]].
    pose proof (ghost_log_ok c0 g' ltac:(apply Hw') ltac:(congruence)) as Hl. unfold log_ok, ghost_log in *. cbn in Hl.
    rewrite H1, app_nil_r in *. by apply klog_tick, (log_tick (ghost_log g)).
  - destruct Hr as (g & Hw & Hb & <-). cbn in Hw.
    pose proof (wp_run _ _ _ _ (World s fl ck rn) _ _ _ (wp_tick c0 crash_only HF (co_RetentionBytes opts) g cp s Hw Hn) eq_refl Hfl Hrun)
      as [Hsp _]. by eapply (spooled_cut g cp' (w_fs wd) (Err io_EOF)).
  - destruct Hr as (g & Hw & Hb & <-). cbn in Hw.
    pose proof (wp_run _ _ _ _ (World s fl ck rn) _ _ _ (wp_capture_round c0 crash_only HF filter_of offline interval dn g cp s Hw Hroom)
      eq_refl Hfl Hrun) as [Hsp _]. by eapply (spooled_log g v).
  - destruct Hr as (g & Hw & Hb & <-). cbn in Hw.
    pose proof (wp_run _ _ _ _ (World s fl ck rn) _ _ _ (wp_capture_round c0 crash_only HF filter_of offline interval dn g cp s Hw Hroom)
      eq_refl Hfl Hrun) as [Hsp _]. by eapply spooled_cut.
  - destruct Hr as (g & Hw & Hb & <-). cbn in Hw.
    pose proof (wp_run _ _ _ _ (World s fl ck rn) _ _ _ (wp_capture_close c0 crash_only HF g cp s Hw) eq_refl Hfl Hrun) as Hcl.
    by apply (closed_log g (Ret ()) (w_fs wd)).
  - destruct Hr as (g & Hw & Hb & <-). cbn in Hw.
    pose proof (wp_run _ _ _ _ (World s fl ck rn) _ _ _ (wp_capture_close c0 crash_only HF g cp s Hw) eq_refl Hfl Hrun) as Hcl.
    by apply (closed_log g (Crashed : outcome unit) (w_fs wd)).
  - destruct Hr as (g & Hw & Hb & <-). cbn in Hw. apply (spooled_cut (A := unit) g cp s (Err io_EOF)); [done| |done].
    apply broken_same; [by right|]. apply Hw.
Qed.

(** Between orderly sessions everything is durable. *)
Definition all_durable (k : kconf) (l : log) : Prop := k_proc k = None -> l_durable l = len (l_packets l).

Lemma kstep_orderly k e k' l l' :
  kstep k e k' -> klog l e l' -> (forall r, e <> KCrash r) -> all_durable k l ->
  all_durable k' l' /\ l_packets l' = l_packets l ++ captured [e].
Proof.
  unfold all_durable, captured. intros Hs Hl Hne Hd.
  destruct Hs; try (by destruct (Hne _ eq_refl)); inversion Hl as [? ? Hls|? ? Hls|? ? ? Hx| |]; subst; cbn in *;
    rewrite ?app_nil_r; try (by split).
  - inversion Hls as [? ps d Hp Hle| | |]; subst. split; [done|]. cbn. specialize (Hd eq_refl).
    apply prefix_length_eq; [done|]. unfold len in *. lia.
  - inversion Hls; subst. by split.
Qed.

Lemma ksteps_log k es k' l :
  steps kstep k es k' -> krel k l ->
  exists l', steps klog l es l' /\ krel k' l' /\
    (orderly es -> all_durable k l -> l_packets l' = l_packets l ++ captured es).
Proof.
  intros Hs. revert l. induction Hs as [k|k e k1 es k' He Hs IH]; intros l Hr.
  - exists l. split_and!; [constructor|done|]. intros _ _. by rewrite app_nil_r.
  - destruct (kstep_log k e k1 l He Hr) as (l1 & Hl1 & Hr1). destruct (IH l1 Hr1) as (l' & Hl' & Hr' & Hp).
    exists l'. split_and!; [by econstructor|done|]. intros [Ho1 Ho]%Forall_cons Hd.
    destruct (kstep_orderly k e k1 l l1 He Hl1) as [Hd1 Hp1]; [by intros r ->|done|].
    rewrite (Hp Ho Hd1), Hp1, <-(assoc_L (++)). unfold captured. cbn [fmap list_fmap concat]. by rewrite app_nil_r.
Qed.

End Refine.


End System.

(** ** Replays end *)

Section Replay.
Context {S : Type} `{Source S} `{LinkTypes}.

(** The source has [n] packets left and then reports an error, the end of the
    file say. *)
Inductive finite_reads : S -> nat -> Prop :=
  | reads_end src e src' : ReadPacket src = (Err e, src') -> e <> capture_ErrTimeout -> finite_reads src 0
  | reads_more src p src' n : ReadPacket src = (Ok p, src') -> finite_reads src' n -> finite_reads src (Datatypes.S n).

(** A round reads one packet; it goes on only if there was one. *)
Lemma round_reads e interval done n (x x' : capture S * world) :
  finite_reads (cp_src x.1) n -> capture_round e true interval done x = (Ret None, x') ->
  exists m, n = Datatypes.S m /\ finite_reads (cp_src x'.1) m.
Proof.
  intros Hf Hr. unfold capture_round in Hr. pose proof (leaves_ping interval x) as Hs.
  unfold mbind at 1, M_bind at 1 in Hr. destruct (ping interval x) as [[[]|err|] x1]; [|done..]. cbn in Hs.
  rewrite <-Hs in Hf.
  unfold mbind at 1, M_bind at 1, capture_read in Hr.
  inversion Hf as [src err src' He Hne|src p src' m He Hm]; subst src n; rewrite He in Hr.
  - exfalso. destruct done; [done|]. rewrite decide_False in Hr by done.
    by destruct (bool_decide (err = io_EOF)).
  - exists m. split; [done|]. destruct (Exclude e (rp_data p)) as [[|]|]; [|..|done].
    + injection Hr as <-. done.
    + unfold mbind, M_bind, try in Hr.
      pose proof (leaves_on_writer (WritePacket (capture_record p)) (set_src src' x1.1, x1.2)) as Hl.
      destruct (on_writer (WritePacket (capture_record p)) (set_src src' x1.1, x1.2)) as [[gp|err|] x2]; [|done..].
      injection Hr as <-. cbn in Hl |- *. by rewrite Hl.
Qed.

Lemma loop_ends e interval ret turns n (x : capture S * world) :
  finite_reads (cp_src x.1) n -> (n < length turns)%nat ->
  (capture_loop e true interval ret turns x).1 <> Ret None.
Proof.
  revert n x. induction turns as [|t turns IH]; intros n x Hf Hn; cbn in Hn; [lia|]. cbn [capture_loop].
  pose proof (leaves_maintain_all ret (tn_maintenance t) x) as Hm. unfold mbind at 1, M_bind at 1.
  destruct (maintain_all ret (tn_maintenance t) x) as [[[]|err|] x1]; [|done..]. cbn in Hm. rewrite <-Hm in Hf.
  destruct (tn_cancelled t); [done|]. unfold mbind, M_bind.
  destruct (capture_round e true interval (tn_done t) x1) as [[[r|]|err|] x2] eqn:E; [done| |done..].
  destruct (round_reads _ _ _ _ _ _ Hf E) as (m & -> & Hf'). apply (IH m); [done|lia].
Qed.

(** C34: the replay of a file ends: when its reader has [n] packets and then
    reports the end, or any error, [RunCapture] has returned after [n + 1] rounds
    of its loop, whatever the system calls, the clock and the maintenance do. *)
Theorem replay_terminates opts usec turns n (x : capture S * world) :
  finite_reads (cp_src x.1) n -> (n < length turns)%nat -> (RunCapture opts true usec turns x).1 <> Ret None.
Proof.
  intros Hf Hn. pose proof (leaves_capture_start opts x) as Hs. unfold RunCapture, mbind, M_bind, try.
  cbn [get]. destruct (capture_start opts x) as [[[]|err|] x1]; [|done..]. cbn in Hs. rewrite <-Hs in Hf.
  unfold modify. set (x2 := (set_ping _ x1.1, x1.2)).
  pose proof (loop_ends (NewExcluder (src_LinkType (cp_src x.1)) (co_ExcludePorts opts) (co_Mgmt opts))
    (WatchdogInterval usec) (co_RetentionBytes opts) turns n x2 Hf Hn) as Hl.
  destruct (capture_loop _ true _ _ turns x2) as [[[[[]|err]|]|err|] x3]; cbn in *; try done;
    destruct (on_writer Writer_Close x3) as [[u|err'|] x4]; done.
Qed.
End Replay.

(** ** The capture process at work *)

#[export] Instance Time_eq_dec : EqDecision Time.
Proof. solve_decision. Defined.
#[export] Instance RawPacket_eq_dec : EqDecision RawPacket.
Proof. solve_decision. Defined.

Section Execution.
Context {S : Type} `{Source S} `{LinkTypes}.
Context (opts : CaptureOptions) (offline : bool) (interval : Z) (linkType : Z) (idle : capture S).
Abbreviation c0 := (capture_config opts linkType).
Abbreviation filter_of := (NewExcluder linkType (co_ExcludePorts opts) (co_Mgmt opts)).

Definition same_read (r r' : res RawPacket) : bool :=
  match r, r' with
  | Ok p, Ok p' => bool_decide (p = p')
  | Err e, Err e' => bool_decide (e = e')
  | _, _ => false
  end.

(** Runs without faults; [idle] is what a process starts with. *)
Definition kexec (k : kconf (S := S)) (ev : kevent) : option kconf :=
  let run {A} (cp : capture S) (m : M (capture S) A) := m (cp, World (k_dir k) [] [] []) in
  match k_proc k, ev with
  | None, KStart =>
      if startable_b (k_dir k) then
        match run idle (capture_start opts) with
        | (Ret _, (cp, wd)) => Some (KConf (Some cp) (w_fs wd))
        | _ => None
        end
      else None
  | Some cp, KTick =>
      if nextSeq (cp_w cp) + 1 <? 2 ^ 64 then
        match run cp (maintain (co_RetentionBytes opts) TickerFired) with
        | (Ret _, (cp', wd)) => Some (KConf (Some cp') (w_fs wd))
        | _ => None
        end
      else None
  | Some cp, KTurn r =>
      if forallb (room_b c0 (cp_w cp)) (kept filter_of (ReadPacket (cp_src cp)).1) &&
         same_read (ReadPacket (cp_src cp)).1 r then
        match run cp (capture_round filter_of offline interval false) with
        | (Ret _, (cp', wd)) => Some (KConf (Some cp') (w_fs wd))
        | _ => None
        end
      else None
  | Some cp, KStop =>
      match run cp (on_writer Writer_Close) with
      | (Ret _, (_, wd)) => if floors_ok (w_fs wd) then Some (KConf None (flushed (w_fs wd))) else None
      | _ => None
      end
  | Some _, KCrash (Err e) =>
      if floors_ok (k_dir k) && bool_decide (e = io_EOF) then Some (KConf None (flushed (k_dir k))) else None
  | _, _ => None
  end.

Lemma same_read_spec r r' : same_read r r' = true -> r = r'.
Proof. destruct r, r'; cbn; try done; intros He%bool_decide_eq_true; by subst. Qed.

Lemma kexec_step k e k' :
  src_LinkType (cp_src idle) = linkType -> fs_wf (k_dir k) -> kexec k e = Some k' ->
  kstep opts offline interval linkType k e k'.
Proof.
  intros Hi Hwf. destruct k as [[cp|] s]; destruct e as [| |r| |[p|err]]; unfold kexec; cbn [k_proc k_dir] in *;
    intros He; try discriminate.
  - destruct (Z.ltb_spec (nextSeq (cp_w cp) + 1) (2 ^ 64)); [|done].
    destruct (maintain _ _ _) as [[[]|e|] [w' wd]] eqn:E; [|done..]. simplify_eq. by eapply kstep_tick.
  - destruct (forallb _ _) eqn:Er; [|done]. destruct (same_read _ r) eqn:Es; [|done]. cbn [andb] in He.
    apply same_read_spec in Es as <-.
    destruct (capture_round _ _ _ _ _) as [[v|e|] [w' wd]] eqn:E; [|done..]. simplify_eq.
    eapply kstep_turn; [|by constructor|done]. rewrite forallb_forall in Er. apply Forall_forall. intros x Hx.
    apply room_b_spec, Er. by apply list_elem_of_In.
  - destruct (on_writer _ _) as [[[]|e|] [w' wd]] eqn:E; [|done..]. destruct (floors_ok _) eqn:Ef; [|done].
    simplify_eq. eapply kstep_stop; [by constructor|done|by apply crash_flushed].
  - destruct (floors_ok s) eqn:Ef; [|done]. case_bool_decide; [|done]. cbn in He. simplify_eq. by apply kstep_crash, crash_flushed.
  - destruct (startable_b s) eqn:Es; [|done].
    destruct (capture_start opts _) as [[[]|e|] [w' wd]] eqn:E; [|done..]. simplify_eq.
    eapply kstep_start; [by apply startable_b_spec|done|constructor|done].
Qed.

Lemma kexec_runs es k l k' :
  src_LinkType (cp_src idle) = linkType -> config_ok (applyDefaults c0) -> krel opts linkType k l ->
  exec_all kexec k es = Some k' -> steps (kstep opts offline interval linkType) k es k'.
Proof.
  intros Hi Hc Hr He. apply (exec_steps _ (fun k => exists l, krel opts linkType k l) kexec); [|eauto|done].
  intros k1 e k2 [l1 Hr1] E. pose proof (kexec_step k1 e k2 Hi (rel_wf _ _ _ Hr1) E) as Hs. split; [done|].
  destruct (kstep_log opts offline interval linkType Hc k1 e k2 l1 Hs Hr1) as (l2 & _ & Hr2). eauto.
Qed.
End Execution.

(** A file of one frame that the filter drops, two it keeps and the end. *)
#[local] Instance list_libs : CaptureLibs := {
  pcap_reader := list (list byte * CaptureInfo);
  NewReader b := Ok [(b, mkCaptureInfo (mkTime 0 0) (len b))];
  reader_LinkType _ := 1;
  ReadPacketData r := match r with p :: r => (Ok p, r) | [] => (Err io_EOF, []) end;
  ring := unit;
  NewTPacket _ _ _ _ := Err fmt_err;
  ZeroCopyReadPacketData r := (Err io_EOF, r);
  tp_timeout _ := false;
  SocketStats _ := Err fmt_err
}.

#[local] Existing Instance registry.

Definition example_opts : CaptureOptions := mkCaptureOptions 7 0 [7878] [] 0 0.
Definition example_packets : list (list byte * CaptureInfo) :=
  (fun d => (d, mkCaptureInfo (mkTime 1700000000 2000) (len d))) <$>
    [drain_frame 40000 7878 [x0a; x3c; x02; x03]; drain_frame 40000 80 [x0a; x3c; x02; x03]; [x61; x62]].
Definition example_file : FileSource := mkFileSource example_packets 1 0.
Definition example_idle : capture FileSource := mkCapture new_object example_file (mkNotifier None []) 0.

Definition raw_of (p : list byte * CaptureInfo) : res RawPacket :=
  Ok (mkRawPacket (mkTime 1700000000 2000) p.1 (len p.1)).

(** A crash after two packets, and the whole file again. *)
Definition example_krun : list kevent :=
  let session := [KStart] ++ (KTurn <$> (raw_of <$> example_packets)) in
  take 3 session ++ [KTick; KCrash (Err io_EOF)] ++ session ++ [KTurn (Err io_EOF); KStop].

Definition example_kexec := kexec example_opts true 0 1 example_idle.
Definition example_kend : kconf (S := FileSource) := exec_end example_kexec (KConf None empty_fs) example_krun.


Lemma replay_terminates_witness :
  (RunCapture example_opts true [] (replicate 4 (mkTurn [TickerFired] false false))
    (example_idle, World empty_fs [] [] [])).1 <> Ret None.
Proof.
  apply (replay_terminates example_opts [] _ 3).
  - do 3 (eapply reads_more; [reflexivity|]). eapply reads_end; [reflexivity|discriminate].
  - cbn. lia.
Defined.

(** [WritePacket] does not hold a packet against the snapshot length, recovery
    does: a longer packet becomes durable and is advertised, and the restart of
    the process drops it. *)
Example long_packet_dropped :
  let c := mkConfig 7 10 1 0 0 0 0 in
  let run {A} (s : fs) (m : M Writer A) := m (new_object, World s [] [] []) in
  match run empty_fs (NewWriter c ;; WritePacket (mkPcapRecord 1 2 0 (replicate 12 x61)) ;; Tick ;; Writer_Close) with
  | (Ret _, (_, wd)) =>
      (seg_EndGpidx <$> head_pointer (w_fs wd)) = Some 1 /\
      match run (w_fs wd) (NewWriter c ;; Head) with (Ret head, _) => head = 0 | _ => False end
  | _ => False
  end.
Proof. vm_compute. by split. Qed.
