(* ===== verification/Serve.v ===== *)
(** * The serve loop of the agent (internal/agent/serve_cmd.go)

    One connection: preamble, then the packets of the spool in batches, with
    heartbeats, statistics and keylog lines, until the context is cancelled. *)

From S2P Require Import Prelude Bytes GoIO Pcapio Proto Os Durable Json Manifest Spool Janitor Reader Keylog Conn Streamer.

(** The directory is the world of the operations; [PollInterval] only delays. *)
Record ServeOptions : Type := mkServeOptions {
  so_SrcID : Z;
  so_SrcName : list byte;
  so_Resume : Z;
  so_Compress : bool;
  so_KeylogFile : keylogPath;
  so_BatchMaxPackets : Z;
  so_BatchMaxBytes : Z;
  so_PollInterval : Z
}.

Definition serve_defaults (o : ServeOptions) : ServeOptions :=
  mkServeOptions (so_SrcID o) (so_SrcName o) (so_Resume o) (so_Compress o) (so_KeylogFile o)
    (if so_BatchMaxPackets o <=? 0 then 256 else so_BatchMaxPackets o)
    (if so_BatchMaxBytes o <=? 0 then 2 ^ 20 else so_BatchMaxBytes o)
    (if so_PollInterval o <=? 0 then 50 * 10 ^ 6 else so_PollInterval o).

(** The variables of [RunServe].  The keylog files come with their own world. *)
Record server : Type := mkServer {
  sv_opts : ServeOptions;
  sv_snaplen : Z;
  sv_r : Reader;
  sv_reopened : bool;     (** [sv_r] is not the reader of the deferred [r.Close] *)
  sv_s : streamer;
  sv_keylog : keylogTailer;
  sv_keylog_world : world;
  sv_batch : list PktRecord;
  sv_batchBytes : Z;
  sv_baseGpidx : Z;
  sv_lastBeat : Z
}.

Definition set_reader (r : Reader) (v : server) : server :=
  mkServer (sv_opts v) (sv_snaplen v) r (sv_reopened v) (sv_s v) (sv_keylog v) (sv_keylog_world v) (sv_batch v) (sv_batchBytes v)
    (sv_baseGpidx v) (sv_lastBeat v).
Definition set_streamer (s : streamer) (v : server) : server :=
  mkServer (sv_opts v) (sv_snaplen v) (sv_r v) (sv_reopened v) s (sv_keylog v) (sv_keylog_world v) (sv_batch v) (sv_batchBytes v)
    (sv_baseGpidx v) (sv_lastBeat v).
Definition set_keylogs (k : keylogTailer) (w : world) (v : server) : server :=
  mkServer (sv_opts v) (sv_snaplen v) (sv_r v) (sv_reopened v) (sv_s v) k w (sv_batch v) (sv_batchBytes v) (sv_baseGpidx v)
    (sv_lastBeat v).
Definition set_batch (b : list PktRecord) (n base : Z) (v : server) : server :=
  mkServer (sv_opts v) (sv_snaplen v) (sv_r v) (sv_reopened v) (sv_s v) (sv_keylog v) (sv_keylog_world v) b n base (sv_lastBeat v).
Definition set_lastBeat (t : Z) (v : server) : server :=
  mkServer (sv_opts v) (sv_snaplen v) (sv_r v) (sv_reopened v) (sv_s v) (sv_keylog v) (sv_keylog_world v) (sv_batch v)
    (sv_batchBytes v) (sv_baseGpidx v) t.

Definition set_reopened (v : server) : server :=
  mkServer (sv_opts v) (sv_snaplen v) (sv_r v) true (sv_s v) (sv_keylog v) (sv_keylog_world v) (sv_batch v)
    (sv_batchBytes v) (sv_baseGpidx v) (sv_lastBeat v).

Definition on_reader {A} (m : M Reader A) : M server A := zoom sv_r set_reader m.
Definition on_streamer {A} (m : M streamer A) : M server A := zoom sv_s set_streamer m.

(** [keylog.emitNew(s)]. *)
Definition emit_keylogs : M server unit := fun s =>
  let v := s.1 in
  let '(o, ((k, str), w)) := emitNew ((sv_keylog v, sv_s v), sv_keylog_world v) in
  (o, (set_streamer str (set_keylogs k w v), s.2)).

Section Serve.
Context `{CborCodec PreambleHeader, CborCodec Stats, ZstdCodec}.

(** The closures [flush] and [beat]. *)
Definition flush : M server unit :=
  v ← get;
  match sv_batch v with
  | [] => mret ()
  | _ =>
      on_streamer (sendBatch (sv_baseGpidx v) (sv_batch v)) ;;
      modify (fun v => set_batch [] 0 (sv_baseGpidx v) v)
  end.

Definition beat : M server unit :=
  emit_keylogs ;;
  on_streamer out_Flush ;;
  t ← Now;
  modify (set_lastBeat t) ;;
  st ← readStats;
  (match st with Some st => on_streamer (sendStats st) | None => mret () end) ;;
  v ← get;
  on_streamer (sendHeartbeat (rd_head (sv_r v))).

(** What the outcome of [r.Next] leads to in one round of the loop. *)
Definition serve_packet (rec : PcapRecord) (gp : Z) : M server unit :=
  modify (fun v =>
    let batch := sv_batch v ++ [pcapToProto rec] in
    let bytes := i64 (sv_batchBytes v + (RecordHeaderLen + len (Data rec))) in
    set_batch batch bytes (match sv_batch v with [] => gp | _ => sv_baseGpidx v end) v) ;;
  v ← get;
  (if (so_BatchMaxPackets (sv_opts v) <=? len (sv_batch v)) ||
      (so_BatchMaxBytes (sv_opts v) <=? sv_batchBytes v)
   then flush else mret ()) ;;
  v ← get;
  t ← Now;
  if 10 ^ 9 <=? t - sv_lastBeat v then beat else mret ().

Definition serve_idle : M server unit := flush ;; beat.

Definition serve_reaped : M server unit :=
  flush ;;
  v ← get;
  let lostFrom := gpidx (sv_r v) in
  _ ← try (on_reader Reader_Close);
  modify set_reopened ;;
  r ← on_reader (OpenReader (so_SrcID (sv_opts v)) (sv_snaplen v) lostFrom);
  on_streamer (sendGap lostFrom r.1).

(** One round of the loop.  [fuel] bounds the rounds of [r.Next]'s own loop. *)
Definition serve_round (fuel : nat) : M server unit :=
  r ← try (on_reader (Next fuel));
  match r with
  | Ok (Some (rec, gp)) => serve_packet rec gp
  | Ok None => mret ()
  | Err e =>
      if decide (e = spool_ErrNoData) then serve_idle
      else if decide (e = spool_ErrReaped) then serve_reaped
      else fail e
  end.

(** The loop; [ctx] is what the looks at the context show, at its end the context
    is cancelled. *)
Fixpoint serve_loop (fuel : nat) (ctx : list bool) : M server unit :=
  match ctx with
  | [] | true :: _ => mret ()
  | false :: ctx => serve_round fuel ;; serve_loop fuel ctx
  end.

(** Up to [OpenReader].  The object becomes the server of the connection [c]; returns
    the header, the epoch, the start position and whether it was clamped. *)
Definition serve_open (opts : ServeOptions) (c : conn) (kw : world) :
    M server (GlobalHeader * list byte * (Z * bool)) :=
  let opts := serve_defaults opts in
  gh ← SourceHeader (so_SrcID opts);
  epoch ← Epoch;
  r ← on_reader (OpenReader (so_SrcID opts) (gh_Snaplen gh) (so_Resume opts));
  modify (fun v => mkServer opts (gh_Snaplen gh) (sv_r v) false
    (mkStreamer (mkBuf [] false c) (so_SrcID opts) ∅ (so_Compress opts))
    (newKeylogTailer (so_KeylogFile opts)) kw [] 0 0 0) ;;
  mret (gh, epoch, r).

Definition preamble_header (opts : ServeOptions) (linkType snaplen : Z) (epoch : list byte) (from : Z) : PreambleHeader :=
  mkPreambleHeader (if so_Compress opts then CompressionZstd else CompressionNone)
    [mkSrcInfo (so_SrcID opts) (so_SrcName opts) (u16 linkType) snaplen (str "afpacket") epoch]
    {[ so_SrcID opts := from ]}.

Definition serve_preamble (linkType snaplen : Z) (epoch : list byte) (from : Z) (reaped : bool) : M server unit :=
  v ← get;
  let opts := sv_opts v in
  p ← of_res (WritePreamble (preamble_header opts linkType snaplen epoch from));
  on_streamer (out_Write p) ;;
  (if reaped : bool then on_streamer (sendGap (so_Resume opts) from) else mret ()) ;;
  t ← Now;
  modify (set_lastBeat t).

(** The deferred calls. *)
Definition close_keylogs : M server unit := fun s =>
  let v := s.1 in
  let '(_, (_, w)) := keylogTailer_Close (sv_keylog v) ((), sv_keylog_world v) in
  (Ret (), (set_keylogs (newKeylogTailer (kt_path (sv_keylog v))) w v, s.2)).

Definition serve_end : M server unit :=
  close_keylogs ;;
  v ← get;
  if sv_reopened v then mret () else (_ ← try (on_reader Reader_Close); mret ()).

Definition RunServe (fuel : nat) (opts : ServeOptions) (ctx : list bool) (c : conn) (kw : world) : M server unit :=
  o ← serve_open opts c kw;
  let '(gh, epoch, (from, reaped)) := o in
  r ← try (serve_preamble (gh_LinkType gh) (gh_Snaplen gh) epoch from reaped ;; serve_loop fuel ctx);
  serve_end ;;
  of_res r.

(** [readAcks]: the frames of the collector are read and dropped until the
    context is cancelled or the stream fails; then it cancels the context.
    [None]: the fuel was not enough. *)
Fixpoint readAcks (fuel : nat) (ctx : list bool) (r : option stream) : option unit :=
  match r with
  | None => Some ()
  | Some r =>
      match fuel with
      | O => None
      | S fuel =>
          match ctx with
          | true :: _ => Some ()
          | _ => match ReadFrame r with (Err _, _) => Some () | (Ok _, r) => readAcks fuel (tail ctx) (Some r) end
          end
      end
  end.
End Serve.
