(* ===== verification/ServeProof.v ===== *)
(** * What the serve loop sends

    The batches of a connection hold the packets of the log from the start
    position on, durable ones, in order and without a gap; a round that finds no
    more packets has sent them all. *)

From S2P Require Import Prelude Bytes GoIO Pcapio Proto Os Keeps Durable Dir Runs Json Manifest Recover Spool SpoolSpec SpoolProof RecoverProof RestartProof SpoolProps Janitor Reader ReaderProof TailProof TailProps Keylog Conn Streamer StreamerProof Demux DemuxProof Serve.

(** ** The libraries *)

(** A compressed batch decompresses, and grows by little. *)
Class ZstdLaws `{ZstdCodec} : Prop := {
  zstd_roundtrip x : len x <= maxDecompressed -> zstd_DecodeAll (zstd_EncodeAll x) = Ok x;
  zstd_bound x : len (zstd_EncodeAll x) <= len x + len x / 256 + 2 ^ 16
}.

(** Six integers have a small encoding. *)
Class StatsLaws `{CborCodec Stats} : Prop := {
  stats_encodes st : exists b, cbor_Marshal st = Ok b /\ len b < 2 ^ 32
}.

(** ** Packets *)

(** The packets' time stamps are in microseconds below a second, as capture makes
    them, so the nanoseconds fit. *)
Definition stamped (r : PcapRecord) : Prop := TsUsec r * 1000 < 2 ^ 32.

Lemma wf_pcapToProto snap r : wf_record snap r -> snap <= 2 ^ 22 -> wf_pkt (pcapToProto r).
Proof.
  intros (H1 & H2 & H3 & H4) Hs. unfold wf_pkt, pcapToProto, is_uint, u32, MaxPayloadLen in *. cbn.
  pose proof (Z.mod_pos_bound (TsUsec r * 1000) (2 ^ 32)). pose proof (len_nonneg (Data r)).
  rewrite (Z.mod_small (len (Data r))) by lia. split_and!; lia.
Qed.

Lemma protoToPcap_pcapToProto snap r : wf_record snap r -> stamped r -> protoToPcap (pcapToProto r) = r.
Proof.
  intros (H1 & H2 & H3 & H4) Hs. unfold stamped, protoToPcap, pcapToProto, is_uint, u32 in *. cbn.
  rewrite (Z.mod_small (TsSec r)), (Z.mod_small (TsUsec r * 1000)) by lia.
  rewrite Z.div_mul by lia. by destruct r.
Qed.

(** ** Delivered frames *)

(** The fields fit the header. *)
Definition sized (f : Frame) : Prop :=
  is_uint 8 (f_Type f) /\ is_uint 16 (f_Flags f) /\ is_uint 64 (f_BaseGpidx f) /\ len (f_Payload f) < 2 ^ 32.

Lemma plain_sized f : plain f -> sized f.
Proof. intros (_ & H1 & H2 & Hb & H3). split_and!; try done; by rewrite Hb. Qed.

Section Delivers.
Context `{ZstdCodec}.

(** The batches of the frames are the packets of [h] from [from] on, up to [n]. *)
Inductive delivers (h : list PcapRecord) (from : Z) : list Frame -> Z -> Prop :=
  | dl_nil : delivers h from [] from
  | dl_plain fs f n : delivers h from fs n -> plain f -> delivers h from (fs ++ [f]) n
  | dl_batch fs f n recs :
      delivers h from fs n -> sized f -> f_Type f = FramePktBatch -> f_BaseGpidx f = n ->
      batch f = Ok (pcapToProto <$> recs) -> recs <> [] -> recs = slice (Z.to_nat n) (length recs) h ->
      delivers h from (fs ++ [f]) (n + len recs).

Lemma delivers_plain h from fs fs' n : delivers h from fs n -> Forall plain fs' -> delivers h from (fs ++ fs') n.
Proof.
  intros Hd Hf. revert fs Hd. induction Hf as [|f fs' Hp Hf IH]; intros fs Hd; [by rewrite app_nil_r|].
  change (f :: fs') with ([f] ++ fs'). rewrite app_assoc. by apply IH, dl_plain.
Qed.

Lemma delivers_le h from fs n : delivers h from fs n -> from <= n.
Proof. induction 1; [lia..|]. pose proof (len_nonneg recs). lia. Qed.

(** Only the packets below [n] matter. *)
Lemma delivers_take h h' from fs n :
  0 <= from -> delivers h from fs n -> take (Z.to_nat n) h' = take (Z.to_nat n) h -> delivers h' from fs n.
Proof.
  intros H0 Hd. induction Hd as [|fs f n Hd IH Hf|fs f n recs Hd IH Hs Ht Hb Hba Hne Hr]; intros Hh.
  - constructor.
  - apply dl_plain; [by apply IH|done].
  - pose proof (delivers_le _ _ _ _ Hd). pose proof (len_nonneg recs). apply dl_batch; try done.
    + apply IH. apply (f_equal (take (Z.to_nat n))) in Hh. by rewrite !take_take, Nat.min_l in Hh by lia.
    + rewrite Hr at 1. unfold slice.
      assert (forall l : list PcapRecord, take (length recs) (drop (Z.to_nat n) l) =
        drop (Z.to_nat n) (take (Z.to_nat (n + len recs)) l)) as Hsl.
      { intros l. rewrite skipn_firstn_comm. f_equal. unfold len. lia. }
      by rewrite !Hsl, Hh.
Qed.
End Delivers.

(** ** Batches *)

Fixpoint pcap_bytes (recs : list PcapRecord) : Z :=
  match recs with [] => 0 | r :: recs => (RecordHeaderLen + len (Data r)) + pcap_bytes recs end.

Lemma pcap_bytes_snoc recs r : pcap_bytes (recs ++ [r]) = pcap_bytes recs + (RecordHeaderLen + len (Data r)).
Proof. induction recs as [|x recs IH]; cbn [app pcap_bytes]; [lia|]. rewrite IH. lia. Qed.

Lemma pcap_bytes_nonneg recs : 0 <= pcap_bytes recs.
Proof.
  induction recs as [|r recs IH]; cbn [pcap_bytes]; [lia|]. pose proof (len_nonneg (Data r)).
  unfold RecordHeaderLen. lia.
Qed.

Lemma len_EncodePktBatch recs :
  len (EncodePktBatch (pcapToProto <$> recs)) = 2 + (pcap_bytes recs + 4 * len recs).
Proof.
  rewrite EncodePktBatch_bytes, len_app. unfold len at 1. rewrite length_be_enc.
  change (Z.of_nat 2) with 2. f_equal. induction recs as [|r recs IH]; [done|].
  rewrite fmap_cons, enc_pkts_cons, len_app, IH, len_cons. cbn [pcap_bytes]. unfold PktRecord_bytes.
  rewrite len_app. unfold len at 1. rewrite length_PktRecord_header. unfold RecordHeaderLen. cbn [pcapToProto pk_Data]. lia.
Qed.

Section Batch.
Context `{ZstdLaws}.

(** A batch of few packets and bytes arrives as it is. *)
Lemma batch_arrives s base recs q snap :
  Forall (wf_record snap) recs -> snap <= 2 ^ 22 -> len recs <= 65535 -> pcap_bytes recs <= 2 ^ 22 + (16 + 2 ^ 22) ->
  is_uint 64 base ->
  sized (batch_frame s base (pcapToProto <$> recs) q) /\
  batch (batch_frame s base (pcapToProto <$> recs) q) = Ok (pcapToProto <$> recs).
Proof.
  intros Hw Hsnap Hn Hb Hbase. pose proof (len_EncodePktBatch recs) as Hl. pose proof (len_nonneg recs).
  pose proof (pcap_bytes_nonneg recs).
  assert (Forall wf_pkt (pcapToProto <$> recs)) as Hp.
  { apply Forall_fmap. eapply Forall_impl; [exact Hw|]. intros r Hr. by eapply wf_pcapToProto. }
  assert (len (pcapToProto <$> recs) < 2 ^ 16) as Hlen by (unfold len in *; rewrite length_fmap; lia).
  set (payload := EncodePktBatch _) in Hl. pose proof (zstd_bound payload) as Hz.
  assert (len payload <= maxDecompressed) as Hmax by (unfold maxDecompressed; lia).
  pose proof (Z.div_le_upper_bound (len payload) 256 (len payload) ltac:(lia) ltac:(lia)) as Hdiv.
  pose proof (decode_encode (pcapToProto <$> recs) [] Hp Hlen) as Hdec. rewrite app_nil_r in Hdec.
  unfold batch_frame, sized, batch. cbn [f_Type f_Flags f_BaseGpidx f_Payload]. fold payload.
  destruct (compress s).
  - split; [|by unfold CompressBatch, DecompressBatch; rewrite zstd_roundtrip].
    split_and!; try done; try apply Hbase. unfold CompressBatch. lia.
  - split; [|exact Hdec]. split_and!; try done; try apply Hbase. lia.
Qed.
End Batch.

(** ** The server's state *)

Definition opts_ok (o : ServeOptions) : Prop :=
  0 < so_BatchMaxPackets o <= 65535 /\ 0 < so_BatchMaxBytes o <= 2 ^ 22 /\ is_uint 16 (so_SrcID o) /\
  is_uint 64 (so_Resume o).

Section Server.
Context `{CborCodec PreambleHeader, CborCodec Stats, ZstdCodec} `{!ZstdLaws, !StatsLaws}.
Context (c : Config) (F FK : fault -> Prop) (HF : ~ can_fail F) (Hcfg : config_ok c) (Hsnap : Snaplen c <= 2 ^ 22).
Context (opts : ServeOptions) (Hopts : opts_ok opts) (g : ghost) (Hbase : base g = 0) (pre : list byte) (from : Z).

(** The server is the one of the connection. *)
Definition named (v : server) : Prop :=
  sv_opts v = opts /\ sv_snaplen v = Snaplen c /\ st_srcID (sv_s v) = so_SrcID opts.

Lemma named_eq v v' :
  sv_opts v' = sv_opts v -> sv_snaplen v' = sv_snaplen v -> st_srcID (sv_s v') = st_srcID (sv_s v) -> named v -> named v'.
Proof. unfold named. by intros -> -> ->. Qed.

(** What the connection has got, whatever happens next. *)
Definition spread (v : server) : Prop :=
  named v /\
  exists fs n, sends pre fs (sv_s v) /\ delivers (hist g) from fs n /\ 0 <= from /\ n <= durable_end g.

(** The pending batch holds the packets [recs] before the reader's position. *)
Record pends (v : server) (n : Z) (recs : list PcapRecord) : Prop := {
  pd_batch : sv_batch v = pcapToProto <$> recs;
  pd_recs : recs = slice (Z.to_nat n) (length recs) (hist g);
  pd_pos : n + len recs = gpidx (sv_r v);
  pd_base : recs <> [] -> sv_baseGpidx v = n;
  pd_bytes : sv_batchBytes v = pcap_bytes recs
}.

(** [mp] and [mb] bound the pending batch. *)
Record core (mp mb : Z) (v : server) (s : fs) : Prop := {
  co_served : served c g s;
  co_reader : rinv c g (sv_r v) s;
  co_opts : named v;
  co_keys : tailer_ok (sv_keylog v) /\ small_files (w_fs (sv_keylog_world v)) /\ Forall FK (w_faults (sv_keylog_world v));
  co_sent : exists fs n recs, sends pre fs (sv_s v) /\ delivers (hist g) from fs n /\ 0 <= from /\
    pends v n recs /\ len recs <= mp /\ pcap_bytes recs <= mb
}.

Abbreviation quiet v := (quiet_line (out (sv_s v))).

(** A call that leaves the directory and the reader alone. *)
Definition stays (v : server) (s : fs) (Q : server -> Prop) (o : outcome unit) (v' : server) (s' : fs) : Prop :=
  s' = s /\ sv_r v' = sv_r v /\ spread v' /\
  match o with
  | Ret _ => Q v' /\ (quiet v -> quiet v')
  | Fail _ => ~ quiet v
  | Crashed => F FCrash \/ FK FCrash
  end.

Lemma core_spread mp mb v s : core mp mb v s -> spread v.
Proof.
  intros [_ Hr Ho _ (fs & n & recs & Hs & Hd & Hf & Hp & _)]. split; [done|]. exists fs, n. split_and!; try done.
  pose proof (pd_pos _ _ _ Hp). pose proof (ri_pos _ _ _ _ Hr). pose proof (len_nonneg recs). lia.
Qed.

Lemma core_mono mp mb mp' mb' v s : mp <= mp' -> mb <= mb' -> core mp mb v s -> core mp' mb' v s.
Proof.
  intros Hmp Hmb [C1 C2 C3 C4 (fs & n & recs & Hs & Hd & Hf & Hp & Hl & Hb)]. split; try done.
  exists fs, n, recs. split_and!; [done..|lia|lia].
Qed.

Lemma wp_stays_bind (m k : M server unit) v s (P Q : server -> Prop) :
  wp F m (stays v s P) v s ->
  (forall v', P v' -> sv_r v' = sv_r v -> wp F k (stays v' s Q) v' s) ->
  wp F (m ;; k) (stays v s Q) v s.
Proof.
  intros Hm Hk. apply wp_bind. eapply wp_mono; [exact Hm|]. intros o v' s' (-> & Hr & Hs & Ho).
  destruct o as [[]|e|]; cbn [bind_post]; [|by split_and!..].
  destruct Ho as [HP Hq]. eapply wp_mono; [by apply Hk|]. intros o v2 s2 (-> & Hr2 & Hs2 & Ho).
  split; [done|]. split; [congruence|]. split; [done|]. destruct o; [|auto..].
  destruct Ho as [HQ Hq2]. split; [done|auto].
Qed.

Lemma stays_ret v s (Q : server -> Prop) : spread v -> Q v -> stays v s Q (Ret ()) v s.
Proof. intros Hs HQ. by split_and!. Qed.

(** The batch is the same and what was sent stays sent. *)
Definition kin (v v' : server) : Prop :=
  sv_batch v' = sv_batch v /\ sv_batchBytes v' = sv_batchBytes v /\ sv_baseGpidx v' = sv_baseGpidx v /\
  sent (bw_conn (out (sv_s v))) `prefix_of` sent (bw_conn (out (sv_s v'))).

Lemma core_frames mp mb v s :
  core mp mb v s -> exists fs, sends pre fs (sv_s v) /\
    forall v' fs', Forall plain fs' -> sends pre (fs ++ fs') (sv_s v') ->
      sv_r v' = sv_r v -> named v' ->
      spread v' /\
      (sv_batch v' = sv_batch v ->
       sv_batchBytes v' = sv_batchBytes v -> sv_baseGpidx v' = sv_baseGpidx v ->
       tailer_ok (sv_keylog v') -> small_files (w_fs (sv_keylog_world v')) ->
       Forall FK (w_faults (sv_keylog_world v')) -> core mp mb v' s).
Proof.
  intros [C1 C2 C3 C4 (fs & n & recs & Hs & Hd & Hf & [P1 P2 P3 P4 P5] & Hl & Hb)]. exists fs. split; [done|].
  intros v' fs' Hpl Hs' Hr Hnm.
  assert (delivers (hist g) from (fs ++ fs') n) as Hd' by (by apply delivers_plain). split.
  - split; [done|]. exists (fs ++ fs'), n. split_and!; try done.
    pose proof (ri_pos _ _ _ _ C2). pose proof (len_nonneg recs). lia.
  - intros E3 E4 E5 K1 K2 K3. split; try done.
    + by rewrite Hr.
    + exists (fs ++ fs'), n, recs. split_and!; try done. split; [by rewrite E3|done|by rewrite Hr|by rewrite E5|by rewrite E4].
Qed.

Lemma wp_plain mp mb v s (m : M streamer unit) :
  core mp mb v s ->
  (forall fs w, sends pre fs (sv_s v) -> wp F m (one_plain pre fs False (sv_s v) w) (sv_s v) w) ->
  (forall l, keeps F (has_sent l) m) ->
  wp F (on_streamer m) (stays v s (fun v' => core mp mb v' s /\ kin v v')) v s.
Proof.
  intros Hc Hm Hl. destruct (core_frames _ _ _ _ Hc) as (fs & Hs & Hk). apply wp_zoom.
  eapply wp_mono; [apply wp_conj; [by apply Hm|apply (Hl (sent (bw_conn (out (sv_s v))))); by unfold has_sent]|].
  cbn beta. intros o str w [(-> & fs' & Hpl & Hs' & Hid & _ & Ho) Hsent].
  destruct (Hk (set_streamer str v) fs' Hpl Hs' eq_refl (named_eq v (set_streamer str v) eq_refl eq_refl Hid (co_opts _ _ _ _ Hc))) as [Hsp Hco].
  split; [done|]. split; [done|]. split; [done|]. destruct o; [|auto|done].
  destruct (co_keys _ _ _ _ Hc) as (K1 & K2 & K3). split; [|done]. split; [by apply Hco|by split_and!].
Qed.

Lemma wp_emit_keylogs mp mb v s :
  core mp mb v s ->
  wp F emit_keylogs (stays v s (fun v' => core mp mb v' s /\ sv_batch v' = sv_batch v)) v s.
Proof.
  intros Hc fl ck rn HFl. destruct (core_frames _ _ _ _ Hc) as (fs & Hs & Hk).
  destruct (co_keys _ _ _ _ Hc) as (K1 & K2 & K3).
  pose proof (wp_emitNew FK pre (sv_keylog v) fs (sv_s v) (w_fs (sv_keylog_world v)) Hs K1 K2
    (w_faults (sv_keylog_world v)) (w_clock (sv_keylog_world v)) (w_rand (sv_keylog_world v)) K3) as Hem.
  unfold emit_keylogs. cbn [fst snd]. destruct (sv_keylog_world v) as [kfs kfl kck krn].
  destruct (emitNew _) as [o [[k str] w]]. destruct Hem as [(Hi & (fs' & Hpl & Hs' & Hid & _ & Ho) & Ht) Hfl].
  cbn [fst snd] in *. split; [|done].
  destruct (Hk (set_streamer str (set_keylogs k w v)) fs' Hpl Hs' eq_refl (named_eq v (set_streamer str (set_keylogs k w v)) eq_refl eq_refl Hid (co_opts _ _ _ _ Hc))) as [Hsp Hco].
  split; [done|]. split; [done|]. split; [done|]. destruct o as [[]|e|]; [|auto|by right].
  split; [|done]. split; [|done]. apply Hco; try done; [by apply Ht|].
  intros ino i. cbn. rewrite Hi. apply K2.
Qed.

(** All the batches before the pending one were sent. *)
Definition arrived (v : server) : Prop :=
  exists fs n recs, pre ++ enc_frames fs `prefix_of` sent (bw_conn (out (sv_s v))) /\
    delivers (hist g) from fs n /\ pends v n recs.

Lemma arrived_kin v v' : sv_r v' = sv_r v -> kin v v' -> arrived v -> arrived v'.
Proof.
  intros Hr (E1 & E2 & E3 & E4) (fs & n & recs & Hp & Hd & [P1 P2 P3 P4 P5]). exists fs, n, recs.
  split; [by etrans|]. split; [done|]. split; [by rewrite E1|done|by rewrite Hr|by rewrite E3|by rewrite E2].
Qed.

Lemma wp_serve_Flush mp mb v s :
  core mp mb v s ->
  wp F (on_streamer out_Flush) (stays v s (fun v' => core mp mb v' s /\ sv_batch v' = sv_batch v /\ arrived v')) v s.
Proof.
  intros Hc. pose proof (core_spread _ _ _ _ Hc) as Hsp. destruct Hc as [C1 C2 C3 C4 (fs & n & recs & Hs & Hd & Hf & Hp & Hl & Hb)].
  intros fl ck rn HFl. unfold on_streamer, zoom, out_Flush. cbn [fst snd].
  destruct (bufio_Flush (out (sv_s v))) as [ok b] eqn:E. pose proof E as E'.
  destruct Hs as [S1 S2 S3 S4].
  apply (bufio_Flush_spec _ (pre ++ enc_frames fs)) in E as (Hca & Hok & Hfl); [|done].
  assert (sends pre fs (set_out b (sv_s v))) as Hs' by (by split).
  assert (ok = true \/ ~ quiet v) as Hor.
  { destruct ok; [by left|right]. intros Hq. destruct (bufio_Flush_quiet _ Hq) as (b' & Eb & _). congruence. }
  assert (spread (set_streamer (set_out b (sv_s v)) v)) as Hsp'.
  { split; [done|]. exists fs, n. split_and!; try done. pose proof (ri_pos _ _ _ _ C2). pose proof (pd_pos _ _ _ Hp). pose proof (len_nonneg recs). lia. }
  destruct ok; cbn [negb] in *; (split; [|done]); (split; [done|]); (split; [done|]); (split; [done|]).
  - split.
    + split; [|split; [done|]].
      * split; try done. exists fs, n, recs. split_and!; try done. by destruct Hp.
      * destruct (Hfl eq_refl) as [_ Hsent]. exists fs, n, recs. cbn. rewrite Hsent.
        split; [done|]. split; [done|]. by destruct Hp.
    + intros Hq. destruct (bufio_Flush_quiet _ Hq) as (b' & Eb & Hb'). cbn. congruence.
  - by destruct Hor.
Qed.

Lemma hist_wf : ghost_ok (Snaplen c) (LinkType c) g -> Forall (wf_record (Snaplen c)) (hist g).
Proof.
  intros Hg. unfold hist. apply Forall_concat, Forall_fmap, Forall_forall. intros x Hx. by apply (seg_ok _ _ _ _ Hg Hx).
Qed.

Lemma core_pos mp mb v s : core mp mb v s -> 0 <= gpidx (sv_r v) < 2 ^ 62 /\ ghost_ok (Snaplen c) (LinkType c) g.
Proof.
  intros [C1 C2 _ _ _]. pose proof C1 as [[Hg _] _]. split; [|done]. pose proof (ri_pos _ _ _ _ C2).
  destruct (act_ok _ _ _ Hg) as (_ & _ & _ & _ & He). pose proof (ok_sync _ _ _ Hg).
  unfold durable_end, gs_end, len in *. lia.
Qed.

Lemma wp_flush mp mb v s :
  core mp mb v s -> mp <= 65535 -> mb <= 2 ^ 22 + (16 + 2 ^ 22) ->
  wp F flush (stays v s (fun v' => core 0 0 v' s)) v s.
Proof.
  intros Hc Hmp Hmb. pose proof (core_spread _ _ _ _ Hc) as Hsp. destruct (core_pos _ _ _ _ Hc) as [Hpos Hg].
  destruct Hc as [C1 C2 C3 C4 (fs & n & recs & Hs & Hd & Hf & Hp & Hl & Hb)].
  pose proof Hp as [P1 P2 P3 P4 P5]. pose proof (delivers_le _ _ _ _ Hd).
  unfold flush. apply wp_bind, wp_get. cbn [bind_post]. rewrite P1. destruct recs as [|r recs].
  { apply wp_ret. apply stays_ret; [done|]. split; try done. by exists fs, n, []. }
  cbn [fmap list_fmap]. rewrite <-fmap_cons. set (rs := r :: recs) in *.
  assert (rs <> []) as Hne by done. rewrite (P4 Hne). pose proof (len_nonneg rs).
  assert (Forall (wf_record (Snaplen c)) rs) as Hrs.
  { rewrite P2. unfold slice. by apply Forall_take, Forall_drop, hist_wf. }
  destruct (batch_arrives (sv_s v) n rs (u64 (count FramePktBatch fs)) (Snaplen c) Hrs Hsnap) as [Hsz Hba];
    [lia|lia|unfold is_uint; lia|].
  set (f := batch_frame (sv_s v) n (pcapToProto <$> rs) (u64 (count FramePktBatch fs))) in *.
  assert (delivers (hist g) from (fs ++ [f]) (n + len rs)) as Hd' by (by apply dl_batch).
  pose proof (ri_pos _ _ _ _ C2).
  apply wp_bind, wp_zoom. eapply wp_mono; [by apply (wp_sendBatch F pre fs)|]. fold f.
  intros o str w (-> & Hh). destruct Hh as (Hs' & Hid & _ & Ho).
  assert (forall v', sv_opts v' = sv_opts v -> sv_snaplen v' = sv_snaplen v -> sv_s v' = str -> spread v') as Hsp'.
  { intros v' E1 E2 Hv'. split; [eapply named_eq; [exact E1|exact E2|by rewrite Hv'|done]|]. exists (fs ++ [f]), (n + len rs). rewrite Hv'. split_and!; try done. lia. }
  destruct o as [[]|e|]; cbn [bind_post]; [|by split_and!; try done; apply Hsp'|done].
  apply wp_modify. split; [done|]. split; [done|]. split.
  - by apply Hsp'.
  - split; [|done]. split; try done; [by destruct (Hsp' (set_batch [] 0 (sv_baseGpidx (set_streamer str v)) (set_streamer str v)))|].
    exists (fs ++ [f]), (n + len rs), [].
    split_and!; try done. split; cbn; try done. rewrite Z.add_0_r. done.
Qed.

Lemma wp_readStats {X} (x : X) s :
  wp F readStats (fun o x' s' => x' = x /\ s' = s /\ ((exists st, o = Ret st) \/ (o = Crashed /\ F FCrash))) x s.
Proof.
  unfold readStats. apply wp_bind, wp_try, wp_sys; [intros HFc; cbn [bind_post]; by auto|intros Hcf; by destruct (HF Hcf)|].
  destruct (fs_dir s !! statsFile) as [ino|]; [destruct (fs_inodes s !! ino)|]; cbn [bind_post]; apply wp_ret; eauto.
Qed.

Lemma wp_beat mp mb v s :
  core mp mb v s -> wp F beat (stays v s (fun v' => core mp mb v' s /\ sv_batch v' = sv_batch v /\ arrived v')) v s.
Proof.
  intros Hc. unfold beat. eapply wp_stays_bind; [by apply wp_emit_keylogs|]. intros v1 [Hc1 Hb1] Hr1.
  eapply wp_stays_bind; [by apply wp_serve_Flush|]. intros v2 (Hc2 & Hb2 & Ha2) Hr2.
  apply wp_bind, wp_Now. intros t. cbn [bind_post]. apply wp_bind, wp_modify. cbn [bind_post].
  set (v3 := set_lastBeat t v2). assert (core mp mb v3 s) as Hc3.
  { destruct Hc2 as [C1 C2 C3 C4 (fs & n & recs & Hs & Hd & Hf & [] & Hl & Hb)]. split; try done.
    exists fs, n, recs. by split_and!. }
  assert (arrived v3) as Ha3 by (destruct Ha2 as (fs & n & recs & Hp & Hd & []); by exists fs, n, recs).
  assert (sv_batch v3 = sv_batch v) as Hb3 by (cbn; congruence).
  assert (forall v4, core mp mb v4 s -> sv_batch v4 = sv_batch v -> arrived v4 ->
    wp F (v ← get; on_streamer (sendHeartbeat (rd_head (sv_r v))))
      (stays v4 s (fun v' => core mp mb v' s /\ sv_batch v' = sv_batch v /\ arrived v')) v4 s) as Hbeat.
  { intros v4 Hc4 Hb4 Ha4. apply wp_bind, wp_get. cbn [bind_post].
    eapply wp_mono; [apply (wp_plain mp mb); [done|intros; by apply wp_sendHeartbeat|intros; apply has_sent_sendHeartbeat]|].
    intros o v5 s5 (-> & Hr5 & Hs5 & Ho). split; [done|]. split; [done|]. split; [done|]. destruct o; try done.
    destruct Ho as [[Hc5 Hk5] Hq5]. split; [|done]. split; [done|]. split; [destruct Hk5; congruence|by eapply arrived_kin]. }
  apply wp_bind. eapply wp_mono; [apply wp_readStats|]. intros o v4 s4 (-> & -> & Ho).
  destruct Ho as [(st & ->)|(-> & HFc)]; cbn [bind_post].
  2: { split; [done|]. split; [done|]. split; [by eapply core_spread|by left]. }
  change (stays v2 s) with (stays v3 s).
  destruct st as [st|].
  - eapply wp_stays_bind.
    + apply (wp_plain mp mb); [done| |intros; apply has_sent_sendStats]. intros fs w Hs.
      destruct (stats_encodes st) as (b & Eb & Hlb).
      eapply wp_mono; [apply wp_sendStats; [done|unfold EncodeStats; rewrite Eb; by intros ? [= <-]]|].
      intros o str w' (-> & fs' & H1' & H2' & H3' & H4' & Ho). split; [done|]. exists fs'. split_and!; try done.
      destruct o; try done. intros Hq. destruct (Ho Hq) as (e' & He'). unfold EncodeStats in He'. congruence.
    + intros v4 [Hc4 Hk4] Hr4. apply Hbeat; [done| |by eapply arrived_kin]. destruct Hk4; congruence.
  - apply wp_bind, wp_ret. cbn [bind_post]. by apply Hbeat.
Qed.

(** ** A round *)

(** Between rounds the pending batch is below its limits. *)
Abbreviation roomy := (core (so_BatchMaxPackets opts - 1) (so_BatchMaxBytes opts - 1)).

Lemma slice_snoc {A} i n (l : list A) x : l !! (i + n)%nat = Some x -> slice i (S n) l = slice i n l ++ [x].
Proof. intros Hx. unfold slice. apply take_S_r. by rewrite lookup_drop. Qed.

Lemma wp_serve_packet v s r' s' rec :
  roomy v s -> served c g s' -> rinv c g r' s' -> gpidx r' = gpidx (sv_r v) + 1 ->
  hist g !! Z.to_nat (gpidx (sv_r v)) = Some rec ->
  let v0 := set_reader r' v in
  wp F (serve_packet rec (gpidx (sv_r v))) (stays v0 s' (fun v' => roomy v' s')) v0 s'.
Proof.
  intros Hc Hs' Hr' Hgp Hrec v0. destruct Hopts as (Hmp & Hmb & _). destruct (core_pos _ _ _ _ Hc) as [Hpos Hg].
  assert (wf_record (Snaplen c) rec) as Hw by (by eapply Forall_lookup_1; [apply hist_wf|]).
  pose proof Hw as (_ & _ & _ & Hdl). pose proof (len_nonneg (Data rec)).
  destruct Hc as [C1 C2 C3 C4 (fs & n & recs & Hsd & Hd & Hf & [P1 P2 P3 P4 P5] & Hl & Hb)].
  pose proof (delivers_le _ _ _ _ Hd). pose proof (pcap_bytes_nonneg recs).
  assert (0 <= Snaplen c) by (destruct Hcfg as [[? _] _]; lia).
  unfold serve_packet. apply wp_bind, wp_modify. cbn [bind_post]. set (v1 := set_batch _ _ _ v0).
  assert (core (so_BatchMaxPackets opts) (so_BatchMaxBytes opts + (16 + Snaplen c)) v1 s') as Hc1.
  { split; try done. exists fs, n, (recs ++ [rec]). split; [done|]. split; [done|]. split; [done|].
    rewrite pcap_bytes_snoc, len_app. unfold RecordHeaderLen. change (len [rec]) with 1. split; [|lia].
    split.
    - cbn. by rewrite P1, fmap_app.
    - rewrite length_app. cbn [length]. rewrite Nat.add_1_r, (slice_snoc _ _ _ rec).
      + by rewrite <-P2.
      + rewrite <-Hrec. f_equal. unfold len in P3. lia.
    - rewrite len_app. change (len [rec]) with 1. cbn. lia.
    - intros _. cbn. rewrite P1. destruct recs as [|r recs]; [|by apply P4]. cbn. rewrite len_nil in P3. lia.
    - cbn. rewrite P5, pcap_bytes_snoc, i64_small by (unfold RecordHeaderLen; lia). done. }
  pose proof (core_spread _ _ _ _ Hc1) as Hsp1.
  apply wp_bind, wp_get. cbn [bind_post]. change (stays v0 s') with (stays v1 s').
  apply wp_stays_bind with (P := fun v' => roomy v' s').
  - destruct (_ || _) eqn:E.
    + eapply wp_mono; [eapply (wp_flush _ _ v1 s' Hc1); lia|]. intros o v2 s2 (-> & Hr2 & Hs2 & Ho).
      split; [done|]. split; [done|]. split; [done|]. destruct o; try done.
      destruct Ho as [Hc2 Hq2]. split; [|done]. eapply core_mono; [| |exact Hc2]; lia.
    + apply wp_ret, stays_ret; [done|]. apply orb_false_iff in E as [E1%Z.leb_gt E2%Z.leb_gt].
      destruct Hc1 as [C1' C2' C3' C4' (fs' & n' & recs' & Hs1 & Hd1 & Hf1 & Hp1 & Hl1 & Hb1)].
      pose proof Hp1 as [Q1 Q2 Q3 Q4 Q5]. destruct C3' as [C3' C3'']. rewrite C3' in E1, E2.
      rewrite Q1 in E1. rewrite Q5 in E2. unfold len in E1. rewrite length_fmap in E1. fold (len recs') in E1.
      split; try done. exists fs', n', recs'. split_and!; try done; lia.
  - intros v2 Hc2 Hr2. apply wp_bind, wp_get. cbn [bind_post]. apply wp_bind, wp_Now. intros t. cbn [bind_post].
    destruct (_ <=? _).
    + eapply wp_mono; [by apply wp_beat|]. intros o v3 s3 (-> & Hr3 & Hs3 & Ho).
      split; [done|]. split; [done|]. split; [done|]. destruct o; try done. split; [apply Ho|apply Ho].
    + apply wp_ret, stays_ret; [by eapply core_spread|done].
Qed.

Lemma wp_serve_idle v s :
  roomy v s -> wp F serve_idle (stays v s (fun v' => roomy v' s /\ sv_batch v' = [] /\ arrived v')) v s.
Proof.
  intros Hc. destruct Hopts as (Hmp & Hmb & _). unfold serve_idle.
  eapply wp_stays_bind; [eapply (wp_flush _ _ v s Hc); lia|]. intros v1 Hc1 Hr1.
  eapply wp_mono; [exact (wp_beat 0 0 v1 s Hc1)|]. intros o v2 s2 (-> & Hr2 & Hs2 & Ho).
  split; [done|]. split; [done|]. split; [done|]. destruct o; try done.
  destruct Ho as [(Hc2 & Hb2 & Ha2) Hq2]. split; [|done]. split; [eapply core_mono; [| |exact Hc2]; lia|]. split; [|done].
  rewrite Hb2. destruct Hc1 as [_ _ _ _ (fs & n & recs & _ & _ & _ & [P1 _ _ _ _] & Hl & _)].
  destruct recs; [done|]. rewrite len_cons in Hl. pose proof (len_nonneg recs). lia.
Qed.

(** After a round the reader is one packet further, or nothing more is advertised
    and all is sent. *)
Definition round_post (v : server) (s : fs) (o : outcome unit) (v' : server) (s' : fs) : Prop :=
  outside (sv_r v) s s' /\ own_fd (fs_next s) (rd_file (sv_r v)) (sv_r v') s' /\ spread v' /\
  match o with
  | Ret _ => roomy v' s' /\ (quiet v -> quiet v') /\
      (gpidx (sv_r v') = gpidx (sv_r v) + 1 \/
       (gpidx (sv_r v') = gpidx (sv_r v) /\ sv_batch v' = [] /\ arrived v' /\
        Forall (fun seg => ~ covers (gpidx (sv_r v)) seg) (fresh_view c g s)))
  | Fail _ => ~ quiet v
  | Crashed => F FCrash \/ FK FCrash
  end.

Lemma wp_serve_round fuel v s : roomy v s -> wp F (serve_round (S (S fuel))) (round_post v s) v s.
Proof.
  intros Hc. pose proof Hc as [C1 C2 C3 C4 C5]. pose proof (served_wf _ _ _ C1) as Hwf.
  unfold serve_round. apply wp_bind, wp_try, wp_zoom.
  eapply wp_mono.
  { apply wp_conj; [exact (wp_Next c F HF Hcfg g fuel (sv_r v) s C1 C2)|].
    apply (own_Next F (fs_next s) (rd_file (sv_r v)) (S (S fuel))). split; [done|by left]. }
  cbn beta. intros o r' s1 [[Hout Ho] Hown].
  assert (served c g s1) as Hs1 by (eapply served_idle; [done|apply Hout]).
  destruct (core_frames _ _ _ _ Hc) as (fs & Hsd & Hk).
  destruct o as [[[rec gp]|]|e|]; cbn [bind_post].
  - destruct Ho as (-> & Hg' & Hr' & Hlt & Hrec). rewrite Hbase, Z.sub_0_r in Hrec.
    eapply wp_mono; [by apply (wp_serve_packet v s r' s1 rec)|]. intros o v2 s2 (-> & Hr2 & Hs2 & Ho2).
    cbn [sv_r set_reader] in Hr2. split; [done|]. split; [by rewrite Hr2|]. split; [done|]. destruct o; try done.
    destruct Ho2 as [Hc2 Hq2]. split; [done|]. split; [done|]. left. by rewrite Hr2.
  - done.
  - pose proof (ri_pos _ _ _ _ C2) as Hpos. destruct Ho as (Hr' & Hg' & [[-> Hnc]|[_ Hlow]]); [|lia].
    rewrite decide_True by done.
    set (v1 := set_reader r' v). assert (roomy v1 s1) as Hc1.
    { destruct C5 as (fs' & n & recs & S1 & S2 & S3 & [P1 P2 P3 P4 P5] & S5 & S6). split; try done.
      exists fs', n, recs. split_and!; try done. split; try done. cbn. by rewrite Hg'. }
    eapply wp_mono; [by apply wp_serve_idle|]. intros o v2 s2 (-> & Hr2 & Hs2 & Ho2).
    cbn [sv_r v1 set_reader] in Hr2. split; [done|]. split; [by rewrite Hr2|]. split; [done|]. destruct o; try done.
    destruct Ho2 as [(Hc2 & Hb2 & Ha2) Hq2]. split; [done|]. split; [done|]. right. rewrite Hr2. by split_and!.
  - split; [done|]. split; [done|]. split; [|by left]. by eapply (core_spread _ _ v s).
Qed.
End Server.
