(* ===== verification/ServeOpen.v ===== *)
(** * A connection starts

    The header of the source, the instance id, the reader and the preamble, up to
    the first round of the serve loop. *)

From S2P Require Import Prelude Bytes GoIO Pcapio Proto Os Keeps Durable Dir Runs Json Manifest Recover Spool SpoolSpec SpoolProof RecoverProof RestartProof SpoolProps Janitor Reader ReaderProof TailProof TailProps Keylog Conn Streamer StreamerProof EpochProof Serve ServeProof.

Section Open.
Context (c0 : Config) (Hcfg : config_ok (applyDefaults c0)).

Abbreviation c := (applyDefaults c0).
Abbreviation src := (SrcID c).

Lemma winv_open g w s name ino :
  winv c g w s -> fs_dir s !! name = Some ino ->
  exists s', open_call name O_plain s = Ok (fs_next s, s') /\ winv c g w s' /\
    fs_fds s' !! fs_next s = Some (Fdesc ino 0 false false) /\ fs_inodes s' = fs_inodes s /\
    not_own (fs_next s) w.
Proof.
  intros Hw Hn. exists (open_ino ino false s).2. unfold open_call. rewrite Hn.
  assert (fs_wf s) as Hwf by (by eapply served_wf, winv_served).
  split; [done|]. split; [|split; [apply lookup_insert_eq|split; [done|by eapply winv_fd_fresh]]].
  apply (winv_outside c0 g w (mkReader 0 0 [] 0 0 0 None 0 0) s); [done|done|].
  split; [by apply idle_open_ino|by apply kept_fds_open].
Qed.

Lemma winv_act g w s :
  winv c g w s -> exists ino i, fs_dir s !! gs_name src (g_act g) = Some ino /\ fs_inodes s !! ino = Some i /\
    i_data i = gs_bytes (Snaplen c) (LinkType c) (g_act g).
Proof.
  intros [[_ _ _ (f & d & i & _ & [H1 _ H3] & _ & _ & H4 & _) _ _ _ _] _]. by exists (fd_ino d), i.
Qed.

Lemma wp_SourceHeader {X} F (HF : ~ can_fail F) g w (x : X) s :
  winv c g w s ->
  wp F (SourceHeader src) (fun o x' s' => x' = x /\ winv c g w s' /\
    match o with Ret gh => gh = mkGlobalHeader (Snaplen c) (LinkType c) | Fail _ => False | Crashed => F FCrash end) x s.
Proof.
  intros Hw. destruct (winv_act g w s Hw) as (ino & i & Hd & Hi & Hdat).
  assert (forall P : Prop, can_fail F -> P) as Hno by (intros P Hf; by apply HF in Hf).
  unfold SourceHeader, listSegmentFiles. apply wp_bind, wp_bind, wp_sys; [intros HFc; by split_and!|by apply Hno|]. cbn [bind_post].
  apply wp_ret. cbn [bind_post]. rewrite (served_seqs c g s) by exact (winv_served c0 g w s Hw).
  assert (last (gs_seq <$> present c g s) = Some (gs_seq (g_act g))) as ->.
  { unfold present, content. rewrite Hd. cbn. rewrite Hi. cbn. rewrite fmap_app. apply last_snoc. }
  destruct (winv_open g w s _ ino Hw Hd) as (s1 & Hop & Hw1 & Hfd & Hino & Hown).
  apply wp_bind, wp_sys; [intros HFc; by split_and!|by apply Hno|]. unfold gs_name in Hop. rewrite Hop. cbn [bind_post].
  assert (with_fd (fs_next s) (fun _ j s => Ok (file_ReaderAt (i_data j), s)) s1 = Ok (file_ReaderAt (i_data i), s1)) as Hra.
  { unfold with_fd. rewrite Hfd. cbn [fd_ino]. by rewrite Hino, Hi. }
  apply wp_bind, wp_try, wp_bind, wp_sys; [intros HFc; by split_and!|by apply Hno|]. rewrite Hra. cbn [bind_post].
  apply wp_of_res. rewrite Hdat. unfold gs_bytes, gh_bytes. set (h := mkGlobalHeader _ _).
  pose proof (file_ReaderAt_app [] (GlobalHeader_bytes h) (enc_records (gs_recs (g_act g))) 24 eq_refl) as Hrd.
  change (len []) with 0 in Hrd. cbn [app] in Hrd. rewrite Hrd. cbn [bind_post].
  apply wp_bind, wp_Close. cbn [bind_post]. apply wp_of_res.
  rewrite <-(app_nil_r (GlobalHeader_bytes h)), ParseGlobalHeader_app by exact Hcfg.
  split; [done|]. split; [|done]. by apply winv_close.
Qed.

Context `{CborCodec PreambleHeader, CborCodec Stats, ZstdCodec} `{!ZstdLaws, !StatsLaws}.

Lemma wp_Epoch_winv {X} F g w (x : X) s :
  winv c g w s -> wp F Epoch (fun o x' s' => x' = x /\ winv c g w s' /\
    match o with Ret _ => True | Fail _ => can_fail F | Crashed => F FCrash end) x s.
Proof.
  intros Hw. eapply wp_mono.
  - apply (wp_Epoch F (winv c g w)); [by intros s0 Hw0; eapply served_wf, winv_served| | |exact Hw].
    + intros s0 s1 fd d i Hw0 He. pose proof (winv_editing c0 g w _ _ _ _ _ _ Hw0 (epoch_free src) He) as Hw1.
      split; [done|]. apply winv_close; [done|]. eapply winv_fd_fresh; [exact Hw0|apply He].
    + apply winv_synced.
  - intros o x' s' (-> & Hw' & Ho). split; [done|]. split; [done|]. by destruct o.
Qed.

(** The server of a connection that has sent nothing. *)
Definition fresh_server (opts : ServeOptions) (r : Reader) (cn : conn) (kw : world) : server :=
  mkServer opts (Snaplen c) r false (mkStreamer (mkBuf [] false cn) src ∅ (so_Compress opts))
    (newKeylogTailer (so_KeylogFile opts)) kw [] 0 0 0.

Lemma wp_serve_open g w opts cn kw v s :
  winv c g w s -> base g = 0 -> so_SrcID opts = src -> is_uint 64 (so_Resume opts) ->
  wp crash_only (serve_open opts cn kw) (fun o v' s' => winv c g w s' /\
    match o with
    | Ret (gh, epoch, (from, reaped)) => gh = mkGlobalHeader (Snaplen c) (LinkType c) /\ reaped = false /\
        (from = so_Resume opts \/ from = 0) /\
        exists r, v' = fresh_server (serve_defaults opts) r cn kw /\ gpidx r = from /\ rinv c g r s' /\ not_shared w r
    | Fail _ => False
    | Crashed => True
    end) v s.
Proof.
  intros Hw Hb Hsrc Hres. unfold serve_open. change (so_SrcID (serve_defaults opts)) with (so_SrcID opts). rewrite Hsrc.
  apply wp_bind. eapply wp_mono; [by apply (wp_SourceHeader crash_only crash_only_no_fail g w v s)|].
  intros o v1 s1 (-> & Hw1 & Ho). destruct o as [gh|e|]; cbn [bind_post]; [subst gh|done|by split_and!].
  apply wp_bind. eapply wp_mono; [by apply (wp_Epoch_winv crash_only g w v s1)|].
  intros o v1 s2 (-> & Hw2 & Ho). destruct o as [epoch|e|]; cbn [bind_post]; [|by apply crash_only_no_fail in Ho|by split_and!].
  pose proof (winv_served _ _ _ _ Hw2) as Hsv. apply wp_bind, wp_zoom.
  eapply wp_mono; [apply wp_conj;
    [exact (wp_OpenReader c0 crash_only crash_only_no_fail g (so_Resume opts) (sv_r v) s2 Hsv Hres)|exact (own_OpenReader crash_only src (Snaplen c) (so_Resume opts) (sv_r v) s2)]|].
  intros o r s3 [(Hid & Hk & Ho3) Hown].
  set (rn := mkReader 0 0 [] 0 0 0 None 0 0). assert (not_shared w rn) as Hn by done.
  assert (winv c g w s3) as Hw3 by (apply (winv_outside c0 g w rn s2); [done|done|split; [done|by apply kept_fds_all]]).
  destruct o as [[from reaped]|e|]; cbn [bind_post]; [|done|done].
  destruct Ho3 as (-> & Hat & Hgp & Hri). rewrite Hb in Hat |- *.
  assert ((so_Resume opts <? 0) = false) as Hlow by (apply Z.ltb_ge; unfold is_uint in Hres; lia). rewrite Hlow in Hat |- *.
  assert (from = so_Resume opts \/ from = 0) as Hfrom by (rewrite Hat; destruct (rd_head r <? so_Resume opts); auto).
  apply wp_bind, wp_modify. cbn [bind_post]. apply wp_ret.
  split; [done|]. split; [done|]. split; [done|]. split; [done|]. exists r. rewrite <-Hsrc.
  split_and!; [by unfold fresh_server; rewrite <-Hsrc|done|done|]. by apply (own_not_shared c0 g w rn r s2 s3).
Qed.

(** After the preamble the first round can begin. *)
Lemma wp_serve_preamble F FK g opts r cn kw epoch s :
  served c g s -> rinv c g r s -> opts_ok opts -> so_SrcID opts = src -> sent cn = [] ->
  small_files (w_fs kw) -> Forall FK (w_faults kw) ->
  let v := fresh_server opts r cn kw in
  wp F (serve_preamble (LinkType c) (Snaplen c) epoch (gpidx r) false) (fun o v' s' => s' = s /\ sv_r v' = r /\
    sv_opts v' = opts /\
    match o with
    | Ret _ => exists p, WritePreamble (preamble_header opts (LinkType c) (Snaplen c) epoch (gpidx r)) = Ok p /\
        core c FK opts g p (gpidx r) (so_BatchMaxPackets opts - 1) (so_BatchMaxBytes opts - 1) v' s /\
        (conn_faults cn = [] -> quiet_line (out (sv_s v')))
    | Fail _ => (sent (bw_conn (out (sv_s v'))) = [] /\
          exists e, WritePreamble (preamble_header opts (LinkType c) (Snaplen c) epoch (gpidx r)) = Err e) \/
        exists p, WritePreamble (preamble_header opts (LinkType c) (Snaplen c) epoch (gpidx r)) = Ok p /\
          sends p [] (sv_s v') /\ st_srcID (sv_s v') = so_SrcID opts /\ conn_faults cn <> []
    | Crashed => False
    end) v s.
Proof.
  intros Hs Hr Hopts Hsrc Hcn Hkw HK v. unfold serve_preamble. apply wp_bind, wp_get. cbn [bind_post].
  change (sv_opts v) with opts. apply wp_bind, wp_of_res.
  destruct (WritePreamble _) as [p|e] eqn:Ep; cbn [bind_post].
  2: { split_and!; try done. left. by eauto. }
  apply wp_bind, wp_zoom. eapply wp_mono; [apply (wp_out_Write F p)|]. cbn beta.
  intros o str w (-> & -> & ->). cbn [sv_s v fresh_server out set_out].
  destruct (bufio_Write p (mkBuf [] false cn)) as [ok b] eqn:E. pose proof E as E'.
  apply (bufio_Write_spec _ _ []) in E as [Hc Hok]; [|by unfold carries; cbn; rewrite Hcn].
  set (str := set_out _ _). assert (sends p [] str) as Hsd.
  { split; cbn; [by rewrite app_nil_r|done|constructor|done]. }
  assert (conn_faults cn = [] -> ok = true /\ quiet_line b) as Hq.
  { intros Hcf. destruct (bufio_Write_quiet p (mkBuf [] false cn)) as (b' & Eb & Hb'); [by split|]. by rewrite E' in Eb; injection Eb as -> ->. }
  destruct ok; cbn [bind_post].
  - apply wp_bind, wp_ret. cbn [bind_post]. apply wp_bind, wp_Now. intros t. cbn [bind_post].
    apply wp_modify. split; [done|]. split; [done|]. split; [done|]. exists p. split; [done|].
    split; [|by intros Hcf; apply Hq]. split; try done.
    exists [], (gpidx r), []. split; [exact Hsd|]. split; [constructor|].
    split; [apply Hr|]. destruct Hopts as (Ho1 & Ho2 & _). split; [|cbn; unfold len; cbn; lia].
    split; cbn; try done. change (len (@nil PcapRecord)) with 0. lia.
  - split_and!; try done. right. exists p. split_and!; try done. intros Hcf. by destruct (Hq Hcf).
Qed.

(** The deferred calls do not touch the connection. *)
Lemma wp_serve_end g w v s :
  winv c g w s -> not_shared w (sv_r v) ->
  wp crash_only serve_end (fun o v' s' => winv c g w s' /\ sv_s v' = sv_s v /\ sv_opts v' = sv_opts v /\
    sv_snaplen v' = sv_snaplen v /\ match o with Fail _ => False | _ => True end) v s.
Proof.
  intros Hw Hn. unfold serve_end. apply wp_bind.
  assert (wp crash_only close_keylogs (fun o v' s' => s' = s /\ o = Ret () /\ sv_r v' = sv_r v /\ sv_s v' = sv_s v /\
    sv_opts v' = sv_opts v /\ sv_snaplen v' = sv_snaplen v /\ sv_reopened v' = sv_reopened v) v s) as Hk.
  { intros fl ck rn HFl. unfold close_keylogs. cbn [fst snd]. by destruct (keylogTailer_Close _ _) as [? [? ?]]. }
  eapply wp_mono; [exact Hk|]. intros o v1 s1 (-> & -> & Hr & Hs & Ho & Hsn & Hre). cbn [bind_post].
  apply wp_bind, wp_get. cbn [bind_post]. destruct (sv_reopened v1); [by apply wp_ret|].
  apply wp_bind, wp_try, wp_zoom. rewrite Hr.
  eapply wp_mono; [exact (wp_Reader_Close c0 g w (sv_r v) s Hw Hn)|]. intros o r' s' Hw'.
  destruct o as [[]|e|]; cbn [bind_post]; [apply wp_ret|apply wp_ret|]; by split_and!.
Qed.
End Open.
