(* ===== verification/ServeSystem.v ===== *)
(** * The capture process and the serve process on one directory

    The writer of the spool and the connections that are served from it, one
    operation or round at a time, with failing calls and host crashes: what a
    connection gets is the packets of the log. *)

From S2P Require Import Prelude Bytes GoIO Pcapio Proto Os Keeps Durable Dir Runs Json Manifest Recover Spool SpoolSpec SpoolProof RecoverProof RestartProof SpoolProps Janitor Reader ReaderProof TailProof TailProps Keylog Conn Streamer StreamerProof EpochProof Serve ServeProof ServeOpen.

Section System.
Context `{CborCodec PreambleHeader, CborCodec Stats, ZstdCodec}.

(** ** Serving, step by step *)

(** The way out of [RunServe]. *)
Definition ended (r : res unit) : M server (option goerror) :=
  match r with Ok _ => mret None | Err e => serve_end ;; mret (Some e) end.

(** [RunServe] up to its loop, and a round of the loop; [Some] error: it returned. *)
Definition serve_start (opts : ServeOptions) (cn : conn) (kw : world) : M server (option goerror) :=
  o ← serve_open opts cn kw;
  let '(gh, epoch, (from, reaped)) := o in
  r ← try (serve_preamble (gh_LinkType gh) (gh_Snaplen gh) epoch from reaped);
  ended r.

Definition serve_step (fuel : nat) : M server (option goerror) := r ← try (serve_round fuel); ended r.

(** [RunServe] takes these steps until the context is cancelled or one ends it. *)
Fixpoint serve_steps (fuel : nat) (ctx : list bool) : M server (option goerror) :=
  match ctx with
  | [] | true :: _ => serve_end ;; mret None
  | false :: ctx => r ← serve_step fuel; match r with None => serve_steps fuel ctx | Some e => mret (Some e) end
  end.

Lemma serve_loop_steps fuel ctx s :
  (r ← try (serve_loop fuel ctx); serve_end ;; of_res r) s =
  (r ← serve_steps fuel ctx; match r with None => mret () | Some e => fail e end) s.
Proof.
  revert s. induction ctx as [|[] ctx IH]; intros s; cbn [serve_loop serve_steps].
  1,2: unfold mbind, M_bind, try; cbn; by destruct (serve_end s) as [[[]|e|] s'].
  specialize (IH (serve_round fuel s).2). unfold serve_step, ended, mbind, M_bind, try in *.
  destruct (serve_round fuel s) as [[[]|e|] s1]; cbn in *; [exact IH| |done].
  by destruct (serve_end s1) as [[[]|e'|] s'].
Qed.

Lemma RunServe_steps fuel opts ctx cn kw s :
  RunServe fuel opts ctx cn kw s =
  (r ← serve_start opts cn kw;
   match r with
   | Some e => fail e
   | None => r ← serve_steps fuel ctx; match r with None => mret () | Some e => fail e end
   end) s.
Proof.
  unfold RunServe, serve_start, ended, mbind, M_bind, try.
  destruct (serve_open opts cn kw s) as [[[[gh epoch] [from reaped]]|e|] s1]; [|done..].
  pose proof (serve_loop_steps fuel ctx (serve_preamble (gh_LinkType gh) (gh_Snaplen gh) epoch from reaped s1).2) as Hl.
  unfold mbind, M_bind, try in Hl.
  destruct (serve_preamble _ _ _ _ _ s1) as [[[]|e|] s2]; cbn in *; [|by destruct (serve_end s2) as [[[]|e'|] s']|done].
  rewrite <-Hl. by destruct (serve_loop fuel ctx s2) as [[[]|e|] s3].
Qed.

(** ** The system *)

(** The capture process, if it runs, the last connection, and whether it is still
    served, the connections before it, and the directory. *)
Record sconf : Type := SConf {
  s_writer : option Writer; s_conn : option (bool * server); s_past : list server; s_dir : fs
}.

Definition connections (k : sconf) : list server := option_list (snd <$> s_conn k) ++ s_past k.

Inductive sevent : Type :=
  | SWriter (e : event)
  | SOpen (opts : ServeOptions) (cn : conn) (kw : world)
  | SRound
  | SKeylogs (kw : world)      (** the keylog files change *)
  | SClose.

Definition hung_up (k : option (bool * server)) : option (bool * server) := (fun k => (false, k.2)) <$> k.

Definition is_live (k : option (bool * server)) : bool := match k with Some (true, _) => true | _ => false end.

(** What a connection needs: options of the right source, a new connection, and
    keylog files below 4 GiB. *)
Definition openable (c : Config) (opts : ServeOptions) (cn : conn) (kw : world) : Prop :=
  so_SrcID opts = SrcID c /\ opts_ok (serve_defaults opts) /\ sent cn = [] /\
  small_files (w_fs kw).

(** A connection is served while the writer runs; a host crash ends both. *)
Inductive sstep (c : Config) : sconf -> sevent -> sconf -> Prop :=
  | sstep_running w k ps s e w' s' :
      step c (Conf (Some w) s) e (Conf (Some w') s') ->
      sstep c (SConf (Some w) k ps s) (SWriter e) (SConf (Some w') k ps s')
  | sstep_start k ps s e w' s' :
      step c (Conf None s) e (Conf w' s') -> sstep c (SConf None k ps s) (SWriter e) (SConf w' k ps s')
  | sstep_stop w k ps s e s' :
      step c (Conf (Some w) s) e (Conf None s') ->
      sstep c (SConf (Some w) k ps s) (SWriter e) (SConf None (hung_up k) ps s')
  | sstep_open w k ps s opts cn kw v0 faults clock rand r v wd :
      is_live k = false -> openable (applyDefaults c) opts cn kw -> Forall crash_only faults ->
      serve_start opts cn kw (v0, World s faults clock rand) = (Ret r, (v, wd)) ->
      sstep c (SConf (Some w) k ps s) (SOpen opts cn kw)
        (SConf (Some w) (Some (bool_decide (r = None), v)) (option_list (snd <$> k) ++ ps) (w_fs wd))
  | sstep_open_crash w k ps s opts cn kw v0 faults clock rand v wd s' :
      is_live k = false -> openable (applyDefaults c) opts cn kw -> Forall crash_only faults ->
      serve_start opts cn kw (v0, World s faults clock rand) = (Crashed, (v, wd)) -> crash_fs (w_fs wd) s' ->
      sstep c (SConf (Some w) k ps s) (SWriter (EvCrash [])) (SConf None k ps s')
  | sstep_round w v ps s fuel faults clock rand r v' wd :
      Forall crash_only faults ->
      serve_step (S (S fuel)) (v, World s faults clock rand) = (Ret r, (v', wd)) ->
      sstep c (SConf (Some w) (Some (true, v)) ps s) SRound
        (SConf (Some w) (Some (bool_decide (r = None), v')) ps (w_fs wd))
  | sstep_round_crash w v ps s fuel faults clock rand v' wd s' :
      Forall crash_only faults ->
      serve_step (S (S fuel)) (v, World s faults clock rand) = (Crashed, (v', wd)) -> crash_fs (w_fs wd) s' ->
      sstep c (SConf (Some w) (Some (true, v)) ps s) (SWriter (EvCrash [])) (SConf None (Some (false, v')) ps s')
  | sstep_keylogs w v ps s kw :
      small_files (w_fs kw) ->
      sstep c (SConf (Some w) (Some (true, v)) ps s) (SKeylogs kw)
        (SConf (Some w) (Some (true, set_keylogs (sv_keylog v) kw v)) ps s)
  | sstep_close w v ps s faults clock rand v' wd :
      Forall crash_only faults ->
      serve_end (v, World s faults clock rand) = (Ret (), (v', wd)) ->
      sstep c (SConf (Some w) (Some (true, v)) ps s) SClose (SConf (Some w) (Some (false, v')) ps (w_fs wd)).

(** The packets and starts and crashes the log sees. *)
Definition logged (es : list sevent) : list event := omap (fun e => match e with SWriter e => Some e | _ => None end) es.

(** ** What a connection got *)

(** The preamble, then numbered frames whose batches are the durable packets of
    the log from the start position on; or nothing at all. *)
Definition tells (src link snap : Z) (l : log) (v : server) : Prop :=
  sent (bw_conn (out (sv_s v))) = [] \/
  opts_ok (sv_opts v) /\ so_SrcID (sv_opts v) = src /\ st_srcID (sv_s v) = src /\
  exists epoch from p fs n,
    WritePreamble (preamble_header (sv_opts v) link snap epoch from) = Ok p /\
    (from = so_Resume (sv_opts v) \/ from = 0) /\
    sends p fs (sv_s v) /\ delivers (l_packets l) from fs n /\ 0 <= from /\ n <= l_durable l.

Lemma tells_step src link snap l e l' v : tells src link snap l v -> log_ok l -> log_step l e l' -> tells src link snap l' v.
Proof.
  intros [Hn|(Ho & Hos & Hi & ep & from & p & fs & n & H1' & H2' & H3' & H4' & H5' & H6')] Hl Hs; [by left|right].
  destruct (log_step_durable _ _ _ Hs Hl) as (_ & Hd & Ht). pose proof (delivers_le _ _ _ _ H4').
  do 3 (split; [done|]). exists ep, from, p, fs, n. split_and!; try done; [|lia].
  eapply delivers_take; [done..|]. apply Ht. lia.
Qed.

Lemma tells_eq src link snap l v v' : sv_s v' = sv_s v -> sv_opts v' = sv_opts v -> tells src link snap l v -> tells src link snap l v'.
Proof. unfold tells. by intros -> ->. Qed.
End System.

(** ** The invariant *)

Section Invariant.
Context `{CborCodec PreambleHeader, CborCodec Stats, ZstdCodec} `{!ZstdLaws, !StatsLaws}.
Context (c0 : Config) (Hcfg : config_ok (applyDefaults c0)) (Hsnap : Snaplen (applyDefaults c0) <= 2 ^ 22).

Abbreviation c := (applyDefaults c0).
Abbreviation src := (SrcID c).
Abbreviation link := (LinkType c).
Abbreviation snap := (Snaplen c).

(** A connection that is served, whose keylog calls take faults of [FK]. *)
Record live (FK : fault -> Prop) (g : ghost) (w : Writer) (v : server) (s : fs) : Prop := {
  lv_shared : not_shared w (sv_r v);
  lv_opts : opts_ok (sv_opts v) /\ so_SrcID (sv_opts v) = src;
  lv_core : exists epoch from p,
    WritePreamble (preamble_header (sv_opts v) link snap epoch from) = Ok p /\
    (from = so_Resume (sv_opts v) \/ from = 0) /\
    core c FK (sv_opts v) g p from (so_BatchMaxPackets (sv_opts v) - 1) (so_BatchMaxBytes (sv_opts v) - 1) v s
}.

Lemma spread_tells opts g epoch from p v :
  opts_ok opts /\ so_SrcID opts = src ->
  WritePreamble (preamble_header opts link snap epoch from) = Ok p -> from = so_Resume opts \/ from = 0 ->
  spread c opts g p from v -> tells src link snap (ghost_log g) v.
Proof.
  intros [Hok Hos] Hp Hf [(Ho & _ & Hi) (fs & n & H1' & H2' & H3' & H4')]. right. rewrite Ho, Hi. do 3 (split; [done|]).
  exists epoch, from, p, fs, n. by split_and!.
Qed.

Lemma live_tells FK g w v s : live FK g w v s -> tells src link snap (ghost_log g) v.
Proof.
  intros [_ Ho (epoch & from & p & Hp & Hf & Hc)]. eapply spread_tells; [done..|].
  by eapply core_spread.
Qed.

(** The last connection, if it is not served any more, and those before. *)
Definition over (k : option (bool * server)) (ps : list server) : list server :=
  match k with Some (false, v) => v :: ps | _ => ps end.

Definition srel (k : sconf) (l : log) : Prop :=
  Forall (tells src link snap l) (over (s_conn k) (s_past k)) /\
  match s_writer k, s_conn k with
  | Some w, Some (true, v) => exists g, winv c g w (s_dir k) /\ base g = 0 /\ ghost_log g = l /\ live any_fault g w v (s_dir k)
  | w, k0 => rel c0 (Conf w (s_dir k)) l /\ is_live k0 = false
  end.

Lemma rel_log_ok w s l : rel c0 (Conf w s) l -> log_ok l.
Proof.
  destruct w as [w|]; cbn.
  - intros (g & Hw & Hb & <-). apply (ghost_log_ok c0); [apply Hw|done].
  - intros (g & s0 & [Hg _] & _ & Hb & <-). by apply (ghost_log_ok c0).
Qed.

Lemma srel_rel k l : srel k l -> rel c0 (Conf (s_writer k) (s_dir k)) l.
Proof.
  intros [_ Hr]. destruct k as [[w|] [[[|] v]|] ps s]; cbn in *; try by destruct Hr.
  destruct Hr as (g & Hw & Hb & Hl & _). by exists g.
Qed.

Lemma srel_tells k l : srel k l -> log_ok l /\ Forall (tells src link snap l) (connections k).
Proof.
  intros Hr. split; [exact (rel_log_ok _ _ _ (srel_rel _ _ Hr))|]. destruct Hr as [Hp Hr].
  destruct k as [[w|] [[[|] v]|] ps s]; cbn in *; try done; [|by destruct Hr].
  constructor; [|done]. destruct Hr as (g & Hw & Hb & <- & Hl). by eapply live_tells.
Qed.

Lemma tells_steps l e l' ps :
  Forall (tells src link snap l) ps -> log_ok l -> log_step l e l' -> Forall (tells src link snap l') ps.
Proof. intros Hp Hl Hs. eapply Forall_impl; [exact Hp|]. intros v Hv. by eapply tells_step. Qed.

Lemma srel_down w k ps s l l' e :
  rel c0 (Conf w s) l' -> log_ok l -> log_step l e l' -> is_live k = false ->
  Forall (tells src link snap l) (over k ps) -> srel (SConf w k ps s) l'.
Proof.
  intros Hr Hl Hs Hk Ht. split; [by eapply tells_steps|]. by destruct w, k as [[[|] v]|].
Qed.

(** A host crash in the middle of an operation of the serve process. *)
Lemma crash_serve g w s s' :
  winv c g w s -> base g = 0 -> crash_fs s s' ->
  exists l, log_step (ghost_log g) (EvCrash []) l /\ rel c0 (Conf None s') l.
Proof.
  intros Hw Hb Hcr. eapply crash_reader; [done..| |done]. by eapply idle_refl, served_wf, winv_served.
Qed.

(** What the connection holds stays true while the writer goes on. *)
Lemma live_step g g' w w' s s' rs e v :
  live any_fault g w v s -> step c0 (Conf (Some w) s) e (Conf (Some w') s') ->
  winv c g w s -> base g = 0 -> evolves rs g g' -> winv c g' w' s' -> live any_fault g' w' v s'.
Proof.
  intros [Hn Ho (epoch & from & p & Hp & Hf & [C1 C2 C3 C4 (fs & n & recs & S1 & S2 & S3 & [P1 P2 P3 P4 P5] & S5 & S6)])] Hs Hw Hb He Hw'.
  pose proof (winv_served _ _ _ _ Hw) as Hsv. assert (fs_wf s) as Hwf by (by eapply served_wf).
  assert (ghost_ok snap link g) as Hg by apply Hsv.
  pose proof He as (Hh & Hd & _). pose proof (delivers_le _ _ _ _ S2) as Hle.
  pose proof (ri_pos _ _ _ _ C2) as Hpos. pose proof (len_nonneg recs) as Hlr.
  assert (durable_end g <= len (hist g)) as Hdl by (by apply (ghost_log_ok c0 g)).
  split; [|done|].
  - intros fd Hfd. pose proof (ri_file _ _ _ _ C2) as Hrf. unfold rfile in Hrf. rewrite Hfd in Hrf.
    destruct Hrf as (x & j & d & i & Hx & [O1 O2 O3] & _).
    eapply (running_bystander c0 w s e w' s' fd (gs_name (SrcID c) x) d); [done|by eapply segment_untouched, durable_in|by apply Hn|].
    split_and!; [done..|by eapply (wf_fds s Hwf)].
  - exists epoch, from, p. split; [done|]. split; [done|]. split; [by eapply winv_served| |done|done|].
    + eapply rinv_step; try done. intros fd nm d Hfd Hby Ht. exact (proj2 (running_bystander _ _ _ _ _ _ _ _ _ Hs Ht (Hn _ Hfd) Hby)).
    + exists fs, n, recs. split; [done|]. split; [|split; [done|split; [|done]]].
      * eapply delivers_take; [done|done|]. rewrite Hh, take_app_le; [done|]. unfold len in *. lia.
      * split; try done. rewrite P2 at 1. rewrite Hh. unfold slice. rewrite drop_app_le by (unfold len in *; lia).
        rewrite take_app_le; [done|]. rewrite length_drop. unfold len in *. lia.
Qed.

(** ** The steps *)

(** The process goes on with the connection, or hangs up. *)
Definition step_post (FK : fault -> Prop) (g : ghost) (w : Writer) (o : outcome (option goerror)) (v : server) (s : fs) : Prop :=
  winv c g w s /\ tells src link snap (ghost_log g) v /\
  match o with Ret None => live FK g w v s | Ret (Some _) => True | Fail _ => False | Crashed => True end.

Lemma wp_hang_up g w v s e :
  winv c g w s -> not_shared w (sv_r v) -> tells src link snap (ghost_log g) v ->
  wp crash_only (ended (Err e)) (fun o v' s' => winv c g w s' /\ tells src link snap (ghost_log g) v' /\
    match o with Ret r => r = Some e | Fail _ => False | Crashed => True end) v s.
Proof.
  intros Hw Hn Ht. unfold ended. apply wp_bind. eapply wp_mono; [exact (wp_serve_end c0 g w v s Hw Hn)|].
  intros o v' s' (Hw' & Hs & Ho & _ & Hf). destruct o as [[]|e'|]; cbn [bind_post]; [apply wp_ret|done|];
    (split; [done|split; [by eapply tells_eq|done]]).
Qed.

Lemma winv_no_reader g w s s' : winv c g w s -> idle s s' -> kept_fds (fun _ => True) s s' -> winv c g w s'.
Proof.
  intros Hw Hid Hk. apply (winv_outside c0 g w (mkReader 0 0 [] 0 0 0 None 0 0) s); [done|done|].
  split; [done|by apply kept_fds_all].
Qed.

Lemma wp_serve_step fuel FK g w v s :
  winv c g w s -> base g = 0 -> live FK g w v s -> wp crash_only (serve_step (S (S fuel))) (step_post FK g w) v s.
Proof.
  intros Hw Hb [Hn Ho (epoch & from & p & Hp & Hf & Hc)]. unfold serve_step.
  apply wp_bind, wp_try. eapply wp_mono.
  { exact (wp_serve_round c crash_only FK crash_only_no_fail Hcfg Hsnap _ (proj1 Ho) g Hb p from fuel v s Hc). }
  intros o v' s' (Hout & Hown & Hsp & Hr).
  assert (winv c g w s') as Hw' by (by eapply winv_outside).
  assert (not_shared w (sv_r v')) as Hn' by (by apply (own_not_shared c0 g w (sv_r v) (sv_r v') s s')).
  pose proof (spread_tells _ _ _ _ _ _ Ho Hp Hf Hsp) as Ht.
  destruct o as [[]|e|]; cbn [bind_post]; [| |by split_and!].
  2: { eapply wp_mono; [by apply (wp_hang_up g w v' s')|]. intros o v2 s2 (H1' & H2' & H3').
       split; [done|]. split; [done|]. destruct o as [r|e'|]; [by subst r|done..]. }
  destruct Hr as (Hc' & _). pose proof (co_opts _ _ _ _ _ _ _ _ _ _ Hc') as [Ho' _].
  apply wp_ret. split; [done|]. split; [done|]. split; rewrite ?Ho'; [done..|].
  exists epoch, from, p. by split_and!.
Qed.

Lemma wp_serve_start FK g w opts cn kw v s :
  winv c g w s -> base g = 0 -> openable c opts cn kw -> Forall FK (w_faults kw) ->
  wp crash_only (serve_start opts cn kw) (fun o v' s' => winv c g w s' /\
    match o with
    | Ret None => tells src link snap (ghost_log g) v' /\ live FK g w v' s' /\ (conn_faults cn = [] -> quiet_line (out (sv_s v')))
    | Ret (Some _) => tells src link snap (ghost_log g) v'
    | Fail _ => False
    | Crashed => True
    end) v s.
Proof.
  intros Hw Hb (Hsrc & Hopts & Hcn & Hkw) HK. unfold serve_start. apply wp_bind.
  eapply wp_mono; [exact (wp_serve_open c0 Hcfg g w opts cn kw v s Hw Hb Hsrc (proj2 (proj2 (proj2 Hopts))))|].
  intros o v1 s1 [Hw1 Ho]. destruct o as [[[gh epoch] [from reaped]]|e|]; cbn [bind_post]; [|done..].
  destruct Ho as (-> & -> & Hf & r & -> & <- & Hri & Hn). cbn [gh_LinkType gh_Snaplen].
  apply wp_bind, wp_try. eapply wp_mono.
  { exact (wp_serve_preamble c0 crash_only FK g (serve_defaults opts) r cn kw epoch s1
      (winv_served _ _ _ _ Hw1) Hri Hopts Hsrc Hcn Hkw HK). }
  intros o v2 s2 (-> & Hr & Hov & Ho). destruct o as [[]|e|]; cbn [bind_post]; [| |done].
  - destruct Ho as (p & Hp & Hc & Hq). apply wp_ret. split; [done|].
    assert (live FK g w v2 s1) as Hl.
    { split; [by rewrite Hr|by rewrite Hov|]. exists epoch, (gpidx r), p. rewrite Hov. by split_and!. }
    split; [by eapply live_tells|]. by split.
  - assert (tells src link snap (ghost_log g) v2) as Ht.
    { destruct Ho as [[Hs0 _]|(p & Hp & Hs & Hi & _)]; [by left|right]. rewrite Hov, Hi. do 3 (split; [done|]). exists epoch, (gpidx r), p, [], (gpidx r).
      pose proof (ri_pos _ _ _ _ Hri). cbn in *. split_and!; try done; [by apply dl_nil|lia..]. }
    eapply wp_mono; [apply (wp_hang_up g w v2 s1); [done|by rewrite Hr|done]|].
    intros o v3 s3 (Hw3 & Ht3 & Ho3). split; [done|]. destruct o as [r'|e'|]; [by subst r'|done..].
Qed.

Lemma live_keylogs FK FK' g w v s kw :
  live FK g w v s -> small_files (w_fs kw) -> Forall FK' (w_faults kw) ->
  live FK' g w (set_keylogs (sv_keylog v) kw v) s.
Proof.
  intros [Hn Ho (epoch & from & p & Hp & Hf & [C1 C2 C3 C4 (fs & n & recs & S1 & S2 & S3 & [] & S5)])] Hkw HK.
  split; [done..|]. exists epoch, from, p. split; [done|]. split; [done|]. split; try done.
  - split; [apply C4|done].
  - exists fs, n, recs. do 3 (split; [done|]). split; [by split|done].
Qed.

(** One step of the system is one step of the log, or none. *)
Definition log_move (l : log) (e : sevent) (l' : log) : Prop :=
  match e with SWriter e => log_step l e l' | _ => l' = l end.

Lemma srel_crash w k ps g s s' :
  winv c g w s -> base g = 0 -> crash_fs s s' -> is_live k = false -> Forall (tells src link snap (ghost_log g)) (over k ps) ->
  exists l', log_move (ghost_log g) (SWriter (EvCrash [])) l' /\ srel (SConf None k ps s') l'.
Proof.
  intros Hw Hb Hcr Hk Ht. destruct (crash_serve g w s s' Hw Hb Hcr) as (l' & Hl & Hr).
  exists l'. split; [done|]. eapply srel_down; [done| |done..]. apply (ghost_log_ok c0); [apply Hw|done].
Qed.

Lemma srel_up w k ps g v s (b : bool) :
  winv c g w s -> base g = 0 -> tells src link snap (ghost_log g) v -> Forall (tells src link snap (ghost_log g)) ps ->
  (b = true -> live any_fault g w v s) -> k = Some (b, v) -> srel (SConf (Some w) k ps s) (ghost_log g).
Proof.
  intros Hw Hb Ht Hp Hl ->. destruct b; (split; [by try constructor|]); [exists g; split_and!; auto|].
  split; [by exists g|done].
Qed.

Lemma over_connections k ps : is_live k = false -> option_list (snd <$> k) ++ ps = over k ps.
Proof. by destruct k as [[[|] v]|]. Qed.

Lemma over_hung_up k ps : over (hung_up k) ps = option_list (snd <$> k) ++ ps.
Proof. by destruct k as [[b v]|]. Qed.

Lemma sstep_srel k e k' l : sstep c0 k e k' -> srel k l -> exists l', log_move l e l' /\ srel k' l'.
Proof.
  intros Hs Hr. destruct (srel_tells _ _ Hr) as [Hlok Htells]. pose proof (srel_rel _ _ Hr) as Hrel.
  destruct Hr as [Hpast Hr].
  destruct Hs as [w k ps s e w' s' Hs|k ps s e w' s' Hs|w k ps s e s' Hs|w k ps s opts cn kw v0 fl ck rn r v wd Hk Hop HF Hrun|
    w k ps s opts cn kw v0 fl ck rn v wd s' Hk Hop HF Hrun Hcr|w v ps s fuel fl ck rn r v' wd HF Hrun|
    w v ps s fuel fl ck rn v' wd s' HF Hrun Hcr|w v ps s kw Hkw|w v ps s fl ck rn v' wd HF Hrun];
    unfold connections in Htells; cbn [s_conn s_past s_writer s_dir] in *.
  - destruct (is_live k) eqn:Ek.
    + destruct k as [[[|] v]|]; [|done..]. destruct Hr as (g & Hw & Hb & <- & Hlv).
      destruct (running_step c0 w s e w' s' g Hs Hw Hb) as (rs & g' & He & Hw' & Hl).
      assert (live any_fault g' w' v s') as Hlv' by (by eapply live_step).
      exists (ghost_log g'). split; [done|]. apply (srel_up w' _ ps g' v s' true); try done.
      * rewrite <-Hb. apply He.
      * by eapply live_tells.
      * by eapply tells_steps.
    + destruct (step_log _ _ _ _ _ Hcfg Hs Hrel) as (l' & Hl & Hr'). exists l'. split; [done|]. by eapply srel_down.
  - destruct (step_log _ _ _ _ _ Hcfg Hs Hrel) as (l' & Hl & Hr'). exists l'. split; [done|].
    eapply srel_down; try done. by destruct k as [[[|] v]|]; destruct Hr.
  - destruct (step_log _ _ _ _ _ Hcfg Hs Hrel) as (l' & Hl & Hr'). exists l'. split; [done|].
    eapply srel_down; try done; [by destruct k|]. by rewrite over_hung_up.
  - destruct Hrel as (g & Hw & Hb & <-). rewrite over_connections by done.
    pose proof (wp_run _ _ _ _ (World s fl ck rn) _ _ _ (wp_serve_start any_fault g w opts cn kw v0 s Hw Hb Hop (any_fault_all _))
      eq_refl HF Hrun) as [Hw' Ho]. exists (ghost_log g). split; [done|].
    apply (srel_up w _ _ g v (w_fs wd) (bool_decide (r = None))); try done; [by destruct r; [|apply Ho]|].
    intros ->%bool_decide_eq_true. apply Ho.
  - destruct Hrel as (g & Hw & Hb & <-).
    pose proof (wp_run _ _ _ _ (World s fl ck rn) _ _ _ (wp_serve_start any_fault g w opts cn kw v0 s Hw Hb Hop (any_fault_all _))
      eq_refl HF Hrun) as [Hw' _]. by eapply srel_crash.
  - destruct Hr as (g & Hw & Hb & <- & Hlv).
    pose proof (wp_run _ _ _ _ (World s fl ck rn) _ _ _ (wp_serve_step fuel any_fault g w v s Hw Hb Hlv) eq_refl HF Hrun)
      as (Hw' & Ht & Ho). exists (ghost_log g). split; [done|].
    apply (srel_up w _ _ g v' (w_fs wd) (bool_decide (r = None))); try done. by intros ->%bool_decide_eq_true.
  - destruct Hr as (g & Hw & Hb & <- & Hlv).
    pose proof (wp_run _ _ _ _ (World s fl ck rn) _ _ _ (wp_serve_step fuel any_fault g w v s Hw Hb Hlv) eq_refl HF Hrun)
      as (Hw' & Ht & _). eapply srel_crash; try done. by constructor.
  - destruct Hr as (g & Hw & Hb & <- & Hlv). exists (ghost_log g). split; [done|].
    assert (live any_fault g w (set_keylogs (sv_keylog v) kw v) s) as Hlv'
      by (by eapply live_keylogs; [|done|apply any_fault_all]).
    apply (srel_up w _ _ g (set_keylogs (sv_keylog v) kw v) s true); try done. by eapply live_tells.
  - destruct Hr as (g & Hw & Hb & <- & Hlv).
    pose proof (wp_run _ _ _ _ (World s fl ck rn) _ _ _ (wp_serve_end c0 g w v s Hw (lv_shared _ _ _ _ _ Hlv)) eq_refl HF Hrun)
      as (Hw' & Hsv & Hov & _). exists (ghost_log g). split; [done|].
    apply (srel_up w _ _ g v' (w_fs wd) false); try done. eapply tells_eq; [done..|]. by eapply live_tells.
Qed.

Lemma ssteps_srel k es k' l :
  steps (sstep c0) k es k' -> srel k l -> exists l', steps log_step l (logged es) l' /\ srel k' l'.
Proof.
  intros Hs. revert l. induction Hs as [k|k e k1 es k' Hs Hss IH]; intros l Hr; [exists l; split; [constructor|done]|].
  destruct (sstep_srel _ _ _ _ Hs Hr) as (l1 & Hl & Hr1). destruct (IH _ Hr1) as (l' & Hl' & Hr').
  exists l'. split; [|done]. destruct e; cbn in *; [by econstructor|by subst l1..].
Qed.
End Invariant.

Definition first_sconf : sconf := SConf None None [] empty_fs.

Lemma first_srel `{ZstdCodec} `{CborCodec PreambleHeader} c0 : srel c0 first_sconf (Log [] 0).
Proof. split; [constructor|]. split; [exact (empty_spool c0)|done]. Qed.
