(* ===== verification/ServeProps.v ===== *)
(** * A connection gets the log

    What is sent over a connection is the preamble and the durable packets from
    the start position on, and a connection that does not fail catches up. *)

From S2P Require Import Prelude Bytes GoIO Pcapio Proto Os Keeps Durable Dir Runs Json Manifest Recover Spool SpoolSpec SpoolProof RecoverProof RestartProof SpoolProps Reader ReaderProof TailProof TailProps Keylog Conn Streamer StreamerProof Serve ServeProof ServeOpen ServeSystem.

(** ** Catching up *)

Section CatchUp.
Context `{CborCodec PreambleHeader, CborCodec Stats, ZstdCodec} `{!ZstdLaws, !StatsLaws}.
Context (c0 : Config) (Hcfg : config_ok (applyDefaults c0)) (Hsnap : Snaplen (applyDefaults c0) <= 2 ^ 22).

Abbreviation c := (applyDefaults c0).

(** [m] rounds without faults in the directory, whatever the clock and the random
    source show, while the writer does nothing. *)
Fixpoint rounds (env : nat -> list Z * list byte) (i m : nat) (v : server) (s : fs) : option (server * fs) :=
  match m with
  | O => Some (v, s)
  | S m =>
      match serve_step 2 (v, World s [] (env i).1 (env i).2) with
      | (Ret None, (v', wd)) => rounds env (S i) m v' (w_fs wd)
      | _ => None
      end
  end.

(** The keylog calls do not end the process. *)
Definition survivable (f : fault) : Prop := f <> FCrash.

Lemma round_run g w v s clock rand :
  winv c g w s -> base g = 0 -> live c0 survivable g w v s -> quiet_line (out (sv_s v)) ->
  exists v' wd, serve_step 2 (v, World s [] clock rand) = (Ret None, (v', wd)) /\
    winv c g w (w_fs wd) /\ live c0 survivable g w v' (w_fs wd) /\ quiet_line (out (sv_s v')) /\
    idle s (w_fs wd) /\
    (gpidx (sv_r v') = gpidx (sv_r v) + 1 \/
     exists epoch from p, WritePreamble (preamble_header (sv_opts v') (LinkType c) (Snaplen c) epoch from) = Ok p /\
       sv_batch v' = [] /\ arrived g p from v' /\
       Forall (fun seg => ~ covers (gpidx (sv_r v')) seg) (fresh_view c g s)).
Proof.
  intros Hw Hb [Hn [Ho Hos] (epoch & from & p & Hp & Hf & Hc)] Hq.
  pose proof (wp_serve_round c no_faults survivable no_faults_no_fail Hcfg Hsnap _ Ho g Hb p from 0 v s Hc [] clock rand (Forall_nil_2 _)) as Hr. unfold serve_step, ended, mbind, M_bind, try.
  destruct (serve_round 2 (v, World s [] clock rand)) as [[[]|e|] [v' wd]]; cbn [fst snd] in Hr;
    destruct Hr as [(Hout & Hown & Hsp & Hr) _]; [|by destruct Hr|by destruct Hr as [?|?]].
  destruct Hr as (Hc' & Hq' & Hprog). pose proof (co_opts _ _ _ _ _ _ _ _ _ _ Hc') as (Ho' & _).
  exists v', wd. split; [done|]. split; [by eapply winv_outside|]. split.
  { split; rewrite ?Ho'; [by apply (own_not_shared c0 g w (sv_r v) (sv_r v') s (w_fs wd))|done|].
    exists epoch, from, p. by split_and!. }
  split; [by apply Hq'|]. split; [apply Hout|].
  destruct Hprog as [Hg|(Hg & Hbt & Ha & Hv)]; [by left|right]. exists epoch, from, p. rewrite Hg, Ho'. by split_and!.
Qed.

(** Everything below [n] was sent. *)
Definition sent_below (h : list PcapRecord) (v : server) (bound : Z) : Prop :=
  exists epoch from p fs n,
    WritePreamble (preamble_header (sv_opts v) (LinkType c) (Snaplen c) epoch from) = Ok p /\
    p ++ enc_frames fs `prefix_of` sent (bw_conn (out (sv_s v))) /\ delivers h from fs n /\ bound <= n.

Lemma catch_up g w seg env k i v s :
  winv c g w s -> base g = 0 -> live c0 survivable g w v s -> quiet_line (out (sv_s v)) ->
  head_pointer s = Some seg -> durable_end g - gpidx (sv_r v) <= Z.of_nat k ->
  exists m v' s', rounds env i m v s = Some (v', s') /\ sent_below (hist g) v' (seg_EndGpidx seg).
Proof.
  revert i v s. induction k as [|k IH]; intros i v s Hw Hb Hl Hq Hh Hk;
    destruct (round_run g w v s (env i).1 (env i).2 Hw Hb Hl Hq) as (v' & wd & Hrun & Hw' & Hl' & Hq' & Hid & Hor).
  all: pose proof (lv_core _ _ _ _ _ _ Hl') as (ep0 & fr0 & p0 & _ & _ & Hc0).
  all: pose proof (ri_pos _ _ _ _ (co_reader _ _ _ _ _ _ _ _ _ _ Hc0)) as Hpos.
  all: assert ((exists epoch from p, WritePreamble (preamble_header (sv_opts v') (LinkType c) (Snaplen c) epoch from) = Ok p /\
       sv_batch v' = [] /\ arrived g p from v' /\
       Forall (fun seg => ~ covers (gpidx (sv_r v')) seg) (fresh_view c g s)) ->
     sent_below (hist g) v' (seg_EndGpidx seg)) as Hend.
  1,3: intros (ep & fr & p & Hp & Hbt & (fs' & n & recs & Hs & Hd & [P1 P2 P3 _ _]) & Hv);
    exists ep, fr, p, fs', n; (split; [done|]); (split; [done|]); (split; [done|]);
    rewrite P1 in Hbt; apply fmap_nil_inv in Hbt as ->; rewrite len_nil in P3;
    apply Z.nlt_ge; intros Hlt;
    destruct (view_covers c g s seg (gpidx (sv_r v')) (winv_served _ _ _ _ Hw) Hh) as (y & Hy & Hcov); [lia|];
    by destruct (proj1 (Forall_forall _ _) Hv y Hy).
  - destruct Hor as [Hg|Hor]; [lia|]. exists 1%nat, v', (w_fs wd). cbn [rounds]. rewrite Hrun. split; [done|]. by apply Hend.
  - destruct Hor as [Hg|Hor].
    + destruct (IH (S i) v' (w_fs wd) Hw' Hb Hl' Hq') as (m & v2 & s2 & Hr & Hs2); [|lia|].
      * unfold head_pointer in *. by rewrite (idle_content _ _ headName Hid).
      * exists (S m), v2, s2. cbn [rounds]. rewrite Hrun. by split.
    + exists 1%nat, v', (w_fs wd). cbn [rounds]. rewrite Hrun. split; [done|]. by apply Hend.
Qed.
End CatchUp.

(** ** Properties *)

Section Properties.
Context `{CborCodec PreambleHeader, CborCodec Stats, ZstdCodec} `{!ZstdLaws, !StatsLaws}.

(** What arrived over a connection: a prefix of the preamble and numbered frames;
    their batches are the packets of the log from the start position on, in order
    and without a gap, up to [n], all of them durable. *)
Definition got_log (link snap : Z) (l : log) (v : server) (bytes : list byte) : Prop :=
  bytes = [] \/
  exists epoch from p fs n,
    WritePreamble (preamble_header (sv_opts v) link snap epoch from) = Ok p /\
    (from = so_Resume (sv_opts v) \/ from = 0) /\ bytes `prefix_of` p ++ enc_frames fs /\ numbered fs /\
    delivers (l_packets l) from fs n /\ n <= l_durable l.


Lemma live_survivable c0 g w v s :
  live c0 any_fault g w v s -> Forall survivable (w_faults (sv_keylog_world v)) -> live c0 survivable g w v s.
Proof.
  intros Hl HF. pose proof (lv_core _ _ _ _ _ _ Hl) as (ep & fr & p & _ & _ & Hc).
  destruct (co_keys _ _ _ _ _ _ _ _ _ _ Hc) as (_ & Hsm & _).
  pose proof (live_keylogs c0 any_fault survivable g w v s (sv_keylog_world v) Hl Hsm HF) as Hl'. by destruct v.
Qed.

End Properties.

(** ** Executing the system *)

Definition small_b (w : Os.fs) : bool := bool_decide (map_Forall (fun _ i => len (i_data i) < 2 ^ 32) (fs_inodes w)).

Lemma small_b_spec w : small_b w = true -> small_files w.
Proof. intros Hs%bool_decide_eq_true ino i Hi. by apply (Hs ino i). Qed.

#[export] Instance opts_ok_dec o : Decision (opts_ok o).
Proof. unfold opts_ok; apply _. Defined.

Definition openable_b (c : Config) (opts : ServeOptions) (cn : conn) (kw : world) : bool :=
  bool_decide (so_SrcID opts = SrcID c /\ opts_ok (serve_defaults opts) /\ sent cn = []) && small_b (w_fs kw).

Lemma openable_b_spec c opts cn kw : openable_b c opts cn kw = true -> openable c opts cn kw.
Proof. intros [Ho%bool_decide_eq_true Hs%small_b_spec]%andb_true_iff. unfold openable. tauto. Qed.

Section Exec.
Context `{CborCodec PreambleHeader, CborCodec Stats, ZstdCodec}.

Definition new_server : server :=
  mkServer (mkServeOptions 0 [] 0 false NoKeylog 0 0 0) 0 new_reader false (mkStreamer (mkBuf [] false (mkConn [] [])) 0 ∅ false)
    (newKeylogTailer NoKeylog) (World empty_fs [] [] []) [] 0 0 0.

(** One event without faults; crashes lose nothing. *)
Definition sexec (c : Config) (k : sconf) (e : sevent) : option sconf :=
  let w0 := World (s_dir k) [] [] [] in
  match s_writer k, s_conn k, e with
  | None, k0, SWriter e =>
      k' ← exec c (Conf None (s_dir k)) e; Some (SConf (running k') k0 (s_past k) (directory k'))
  | Some w, k0, SWriter e =>
      k' ← exec c (Conf (Some w) (s_dir k)) e;
      Some (match running k' with
            | Some w' => SConf (Some w') k0 (s_past k) (directory k')
            | None => SConf None (hung_up k0) (s_past k) (directory k')
            end)
  | Some w, k0, SOpen opts cn kw =>
      if negb (is_live k0) && openable_b (applyDefaults c) opts cn kw then
        match serve_start opts cn kw (new_server, w0) with
        | (Ret r, (v, wd)) =>
            Some (SConf (Some w) (Some (bool_decide (r = None), v)) (option_list (snd <$> k0) ++ s_past k) (w_fs wd))
        | _ => None
        end
      else None
  | Some w, Some (true, v), SRound =>
      match serve_step 2 (v, w0) with
      | (Ret r, (v', wd)) => Some (SConf (Some w) (Some (bool_decide (r = None), v')) (s_past k) (w_fs wd))
      | _ => None
      end
  | Some w, Some (true, v), SKeylogs kw =>
      if small_b (w_fs kw) then Some (SConf (Some w) (Some (true, set_keylogs (sv_keylog v) kw v)) (s_past k) (s_dir k)) else None
  | Some w, Some (true, v), SClose =>
      match serve_end (v, w0) with
      | (Ret _, (v', wd)) => Some (SConf (Some w) (Some (false, v')) (s_past k) (w_fs wd))
      | _ => None
      end
  | _, _, _ => None
  end.

Lemma sexec_step c k e k' : fs_wf (s_dir k) -> sexec c k e = Some k' -> sstep c k e k'.
Proof.
  intros Hwf. unfold sexec. destruct k as [w k ps s]. cbn [s_writer s_conn s_past s_dir] in *.
  destruct w as [w|]; [destruct e as [e|opts cn kw| |kw|]|destruct e as [e|opts cn kw| |kw|]]; try done.
  - intros E. assert (k' = match exec c (Conf (Some w) s) e with
      | Some (Conf (Some w') s') => SConf (Some w') k ps s'
      | Some (Conf None s') => SConf None (hung_up k) ps s' | None => k' end /\ exec c (Conf (Some w) s) e <> None) as [-> Hne].
    { destruct k as [[[|] v]|]; destruct (exec _ _ _) as [[[w'|] s']|]; cbn in E; by simplify_eq. }
    destruct (exec _ _ _) as [[[w'|] s']|] eqn:Ex; [| |done]; apply exec_step in Ex; try done; by constructor.
  - assert (forall r, r = (if negb (is_live k) && openable_b (applyDefaults c) opts cn kw then
        match serve_start opts cn kw (new_server, World s [] [] []) with
        | (Ret r, (v, wd)) => Some (SConf (Some w) (Some (bool_decide (r = None), v)) (option_list (snd <$> k) ++ ps) (w_fs wd))
        | _ => None
        end else None) -> r = Some k' -> sstep c (SConf (Some w) k ps s) (SOpen opts cn kw) k') as Hopen.
    { intros r ->. destruct (negb _ && _) eqn:Eb; [|done]. apply andb_true_iff in Eb as [Hk%negb_true_iff Ho%openable_b_spec].
      destruct (serve_start _ _ _ _) as [[r'|er|] [v wd]] eqn:Er; [|done..]. intros [= <-]. by eapply (sstep_open c w k ps s opts cn kw new_server []). }
    destruct k as [[[|] v]|]; by apply (Hopen _ eq_refl).
  - destruct k as [[[|] v]|]; try done. destruct (serve_step _ _) as [[r'|er|] [v' wd]] eqn:Er; [|done..]. intros [= <-].
    by eapply (sstep_round c w v ps s 0 []).
  - destruct k as [[[|] v]|]; try done. destruct (small_b _) eqn:Es; [|done]. intros [= <-]. by constructor; apply small_b_spec.
  - destruct k as [[[|] v]|]; try done. destruct (serve_end _) as [[[]|er|] [v' wd]] eqn:Er; [|done..]. intros [= <-].
    by eapply (sstep_close c w v ps s []).
  - intros E. assert (k' = match exec c (Conf None s) e with Some k1 => SConf (running k1) k ps (directory k1) | None => k' end /\
      exec c (Conf None s) e <> None) as [-> Hne].
    { destruct k as [[[|] v]|]; destruct (exec _ _ _) as [k1|]; cbn in E; by simplify_eq. }
    destruct (exec _ _ _) as [[w' s']|] eqn:Ex; [|done]; apply exec_step in Ex; try done. by constructor.
Qed.

Lemma srel_fs_wf c k l : srel c k l -> fs_wf (s_dir k).
Proof. intros Hr%srel_rel. exact (rel_wf c (Conf (s_writer k) (s_dir k)) l Hr). Qed.

Lemma sexec_runs `{!ZstdLaws, !StatsLaws} c es k :
  config_ok (applyDefaults c) -> Snaplen (applyDefaults c) <= 2 ^ 22 ->
  exec_ok (sexec c) first_sconf es = true -> k = exec_end (sexec c) first_sconf es -> steps (sstep c) first_sconf es k.
Proof.
  intros Hc Hsn He ->. apply (exec_steps (sstep c) (fun k => exists l, srel c k l) (sexec c)).
  - intros k1 e k2 [l Hr] E. pose proof (sexec_step c k1 e k2 (srel_fs_wf _ _ _ Hr) E) as Hs. split; [done|].
    destruct (sstep_srel c Hc Hsn k1 e k2 l Hs Hr) as (l' & _ & Hr'). eauto.
  - exists (Log [] 0). apply first_srel.
  - by apply exec_ok_end.
Qed.
End Exec.

(** ** Examples *)

#[export] Instance SrcInfo_eq_dec : EqDecision SrcInfo.
Proof. solve_decision. Defined.
#[export] Instance PreambleHeader_eq_dec : EqDecision PreambleHeader.
Proof. solve_decision. Defined.

Definition example_opts (resume : Z) : ServeOptions := mkServeOptions 7 (str "eth0") resume false (KeylogFile (str "keys.log")) 2 0 0.

(** A codec that knows the preambles of two connections, and a compressor that
    compresses nothing. *)
Definition example_header (from : Z) : PreambleHeader :=
  preamble_header (serve_defaults (example_opts from)) 1 (Snaplen (applyDefaults example_config)) (str "0000000000000000") from.

Definition two_preambles : CborCodec PreambleHeader := {|
  cbor_Marshal h := if decide (h = example_header 0) then Ok [x61] else if decide (h = example_header 2) then Ok [x62] else Err cbor_err;
  cbor_Unmarshal b := if decide (b = [x61]) then Ok (example_header 0) else if decide (b = [x62]) then Ok (example_header 2) else Err cbor_err
|}.
Definition no_stats : CborCodec Stats := {| cbor_Marshal := fun _ => Ok []; cbor_Unmarshal := fun _ => Err cbor_err |}.
Definition plain_zstd : ZstdCodec := {| zstd_EncodeAll := id; zstd_DecodeAll := Ok |}.

Lemma plain_zstd_laws : @ZstdLaws plain_zstd.
Proof.
  split; [done|]. intros x. cbn. pose proof (len_nonneg x). pose proof (Z.div_pos (len x) 256). unfold id. lia.
Qed.

Lemma no_stats_laws : @StatsLaws no_stats.
Proof. split. intros st. by exists []. Qed.

(** A directory with one file. *)
Definition one_file (name data : list byte) : world :=
  World (Fs {[ 0%nat := Inode data [] (length data) ]} {[ name := 0%nat ]} [] ∅ 1) [] [] [].

Definition example_keys (n : nat) : world :=
  one_file (str "keys.log") (take n (str "CLIENT_RANDOM 0123456789abcdef0123456789abcdef0123456789abcdef0123456789abcdef 00" ++ [x0a])).

(** The first connection breaks after it was flushed twice; the host crashes; the
    second connection resumes. *)
Definition example_served : list sevent :=
  let p1 := mkPcapRecord 1 2 1 [x61] in
  let p2 := mkPcapRecord 3 4 90 (replicate 90 x62) in
  let p3 := mkPcapRecord 5 6 1 [x63] in
  [SWriter EvStart; SWriter (EvWrite p1 0); SOpen (example_opts 0) (mkConn [] [FOk; FOk; FShort 20]) (example_keys 10);
   SRound; SRound; SKeylogs (example_keys 1000); SWriter (EvWrite p2 1); SRound; SRound; SWriter (EvWrite p3 2); SRound;
   SRound; SWriter (EvCrash []); SWriter EvStart; SOpen (example_opts 2) (mkConn [] []) (example_keys 0); SRound; SRound].

Definition example_sexec := @sexec two_preambles no_stats plain_zstd example_config.
Definition example_served_end : sconf := exec_end example_sexec first_sconf example_served.

Lemma example_served_ok : exec_ok example_sexec first_sconf example_served = true.
Proof. vm_compute. reflexivity. Qed.

Lemma example_snaplen : Snaplen (applyDefaults example_config) <= 2 ^ 22.
Proof. by vm_compute. Qed.

Definition example_served_steps := fun n Hok => @sexec_runs two_preambles no_stats plain_zstd plain_zstd_laws no_stats_laws example_config
  (take n example_served) (exec_end example_sexec first_sconf (take n example_served)) (proj1 example_steps) example_snaplen Hok eq_refl.


(** The example when the second connection starts. *)
Definition example_waiting : sconf := exec_end example_sexec first_sconf (take 15 example_served).
Definition example_waiting_writer : Writer := default new_object (s_writer example_waiting).
Definition example_waiting_server : server := default new_server (snd <$> s_conn example_waiting).
Definition example_waiting_seg : Segment := default zero_Segment (head_pointer (s_dir example_waiting)).

Lemma example_waiting_ok :
  exec_ok example_sexec first_sconf (take 15 example_served) = true /\
  example_waiting = SConf (Some example_waiting_writer) (Some (true, example_waiting_server)) (s_past example_waiting) (s_dir example_waiting).
Proof. split; [vm_compute; reflexivity|]. unfold example_waiting_writer, example_waiting_server. vm_compute. reflexivity. Qed.

