(* ===== verification/EndToEnd.v ===== *)
(** * From the spool to the mirror

    The streams that a collector reads from the connections of one spool, cut off
    anywhere, tell the truth about the spool's log, so its mirror holds that log. *)

From S2P Require Import Prelude Bytes GoIO Pcapio Crc Proto Os Durable Dir Runs Json Manifest Spool SpoolSpec SpoolProof SpoolProps RecoverProof Reader Mirror MirrorSpec MirrorProof MirrorProps Keylog Metrics Conn Streamer StreamerProof Serve ServeProof ServeSystem ServeProps Demux DemuxProof DemuxProps.

(** A preamble is read back, and nothing is no preamble. *)
Class PreambleLaws `{CborCodec PreambleHeader} : Prop := {
  preamble_roundtrip h b : cbor_Marshal h = Ok b -> cbor_Unmarshal b = Ok h;
  preamble_empty : exists e, cbor_Unmarshal [] = Err e
}.

(** ** What is read of a prefix *)

Section Preamble.
Context `{PreambleLaws}.

Lemma ReadPreamble_written h p k e h' r' :
  WritePreamble h = Ok p -> ReadPreamble (Stream (p ++ k) e) = (Ok h', r') -> h' = h /\ r' = Stream k e.
Proof.
  unfold WritePreamble. destruct (cbor_Marshal h) as [body|x] eqn:Em; [|done].
  destruct (Z.ltb_spec maxPreambleHeader (len body)) as [|Hle]; [done|]. intros Hp.
  assert (p = PreambleMagic ++ be_enc 2 ProtocolVersion ++ be_enc 4 (CRC32C body) ++ be_enc 2 (u16 (len body)) ++ body)
    as -> by congruence. clear Hp.
  pose proof (len_nonneg body). unfold maxPreambleHeader in Hle.
  destruct (decide (len body = 2 ^ 16)) as [Heq|Hne].
  - rewrite Heq, <-!app_assoc, ReadPreamble_split by done. change (Z.to_nat (u16 (2 ^ 16))) with O.
    unfold ReadFull. cbn [st_data]. rewrite decide_True by lia. change (take 0 (body ++ k)) with (@nil byte).
    destruct preamble_empty as [x ->]. by destruct (negb _).
  - rewrite u16_small, <-!app_assoc, ReadPreamble_split by (unfold is_uint; lia).
    rewrite ReadFull_app by (unfold len in *; lia). rewrite Z.eqb_refl, (preamble_roundtrip _ _ Em). cbn [negb].
    by intros [= <- <-].
Qed.

Lemma ReadPreamble_prefix h p rest r h' r' :
  WritePreamble h = Ok p -> st_data r `prefix_of` p ++ rest -> ReadPreamble r = (Ok h', r') ->
  h' = h /\ st_data r' `prefix_of` rest.
Proof.
  intros Hw [k Hk] Hr. apply (ReadPreamble_extend _ _ _ k io_EOF) in Hr. rewrite <-Hk in Hr.
  apply (ReadPreamble_written _ _ _ _ _ _ Hw) in Hr as [-> [= <-]]. split; [done|]. by exists k.
Qed.
End Preamble.

(** Fields that fit the header, of a payload that may be too large. *)
Definition wide (f : Frame) : Prop :=
  is_uint 8 (f_Type f) /\ is_uint 16 (f_Flags f) /\ is_uint 16 (f_SourceID f) /\ is_uint 64 (f_BaseGpidx f) /\
  is_uint 64 (f_Seq f) /\ len (f_Payload f) < 2 ^ 32.

Lemma ReadFrame_written f k e f' r' :
  wide f -> ReadFrame (Stream (Frame_bytes f ++ k) e) = (Ok f', r') -> f' = f /\ r' = Stream k e.
Proof.
  intros (H1 & H2 & H3 & H4 & H5 & H6). destruct (Z.le_gt_cases (len (f_Payload f)) MaxPayloadLen) as [Hle|Hgt].
  - assert (wf_frame f) as Hf by (unfold wf_frame; tauto). rewrite ReadFrame_bytes by exact Hf. by intros [= <- <-].
  - set (f0 := mkFrame (f_Type f) (f_Flags f) (f_SourceID f) (f_BaseGpidx f) (f_Seq f) []).
    assert (len (f_Payload f0) <= MaxPayloadLen) as Hf6 by (change (0 <= MaxPayloadLen); unfold MaxPayloadLen; lia).
    assert (wf_frame f0) as Hf0 by (unfold wf_frame; cbn in *; tauto).
    pose proof (ReadFrame_huge f0 (f_Payload f) ((f_Payload f ++ be_enc 4 (CRC32C (f_Payload f))) ++ k) e Hf0 ltac:(lia)) as Hh.
    unfold Frame_bytes. rewrite <-app_assoc. change (marshalHeader f0) with (marshalHeader f) in Hh.
    intros Hr. rewrite Hr in Hh. cbn [fst] in Hh. congruence.
Qed.

Lemma read_frames_prefix fs : forall r fuel, Forall wide fs -> st_data r `prefix_of` enc_frames fs ->
  read_frames fuel r `prefix_of` fs.
Proof.
  induction fs as [|f fs IH]; intros r fuel Hw Hp.
  - destruct fuel as [|fuel]; cbn [read_frames]; [done|]. destruct (ReadFrame r) as [[f|e] r'] eqn:E; [|done].
    apply ReadFrame_shrinks in E. apply prefix_nil_inv in Hp. rewrite Hp in E. cbn in E. lia.
  - inversion Hw as [|? ? Hf Hfs]; subst. destruct fuel as [|fuel]; cbn [read_frames]; [apply prefix_nil|].
    destruct (ReadFrame r) as [[f'|e] r'] eqn:E; [|apply prefix_nil].
    destruct Hp as [k Hk]. apply (ReadFrame_extend _ _ _ k io_EOF) in E. rewrite <-Hk in E.
    change (enc_frames (f :: fs)) with (Frame_bytes f ++ enc_frames fs) in E.
    apply (ReadFrame_written _ _ _ _ _ Hf) in E as [-> [= E]]. apply prefix_cons, IH; [done|]. by exists k.
Qed.

(** ** What the batches of a connection are *)

Section Batches.
Context `{ZstdCodec}.

Lemma delivers_sized h from fs n : delivers h from fs n -> Forall sized fs.
Proof.
  induction 1 as [|fs f n Hd IH Hp|fs f n recs Hd IH Hs]; [constructor|..]; apply Forall_app; (split; [done|]);
    constructor; try done. by apply plain_sized.
Qed.

Lemma delivers_batches h from fs n :
  delivers h from fs n -> 0 <= from ->
  Forall (fun f => f_Type f = FramePktBatch -> exists recs, batch f = Ok (pcapToProto <$> recs) /\ 0 <= f_BaseGpidx f /\
    recs <> [] /\ recs = slice (Z.to_nat (f_BaseGpidx f)) (length recs) h) fs.
Proof.
  intros Hd H0. induction Hd as [|fs f n Hd IH Hp|fs f n recs Hd IH Hs Ht Hb Hba Hne Hr]; [constructor|..];
    apply Forall_app; (split; [done|]); constructor; try done.
  - intros Ht. by destruct (proj1 Hp).
  - intros _. exists recs. pose proof (delivers_le _ _ _ _ Hd). rewrite Hb. split_and!; try done. lia.
Qed.

Lemma numbered_seq fs : numbered fs -> Forall (fun f => is_uint 64 (f_Seq f)) fs.
Proof.
  induction 1 as [|fs f Hn IH Hq]; [constructor|]. apply Forall_app. split; [done|]. constructor; [|done].
  rewrite Hq. apply Z.mod_pos_bound. lia.
Qed.

Lemma sends_wide pre fs h from n s :
  sends pre fs s -> delivers h from fs n -> is_uint 16 (st_srcID s) -> Forall wide fs.
Proof.
  intros [_ _ Hn Hs] Hd Hi. apply numbered_seq in Hn. apply delivers_sized in Hd.
  rewrite Forall_forall in Hn, Hs, Hd |- *. intros f Hf. destruct (Hd f Hf) as (H1 & H2 & H3 & H4).
  unfold wide. specialize (Hn f Hf). rewrite (Hs f Hf). cbn beta in *. tauto.
Qed.
End Batches.

(** ** The streams of a connection *)

Section Stream.
Context `{CborCodec PreambleHeader, ZstdCodec} `{!PreambleLaws}.

(** What a collector may read of one of the connections: any part of it, with any
    error at its end.  No source has a blank instance id. *)
Definition from_connection (conns : list server) (r : stream) : Prop :=
  exists v, v ∈ conns /\ st_data r `prefix_of` sent (bw_conn (out (sv_s v))) /\
    forall pre r1, ReadPreamble r = (Ok pre, r1) -> Forall (fun s => si_Epoch s <> []) (Sources pre).

Lemma true_slice h base recs :
  recs <> [] -> 0 <= base -> recs = slice (Z.to_nat base) (length recs) h ->
  true_batch (pcapToProto <$> h) base (pcapToProto <$> recs).
Proof.
  intros Hne Hb Hr. assert (length recs <> 0%nat) as Hl by (by destruct recs). split; [done|].
  pose proof (f_equal length Hr) as Hlen. unfold slice in Hlen. rewrite length_take, length_drop in Hlen.
  split; [unfold len; rewrite !length_fmap; lia|]. rewrite length_fmap. rewrite Hr at 1. unfold slice.
  by rewrite fmap_take, fmap_drop.
Qed.

Lemma connection_honest src link snap l v r :
  tells src link snap l v -> st_data r `prefix_of` sent (bw_conn (out (sv_s v))) ->
  (forall pre r1, ReadPreamble r = (Ok pre, r1) -> Forall (fun s => si_Epoch s <> []) (Sources pre)) ->
  honest src (fun _ => pcapToProto <$> l_packets l) r.
Proof.
  intros Ht Hp He. unfold honest. destruct (ReadPreamble r) as [[pre|e] r1] eqn:Er; [|done].
  specialize (He _ _ eq_refl).
  destruct Ht as [Hnil|(Hok & <- & Hi & ep & from & p & fs & n & Hw & Hf & Hs & Hd & Hf0 & Hn)].
  { rewrite Hnil in Hp. apply prefix_nil_inv in Hp. unfold ReadPreamble, ReadFull in Er. rewrite Hp in Er.
    by rewrite decide_False in Er by (cbn; lia). }
  destruct (ReadPreamble_prefix _ p (enc_frames fs) _ _ _ Hw ltac:(etrans; [exact Hp|]; apply carries_prefix, Hs) Er) as [-> Hp1].
  set (src := so_SrcID (sv_opts v)) in *. pose proof (Forall_inv He) as Hne. exists ep. split; [exact Hne|].
  cbn [preamble_header ResumeAck Sources]. fold src. rewrite lookup_singleton_eq. cbn.
  split; [destruct Hf as [->| ->]; [apply Hok|done]|].
  split; [by repeat constructor|]. split; [by repeat constructor|].
  assert (Forall wide fs) as Hwide by (eapply sends_wide; [done..|]; rewrite Hi; apply Hok).
  pose proof (delivers_batches _ _ _ _ Hd Hf0) as Hb. apply Forall_forall. intros f Hin _ Hty recs Hrecs.
  destruct (read_frames_prefix fs r1 (S (length (st_data r1))) Hwide Hp1) as [k Hk].
  assert (f ∈ fs) as Hinf by (rewrite Hk, elem_of_app; by left). rewrite Forall_forall in Hb.
  destruct (Hb f Hinf Hty) as (rs & Hrs & Hb0 & Hnn & Hsl). rewrite Hrs in Hrecs. injection Hrecs as <-.
  by apply true_slice.
Qed.
End Stream.

(** ** The packets of a run *)

(** The packets that reached the disk, also those that a crash cut off. *)
Definition written (es : list event) : list PcapRecord :=
  concat ((fun e => match e with EvWrite r _ => [stored r] | EvCrash rs => rs | _ => [] end) <$> es).

Lemma log_steps_written l es l' : steps log_step l es l' -> l_packets l' `sublist_of` l_packets l ++ written es.
Proof.
  assert (forall (p h : list PcapRecord), p `prefix_of` h -> p `sublist_of` h) as Hpre.
  { intros p h [k ->]. by apply sublist_inserts_r. }
  induction 1 as [l|l e l1 es l' Hs Hss IH]; [by rewrite app_nil_r|]. etrans; [exact IH|].
  unfold written. cbn [fmap list_fmap concat]. rewrite app_assoc. apply sublist_app; [|done].
  inversion Hs; subst; cbn; rewrite ?app_nil_r; try done; by apply Hpre.
Qed.

Lemma sublist_all {A} (P : A -> Prop) h k : h `sublist_of` k -> Forall P k -> Forall P h.
Proof. induction 1 as [|x h k Hs IH|x h k Hs IH]; inversion 1; subst; auto. Qed.

Lemma sublist_bytes h k : h `sublist_of` k -> len (enc_records h) <= len (enc_records k).
Proof.
  induction 1 as [|r h k Hs IH|r h k Hs IH]; [done|..]; rewrite ?enc_records_cons, ?len_app; [lia|].
  pose proof (len_nonneg (PcapRecord_bytes r)). lia.
Qed.

Lemma records_length h : len h <= len (enc_records h).
Proof.
  induction h as [|r h IH]; [done|]. rewrite enc_records_cons, len_app, len_cons. unfold PcapRecord_bytes. rewrite len_app.
  pose proof (len_nonneg (Data r)). unfold len in *. cbn. lia.
Qed.

(** ** The collector of a spool *)

Section Collector.
Context `{CborCodec PreambleHeader, CborCodec Stats, ZstdCodec} `{!ZstdLaws, !StatsLaws, !PreambleLaws}.
Context (c0 : Config) (gh : GlobalHeader).

Abbreviation c := (applyDefaults c0).
Abbreviation src := (SrcID c).

(** The collector over its mirror, as [cstep], on what the connections [conns] got. *)
Inductive relay_step (conns : list server) : mconf -> cevent -> mconf -> Prop :=
  | relay_mirror k e k' :
      e = MOpen \/ e = MCrash None -> mstep src gh k e k' -> relay_step conns k (CMirror e) k'
  | relay_run m s ackOut reg keylog ctx r faults clock rand o d' wd :
      from_connection conns r -> room m r -> Forall crash_only faults -> o <> Crashed ->
      Run ctx r (NewDemux src m ackOut reg keylog, World s faults clock rand) = (o, (d', wd)) ->
      relay_step conns (MConf (Some m) s) (CRun ctx r) (MConf (Some (d_mirror d')) (w_fs wd))
  | relay_run_crash m s ackOut reg keylog ctx r faults clock rand d' wd s' :
      from_connection conns r -> room m r -> Forall crash_only faults ->
      Run ctx r (NewDemux src m ackOut reg keylog, World s faults clock rand) = (Crashed, (d', wd)) ->
      crash_fs (w_fs wd) s' ->
      relay_step conns (MConf (Some m) s) (CRunCrash ctx r) (MConf None s').

(** The session files hold packets of the log: the current one exactly those from
    the session's start up to the commit point. *)
Definition mirrors_log (l : log) (m : Mirror) (s : fs) : Prop :=
  (exists gh0 n, content s (mirrorName src (SessionSeq (m_state m))) =
       Some (session_bytes gh0 (slice (Z.to_nat (SessionStartGpidx (m_state m))) n (l_packets l))) /\
     Committed m = SessionStartGpidx (m_state m) + Z.of_nat n) /\
  forall q b, 0 <= q < SessionSeq (m_state m) -> content s (mirrorName src q) = Some b ->
    exists gh0 start n, b = session_bytes gh0 (slice start n (l_packets l)).

(** The packets of the events fit one file of the collector, and their time stamps
    are below a second. *)
Definition relayable (es : list sevent) : Prop :=
  Forall stamped (written (logged es)) /\ 24 + len (enc_records (written (logged es))) < 2 ^ 63.

Lemma there_and_back snap h :
  Forall (wf_record snap) h -> Forall stamped h -> protoToPcap <$> (pcapToProto <$> h) = h.
Proof.
  intros Hw Hs. rewrite <-list_fmap_compose. rewrite <-(list_fmap_id h) at 2. apply list_fmap_ext. intros i r Hr.
  by eapply protoToPcap_pcapToProto; [eapply Forall_lookup_1|eapply Forall_lookup_1].
Qed.

Lemma slice_there_and_back snap h i n :
  Forall (wf_record snap) h -> Forall stamped h -> protoToPcap <$> slice i n (pcapToProto <$> h) = slice i n h.
Proof.
  intros Hw Hs. unfold slice. rewrite <-fmap_drop, <-fmap_take.
  apply (there_and_back snap); by apply Forall_take, Forall_drop.
Qed.

Lemma relay_cstep conns l k e k' :
  Forall (tells src (LinkType c) (Snaplen c) l) conns -> relay_step conns k e k' ->
  cstep src gh (fun _ => pcapToProto <$> l_packets l) k e k'.
Proof.
  intros Ht Hs. assert (forall r, from_connection conns r -> honest src (fun _ => pcapToProto <$> l_packets l) r) as Hh.
  { intros r (v & Hv & Hp & He). rewrite Forall_forall in Ht. by eapply connection_honest; [apply Ht|..]. }
  destruct Hs; econstructor; eauto.
Qed.

Lemma relay_csteps conns l k es k' :
  Forall (tells src (LinkType c) (Snaplen c) l) conns -> steps (relay_step conns) k es k' ->
  steps (cstep src gh (fun _ => pcapToProto <$> l_packets l)) k es k'.
Proof. intros Ht Hs. induction Hs as [|k1 e k2 es k3 Hst Hss IH]; [constructor|]. econstructor; [by eapply relay_cstep|done]. Qed.

Lemma srel_wf k l : srel c0 k l -> Forall (wf_record (Snaplen c)) (l_packets l).
Proof.
  intros Hr%srel_rel. destruct (s_writer k) as [w|]; cbn in Hr.
  - destruct Hr as (g & Hw & _ & <-). apply hist_wf with (c := c), Hw.
  - destruct Hr as (g & s0 & [Hg _] & _ & _ & <-). by apply hist_wf with (c := c).
Qed.

Lemma relayable_history es l :
  Forall (wf_record (Snaplen c)) (l_packets l) -> steps log_step (Log [] 0) (logged es) l -> relayable es ->
  Snaplen c <= 2 ^ 22 -> Snaplen c <= gh_Snaplen gh ->
  Forall stamped (l_packets l) /\ wf_history (gh_Snaplen gh) (pcapToProto <$> l_packets l).
Proof.
  intros Hw Hl [Hs Hb] Hsn Hgh. apply log_steps_written in Hl. cbn [l_packets app] in Hl.
  pose proof (sublist_bytes _ _ Hl) as Hle. pose proof (records_length (l_packets l)) as Hlen.
  assert (Forall stamped (l_packets l)) as Hst by (by eapply sublist_all).
  split; [done|]. split; [|split].
  - apply Forall_fmap. eapply Forall_impl; [exact Hw|]. intros r Hr. split; [by eapply wf_pcapToProto|].
    destruct Hr as (_ & _ & _ & Hd). cbn. lia.
  - unfold len in *. rewrite length_fmap. lia.
  - rewrite (there_and_back _ _ Hw Hst). lia.
Qed.

End Collector.

(** ** Example *)

Section Exec.
Context `{CborCodec PreambleHeader, CborCodec Stats, ZstdCodec}.

Definition from_b (conns : list server) (r : stream) : bool :=
  existsb (fun v => bool_decide (st_data r `prefix_of` sent (bw_conn (out (sv_s v))))) conns &&
  match ReadPreamble r with
  | (Ok pre, _) => bool_decide (Forall (fun s => si_Epoch s <> []) (Sources pre))
  | _ => true
  end.

Lemma from_b_spec conns r : from_b conns r = true -> from_connection conns r.
Proof.
  intros [(v & Hv%list_elem_of_In & Hp%bool_decide_eq_true)%existsb_exists He]%andb_true_iff.
  exists v. split; [done|]. split; [done|]. intros pre r1 Er. rewrite Er in He. by apply bool_decide_eq_true in He.
Qed.

Lemma relay_exec_runs c0 gh conns es k k' :
  exec_all (cexec_on (SrcID (applyDefaults c0)) gh (from_b conns)) k es = Some k' ->
  steps (relay_step c0 gh conns) k es k'.
Proof.
  intros He. apply (exec_steps (relay_step c0 gh conns) (fun _ => True) (cexec_on (SrcID (applyDefaults c0)) gh (from_b conns)));
    [|done..]. intros k1 e k2 _ E. split; [|done]. revert E. apply cexec_on_step.
  - intros k3 e0 k4 He0 Hs. by apply relay_mirror.
  - intros. eapply relay_run; [by apply from_b_spec|done|constructor|done|done].
Qed.
End Exec.

Definition relay_gh : GlobalHeader := mkGlobalHeader (2 ^ 18) 1.

Lemma two_preambles_laws : @PreambleLaws two_preambles.
Proof.
  split; [|by eexists]. intros h b. cbn. case_decide as H0; [intros [= <-]; by subst h|].
  case_decide as H1; [intros [= <-]; by subst h|done].
Qed.

(** What the two connections of the example got: the first one is read twice, cut off
    in the second frame and then to its end, with a crash of the host in between. *)
Definition example_stream_of (i : nat) (n : nat) : stream :=
  Stream (take n (default [] ((fun v => sent (bw_conn (out (sv_s v)))) <$> connections example_served_end !! i))) io_EOF.

Definition example_relayed : list cevent :=
  [CMirror MOpen; CRun [] (example_stream_of 1 150); CMirror (MCrash None); CMirror MOpen;
   CRun [] (example_stream_of 1 292); CRun [] (example_stream_of 0 72)].

Definition example_relay_exec := @cexec_on two_preambles no_stats plain_zstd 7 relay_gh
  (@from_b two_preambles (connections example_served_end)).
Definition example_relayed_end : mconf := exec_end example_relay_exec first_mconf example_relayed.

