(* ===== verification/Config.v ===== *)
(** * The configuration files (internal/config/config.go)

    The collector's view of the deployment: where the agent is and what its key
    is.  The YAML library is a parameter. *)

From S2P Require Import Prelude Bytes.

Record Vulnbox : Type := mkVulnbox { vb_IP : list byte; vb_NoisePort : Z; vb_NoisePubKey : list byte }.
Record Infra : Type := mkInfra { in_PcapDir : list byte }.

(** [yaml.Unmarshal] into a value: what it leaves in it, and the error. *)
Class YamlCodec (A : Type) : Type := { yaml_Unmarshal : list byte -> A -> A * option goerror }.

Definition DefaultConfigDir : list byte := str "/config".
Definition DefaultNoisePort : Z := 7878.

Definition Port (v : Vulnbox) : Z := if vb_NoisePort v =? 0 then DefaultNoisePort else vb_NoisePort v.

(** [env] is [AD_INFRA_CONFIG_DIR]. *)
Definition ConfigDir (env : list byte) : list byte := if bool_decide (env <> []) then env else DefaultConfigDir.

(** [content] is what reading the file returns. *)
Definition loadYAML {A} `{YamlCodec A} (content : res (list byte)) (out : A) : A * option goerror :=
  match content with
  | Err e => if decide (e = os_ErrNotExist) then (out, None) else (out, Some e)
  | Ok b => yaml_Unmarshal b out
  end.

(** The two files of the directory. *)
Record ConfigFiles : Type := mkConfigFiles { cf_vulnbox : res (list byte); cf_infra : res (list byte) }.

Definition Load `{YamlCodec Vulnbox, YamlCodec Infra} (files : ConfigFiles) : Vulnbox * Infra * option goerror :=
  let infra := mkInfra [] in
  match loadYAML (cf_vulnbox files) (mkVulnbox [] 0 []) with
  | (vb, Some e) => (vb, infra, Some e)
  | (vb, None) =>
      match loadYAML (cf_infra files) infra with
      | (infra, Some e) => (vb, infra, Some e)
      | (infra, None) =>
          (vb, if bool_decide (in_PcapDir infra = []) then mkInfra (str "/var/log/ad-pcaps") else infra, None)
      end
  end.

(** [stat] gives the modification time of a file of the directory, if it can. *)
Definition Mtimes (stat : list byte -> option Z) : gmap (list byte) Z :=
  foldl (fun m name => <[name := default 0 (stat name)]> m) ∅ [str "vulnbox.yml"; str "infra.yml"].

(** A name that is missing in [b] reads as 0. *)
Definition MtimesEqual (a b : gmap (list byte) Z) : bool :=
  (size a =? size b)%nat && forallb (fun kv => default 0 (b !! kv.1) =? kv.2) (map_to_list a).
