(* ===== verification/Session.v ===== *)
(** * Sessions (internal/agent/listen_cmd.go, internal/collector/collector.go)

    The two ends of a session: the agent's listener, which serves an
    authenticated collector from the gpidx it asks for, and the collector's
    supervisor, which dials the agent and asks for its commit point. *)

From S2P Require Import Prelude Bytes GoIO Pcapio Proto Os Durable Json Spool Reader Mirror Keylog Metrics Conn Streamer Serve Noise Keys FanOut Demux Config.

(** ** The secure connection as a reader *)

(** What reading it to its end delivers.  A [Read] behind an empty buffer takes two
    bytes off the wire at least. *)
Fixpoint plain_upto `{NoiseLib} (fuel : nat) (c : secure) : stream :=
  match fuel with
  | O => Stream [] io_EOF
  | S fuel =>
      match secure_Read (Z.to_nat maxNoiseMsg) c with
      | (Err e, _) => Stream [] e
      | (Ok b, c) => let r := plain_upto fuel c in Stream (b ++ st_data r) (st_end r)
      end
  end.

Definition plain `{NoiseLib} (c : secure) : stream :=
  plain_upto (S (length (c_buf c) + length (st_data (raw_in (c_raw c))))) c.

(** ** The listener of the agent *)

Record ListenOptions : Type := mkListenOptions {
  lo_SrcID : Z;
  lo_SrcName : list byte;
  lo_Compress : bool;
  lo_KeylogFile : keylogPath;
  lo_Key : Keypair;
  lo_AllowedPeers : list (list byte)
}.

Section Listen.
Context `{NoiseLib}.

(** [serveConn] up to [RunServe]: the options it is called with, what the peer
    sends behind its first frame, and the connection. *)
Definition accept_session (random : list byte) (opts : ListenOptions) (raw : rawconn) :
    option (ServeOptions * stream * secure) :=
  match (ServerHandshake random (lo_Key opts) (lo_AllowedPeers opts) raw).1 with
  | Err _ => None
  | Ok conn =>
      match ReadFrame (plain conn) with
      | (Err _, _) => None
      | (Ok f, rest) =>
          if negb (f_Type f =? FrameAck) then None
          else
            match DecodeAck (f_Payload f) with
            | Err _ => None
            | Ok ack =>
                Some (mkServeOptions (lo_SrcID opts) (lo_SrcName opts) (AckedGpidx ack) (lo_Compress opts)
                        (lo_KeylogFile opts) 0 0 0, rest, conn)
            end
      end
  end.

Context `{CborCodec PreambleHeader, CborCodec Stats, ZstdCodec}.

(** [serveConn]; [faults] are those of the writes of [RunServe], [kw] is the world
    of the keylog files. *)
Definition serveConn (fuel : nat) (random : list byte) (opts : ListenOptions) (raw : rawconn) (faults : list fault)
    (ctx : list bool) (kw : world) : M server unit :=
  match accept_session random opts raw with
  | None => mret ()
  | Some (so, _, _) => _ ← try (RunServe fuel so ctx (mkConn [] faults) kw); mret ()
  end.
End Listen.

(** The loop around [ln.Accept]: the connections that are served, and what it
    returned if it did.  Each result comes with a look at the context. *)
Fixpoint accept_loop {C} (accepts : list (res C * bool)) : list C * option (res unit) :=
  match accepts with
  | [] => ([], None)
  | (Err e, cancelled) :: _ => ([], Some (if cancelled : bool then Ok () else Err e))
  | (Ok c, _) :: accepts => let '(cs, r) := accept_loop accepts in (c :: cs, r)
  end.

Definition RunListen (opts : ListenOptions) (listened : res unit) (accepts : list (res rawconn * bool)) :
    list rawconn * option (res unit) :=
  match lo_AllowedPeers opts with
  | [] => ([], Some (Err listen_errNoPeers))
  | _ => match listened with Err e => ([], Some (Err e)) | Ok _ => accept_loop accepts end
  end.

(** [Server.Listen] of the fan-out. *)
Definition fan_out_Listen (listened : res unit) (accepts : list (res conn * bool)) : list conn * option (res unit) :=
  match listened with Err e => ([], Some (Err e)) | Ok _ => accept_loop accepts end.

(** ** The collector *)

Record Options : Type := mkOptions {
  op_SrcID : Z;
  op_SrcName : list byte;
  op_MetricsAddr : list byte;
  op_NoisePort : Z;
  op_SSLKeylogF : list byte;
  op_Snaplen : Z;
  op_Key : Keypair
}.

(** The variables of [Run]; the keylog file comes with its own world. *)
Record collector : Type := mkCollector {
  co_mirror : Mirror;
  co_m : option Registry;
  co_keylog : option (KeylogSink * world)
}.

Definition set_co_mirror (m : Mirror) (c : collector) : collector := mkCollector m (co_m c) (co_keylog c).
Definition set_co_m (m : option Registry) (c : collector) : collector := mkCollector (co_mirror c) m (co_keylog c).
Definition set_co_keylog (k : option (KeylogSink * world)) (c : collector) : collector :=
  mkCollector (co_mirror c) (co_m c) k.

Definition on_co_mirror {A} (m : M Mirror A) : M collector A := zoom co_mirror set_co_mirror m.

(** [flockDir]: the lock file could be opened, and nobody else has its lock. *)
Definition flockDir (opened : res unit) (free : bool) : res unit :=
  _ ← opened;
  if free then Ok () else Err fmt_err.

(** What one round of the supervisor meets: whether it finds the context
    cancelled, the configuration, the random reader, the raw connection if the
    agent could be dialled, the looks of the demux at its context, how the writes
    of its acknowledgements go, and whether the sleep at the end is cut short. *)
Record round : Type := mkRound {
  rd_cancelled : bool;
  rd_config : ConfigFiles;
  rd_random : list byte;
  rd_dial : list byte -> Z -> res rawconn;
  rd_ctx : list bool;
  rd_acks : list fault;
  rd_slept : bool
}.

Section Collector.
Context `{NoiseLib, CurveLib, YamlCodec Vulnbox, YamlCodec Infra}.
Context `{CborCodec PreambleHeader, CborCodec Stats, ZstdCodec}.

(** The first frame of a session. *)
Definition resume_frame (srcID resume : Z) : Frame := mkFrame FrameAck 0 srcID 0 0 (Ack_Encode (mkAck srcID resume 0)).

(** [runOnce] up to its demux: the connection with the resume point written to it.
    The second result is whether the agent was reached. *)
Definition open_session (opts : Options) (vb : Vulnbox) (agentPub : list byte) (resume : Z) (random : list byte)
    (dial : list byte -> Z -> res rawconn) : res secure * bool :=
  let port := if 0 <? op_NoisePort opts then op_NoisePort opts else Port vb in
  match Dial random (op_Key opts) agentPub (dial (vb_IP vb) port) with
  | Err e => (Err e, false)
  | Ok conn =>
      match secure_Write (Frame_AppendTo (resume_frame (op_SrcID opts) resume) []) conn with
      | ((_, Some e), _) => (Err e, true)
      | ((_, None), conn) => (Ok conn, true)
      end
  end.

Definition set_demux (d : Demux) (c : collector) : collector := mkCollector (d_mirror d) (d_m d) (d_keylog d).

Definition runOnce (opts : Options) (vb : Vulnbox) (agentPub : list byte) (resume : Z) (rd : round) : M collector unit :=
  let '(conn, reached) := open_session opts vb agentPub resume (rd_random rd) (rd_dial rd) in
  (if reached : bool then modify (fun c => set_co_m (onReconnect (co_m c)) c) else mret ()) ;;
  conn ← of_res conn;
  zoom (fun c => NewDemux (op_SrcID opts) (co_mirror c) (Some (mkConn [] (rd_acks rd))) (co_m c) (co_keylog c)) set_demux
    (Demux.Run (rd_ctx rd) (plain conn)).

(** A round of [Run]; [Some]: it returns. *)
Definition supervise_round (opts : Options) (rd : round) : M collector (option (res unit)) :=
  if rd_cancelled rd then mret (Some (Ok ()))
  else
    let '(vb, _, _) := Load (rd_config rd) in
    let again := mret (if rd_slept rd then Some (Ok ()) else None) in
    if bool_decide (vb_IP vb = [] \/ vb_NoisePubKey vb = []) then again
    else
      match ParsePublicKey (vb_NoisePubKey vb) with
      | Err _ => again
      | Ok agentPub =>
          c ← get;
          _ ← try (runOnce opts vb agentPub (Committed (co_mirror c)) rd);
          again
      end.

Fixpoint supervise (opts : Options) (rounds : list round) : M collector (option (res unit)) :=
  match rounds with
  | [] => mret None
  | rd :: rounds =>
      r ← supervise_round opts rd;
      match r with None => supervise opts rounds | Some r => mret (Some r) end
  end.

Definition default_Snaplen (opts : Options) : Z := if op_Snaplen opts =? 0 then 65536 else op_Snaplen opts.

(** The header of the mirror until the first preamble. *)
Definition first_header (opts : Options) : GlobalHeader := mkGlobalHeader (default_Snaplen opts) 1.

Definition open_metrics (opts : Options) : option Registry :=
  if bool_decide (op_MetricsAddr opts = []) then None
  else Some (NewMetrics (NewRegistry {[ str "src" := dec (op_SrcID opts) ]})).

(** [kw] is the world of the keylog file. *)
Definition open_keylog (opts : Options) (kw : world) : M collector unit :=
  if bool_decide (op_SSLKeylogF opts = []) then modify (set_co_keylog None)
  else fun s =>
    let '(o, k) := OpenKeylogSink (op_SSLKeylogF opts) (mkKeylogSink 0 ∅, kw) in (o, (set_co_keylog (Some k) s.1, s.2)).

(** The start of [Run]: everything in front of its loop. *)
Definition collector_start (opts : Options) (lock : res unit) (kw : world) : M collector unit :=
  MkdirAll ;;
  of_res lock ;;
  on_co_mirror (OpenMirror (op_SrcID opts) (first_header opts)) ;;
  modify (set_co_m (open_metrics opts)) ;;
  r ← try (open_keylog opts kw);
  match r with
  | Err e => _ ← try (on_co_mirror Mirror_Close); fail e
  | Ok _ => mret ()
  end.

Definition collector_Run (opts : Options) (lock : res unit) (kw : world) (rounds : list round) : M collector (option unit) :=
  collector_start opts lock kw ;;
  r ← supervise opts rounds;
  match r with
  | None => mret None
  | Some r => _ ← try (on_co_mirror Mirror_Close); of_res r ;; mret (Some ())
  end.

End Collector.

(** [watchConfigReload]: the round of the ticker in which it cancels the session,
    given the stats of the rounds. *)
Fixpoint watchConfigReload (initial : gmap (list byte) Z) (stats : list (list byte -> option Z)) (i : nat) : option nat :=
  match stats with
  | [] => None
  | stat :: stats => if MtimesEqual initial (Mtimes stat) then watchConfigReload initial stats (S i) else Some i
  end.
