(* ===== verification/SessionProps.v ===== *)
(** * What a session starts with

    The agent serves a collector from exactly the gpidx that the collector's
    mirror has committed; the collector process is a sequence of connections. *)

From S2P Require Import Prelude Bytes GoIO Pcapio Crc Proto Os Durable Json Spool Reader Mirror Keylog Metrics Conn Streamer Serve Noise NoiseProps Keys FanOut Demux Config Session.

(** ** Reading a secure connection to its end *)

Section Plain.
Context `{HL : HandshakeLaws}.

(** A message is longer than what it carries. *)
Lemma wire_long s l s' : encrypts s l s' -> (length (concat l.*1) <= length (wire l.*2))%nat.
Proof.
  revert s. induction l as [|[p ct] l IH]; intros s; [done|]. intros (s1 & He & Hl). specialize (IH _ Hl).
  pose proof (Encrypt_length _ _ _ _ He) as Hlen. unfold wire in *. cbn [fmap list_fmap concat fst snd].
  rewrite !length_app, length_framed. lia.
Qed.

Lemma plain_upto_pending fuel c l :
  pending c l ->
  st_data (plain_upto fuel c) `prefix_of` c_buf c ++ concat l.*1 /\
  (all_there c l -> (length (c_buf c ++ concat l.*1) < fuel)%nat ->
    plain_upto fuel c = Stream (c_buf c ++ concat l.*1) (stream_end c)).
Proof.
  revert c l. induction fuel as [|fuel IH]; intros c l Hp; cbn [plain_upto].
  { split; [apply prefix_nil|lia]. }
  pose proof (secure_Read_pending (Z.to_nat maxNoiseMsg) c l Hp) as Hr.
  destruct (secure_Read _ c) as [[b|e] c'].
  - destruct Hr as (l' & Hp' & Heq & Hend & Hall & Hne). destruct (IH c' l' Hp') as [IH1 IH2]. cbn [st_data].
    rewrite <-Heq. split; [by apply prefix_app|]. intros Ha Hl. rewrite IH2; [by rewrite <-Hend|by apply Hall|].
    assert (b <> []) as Hb by (apply Hne; unfold maxNoiseMsg; lia). rewrite length_app in Hl. destruct b; [done|].
    cbn [length] in Hl. lia.
  - split; [apply prefix_nil|]. intros Ha _. by destruct (Hr Ha) as (-> & -> & ->).
Qed.

(** The reader of a connection delivers what was written to the other end. *)
Lemma plain_written q a a' b w e o :
  linked (c_send a) (c_recv b) -> c_buf b = [] -> wrote q true a a' ->
  sent (raw_out (c_raw a')) = sent (raw_out (c_raw a)) ++ w -> c_raw b = mkRaw (Stream w e) o ->
  plain b = Stream q e.
Proof.
  intros Hl Hb (l & w' & s' & He & Hf & Hw & _ & _ & Hok) Hs Hr. rewrite Hs in Hw. apply app_inv_head in Hw as <-.
  destruct (Hok eq_refl) as (-> & <- & _).
  assert (pending b l) as Hp by (exists (c_send a), s'; rewrite Hr; by split_and!).
  unfold plain. destruct (plain_upto_pending (S (length (c_buf b) + length (st_data (raw_in (c_raw b))))) b l Hp) as [_ ->].
  - unfold stream_end. by rewrite Hb, Hr.
  - unfold all_there. by rewrite Hr.
  - rewrite Hb, Hr. cbn [app raw_in st_data length]. pose proof (wire_long _ _ _ He). lia.
Qed.

(** Writing leaves the reading side. *)
Lemma write_loop_keeps fuel p total c :
  let c' := (write_loop fuel p total c).2 in
  c_recv c' = c_recv c /\ c_buf c' = c_buf c /\ c_peer c' = c_peer c /\ raw_in (c_raw c') = raw_in (c_raw c).
Proof.
  revert p total c. induction fuel as [|fuel IH]; intros p total c; [by destruct p|]. destruct p as [|x p]; [done|].
  cbn [write_loop]. destruct (Encrypt _ _) as [[ct|e] s]; [|done].
  destruct (raw_Write _ _) as [ok r] eqn:E. unfold raw_Write in E. destruct (conn_Write _ _) as [ok' o]. injection E as <- <-.
  destruct ok'; [|done]. specialize (IH (drop (length (if maxPlaintext <? len (x :: p) then take (Z.to_nat maxPlaintext) (x :: p) else x :: p)) (x :: p))
    (total + len (if maxPlaintext <? len (x :: p) then take (Z.to_nat maxPlaintext) (x :: p) else x :: p))
    (set_send (mkRaw (raw_in (c_raw c)) o) s c)). exact IH.
Qed.

(** On a raw connection that does not fail, [Write] fails only where the cipher
    refuses to encrypt. *)
Lemma write_loop_fails fuel p total c n er c' :
  conn_faults (raw_out (c_raw c)) = [] -> write_loop fuel p total c = ((n, Some er), c') ->
  exists s q, (Encrypt s q).1 = Err er.
Proof.
  revert p total c. induction fuel as [|fuel IH]; intros p total c Hq; [by destruct p|]. destruct p as [|x p]; [done|].
  cbn [write_loop]. set (chunk := if _ <? _ then _ else _). destruct (Encrypt (c_send c) chunk) as [[ct|e] s] eqn:Ee.
  - rewrite raw_Write_quiet by done. by apply IH.
  - intros [= _ <- _]. exists (c_send c), chunk. by rewrite Ee.
Qed.

(** ** The first frame *)

Lemma DecodeAck_Encode s x q :
  is_uint 16 s -> is_uint 64 x -> is_uint 64 q -> DecodeAck (Ack_Encode (mkAck s x q)) = Ok (mkAck s x q).
Proof.
  intros H1 H2 H3. unfold DecodeAck. change (len (Ack_Encode (mkAck s x q)) <? 18) with false.
  unfold Ack_Encode. cbn [ack_SrcID AckedGpidx ack_LastSeq].
  be_field (@nil byte) (be_enc 8 x ++ be_enc 8 q); [|done].
  be_field (be_enc 2 s) (be_enc 8 q); [|done].
  rewrite (be_u64_at 10 (be_enc 2 s ++ be_enc 8 x) [] q); [done|done|by rewrite app_nil_r, <-app_assoc|done].
Qed.

Lemma resume_frame_wf src resume : is_uint 16 src -> wf_frame (resume_frame src resume).
Proof. intros Hs. unfold wf_frame, resume_frame. cbn. split_and!; try done; by vm_compute. Qed.

(** Dialling, the resume frame and the handshake together. *)
Lemma session_opens rd rd' opts lopts hi hr resume :
  genuine (op_Key opts) -> genuine (lo_Key lopts) -> enough rd -> enough rd' ->
  NewHandshakeState (mkHandshakeConfig rd true (op_Key opts) (Public (lo_Key lopts))) = Ok hi ->
  NewHandshakeState (mkHandshakeConfig rd' false (lo_Key lopts) []) = Ok hr ->
  len (Public (lo_Key lopts)) = KeyLen -> is_uint 16 (op_SrcID opts) -> is_uint 64 resume ->
  exists m2, forall vb dial k' e' e,
    (forall ip port, dial ip port = Ok (mkRaw (Stream (framed m2 ++ k') e') (mkConn [] []))) ->
    let opened := open_session opts vb (Public (lo_Key lopts)) resume rd dial in
    opened.2 = true /\
    match opened.1 with
    | Err er => exists s q, (Encrypt s q).1 = Err er
    | Ok cc =>
        let served := accept_session rd' lopts (mkRaw (Stream (sent (raw_out (c_raw cc))) e) (mkConn [] [])) in
        (Public (op_Key opts) ∉ lo_AllowedPeers lopts -> served = None) /\
        (Public (op_Key opts) ∈ lo_AllowedPeers lopts -> exists so conn,
          served = Some (so, Stream [] e, conn) /\
          so_Resume so = resume /\ so_SrcID so = lo_SrcID lopts /\ RemoteKey conn = Public (op_Key opts) /\
          linked (c_send conn) (c_recv cc))
    end.
Proof.
  intros Hgo Hgl Hrd Hrd' Hi Hr Hk Hsrc Hres.
  destruct (handshake_agreed rd rd' (op_Key opts) (lo_Key lopts) (lo_AllowedPeers lopts) hi hr Hgo Hgl Hrd Hrd' Hi Hr Hk) as (m1 & m2 & Hm).
  exists m2. intros vb dial k' e' e Hdial. cbn zeta. unfold open_session, Dial. rewrite Hdial. cbn [mbind res_bind].
  set (frame := Frame_AppendTo (resume_frame (op_SrcID opts) resume) []) in *.
  destruct (Hm (mkConn [] []) (mkConn [] []) [] io_EOF eq_refl eq_refl) as (_ & _ & Hc).
  destruct (Hc k' e') as (c0 & Hc0 & _ & Hraw & _ & _). clear Hc. rewrite Hc0.
  destruct (secure_Write frame c0) as [[n [er|]] c1] eqn:Ew; cbn [fst snd]; (split; [done|]).
  { eapply write_loop_fails, Ew. by rewrite Hraw. }
  pose proof (write_loop_wrote _ _ _ _ _ _ _ (le_n _) Ew) as [Hwrote _].
  pose proof Hwrote as (l & w & s' & _ & _ & Hsw & _).
  pose proof (write_loop_keeps (length frame) frame 0 c0) as (Hrecv & _). fold (secure_Write frame c0) in Hrecv.
  rewrite Ew in Hrecv. cbn [snd] in Hrecv.
  rewrite Hsw, Hraw. cbn [raw_out sent app]. unfold accept_session.
  destruct (Hm (mkConn [] []) (mkConn [] []) w e eq_refl eq_refl) as (_ & Hout & Hin). split.
  - intros Hn. by destruct (Hout Hn) as [-> _].
  - intros Ha. destruct (Hin k' e') as (cc & Hcc & _ & _ & _ & Hs). rewrite Hc0 in Hcc. injection Hcc as <-.
    destruct (Hs Ha) as (cs & -> & Hrk & Hcraw & Hcbuf & Hl1 & Hl2).
    rewrite (plain_written frame c0 c1 cs w e _ Hl1 Hcbuf Hwrote Hsw Hcraw).
    pose proof (ReadFrame_bytes (resume_frame (op_SrcID opts) resume) [] e (resume_frame_wf _ resume Hsrc)) as Hrf.
    rewrite app_nil_r in Hrf. change (Frame_bytes (resume_frame (op_SrcID opts) resume)) with frame in Hrf. rewrite Hrf.
    cbn [f_Type f_Payload resume_frame]. rewrite Z.eqb_refl. cbn [negb]. rewrite DecodeAck_Encode by first [exact Hsrc|exact Hres|unfold is_uint; lia].
    do 2 eexists. split; [reflexivity|]. cbn [so_Resume so_SrcID AckedGpidx]. rewrite Hrecv. by split_and!.
Qed.

(** C19: a session resumes at the commit point.  Both nodes hold genuine keypairs
    and can draw ephemeral keys.  A collector that dials its agent over a wire that
    does not fail reaches it and writes one frame, unless the cipher refuses; the agent that reads it serves exactly from the gpidx the
    collector asked for, under its own source, over a connection to the
    collector's key on which the collector can decrypt the agent.  A collector
    whose key is not allowlisted is not served. *)
Theorem session_resumes rd rd' opts lopts hi hr resume :
  genuine (op_Key opts) -> genuine (lo_Key lopts) -> enough rd -> enough rd' ->
  NewHandshakeState (mkHandshakeConfig rd true (op_Key opts) (Public (lo_Key lopts))) = Ok hi ->
  NewHandshakeState (mkHandshakeConfig rd' false (lo_Key lopts) []) = Ok hr ->
  len (Public (lo_Key lopts)) = KeyLen -> is_uint 16 (op_SrcID opts) -> is_uint 64 resume ->
  exists m2, forall vb dial k' e' e,
    (forall ip port, dial ip port = Ok (mkRaw (Stream (framed m2 ++ k') e') (mkConn [] []))) ->
    let opened := open_session opts vb (Public (lo_Key lopts)) resume rd dial in
    opened.2 = true /\
    match opened.1 with
    | Err er => exists s q, (Encrypt s q).1 = Err er
    | Ok cc =>
        let served := accept_session rd' lopts (mkRaw (Stream (sent (raw_out (c_raw cc))) e) (mkConn [] [])) in
        (Public (op_Key opts) ∉ lo_AllowedPeers lopts -> served = None) /\
        (Public (op_Key opts) ∈ lo_AllowedPeers lopts -> exists so conn,
          served = Some (so, Stream [] e, conn) /\
          so_Resume so = resume /\ so_SrcID so = lo_SrcID lopts /\ RemoteKey conn = Public (op_Key opts) /\
          linked (c_send conn) (c_recv cc))
    end.
Proof. exact (session_opens rd rd' opts lopts hi hr resume). Qed.
End Plain.

(** ** A session *)

Definition example_options : Options := mkOptions 7 [] [] 0 [] 0 (ideal_keys x01).
Definition example_listener : ListenOptions := mkListenOptions 7 (str "game") true NoKeylog (ideal_keys x02) [replicate 32 x01].

(** The ideal cipher, for a session that resumes at 42. *)
#[local] Instance session_noise : NoiseLib :=
  ideal_noise_of [Frame_AppendTo (resume_frame 7 42) []].
#[local] Instance session_laws : NoiseLaws := ideal_laws_of _.
#[local] Existing Instance reverse_curve.

Lemma session_resumes_witness :
  exists m2, forall vb dial k' e' e,
    (forall ip port, dial ip port = Ok (mkRaw (Stream (framed m2 ++ k') e') (mkConn [] []))) ->
    let opened := open_session example_options vb (replicate 32 x02) 42 ideal_random dial in
    opened.2 = true /\
    match opened.1 with
    | Err er => exists s q, (Encrypt s q).1 = Err er
    | Ok cc =>
        let served := accept_session ideal_random example_listener (mkRaw (Stream (sent (raw_out (c_raw cc))) e) (mkConn [] [])) in
        (replicate 32 x01 ∉ [replicate 32 x01] -> served = None) /\
        (replicate 32 x01 ∈ [replicate 32 x01] -> exists so conn,
          served = Some (so, Stream [] e, conn) /\ so_Resume so = 42 /\ so_SrcID so = 7 /\
          RemoteKey conn = replicate 32 x01 /\ linked (c_send conn) (c_recv cc))
    end.
Proof.
  apply (@session_resumes session_noise session_laws reverse_curve (ideal_handshake_of _) ideal_random ideal_random
    example_options example_listener (mkHandshakeConfig ideal_random true (ideal_keys x01) (replicate 32 x02), replicate 32 x02)
    (mkHandshakeConfig ideal_random false (ideal_keys x02) [], []) 42); vm_compute; first [reflexivity|discriminate|by split].
Defined.

(** The same session, executed. *)
Example session_at_42 :
  match (open_session example_options (mkVulnbox (str "10.60.1.1") 0 []) (replicate 32 x02) 42 ideal_random
    (fun ip port => Ok (mkRaw (Stream (framed (replicate 48 x00)) io_EOF) (mkConn [] [])))).1 with
  | Ok cc =>
      match accept_session ideal_random example_listener (mkRaw (Stream (sent (raw_out (c_raw cc))) io_EOF) (mkConn [] [])) with
      | Some (so, _, _) => so_Resume so = 42
      | None => False
      end
  | Err _ => False
  end.
Proof. by vm_compute. Qed.
