(* ===== verification/CollectorProps.v ===== *)
(** * The collector process keeps its mirror truthful

    A life of the collector process, over any configuration it reads, connections
    it makes and crashes of its host, is a sequence of connections of one mirror. *)

From S2P Require Import Prelude Bytes GoIO Pcapio Proto Os Durable Dir Runs Json Spool Reader Mirror MirrorSpec MirrorProof MirrorProps Keylog Metrics Conn Streamer Serve Noise NoiseProps Keys FanOut Demux DemuxProof DemuxProps Config Session SessionProps.

(** A run is what its postcondition says, and it is a run. *)
Lemma wp_trace {F X A} (m : M X A) Φ x s :
  wp F m Φ x s ->
  wp F m (fun o x' s' => Φ o x' s' /\ exists fl ck rn w', Forall F fl /\ m (x, World s fl ck rn) = (o, (x', w')) /\ w_fs w' = s') x s.
Proof.
  intros Hm fl ck rn HF. specialize (Hm fl ck rn HF). destruct (m (x, World s fl ck rn)) as [o [x' w']] eqn:E.
  destruct Hm as [Hp Hf]. split; [|done]. split; [done|]. by exists fl, ck, rn, w'.
Qed.

(** ** What a round reads *)

Section PlainSame.
Context `{NoiseLib}.

(** Reading looks at the reading side only. *)
Definition same_reader (c c' : secure) : Prop :=
  c_recv c = c_recv c' /\ c_buf c = c_buf c' /\ raw_in (c_raw c) = raw_in (c_raw c').

Lemma secure_Read_same n c c' :
  same_reader c c' ->
  (secure_Read n c).1 = (secure_Read n c').1 /\ same_reader (secure_Read n c).2 (secure_Read n c').2.
Proof.
  intros (H1 & H2 & H3). unfold secure_Read, raw_ReadFull. rewrite <-H1, <-H2, <-H3.
  destruct (c_buf c) as [|y buf] eqn:Eb.
  2: { cbn [c_buf c_recv c_raw set_recv]. rewrite Eb, <-H2. split; [done|]. by split_and!; cbn. }
  destruct (ReadFull (raw_in (c_raw c)) 2) as [[hdr|e] i]; cbn [raw_in raw_out]; [|done].
  destruct (ReadFull i _) as [[ct|e] i']; [|done]. destruct (Decrypt (c_recv c) ct) as [[pt|e] s]; done.
Qed.

Lemma plain_same c c' : same_reader c c' -> plain c = plain c'.
Proof.
  intros Hs. unfold plain. pose proof Hs as (_ & H2 & H3). rewrite H2, H3. generalize (S (length (c_buf c') + length (st_data (raw_in (c_raw c'))))).
  intros fuel. clear H2 H3. revert c c' Hs. induction fuel as [|fuel IH]; intros c c' Hs; [done|]. cbn [plain_upto].
  destruct (secure_Read_same (Z.to_nat maxNoiseMsg) c c' Hs) as [Hr Hs'].
  destruct (secure_Read _ c) as [[b|e] c1], (secure_Read _ c') as [[b'|e'] c1']; cbn in Hr, Hs'; simplify_eq; [|done].
  by rewrite (IH c1 c1' Hs').
Qed.
End PlainSame.

(** A stage begins at most one session for every source and frame. *)
Section Seq.
Context `{CborCodec Stats, ZstdCodec} (src : Z).

Lemma a_source_seq acks a s : a_seq a <= a_seq (a_source src acks a s) <= a_seq a + 1.
Proof.
  unfold a_source. destruct (_ =? _); [|lia]. destruct (si_Epoch s); [lia|]. destruct (a_epoch a); [unfold a_adopt, a_seq; cbn; lia|].
  case_decide; [lia|]. rewrite a_seq_next. lia.
Qed.

Lemma a_handshake_seq acks ss a : a_seq a <= a_seq (a_handshake src acks ss a) <= a_seq a + len ss.
Proof.
  revert a. induction ss as [|s ss IH]; intros a; [change (a_handshake src acks [] a) with a; rewrite len_nil; lia|].
  change (a_handshake src acks (s :: ss) a) with (a_handshake src acks ss (a_source src acks a s)).
  pose proof (a_source_seq acks a s). specialize (IH (a_source src acks a s)). rewrite len_cons. lia.
Qed.

Lemma a_frame_seq f a a' : a_frame src f a = Ok a' -> a_seq a' <= a_seq a + 1.
Proof.
  unfold a_frame. destruct (ignored src f); [intros [= <-]; lia|]. destruct (_ =? _).
  - destruct (batch f) as [recs|e]; [|done]. cbn [mbind res_bind]. unfold a_commit.
    destruct (keep_loop _ _ _ _ _) as [keep|e]; [|done]. cbn [mbind res_bind]. intros [= <-].
    destruct keep; [lia|]. unfold a_append, a_seq. cbn. lia.
  - destruct (_ =? _).
    + unfold a_gap. destruct (DecodeGap _) as [g|e]; [|done]. cbn [mbind res_bind]. intros [= <-].
      destruct (_ <=? _); [lia|]. unfold a_roll, a_seq. cbn [a_old]. rewrite len_app, len_cons, len_nil. lia.
    + destruct (_ || _); [|done]. intros [= <-]. lia.
Qed.

Lemma a_frames_seq fs a : a_seq (a_frames src fs a) <= a_seq a + len fs.
Proof.
  revert a. induction fs as [|f fs IH]; intros a; cbn [a_frames]; [rewrite len_nil; lia|]. rewrite len_cons. pose proof (len_nonneg fs).
  destruct (a_frame src f a) as [a'|e] eqn:E; [|lia]. pose proof (a_frame_seq _ _ _ E). specialize (IH a'). lia.
Qed.

Lemma stage_seq acks ss fs a n : a_seq (stage src acks ss fs a n) <= a_seq a + (len ss + len fs).
Proof.
  unfold stage. pose proof (a_frames_seq (take (n - length ss) fs) (a_handshake src acks (take n ss) a)) as Hf.
  pose proof (a_handshake_seq acks (take n ss) a) as [_ Hh]. unfold len in *. rewrite !length_take in *. lia.
Qed.
End Seq.

(** ** A life of the process *)

Section Life.
Context `{NoiseLib, CurveLib, YamlCodec Vulnbox, YamlCodec Infra}.
Context `{CborCodec PreambleHeader, CborCodec Stats, ZstdCodec}.
Context (opts : Options) (agent : list byte -> history).
Abbreviation src := (op_SrcID opts).
Abbreviation gh := (first_header opts).
Abbreviation snap := (gh_Snaplen gh).
Abbreviation cstep := (cstep src gh agent).
Context (Hsnap : is_uint 32 snap) (Hwf : forall e, wf_history snap (agent e)).

(** The stream of the connection that a round makes, if it makes one. *)
Definition round_stream (rd : round) : option stream :=
  let '(vb, _, _) := Load (rd_config rd) in
  if bool_decide (vb_IP vb = [] \/ vb_NoisePubKey vb = []) then None
  else
    match ParsePublicKey (vb_NoisePubKey vb) with
    | Err _ => None
    | Ok pub =>
        let port := if 0 <? op_NoisePort opts then op_NoisePort opts else Port vb in
        match Dial (rd_random rd) (op_Key opts) pub (rd_dial rd (vb_IP vb) port) with
        | Ok conn => Some (plain conn)
        | Err _ => None
        end
    end.

(** It tells the truth about the agent's history. *)
Definition truthful (rd : round) : Prop := match round_stream rd with Some r => honest src agent r | None => True end.

(** How many sessions it can begin. *)
Definition weight (r : stream) : Z :=
  match ReadPreamble r with (Ok pre, r1) => len (Sources pre) + len (frames_of r1) | (Err _, _) => 0 end.
Definition budget (rds : list round) : Z :=
  foldr (fun rd n => match round_stream rd with Some r => weight r | None => 0 end + n) 0 rds.

(** The directory was left behind by lives of the process. *)
Definition reachable (s : fs) : Prop := exists es, steps cstep first_mconf es (MConf None s).

(** The process lives, with [b] sessions to go; its host can die now. *)
Definition alive (b : Z) (c : collector) (s : fs) : Prop :=
  exists es a, steps cstep first_mconf es (MConf (Some (co_mirror c)) s) /\
    crel src gh agent (MConf (Some (co_mirror c)) s) a /\ a_seq a + b < 2 ^ 64.
Definition dead (s : fs) : Prop := forall s', crash_fs s s' -> reachable s'.

(** What a step of the process leads to. *)
Definition lives {A} (b : Z) (o : outcome A) (c : collector) (s : fs) : Prop :=
  match o with Crashed => dead s | _ => alive b c s end.

Lemma weight_nonneg r : 0 <= weight r.
Proof. unfold weight. destruct (ReadPreamble r) as [[pre|e] r1]; [|done]. unfold len. lia. Qed.

Lemma budget_nonneg rds : 0 <= budget rds.
Proof. induction rds as [|rd rds IH]; cbn; [done|]. destruct (round_stream rd) as [r|]; [pose proof (weight_nonneg r)|]; unfold budget in *; lia. Qed.

(** The demux of one connection. *)
Lemma wp_demux ctx r acks b c s :
  alive (weight r + b) c s -> honest src agent r -> 0 <= b ->
  wp crash_only (zoom (fun c => NewDemux src (co_mirror c) (Some (mkConn [] acks)) (co_m c) (co_keylog c)) set_demux (Demux.Run ctx r))
    (lives b) c s.
Proof.
  intros (es & a & Hs & Hr & Hb) Hh Hnn. apply wp_zoom.
  assert (room (co_mirror c) r) as Hroom.
  { destruct Hr as [[Hm _] _]. unfold room. rewrite (mi_state _ _ _ _ _ Hm). cbn [SessionSeq state_of]. unfold weight in Hb.
    destruct (ReadPreamble r) as [[pre|e] r1]; [lia|done]. }
  destruct (ReadPreamble r) as [[pre|e] r1] eqn:Er.
  2: { unfold Run. rewrite Er. apply wp_fail. exists es, a. split_and!; [done..|]. pose proof (weight_nonneg r). lia. }
  destruct (crel_stages src gh agent Hwf _ _ _ _ _ _ Hr Hh Hroom Er) as [Hst Hn].
  pose proof (dinv_start src gh crash_only (co_keylog c = None) a (co_mirror c) s (Some (mkConn [] acks)) (co_m c) (co_keylog c)
    eq_refl (proj1 Hr) id) as Hd.
  eapply wp_mono; [apply wp_trace, (wp_Run src snap Hsnap crash_only crash_only_no_fail _ ctx r pre r1 a _ s Hd Er Hst)|].
  intros o d s' (Hp & fl & ck & rn & w' & Hfl & Hrun & <-).
  assert (o <> Crashed -> alive b (set_demux d c) (w_fs w')) as Ho.
  { intros Hne. assert (exists n, dinv src snap (co_keylog c = None) (stage src (ResumeAck pre) (Sources pre) (frames_of r1) a n) d (w_fs w'))
      as [n Hd'] by (destruct o; [| |done]; destruct Hp as (n & Hd' & _); by exists n).
    exists (es ++ [CRun ctx r]), (stage src (ResumeAck pre) (Sources pre) (frames_of r1) a n). split_and!.
    - eapply steps_app; [done|]. econstructor; [|constructor]. by eapply cs_run.
    - split; [|apply Hn]. split; [apply (di_mirror _ _ _ _ _ _ Hd')|apply (di_published _ _ _ _ _ _ Hd')].
    - pose proof (stage_seq src (ResumeAck pre) (Sources pre) (frames_of r1) a n). unfold weight in Hb. rewrite Er in Hb. lia. }
  destruct o as [u|e|]; cbn [lives]; [by apply Ho..|]. intros s1 Hcr. exists (es ++ [CRunCrash ctx r]).
  eapply steps_app; [done|]. econstructor; [|constructor]. by eapply cs_run_crash.
Qed.

(** A round of the supervisor. *)
Lemma wp_supervise_round rd b c s :
  alive (match round_stream rd with Some r => weight r | None => 0 end + b) c s -> truthful rd -> 0 <= b ->
  wp crash_only (supervise_round opts rd)
    (fun o c' s' => match o with
       | Ret r => (r = None \/ r = Some (Ok ())) /\ alive b c' s'
       | Fail _ => False
       | Crashed => dead s'
       end) c s.
Proof.
  intros Hl Ht Hb. assert (alive b c s) as Hl0.
  { destruct Hl as (es & a & Hx1 & Hx2 & Hx3). exists es, a. split_and!; [done..|].
    destruct (round_stream rd) as [r|]; [pose proof (weight_nonneg r)|]; lia. }
  assert (forall c s, alive b c s -> wp crash_only (mret (if rd_slept rd then Some (Ok ()) else None) : M collector (option (res unit)))
    (fun o c' s' => match o with
       | Ret r => (r = None \/ r = Some (Ok ())) /\ alive b c' s'
       | Fail _ => False
       | Crashed => dead s'
       end) c s) as Hagain.
  { intros c' s' Hl'. apply wp_ret. split; [|done]. destruct (rd_slept rd); [by right|by left]. }
  unfold supervise_round. destruct (rd_cancelled rd); [apply wp_ret; split; [by right|done]|].
  unfold truthful, round_stream in *. destruct (Load (rd_config rd)) as [[vb inf] cerr].
  case_bool_decide; [by apply Hagain|]. destruct (ParsePublicKey _) as [pub|e]; [|by apply Hagain].
  apply wp_bind, wp_get. cbn [bind_post]. apply wp_bind, wp_try.
  eapply (wp_mono _ (lives b)).
  2: { intros [u|e|] c' s' Hp; cbn [bind_post]; [by apply Hagain..|exact Hp]. }
  unfold runOnce, open_session. 
  destruct (Dial _ _ _ _) as [conn|e] eqn:Ed.
  2: { cbn [of_res]. apply wp_bind, wp_ret. cbn [bind_post]. apply wp_bind, wp_fail. exact Hl0. }
  destruct (secure_Write _ conn) as [[n [e|]] conn'] eqn:Ew.
  - apply wp_bind, wp_modify. cbn [bind_post of_res]. apply wp_bind, wp_fail. exact Hl0.
  - apply wp_bind, wp_modify. cbn [bind_post of_res]. apply wp_bind, wp_ret. cbn [bind_post].
    assert (plain conn' = plain conn) as ->; [|by apply wp_demux].
    apply plain_same. match type of Ew with secure_Write ?p _ = _ => pose proof (write_loop_keeps (length p) p 0 conn) as Hk end.
    unfold secure_Write in Ew. rewrite Ew in Hk. destruct Hk as (K1 & K2 & _ & K4). by split_and!.
Qed.

Lemma wp_supervise rds c s :
  alive (budget rds) c s -> Forall truthful rds ->
  wp crash_only (supervise opts rds)
    (fun o c' s' => match o with
       | Ret r => (r = None \/ r = Some (Ok ())) /\ alive 0 c' s'
       | Fail _ => False
       | Crashed => dead s'
       end) c s.
Proof.
  revert c s. induction rds as [|rd rds IH]; intros c s Hl Ht; cbn [supervise].
  { apply wp_ret. split; [by left|done]. }
  apply Forall_cons in Ht as [Ht Hts]. apply wp_bind.
  eapply wp_mono; [apply (wp_supervise_round rd (budget rds)); [exact Hl|done|apply budget_nonneg]|].
  intros [r|e|] c' s' Hp; cbn [bind_post]; [|done..]. destruct Hp as [Hr Hl'].
  destruct Hr as [->| ->]; [by apply IH|]. apply wp_ret. split; [by right|].
  destruct Hl' as (es & a & Hx1 & Hx2 & Hx3). exists es, a. split_and!; [done..|]. pose proof (budget_nonneg rds). lia.
Qed.

Lemma alive_dead b c s : alive b c s -> dead s.
Proof.
  intros (es & a & Hs & _) s1 Hcr. exists (es ++ [CMirror (MCrash None)]).
  eapply steps_app; [done|]. econstructor; [|constructor]. constructor; [by right|by constructor].
Qed.

(** The host can die in front of the process, too. *)
Lemma reachable_dead s : reachable s -> dead s.
Proof.
  intros (es & Hs) s1 Hcr. exists (es ++ [CMirror (MCrash None)]). eapply steps_app; [done|]. econstructor; [|constructor].
  constructor; [by right|]. eapply (ms_open_crash src gh s (zero_Mirror 0 gh) [FCrash] [] []); [|reflexivity|done].
  constructor; [by right|constructor].
Qed.

Lemma reachable_crel s : reachable s -> exists a, crel src gh agent (MConf None s) a.
Proof.
  intros (es & Hs).
  assert (forall k1 k2, steps cstep k1 es k2 -> forall a, crel src gh agent k1 a -> exists a', crel src gh agent k2 a') as Hsim.
  { clear Hs. intros k1 k2 Hs. induction Hs as [|k1 e k3 es k2 Hst Hss IH]; intros a Ha; [by exists a|].
    destruct (cstep_sim src gh agent Hsnap Hwf _ _ _ _ Hst Ha) as [a1 Ha1]. by apply (IH a1). }
  apply (Hsim _ _ Hs a_zero). split; [apply mrel_empty|]. by split.
Qed.

Lemma closed_dead fd s : dead s -> dead (set_fds (delete fd) s).
Proof. intros Hd s1 Hcr. by apply Hd. Qed.

(** Closing the mirror changes no file. *)
Lemma wp_collector_Close b c s (Φ : outcome (res unit) -> collector -> fs -> Prop) :
  alive b c s -> (forall s', dead s' -> Φ Crashed c s') ->
  (forall r c' s', dead s' -> mirrors src agent (co_mirror c') s' -> Φ (Ret r) c' s') ->
  wp crash_only (try (on_co_mirror Mirror_Close)) Φ c s.
Proof.
  intros Hl Hc Hr. pose proof (alive_dead _ _ _ Hl) as Hd.
  assert (mirrors src agent (co_mirror c) s) as Hm by (destruct Hl as (es & a & _ & Hcr & _); by eapply crel_mirrors).
  apply wp_try, wp_zoom. unfold Mirror_Close. apply wp_bind, wp_get. cbn [bind_post].
  destruct (m_file (co_mirror c)) as [f|] eqn:Ef; [|apply wp_ret; by apply Hr].
  apply wp_bind, wp_try. apply wp_sys.
  - intros _. cbn [bind_post]. destruct c. by apply Hc.
  - intros [Hf|[n Hf]]; by destruct Hf.
  - cbn [bind_post]. apply wp_bind, wp_modify. cbn [bind_post of_res]. apply wp_ret. apply Hr; [by apply closed_dead|exact Hm].
Qed.

Lemma wp_open_keylog kw c s :
  wp crash_only (open_keylog opts kw) (fun _ c' s' => s' = s /\ co_mirror c' = co_mirror c) c s.
Proof.
  unfold open_keylog. case_bool_decide; [by apply wp_modify|]. intros fl ck rn HF. cbn.
  by destruct (OpenKeylogSink _ _) as [o k].
Qed.

(** The start of [Run] leads into a life; [b] is what the session counter leaves. *)
Lemma wp_collector_start lock kw c s :
  reachable s ->
  wp crash_only (collector_start opts lock kw)
    (fun o c' s' => match o with
       | Ret _ => exists es a, steps cstep first_mconf es (MConf (Some (co_mirror c')) s') /\
           crel src gh agent (MConf (Some (co_mirror c')) s') a
       | _ => dead s'
       end) c s.
Proof.
  intros Hr. pose proof (reachable_dead _ Hr) as Hd. destruct (reachable_crel _ Hr) as (a & [[fr Hdk] Ht]). destruct Hr as [es Hes].
  unfold collector_start. apply wp_bind, wp_sys; [done|intros [Hf|[n Hf]]; by destruct Hf|]. cbn [bind_post].
  apply wp_bind. destruct lock as [[]|e]; [apply wp_ret|by apply wp_fail]. cbn [bind_post].
  apply wp_bind, wp_zoom. eapply wp_mono; [apply wp_trace, (wp_OpenMirror src snap crash_only crash_only_no_fail a fr gh _ _ Hdk Hsnap eq_refl)|].
  intros [[]|e|] m s1 (Hp & fl & ck & rn & w & Hfl & Hrun & <-); cbn [bind_post]; [|done|].
  2: { intros s2 Hcr. exists (es ++ [CMirror (MCrash None)]). eapply steps_app; [done|]. econstructor; [|constructor].
       constructor; [by right|]. by eapply ms_open_crash. }
  set (c1 := set_co_mirror m c).
  assert (steps cstep first_mconf (es ++ [CMirror MOpen]) (MConf (Some m) (w_fs w))) as Hs.
  { eapply steps_app; [done|]. econstructor; [|constructor]. constructor; [by left|]. by eapply ms_open. }
  assert (crel src gh agent (MConf (Some m) (w_fs w)) a) as Hcr by (split; [exact Hp|done]).
  apply wp_bind, wp_modify. cbn [bind_post]. apply wp_bind, wp_try.
  assert (forall c2, co_mirror c2 = m -> dead (w_fs w)) as Hdead.
  { intros c2 _ s2 Hc. exists ((es ++ [CMirror MOpen]) ++ [CMirror (MCrash None)]). eapply steps_app; [done|].
    econstructor; [|constructor]. constructor; [by right|by constructor]. }
  eapply wp_mono; [apply wp_open_keylog|]. intros o c2 s2 [-> Hc2]. change (co_mirror c2 = m) in Hc2.
  destruct o as [[]|e|]; cbn [bind_post]; [| |by eapply Hdead].
  - apply wp_ret. rewrite Hc2. by exists (es ++ [CMirror MOpen]), a.
  - apply wp_bind. eapply (wp_collector_Close (2 ^ 64 - a_seq a - 1)).
    + exists (es ++ [CMirror MOpen]), a. rewrite Hc2. split_and!; [done..|lia].
    + intros s3 Hd3. exact Hd3.
    + intros r c3 s3 Hd3 _. cbn [bind_post]. by apply wp_fail.
Qed.

(** C12: a life of the collector process, over a directory that earlier lives and
    host crashes left behind: whatever configurations it reads, whichever agents
    it reaches, wherever its host dies, as long as the connections tell the truth
    about the agent's history ([truthful]: they name an epoch that is not blank and
    send the packets of its history, which fit the collector's snap length), the
    mirror it keeps holds that history: the current
    session file is exactly the history from the session's start to the commit
    point.  After a crash of the host, at any system call or later, the directory
    is one the next life can start from. *)
Theorem collector_keeps_mirror lock kw rounds c0 s faults clock rand o c' w' :
  reachable s -> Forall truthful rounds ->
  (forall c1 w1, collector_start opts lock kw (c0, World s faults clock rand) = (Ret (), (c1, w1)) ->
     SessionSeq (m_state (co_mirror c1)) + budget rounds < 2 ^ 64) ->
  Forall crash_only faults ->
  collector_Run opts lock kw rounds (c0, World s faults clock rand) = (o, (c', w')) ->
  (forall s', crash_fs (w_fs w') s' -> reachable s') /\
  match o with Ret _ => mirrors src agent (co_mirror c') (w_fs w') | _ => True end.
Proof.
  intros Hr Ht Hb HF Hrun.
  pose proof (wp_collector_start lock kw c0 s Hr faults clock rand HF) as Hst. unfold collector_Run in Hrun.
  unfold mbind at 1, M_bind at 1 in Hrun.
  destruct (collector_start opts lock kw (c0, World s faults clock rand)) as [[[]|e|] [c1 [s1 fl ck rn]]];
    destruct Hst as [Hst HF1]; [|by simplify_eq..].
  destruct Hst as (es & a & Hs & Hcr). specialize (Hb _ _ eq_refl).
  assert (alive (budget rounds) c1 s1) as Hl.
  { exists es, a. split_and!; [done..|]. destruct Hcr as [[Hm _] _]. by rewrite (mi_state _ _ _ _ _ Hm) in Hb. }
  assert (wp crash_only (r ← supervise opts rounds;
    match r with None => mret None | Some r => _ ← try (on_co_mirror Mirror_Close); of_res r ;; mret (Some ()) end)
    (fun o c' s' => dead s' /\ match o with Ret _ => mirrors src agent (co_mirror c') s' | _ => True end) c1 s1) as Hw.
  { apply wp_bind. eapply wp_mono; [by apply wp_supervise|]. intros [r|e|] c2 s2 Hp; cbn [bind_post]; [|done|done].
    destruct Hp as [Hp Hl2]. assert (mirrors src agent (co_mirror c2) s2) as Hm2
      by (destruct Hl2 as (es2 & a2 & _ & Hcr2 & _); by eapply crel_mirrors).
    destruct Hp as [->| ->]; [apply wp_ret; split; [by eapply alive_dead|done]|].
    apply wp_bind. eapply (wp_collector_Close 0); [done|intros s3 Hd3; done|]. intros r3 c3 s3 Hd3 Hm3. cbn [bind_post of_res].
    apply wp_bind, wp_ret. cbn [bind_post]. apply wp_ret. done. }
  specialize (Hw fl ck rn HF1). rewrite Hrun in Hw. destruct Hw as [Hw _]. exact Hw.
Qed.
End Life.

(** ** An execution *)

(** A wire without a cipher, and configurations of one value. *)
#[local] Instance clear_noise : NoiseLib := {
  CipherState := unit;
  Encrypt s p := (Ok p, s);
  Decrypt s ct := (Ok ct, s);
  HandshakeState := HandshakeConfig;
  NewHandshakeState c := Ok c;
  WriteMessage h := (Ok (Public (h_StaticKeypair h), (), ()), h);
  ReadMessage h _ := (Ok ((), ()), h);
  PeerStatic h := h_PeerStatic h
}.
#[local] Instance life_vulnbox : YamlCodec Vulnbox :=
  {| yaml_Unmarshal b v := if decide (b = []) then (v, None) else (mkVulnbox (str "10.60.3.1") 0 b, None) |}.
#[local] Instance life_infra : YamlCodec Infra := {| yaml_Unmarshal _ v := (v, None) |}.
#[local] Existing Instances example_codec example_stats example_zstd.

Definition life_options : Options := mkOptions 3 (str "eth0") [] 0 [] 0 (ideal_keys x01).
Definition life_agent (r : stream) : res rawconn :=
  Ok (mkRaw (Stream (framed (replicate 48 x00) ++ framed (st_data r)) (st_end r)) (mkConn [] [])).

(** A round that reads the key in the configuration and reaches the agent. *)
Definition life_round (r : stream) : round :=
  mkRound false (mkConfigFiles (Ok (PublicB64 (ideal_keys x02))) (Err os_ErrNotExist)) [] (fun _ _ => life_agent r) [] [] false.

(** There is no configuration yet; the agent cannot be reached; two connections;
    the process is stopped while it sleeps. *)
Definition life_rounds : list round :=
  [mkRound false (mkConfigFiles (Ok []) (Ok [])) [] (fun _ _ => Err os_err) [] [] false;
   mkRound false (mkConfigFiles (Ok (PublicB64 (ideal_keys x02))) (Ok [])) [] (fun _ _ => Err os_err) [] [] false;
   life_round example_stream1; life_round example_stream2;
   mkRound true (mkConfigFiles (Ok []) (Ok [])) [] (fun _ _ => Err os_err) [] [] false].

Definition life_world : world := World empty_fs [] [] [].
Definition life_before : collector := mkCollector (zero_Mirror 0 (mkGlobalHeader 0 0)) None None.
Definition life_started : outcome unit * (collector * world) :=
  collector_start life_options (Ok ()) life_world (life_before, life_world).
Definition life_run : outcome (option unit) * (collector * world) :=
  collector_Run life_options (Ok ()) life_world life_rounds (life_before, life_world).

(** It took the first two packets from the first connection and the others from the
    second, which went on to lose five. *)
Example life_committed :
  life_run.1 = Ret (Some ()) /\ Committed (co_mirror life_run.2.1) = 9 /\
  option_map length (content (w_fs life_run.2.2) (mirrorName 3 0)) = Some (24 + 4 * 16 + 4)%nat.
Proof. vm_compute. by split. Qed.

Lemma collector_keeps_mirror_witness :
  (forall s', crash_fs (w_fs life_run.2.2) s' -> reachable life_options example_history s') /\
  match life_run.1 with
  | Ret _ => mirrors 3 example_history (co_mirror life_run.2.1) (w_fs life_run.2.2)
  | _ => True
  end.
Proof.
  apply (collector_keeps_mirror life_options example_history
    ltac:(apply (bool_decide_unpack _); vm_compute; exact I) example_history_wf
    (Ok ()) life_world life_rounds life_before empty_fs [] [] []).
  - exists []. constructor.
  - assert (forall rd, match round_stream life_options rd with Some r => honest_b 3 example_history r | None => true end = true ->
      truthful life_options example_history rd) as Ht.
    { intros rd. unfold truthful. destruct (round_stream _ rd) as [r|]; [apply honest_b_true|done]. }
    repeat (apply Forall_cons; split; [apply Ht; vm_compute; reflexivity|]). apply Forall_nil_2.
  - intros c1 w1 Hst.
    assert (SessionSeq (m_state (co_mirror life_started.2.1)) + budget life_options life_rounds < 2 ^ 64) as Hb
      by (apply (bool_decide_unpack _); vm_compute; exact I).
    assert (life_started = (Ret (), (c1, w1))) as Hs by exact Hst. by rewrite Hs in Hb.
  - constructor.
  - exact (run_parts life_run).
Defined.
