(* ===== verification/GoPath.v ===== *)
(** * Paths and maps of the Go standard library

    What [path/filepath] and [strings] do to paths on Unix, and [range] over a map,
    whose order is unspecified. *)

From S2P Require Import Prelude Bytes Keys.

Definition slash : byte := x2f.

(** [strings.Join(elems, "/")]. *)
Fixpoint join_slash (elems : list (list byte)) : list byte :=
  match elems with
  | [] => []
  | [e] => e
  | e :: elems => e ++ slash :: join_slash elems
  end.

Definition is_rooted (p : list byte) : bool := HasPrefix p [slash].

(** One element of a path, on the elements kept so far, the last one first. *)
Definition clean_elem (rooted : bool) (stack : list (list byte)) (e : list byte) : list (list byte) :=
  if bool_decide (e = [] \/ e = str ".") then stack
  else if bool_decide (e = str "..") then
    match stack with
    | top :: rest => if bool_decide (top = str "..") then e :: stack else rest
    | [] => if rooted then [] else [e]
    end
  else e :: stack.

(** [filepath.Clean]. *)
Definition Clean (p : list byte) : list byte :=
  let out := join_slash (reverse (foldl (clean_elem (is_rooted p)) [] (Split p slash))) in
  if is_rooted p then slash :: out else match out with [] => str "." | _ => out end.

(** [filepath.Join]. *)
Fixpoint Join (elems : list (list byte)) : list byte :=
  match elems with
  | [] => []
  | [] :: elems => Join elems
  | _ => Clean (join_slash elems)
  end.

(** [strings.SplitN] for a one-byte separator and [n] above 0. *)
Fixpoint SplitN (s : list byte) (c : byte) (n : nat) : list (list byte) :=
  match n with
  | O | S O => [s]
  | S n => match IndexByte s c with None => [s] | Some i => take i s :: SplitN (drop (S i) s) c n end
  end.

(** [strings.ToLower] on ASCII; it maps no other rune to a letter that the code
    compares with. *)
Definition ToLower (s : list byte) : list byte :=
  (fun c => if (65 <=? Z_of_byte c) && (Z_of_byte c <=? 90) then byte_of_Z (Z_of_byte c + 32) else c) <$> s.

(** The order of [range] over a map: any. *)
Class MapRange : Type := {
  range : forall {V : Type}, gmap (list byte) V -> list (list byte * V);
  range_perm : forall V (m : gmap (list byte) V), range m ≡ₚ map_to_list m
}.

(** ** Examples *)

Example Clean_dots : Clean (str "/proc//7/./root/../maps") = str "/proc/7/maps".
Proof. by vm_compute. Qed.

Example Clean_up : Clean (str "../a/../../b") = str "../../b".
Proof. by vm_compute. Qed.

Example Join_root : Join [str "/proc/7/root"; []; str "/usr/lib/libssl.so.3"] = str "/proc/7/root/usr/lib/libssl.so.3".
Proof. by vm_compute. Qed.

(** ** Lemmas *)

Section Range.
Context `{MapRange}.

Lemma elem_of_range {V} (m : gmap (list byte) V) k v : (k, v) ∈ range m <-> m !! k = Some v.
Proof. by rewrite range_perm, elem_of_map_to_list. Qed.

Lemma NoDup_range {V} (m : gmap (list byte) V) : NoDup (range m).*1.
Proof. rewrite range_perm. apply NoDup_fst_map_to_list. Qed.

(** A loop over a map whose rounds commute does not depend on the order. *)
Lemma foldl_range {V B} (f : B -> list byte * V -> B) (b : B) (m : gmap (list byte) V) :
  (forall b x y, f (f b x) y = f (f b y) x) -> foldl f b (range m) = foldl f b (map_to_list m).
Proof.
  intros Hf. generalize (range_perm V m). generalize (range m) (map_to_list m). intros l1 l2 Hp.
  revert b. induction Hp as [|x l1 l2 Hp IH|x y l|l1 l2 l3 H1 IH1 H2 IH2]; intros b; cbn; [done|by apply IH|by rewrite Hf|].
  by rewrite IH1.
Qed.
End Range.
