(* ===== verification/Tls.v ===== *)
(** * Targets of the TLS key capture (internal/tls: config.go, discover.go, hooker.go)

    What the agent hooks: the operator's overrides, the discovery of containers in
    procfs, and the arguments of the hooking program.  procfs is a function from
    paths; the YAML library is a parameter. *)

From S2P Require Import Prelude Bytes GoIO Json Manifest Keylog Systemd Keys Config GoPath.

(** ** discover.go: targets *)

Definition Library : Type := list byte.

Definition LibOpenSSL : Library := str "openssl".
Definition LibGnuTLS : Library := str "gnutls".
Definition LibGoTLS : Library := str "gotls".

Record Target : Type := mkTarget {
  t_Key : list byte;
  t_Container : list byte;
  t_PID : Z;
  t_Library : Library;
  t_LibPath : list byte;
  t_CGroupPath : list byte;
  t_Source : list byte
}.

#[export] Instance Target_eq_dec : EqDecision Target.
Proof. solve_decision. Defined.

(** ** config.go *)

Record OverrideTarget : Type := mkOverrideTarget {
  o_Container : list byte;
  o_Library : list byte;
  o_Path : list byte;
  o_CGroup : list byte
}.

Record Config : Type := mkConfig {
  Auto : option bool;
  Exclude : list (list byte);
  Targets : list OverrideTarget
}.

Definition no_overrides : Config := mkConfig None [] [].

(** [content] is what reading the file returns. *)
Definition LoadConfig `{YamlCodec Config} (path : list byte) (content : res (list byte)) : res Config :=
  if bool_decide (path = []) then Ok no_overrides
  else
    match content with
    | Err e => if decide (e = os_ErrNotExist) then Ok no_overrides else Err e
    | Ok b => match yaml_Unmarshal b no_overrides with (_, Some e) => Err e | (c, None) => Ok c end
    end.

Definition AutoEnabled (c : Config) : bool := match Auto c with None => true | Some b => b end.

Definition IsExcluded (c : Config) (t : Target) : bool :=
  existsb (fun ex =>
    let ex := TrimSpace ex in
    negb (bool_decide (ex = [])) && (HasPrefix (t_Container t) ex || Contains (t_Container t) ex)) (Exclude c).

Definition manual_target (o : OverrideTarget) : option Target :=
  let lib := ToLower (TrimSpace (o_Library o)) in
  if bool_decide (lib <> LibOpenSSL /\ lib <> LibGnuTLS /\ lib <> LibGoTLS) then None
  else
    let container := if bool_decide (o_Container o = []) then str "override" else o_Container o in
    let key := container ++ slash :: lib in
    let key := if bool_decide (o_Path o <> []) then key ++ slash :: o_Path o else key in
    Some (mkTarget key container 0 lib (o_Path o) (o_CGroup o) (str "override")).

Definition ManualTargets (c : Config) : list Target := omap manual_target (Targets c).

(** One of the two loops of [Plan]. *)
Definition plan_add (c : Config) (merged : gmap (list byte) Target) (t : Target) : gmap (list byte) Target :=
  if IsExcluded c t then merged else <[t_Key t := t]> merged.

Definition Plan `{MapRange} (c : Config) (auto : list Target) : list Target :=
  let merged := if AutoEnabled c then foldl (plan_add c) ∅ auto else ∅ in
  (range (foldl (plan_add c) merged (ManualTargets c))).*2.

(** ** discover.go *)

(** procfs: the names in a directory, and what reading a file delivers. *)
Record procfs : Type := mkProcfs {
  pr_ReadDir : list byte -> res (list (list byte));
  pr_Open : list byte -> res stream
}.

(** [os.ReadFile]. *)
Definition pr_ReadFile (s : procfs) (path : list byte) : res (list byte) :=
  match pr_Open s path with
  | Err e => Err e
  | Ok r => if decide (st_end r = io_EOF) then Ok (st_data r) else Err (st_end r)
  end.

Record Discoverer : Type := mkDiscoverer { ProcRoot : list byte; CgroupRoot : list byte }.

Definition NewDiscoverer : Discoverer := mkDiscoverer (str "/proc") (str "/sys/fs/cgroup").

Definition lower_hex (c : byte) : bool := in_range x30 x39 c || in_range x61 x66 c.

(** The match of [docker[-/]([0-9a-f]{12,64})(?:\.scope)?] at the beginning of [s];
    the result is its submatch. *)
Definition docker_at (s : list byte) : option (list byte) :=
  if HasPrefix s (str "docker") then
    match drop 6 s with
    | sep :: rest =>
        if bool_decide (sep = x2d \/ sep = slash) then
          let id := take 64 (span lower_hex rest).1 in
          if (12 <=? length id)%nat then Some id else None
        else None
    | [] => None
    end
  else None.

(** [dockerCgroup.FindStringSubmatch]: the leftmost match. *)
Fixpoint dockerCgroup (s : list byte) : option (list byte) :=
  match docker_at s with
  | Some id => Some id
  | None => match s with [] => None | _ :: s => dockerCgroup s end
  end.

Definition reLibssl (s : list byte) : bool := Contains s (str "/libssl.so").
Definition reLibcrypto (s : list byte) : bool := Contains s (str "/libcrypto.so").
Definition reGnuTLS (s : list byte) : bool := Contains s (str "/libgnutls.so").

(** The loop over the lines of the file. *)
Fixpoint cgroup_lines (cgroupRoot : list byte) (lines : list (list byte)) : list byte * list byte :=
  match lines with
  | [] => ([], [])
  | line :: lines =>
      match SplitN line x3a 3 with
      | [_; _; rel] =>
          match dockerCgroup rel with
          | None => cgroup_lines cgroupRoot lines
          | Some id => (id, Join [cgroupRoot; rel])
          end
      | _ => cgroup_lines cgroupRoot lines
      end
  end.

Definition containerCgroup (s : procfs) (procRoot cgroupRoot : list byte) (pid : Z) : list byte * list byte :=
  match pr_ReadFile s (Join [procRoot; dec_int pid; str "cgroup"]) with
  | Err _ => ([], [])
  | Ok b => cgroup_lines cgroupRoot (Split b x0a)
  end.

(** The libraries seen so far: [libssl], [libcrypto], [gnutls]. *)
Definition libs : Type := list byte * list byte * list byte.

Definition maps_line (st : libs) (line : list byte) : libs :=
  let '(libssl, libcrypto, gnutls) := st in
  match IndexByte line slash with
  | None => st
  | Some i =>
      let path := drop i line in
      if bool_decide (libssl = []) && reLibssl path then (path, libcrypto, gnutls)
      else if bool_decide (libcrypto = []) && reLibcrypto path then (libssl, path, gnutls)
      else if bool_decide (gnutls = []) && reGnuTLS path then (libssl, libcrypto, path)
      else st
  end.

Definition found_libs (root : list byte) (st : libs) : gmap (list byte) (list byte) :=
  let '(libssl, libcrypto, gnutls) := st in
  let out :=
    if bool_decide (libssl <> []) then <[LibOpenSSL := Join [root; libssl]]> ∅
    else if bool_decide (libcrypto <> []) then <[LibOpenSSL := Join [root; libcrypto]]> ∅
    else ∅ in
  if bool_decide (gnutls <> []) then <[LibGnuTLS := Join [root; gnutls]]> out else out.

(** The scanner of the code has the line limit of the one that reads manifests. *)
Definition detectLibraries (s : procfs) (procRoot : list byte) (pid : Z) : gmap (list byte) (list byte) :=
  match pr_Open s (Join [procRoot; dec_int pid; str "maps"]) with
  | Err _ => ∅
  | Ok r =>
      found_libs (Join [procRoot; dec_int pid; str "root"])
        (foldl maps_line ([], [], []) (scanner_lines (split_lines (st_data r) [])))
  end.

(** A round of the inner loop of [Discover]. *)
Definition add_target (pid : Z) (container cgPath : list byte) (byKey : gmap (list byte) Target)
    (found : list byte * list byte) : gmap (list byte) Target :=
  let '(lib, libPath) := found in
  let key := take 12 container ++ slash :: lib in
  match byKey !! key with
  | Some _ => byKey
  | None => <[key := mkTarget key (take 12 container) pid lib libPath cgPath (str "auto")]> byKey
  end.

(** A round of its outer loop; a container id has twelve digits at least. *)
Definition scan_entry `{MapRange} (s : procfs) (procRoot cgroupRoot : list byte) (byKey : gmap (list byte) Target)
    (name : list byte) : gmap (list byte) Target :=
  match ParseInt64 name with
  | None => byKey
  | Some pid =>
      let '(container, cgPath) := containerCgroup s procRoot cgroupRoot pid in
      if bool_decide (container = []) then byKey
      else foldl (add_target pid container cgPath) byKey (range (detectLibraries s procRoot pid))
  end.

Definition by_Key (a b : Target) : Prop := le_str (t_Key a) (t_Key b).
#[export] Instance by_Key_dec a b : Decision (by_Key a b).
Proof. unfold by_Key; apply _. Defined.

Definition proc_root (d : Discoverer) : list byte := if bool_decide (ProcRoot d = []) then str "/proc" else ProcRoot d.
Definition cgroup_root (d : Discoverer) : list byte :=
  if bool_decide (CgroupRoot d = []) then str "/sys/fs/cgroup" else CgroupRoot d.

Definition Discover `{MapRange} (d : Discoverer) (s : procfs) : res (list Target) :=
  match pr_ReadDir s (proc_root d) with
  | Err _ => Err fmt_err
  | Ok ents => Ok (merge_sort by_Key (range (foldl (scan_entry s (proc_root d) (cgroup_root d)) ∅ ents)).*2)
  end.

(** ** hooker.go *)

Definition with_cgroup (t : Target) (a : list (list byte)) : list (list byte) :=
  if bool_decide (t_CGroupPath t <> []) then a ++ [str "--cgroup_path"; t_CGroupPath t] else a.

Definition ecaptureArgs (t : Target) (keylogFile : list byte) : res (list (list byte)) :=
  let with_path flag a := if bool_decide (t_LibPath t <> []) then a ++ [flag; t_LibPath t] else a in
  if bool_decide (t_Library t = LibOpenSSL) then
    Ok (with_cgroup t (with_path (str "--libssl") [str "tls"; str "-m"; str "keylog"; str "-k"; keylogFile]))
  else if bool_decide (t_Library t = LibGnuTLS) then
    Ok (with_cgroup t (with_path (str "--gnutls") [str "gnutls"; str "-m"; str "keylog"; str "-k"; keylogFile]))
  else if bool_decide (t_Library t = LibGoTLS) then
    if bool_decide (t_LibPath t = []) then Err fmt_err
    else Ok (with_cgroup t [str "gotls"; str "-m"; str "keylog"; str "-k"; keylogFile; str "--elfpath"; t_LibPath t])
  else Err fmt_err.

(** A run of the hooking program; [run] starts a program and waits for it. *)
Definition EcaptureHooker_Start (run : list byte -> list (list byte) -> res unit) (bin : list byte) (t : Target)
    (keylogFile : list byte) : res unit :=
  match ecaptureArgs t keylogFile with Err e => Err e | Ok args => run bin args end.
