(* ===== verification/TlsProps.v ===== *)
(** * What the discovery finds

    [Discover] returns one target for each container and library, from the first
    process that has it, sorted by key and whatever the order of its maps. *)

From S2P Require Import Prelude Bytes GoIO Json Manifest Keylog Systemd Keys Config GoPath Tls.

(** ** The bytewise order *)

Lemma le_str_cons x a y b :
  le_str (x :: a) (y :: b) <-> Z_of_byte x < Z_of_byte y \/ Z_of_byte x = Z_of_byte y /\ le_str a b.
Proof. unfold le_str. cbn [str_le]. by rewrite orb_True, andb_True, !Is_true_true, Z.ltb_lt, Z.eqb_eq. Qed.

#[export] Instance le_str_trans : Transitive le_str.
Proof.
  intros a. induction a as [|x a IH]; intros [|y b] [|z c]; try done. rewrite !le_str_cons.
  intros [Hx|[Hx Ha]] [Hy|[Hy Hb]]; [left; lia..|]. right. split; [lia|by apply (IH b)].
Qed.

#[export] Instance le_str_total : Total le_str.
Proof.
  intros a. induction a as [|x a IH]; intros [|y b]; [by left..|by right|]. rewrite !le_str_cons.
  destruct (Z.lt_trichotomy (Z_of_byte x) (Z_of_byte y)) as [|[|]]; [by left; left| |by right; left].
  destruct (IH b); [left|right]; right; split; by try lia.
Qed.

#[export] Instance le_str_antisymm : AntiSymm (=) le_str.
Proof.
  intros a. induction a as [|x a IH]; intros [|y b]; [done..|]. rewrite !le_str_cons.
  intros [Hx|[Hx Ha]] [Hy|[Hy Hb]]; [lia..|]. f_equal; [by apply Z_of_byte_inj|by apply IH].
Qed.

#[export] Instance by_Key_trans : Transitive by_Key.
Proof. intros a b c. unfold by_Key. apply transitivity. Qed.
#[export] Instance by_Key_total : Total by_Key.
Proof. intros a b. unfold by_Key. apply (total le_str). Qed.

(** ** The maps of the discovery *)

Definition auto_target (pid : Z) (container cgPath lib libPath : list byte) : Target :=
  mkTarget (take 12 container ++ slash :: lib) (take 12 container) pid lib libPath cgPath (str "auto").

(** The process of the entry [name] is in a container and maps the library of [t]. *)
Definition offers (s : procfs) (procRoot cgroupRoot name : list byte) (t : Target) : Prop :=
  exists pid container cgPath lib libPath,
    ParseInt64 name = Some pid /\ containerCgroup s procRoot cgroupRoot pid = (container, cgPath) /\ container <> [] /\
    detectLibraries s procRoot pid !! lib = Some libPath /\ t = auto_target pid container cgPath lib libPath.

(** The first of [ents] that offers a target with its key offers [t]. *)
Definition first_offer (s : procfs) (procRoot cgroupRoot : list byte) (ents : list (list byte)) (t : Target) : Prop :=
  exists pre name post, ents = pre ++ name :: post /\ offers s procRoot cgroupRoot name t /\
    forall n t', n ∈ pre -> offers s procRoot cgroupRoot n t' -> t_Key t' <> t_Key t.

Lemma auto_key_inj pid container cgPath lib lib' p p' :
  t_Key (auto_target pid container cgPath lib p) = t_Key (auto_target pid container cgPath lib' p') -> lib = lib'.
Proof. cbn. intros E. apply (f_equal (drop (length (take 12 container)))) in E. rewrite !drop_app_length in E. by injection E. Qed.

Lemma add_targets_lookup pid container cgPath (l : list (list byte * list byte)) b k t :
  NoDup l.*1 ->
  foldl (add_target pid container cgPath) b l !! k = Some t <->
  b !! k = Some t \/
  b !! k = None /\ exists lib p, (lib, p) ∈ l /\ t = auto_target pid container cgPath lib p /\ k = t_Key t.
Proof.
  revert b. induction l as [|[lib p] l IH]; intros b Hd.
  { cbn. split; [by left|]. intros [|(_ & lib & p & Hin & _)]; [done|]. by apply elem_of_nil in Hin. }
  cbn [fmap list_fmap fst] in Hd. apply NoDup_cons in Hd as [Hlib Hd]. cbn [foldl]. rewrite IH by done.
  set (x := auto_target pid container cgPath lib p). change (take 12 container ++ slash :: lib) with (t_Key x).
  assert (forall lib' p', (lib', p') ∈ l -> t_Key (auto_target pid container cgPath lib' p') <> t_Key x) as Hne.
  { intros lib' p' Hin E. apply auto_key_inj in E as ->. apply Hlib. apply list_elem_of_fmap. by exists (lib, p'). }
  unfold add_target at 1 2. change (take 12 container ++ slash :: lib) with (t_Key x).
  change (mkTarget (t_Key x) (take 12 container) pid lib p cgPath (str "auto")) with x.
  split.
  - intros [Hb|(Hb & lib' & p' & Hin & -> & ->)].
    + destruct (b !! t_Key x) eqn:Eb; [by left|]. destruct (decide (k = t_Key x)) as [->|Hk].
      * rewrite lookup_insert_eq in Hb. injection Hb as <-. right. split; [done|]. exists lib, p. by split; [left|].
      * rewrite lookup_insert_ne in Hb by done. by left.
    + right. specialize (Hne _ _ Hin). destruct (b !! t_Key x) eqn:Eb; [|rewrite lookup_insert_ne in Hb by done];
        (split; [done|]); exists lib', p'; by split; [right|].
  - intros [Hb|(Hb & lib' & p' & Hin & -> & ->)].
    + left. destruct (b !! t_Key x) eqn:Eb; [done|]. rewrite lookup_insert_ne; [done|]. intros E. by rewrite <-E, Eb in Hb.
    + apply elem_of_cons in Hin as [[= -> ->]|Hin].
      * left. fold x in Hb |- *. rewrite Hb. by rewrite lookup_insert_eq.
      * right. specialize (Hne _ _ Hin). destruct (b !! t_Key x); [|rewrite lookup_insert_ne by done]; (split; [done|]);
          by exists lib', p'.
Qed.

Section Discover.
Context (s : procfs) (procRoot cgroupRoot : list byte).
Abbreviation offers := (offers s procRoot cgroupRoot).
Abbreviation first_offer := (first_offer s procRoot cgroupRoot).

Section Scan.
Context `{MapRange}.

Lemma scan_entry_lookup b name k t :
  scan_entry s procRoot cgroupRoot b name !! k = Some t <->
  b !! k = Some t \/ b !! k = None /\ offers name t /\ k = t_Key t.
Proof.
  unfold scan_entry. destruct (ParseInt64 name) as [pid|] eqn:Ep.
  2: { split; [by left|]. intros [|(_ & (pid & ? & ? & ? & ? & Hp & _) & _)]; [done|]. by rewrite Hp in Ep. }
  destruct (containerCgroup s procRoot cgroupRoot pid) as [container cgPath] eqn:Ec. case_bool_decide as He.
  { split; [by left|]. intros [|(_ & (pid' & c' & g' & ? & ? & Hp & Hc & Hne & _) & _)]; [done|].
    rewrite Ep in Hp. injection Hp as <-. rewrite Ec in Hc. injection Hc as <- <-. done. }
  rewrite add_targets_lookup by apply NoDup_range. split; (intros [Hb|[Hb Ho]]; [by left|right; split; [done|]]).
  - destruct Ho as (lib & p & Hin & -> & ->). split; [|done]. apply elem_of_range in Hin. by exists pid, container, cgPath, lib, p.
  - destruct Ho as [(pid' & c' & g' & lib & p & Hp & Hc & _ & Hl & ->) ->]. rewrite Ep in Hp. injection Hp as <-.
    rewrite Ec in Hc. injection Hc as <- <-. exists lib, p. by rewrite elem_of_range.
Qed.

Lemma scan_None ents k :
  foldl (scan_entry s procRoot cgroupRoot) ∅ ents !! k = None <->
  forall n t, n ∈ ents -> offers n t -> t_Key t <> k.
Proof.
  induction ents as [|name ents IH] using rev_ind.
  { split; [|by intros]. intros _ n t Hn. by apply elem_of_nil in Hn. }
  rewrite foldl_snoc. set (b := foldl _ ∅ ents) in *. split.
  - intros Hb. assert (b !! k = None) as Hk.
    { apply eq_None_not_Some. intros [t Ht]. by rewrite (proj2 (scan_entry_lookup b name k t)) in Hb by (by left). }
    intros n t Hn Ho E. apply elem_of_app in Hn as [Hn|Hn%list_elem_of_singleton]; [by apply (proj1 IH Hk n t)|]. subst n.
    by rewrite (proj2 (scan_entry_lookup b name k t)) in Hb by (by right).
  - intros Hn. apply eq_None_not_Some. intros [t [Ht|(Hk & Ho & ->)]%scan_entry_lookup].
    + by rewrite (proj2 IH) in Ht by (intros n t' Hin; apply Hn, elem_of_app; by left).
    + eapply (Hn name t); [|done..]. apply elem_of_app. right. by apply list_elem_of_singleton.
Qed.

Lemma scan_lookup ents k t :
  foldl (scan_entry s procRoot cgroupRoot) ∅ ents !! k = Some t <-> k = t_Key t /\ first_offer ents t.
Proof.
  induction ents as [|name ents IH] using rev_ind.
  { split; [done|]. intros [_ (pre & n & post & E & _)]. by destruct pre. }
  rewrite foldl_snoc, scan_entry_lookup, IH. split.
  - intros [[-> (pre & n & post & -> & Ho & Hpre)]|(Hk & Ho & ->)]; (split; [done|]).
    + exists pre, n, (post ++ [name]). rewrite <-app_assoc. done.
    + exists ents, name, []. split_and!; [done..|]. intros n t' Hn Ho'. by eapply scan_None.
  - intros [-> (pre & n & post & E & Ho & Hpre)]. destruct post as [|z post _] using rev_ind.
    + apply app_inj_tail in E as [-> ->]. right. split_and!; [|done..]. apply scan_None. done.
    + left. rewrite app_comm_cons, app_assoc in E. apply app_inj_tail in E as [-> ->]. split; [done|]. by exists pre, n, post.
Qed.
End Scan.
End Discover.

(** ** What a target looks like *)

Lemma span_fst_Forall p (l : list byte) : Forall (fun c => p c = true) (span p l).1.
Proof.
  induction l as [|c l IH]; cbn; [constructor|]. destruct (p c) eqn:E; [|constructor].
  destruct (span p l) as [a b]. by constructor.
Qed.

Lemma dockerCgroup_id rel id :
  dockerCgroup rel = Some id -> (12 <= length id <= 64)%nat /\ Forall (fun c => lower_hex c = true) id.
Proof.
  assert (forall rel, docker_at rel = Some id -> (12 <= length id <= 64)%nat /\ Forall (fun c => lower_hex c = true) id) as Hat.
  { intros l. unfold docker_at. destruct (HasPrefix l _); [|done]. destruct (drop 6 l) as [|sep rest]; [done|].
    case_bool_decide; [|done]. set (w := (span lower_hex rest).1). destruct (Nat.leb_spec 12 (length (take 64 w))); [|done].
    intros [= <-]. split; [|apply Forall_take, span_fst_Forall]. split; [done|]. rewrite length_take. lia. }
  induction rel as [|c rel IH]; cbn [dockerCgroup]; destruct (docker_at _) eqn:E; intros Hd; simplify_eq; [by eapply Hat..|by apply IH].
Qed.

Lemma containerCgroup_id s procRoot cgroupRoot pid container cgPath :
  containerCgroup s procRoot cgroupRoot pid = (container, cgPath) -> container <> [] ->
  (12 <= length container)%nat /\ Forall (fun c => lower_hex c = true) container.
Proof.
  unfold containerCgroup. destruct (pr_ReadFile _ _) as [b|e]; [|by intros [= <- <-]]. generalize (Split b x0a). intros lines.
  induction lines as [|line lines IH]; cbn [cgroup_lines]; [by intros [= <- <-]|].
  destruct (SplitN line x3a 3) as [|? [|? [|rel [|? ?]]]]; [done..| |done]. destruct (dockerCgroup rel) as [id|] eqn:E; [|done].
  intros [= <- _] _. apply dockerCgroup_id in E. split; [lia|apply E].
Qed.

Lemma detectLibraries_lib s procRoot pid lib p :
  detectLibraries s procRoot pid !! lib = Some p -> lib = LibOpenSSL \/ lib = LibGnuTLS.
Proof.
  unfold detectLibraries. destruct (pr_Open _ _) as [r|e]; [|done]. destruct (foldl _ _ _) as [[libssl libcrypto] gnutls].
  unfold found_libs. intros Hl. destruct (decide (lib = LibGnuTLS)) as [->|Hg]; [by right|]. left.
  destruct (bool_decide (gnutls <> [])); [rewrite lookup_insert_ne in Hl by done|];
    (repeat case_bool_decide; [by apply lookup_insert_Some in Hl as [[<- _]|[_ ?]]..|done]).
Qed.

(** A target of the discovery: a container of which twelve digits of the id are
    known, and one of the two libraries that procfs shows. *)
Definition container_target (t : Target) : Prop :=
  length (t_Container t) = 12%nat /\ Forall (fun c => lower_hex c = true) (t_Container t) /\
  (t_Library t = LibOpenSSL \/ t_Library t = LibGnuTLS) /\ t_Key t = t_Container t ++ slash :: t_Library t /\
  t_Source t = str "auto".

Lemma offers_container s procRoot cgroupRoot name t : offers s procRoot cgroupRoot name t -> container_target t.
Proof.
  intros (pid & c & g & lib & p & _ & Hc & Hne & Hl & ->). destruct (containerCgroup_id _ _ _ _ _ _ Hc Hne) as [Hlen Hhex].
  unfold container_target. cbn. rewrite length_take. split_and!; [lia|by apply Forall_take|by eapply detectLibraries_lib|done..].
Qed.

(** ** The result *)

Lemma map_keys_sorted `{MapRange} (m : gmap (list byte) Target) :
  (forall k t, m !! k = Some t -> k = t_Key t) -> NoDup (t_Key <$> merge_sort by_Key (range m).*2).
Proof.
  intros Hm. rewrite merge_sort_Permutation. rewrite <-list_fmap_compose.
  assert ((t_Key ∘ snd) <$> range m = (range m).*1) as ->; [|apply NoDup_range].
  apply list_fmap_ext. intros i [k t] Hi. cbn. symmetry. apply Hm, elem_of_range. by eapply list_elem_of_lookup_2.
Qed.

(** C38: the discovery returns, for every docker container and TLS library of the
    processes in procfs, one target, from the first process that has both, sorted
    by key; its result does not depend on the order in which Go ranges over the
    maps.  No process outside of a docker container gives a target, every key is
    the container and the library, and a process that vanishes during the scan
    takes nothing with it but its own targets. *)
Theorem Discover_first d s ents :
  pr_ReadDir s (proc_root d) = Ok ents ->
  exists out, (forall r : MapRange, @Discover r d s = Ok out) /\
    StronglySorted by_Key out /\ NoDup (t_Key <$> out) /\
    (forall t, t ∈ out <-> first_offer s (proc_root d) (cgroup_root d) ents t) /\ Forall container_target out.
Proof.
  intros He. set (scan r := foldl (@scan_entry r s (proc_root d) (cgroup_root d)) ∅ ents).
  set (out r := merge_sort by_Key (@range r _ (scan r)).*2).
  set (r0 := {| range V m := map_to_list m; range_perm V m := reflexivity _ |} : MapRange).
  assert (forall r k t, scan r !! k = Some t <-> k = t_Key t /\ first_offer s (proc_root d) (cgroup_root d) ents t) as Hs
    by (intros; apply scan_lookup).
  assert (forall r t, t ∈ out r <-> first_offer s (proc_root d) (cgroup_root d) ents t) as Hin.
  { intros r t. subst out. cbn beta. rewrite merge_sort_Permutation, list_elem_of_fmap. split.
    - intros ([k x] & -> & Hx). apply elem_of_range, Hs in Hx. apply Hx.
    - intros Hf. exists (t_Key t, t). split; [done|]. by apply elem_of_range, Hs. }
  assert (forall r, NoDup (t_Key <$> out r)) as Hnd by (intros r; apply map_keys_sorted; intros k t Hk; by apply Hs in Hk as [? _]).
  assert (forall r, StronglySorted by_Key (out r)) as Hsort by (intros r; apply StronglySorted_merge_sort; apply _).
  exists (out r0). split_and!; [|done..|].
  - intros r. unfold Discover. rewrite He. fold (scan r). fold (out r). f_equal.
    apply (StronglySorted_unique_strong by_Key); [|done..|].
    + intros x y Hx Hy Hxy Hyx. apply Hin in Hx. apply Hin in Hy.
      assert (scan r !! t_Key x = Some x) as Ex by (by apply Hs).
      rewrite (proj2 (Hs r (t_Key x) y)) in Ex; [by simplify_eq|]. split; [|done]. by apply (anti_symm le_str).
    + apply NoDup_Permutation; [by eapply NoDup_fmap_1..|]. intros x. by rewrite !Hin.
  - apply Forall_forall. intros t Ht. apply Hin in Ht as (pre & n & post & _ & Ho & _). by eapply offers_container.
Qed.

(** ** A procfs

    Two processes of one container with OpenSSL, one of a container with GnuTLS, a
    process of the host, a container without TLS, and a name that is no pid. *)

Definition example_id (c : byte) : list byte := concat (replicate 16 [x61; c; x31; x32]).

Definition example_files : list (list byte * list byte) :=
  [ (str "/proc/100/cgroup", str "0::/system.slice/docker-" ++ example_id x30 ++ str ".scope" ++ [x0a]);
    (str "/proc/100/maps", str "7f00-7f01 r-xp 0 08:01 1 /usr/lib64/libcrypto.so.3.5.4" ++ [x0a] ++
                           str "7f02-7f03 r-xp 0 08:01 2 /usr/lib64/libssl.so.3.5.4" ++ [x0a]);
    (str "/proc/101/cgroup", str "0::/system.slice/docker-" ++ example_id x30 ++ str ".scope" ++ [x0a]);
    (str "/proc/101/maps", str "7f02-7f03 r-xp 0 08:01 2 /usr/lib64/libssl.so.3.5.4" ++ [x0a]);
    (str "/proc/200/cgroup", str "0::/docker/" ++ example_id x39 ++ [x0a]);
    (str "/proc/200/maps", str "7f00-7f01 r-xp 0 08:01 3 /usr/lib/libgnutls.so.30" ++ [x0a]);
    (str "/proc/300/cgroup", str "0::/init.scope" ++ [x0a]);
    (str "/proc/300/maps", str "7f00-7f01 r-xp 0 08:01 1 /usr/lib/libssl.so.3" ++ [x0a]);
    (str "/proc/400/cgroup", str "0::/docker/" ++ example_id x66 ++ [x0a]);
    (str "/proc/400/maps", str "7f00-7f01 r-xp 0 08:01 9 /usr/bin/redis-server" ++ [x0a]) ].

Definition example_procfs : procfs :=
  mkProcfs (fun _ => Ok [str "100"; str "101"; str "200"; str "300"; str "400"; str "self"])
    (fun path => match List.find (fun f => bool_decide (f.1 = path)) example_files with
                 | Some f => Ok (Stream f.2 io_EOF)
                 | None => Err os_ErrNotExist
                 end).

#[local] Instance listed_range : MapRange :=
  {| range V m := map_to_list m; range_perm V m := reflexivity _ |}.

Example Discover_example :
  Discover NewDiscoverer example_procfs =
  Ok [mkTarget (str "a012a012a012/openssl") (str "a012a012a012") 100 LibOpenSSL (str "/proc/100/root/usr/lib64/libssl.so.3.5.4")
        (str "/sys/fs/cgroup/system.slice/docker-" ++ example_id x30 ++ str ".scope") (str "auto");
      mkTarget (str "a912a912a912/gnutls") (str "a912a912a912") 200 LibGnuTLS (str "/proc/200/root/usr/lib/libgnutls.so.30")
        (str "/sys/fs/cgroup/docker/" ++ example_id x39) (str "auto")].
Proof. by vm_compute. Qed.

Lemma Discover_first_witness :
  exists out, (forall r : MapRange, @Discover r NewDiscoverer example_procfs = Ok out) /\
    StronglySorted by_Key out /\ NoDup (t_Key <$> out) /\
    (forall t, t ∈ out <-> first_offer example_procfs (proc_root NewDiscoverer) (cgroup_root NewDiscoverer)
       [str "100"; str "101"; str "200"; str "300"; str "400"; str "self"] t) /\ Forall container_target out.
Proof. apply (Discover_first NewDiscoverer example_procfs). vm_compute. reflexivity. Defined.
