(* ===== verification/Reconcile.v ===== *)
(** * The reconciler of the TLS hooks (internal/tls/reconcile.go)

    It keeps one running hook for every planned target.  A hook is a goroutine with
    a context of its own; cancelling that is what ends it.  The merging of the key
    files is in Merge. *)

From S2P Require Import Prelude Bytes GoIO Config GoPath Tls.

(** A goroutine [runHook], and whether its context was cancelled. *)
Record hook : Type := mkHook { hk_target : Target; hk_cancelled : bool }.

(** [hookState]; the cancel function is the number of the hook. *)
Record hookState : Type := mkHookState { hs_target : Target; hs_cancel : nat }.

(** The variable [running] of [Run], and all hooks started. *)
Record hookSet : Type := mkHookSet { running : gmap (list byte) hookState; hooks : list hook }.

Definition no_hooks : hookSet := mkHookSet ∅ [].

Record Reconciler : Type := mkReconciler {
  Disco : Discoverer;
  ConfigPath : list byte;
  KeylogDir : list byte;
  RelayFile : list byte;
  DryRun : bool
}.

(** What a round sees: the override file, procfs, and the order of its maps. *)
Record sight : Type := mkSight { sg_config : res (list byte); sg_proc : procfs; sg_range : MapRange }.

(** [st.cancel()]. *)
Definition cancel (i : nat) (s : hookSet) : hookSet :=
  mkHookSet (running s) (alter (fun h => mkHook (hk_target h) true) i (hooks s)).

(** The loop over the running hooks; deleting the entry of the round does not
    change the rounds to come. *)
Definition unhook (desired : gmap (list byte) Target) (s : hookSet) (e : list byte * hookState) : hookSet :=
  match desired !! e.1 with
  | Some _ => s
  | None => let s := cancel (hs_cancel e.2) s in mkHookSet (delete e.1 (running s)) (hooks s)
  end.

(** The loop over the desired targets. *)
Definition start_hook (dry : bool) (s : hookSet) (e : list byte * Target) : hookSet :=
  match running s !! e.1 with
  | Some _ => s
  | None =>
      if dry then s
      else mkHookSet (<[e.1 := mkHookState e.2 (length (hooks s))]> (running s)) (hooks s ++ [mkHook e.2 false])
  end.

Section Reconcile.
Context `{YamlCodec Tls.Config}.

(** The targets it discovers. *)
Definition discovered (r : Reconciler) (cfg : Tls.Config) (o : sight) : list Target :=
  if AutoEnabled cfg then
    match @Discover (sg_range o) (Disco r) (sg_proc o) with Err _ => [] | Ok a => a end
  else [].

Definition desired_targets (r : Reconciler) (cfg : Tls.Config) (o : sight) : gmap (list byte) Target :=
  foldl (fun m tg => <[t_Key tg := tg]> m) ∅ (@Plan (sg_range o) cfg (discovered r cfg o)).

Definition reconcileOnce (r : Reconciler) (s : hookSet) (o : sight) : hookSet :=
  match LoadConfig (ConfigPath r) (sg_config o) with
  | Err _ => s
  | Ok cfg =>
      let desired := desired_targets r cfg o in
      let s := foldl (unhook desired) s (@range (sg_range o) _ (running s)) in
      foldl (start_hook (DryRun r)) s (@range (sg_range o) _ desired)
  end.

(** The deferred function of [Run]. *)
Definition cancel_all (order : MapRange) (s : hookSet) : hookSet :=
  foldl (fun s e => cancel (hs_cancel e.2) s) s (range (running s)).

(** [Run] with the rounds it came to; [stopped]: its context is cancelled then, and
    in which order the deferred function goes.  [None]: it is still running. *)
Definition Reconciler_Run (r : Reconciler) (mkdir : res unit) (rounds : list sight) (stopped : option MapRange) :
    hookSet * option (res unit) :=
  match mkdir with
  | Err e => (no_hooks, Some (Err e))
  | Ok _ =>
      let s := foldl (reconcileOnce r) no_hooks rounds in
      match stopped with None => (s, None) | Some order => (cancel_all order s, Some (Ok ())) end
  end.
End Reconcile.

(** ** A hook *)

(** [strings.NewReplacer("/", "_", ":", "_", " ", "_").Replace]. *)
Definition sanitizeKey (key : list byte) : list byte :=
  (fun c => if bool_decide (c = slash \/ c = x3a \/ c = x20) then x5f else c) <$> key.

Definition hook_file (r : Reconciler) (t : Target) : list byte := Join [KeylogDir r; sanitizeKey (t_Key t) ++ str ".log"].

(** A round of [runHook]: whether its context is cancelled in front of the start,
    after it, and while it waits.  What [Start] returns is only logged. *)
Record attempt : Type := mkAttempt { at_before : bool; at_after : bool; at_wait : bool }.

Inductive hook_event : Type :=
  | HStart (t : Target) (file : list byte)
  | HWait (d : Z).

Definition second : Z := 10 ^ 9.

(** The loop of [runHook]: what it does, and whether it returned. *)
Fixpoint hook_loop (t : Target) (klf : list byte) (attempts : list attempt) (backoff : Z) : list hook_event * bool :=
  match attempts with
  | [] => ([], false)
  | a :: attempts =>
      if at_before a then ([], true)
      else if at_after a then ([HStart t klf], true)
      else if at_wait a then ([HStart t klf; HWait backoff], true)
      else
        let '(es, returned) := hook_loop t klf attempts (if backoff <? 30 * second then backoff * 2 else backoff) in
        (HStart t klf :: HWait backoff :: es, returned)
  end.

Definition runHook (r : Reconciler) (t : Target) (attempts : list attempt) : list hook_event * bool :=
  hook_loop t (hook_file r t) attempts second.
