(* ===== verification/ReconcileProps.v ===== *)
(** * The hooks follow the plan

    One live hook for a key at most; a round that can read its overrides leaves
    exactly the planned keys hooked. *)

From S2P Require Import Prelude Bytes GoIO Keylog Config GoPath Tls TlsProps Reconcile.

(** ** The plan *)

(** The last target of [l] with the key [k] that is not excluded. *)
Definition pick (c : Tls.Config) (k : list byte) (l : list Target) : option Target :=
  last (filter (fun t => t_Key t = k /\ IsExcluded c t = false) l).

(** What [Plan] is to do with a key: a manual target wins over a discovered one. *)
Definition planned (c : Tls.Config) (auto : list Target) (k : list byte) : option Target :=
  match pick c k (ManualTargets c) with
  | Some t => Some t
  | None => if AutoEnabled c then pick c k auto else None
  end.

Lemma pick_Some c k l t : pick c k l = Some t -> t ∈ l /\ t_Key t = k /\ IsExcluded c t = false.
Proof.
  intros Ht%last_Some_elem_of. apply list_elem_of_filter in Ht as [[? ?] ?]. done.
Qed.

Lemma planned_Some c auto k t :
  planned c auto k = Some t -> (t ∈ ManualTargets c \/ t ∈ auto) /\ t_Key t = k /\ IsExcluded c t = false.
Proof.
  unfold planned. destruct (pick c k (ManualTargets c)) as [x|] eqn:E.
  - intros [= <-]. apply pick_Some in E as (? & ? & ?). by split; [left|].
  - destruct (AutoEnabled c); [|done]. intros (? & ? & ?)%pick_Some. by split; [right|].
Qed.

Lemma plan_add_lookup c l m k :
  foldl (plan_add c) m l !! k = match pick c k l with Some t => Some t | None => m !! k end.
Proof.
  unfold pick. induction l as [|t l IH] using rev_ind; [done|]. rewrite foldl_snoc, filter_app.
  unfold plan_add at 1. rewrite filter_cons, filter_nil. destruct (IsExcluded c t) eqn:Ee.
  - rewrite decide_False by (by intros [_ ?]). by rewrite app_nil_r.
  - destruct (decide (t_Key t = k)) as [<-|Hk].
    + rewrite decide_True by done. by rewrite last_snoc, lookup_insert_eq.
    + rewrite decide_False by (by intros [? _]). by rewrite app_nil_r, lookup_insert_ne.
Qed.

Lemma insert_all_lookup (l : list Target) k t :
  foldl (fun m tg => <[t_Key tg := tg]> m) (∅ : gmap (list byte) Target) l !! k = Some t -> t ∈ l /\ t_Key t = k.
Proof.
  induction l as [|x l IH] using rev_ind; [done|]. rewrite foldl_snoc. intros Ht. rewrite elem_of_app, list_elem_of_singleton.
  apply lookup_insert_Some in Ht as [[<- <-]|[_ Ht]]; [by split; [right|]|]. apply IH in Ht as [? ?]. by split; [left|].
Qed.

Lemma insert_all_some (l : list Target) t :
  t ∈ l -> is_Some (foldl (fun m tg => <[t_Key tg := tg]> m) (∅ : gmap (list byte) Target) l !! t_Key t).
Proof.
  induction l as [|x l IH] using rev_ind; [by intros ?%elem_of_nil|]. rewrite foldl_snoc.
  rewrite elem_of_app, list_elem_of_singleton. destruct (decide (t_Key x = t_Key t)) as [->|Hne]; [by rewrite lookup_insert_eq|].
  rewrite lookup_insert_ne by done. intros [Ht| ->]; [by apply IH|done].
Qed.

Lemma desired_planned `{YamlCodec Tls.Config} r cfg o k :
  desired_targets r cfg o !! k = planned cfg (discovered r cfg o) k.
Proof.
  unfold desired_targets, Plan. set (auto := discovered r cfg o).
  set (M := foldl (plan_add cfg) (if AutoEnabled cfg then foldl (plan_add cfg) ∅ auto else ∅) (ManualTargets cfg)).
  assert (forall k, M !! k = planned cfg auto k) as HM.
  { intros k0. subst M. rewrite plan_add_lookup. unfold planned. destruct (pick cfg k0 (ManualTargets cfg)); [done|].
    destruct (AutoEnabled cfg); [|done]. rewrite plan_add_lookup. by destruct (pick cfg k0 auto). }
  assert (forall k0 t, M !! k0 = Some t -> t_Key t = k0) as Hkey by (intros k0 t; rewrite HM; by intros (_ & ? & _)%planned_Some).
  rewrite <-HM. clear HM. set (l := (@range (sg_range o) _ M).*2).
  assert (forall t, t ∈ l <-> M !! t_Key t = Some t) as Hl.
  { intros t. subst l. rewrite list_elem_of_fmap. split.
    - intros ([k0 x] & -> & Hx%elem_of_range). cbn [snd]. by rewrite (Hkey _ _ Hx).
    - intros Ht. exists (t_Key t, t). split; [done|]. by apply elem_of_range. }
  destruct (foldl _ ∅ l !! k) as [t|] eqn:E.
  - apply insert_all_lookup in E as [Ht <-]. symmetry. by apply Hl.
  - destruct (M !! k) as [t|] eqn:Em; [|done]. pose proof (Hkey _ _ Em) as <-. apply Hl, insert_all_some in Em as [x Ex].
    by rewrite E in Ex.
Qed.

(** ** The hooks *)

Definition live (s : hookSet) (i : nat) (t : Target) : Prop := hooks s !! i = Some (mkHook t false).

(** The hooks that live are those in [running], each under its key. *)
Definition hooks_inv (s : hookSet) : Prop :=
  forall k t i, running s !! k = Some (mkHookState t i) <-> k = t_Key t /\ live s i t.

Lemma inv_one_live s i j t t' : hooks_inv s -> live s i t -> live s j t' -> t_Key t = t_Key t' -> i = j.
Proof.
  intros Hi Hl Hl' E. assert (running s !! t_Key t = Some (mkHookState t i)) as H1 by (by apply Hi).
  assert (running s !! t_Key t = Some (mkHookState t' j)) as H2 by (by apply Hi). rewrite H1 in H2. by simplify_eq.
Qed.

Lemma cancel_live i s j t : live (cancel i s) j t <-> live s j t /\ j <> i.
Proof.
  unfold live, cancel. cbn. destruct (decide (i = j)) as [->|Hij].
  - rewrite list_lookup_alter_eq. split; [|by intros [_ ?]]. by destruct (hooks s !! j).
  - rewrite list_lookup_alter_ne by done. split; [by split|by intros [? _]].
Qed.

Lemma unhook_spec desired s k hs :
  hooks_inv s -> running s !! k = Some hs ->
  hooks_inv (unhook desired s (k, hs)) /\ length (hooks (unhook desired s (k, hs))) = length (hooks s) /\
  forall k', running (unhook desired s (k, hs)) !! k' =
    if decide (k' = k /\ desired !! k = None) then None else running s !! k'.
Proof.
  intros Hi Hk. unfold unhook. cbn [fst snd]. destruct (desired !! k) as [t|] eqn:Ed.
  { split_and!; [done..|]. intros k'. by rewrite decide_False by (by intros [_ ?]). }
  cbn [running hooks cancel]. rewrite length_alter. split_and!; [|done|].
  - intros k' t i. change (live _ i t) with (live (cancel (hs_cancel hs) s) i t). rewrite cancel_live. cbn [running].
    rewrite lookup_delete_Some. rewrite (Hi k' t i). destruct hs as [t0 i0]. cbn [hs_cancel].
    apply Hi in Hk as [Hk0 Hl0]. split.
    + intros (Hne & -> & Hl). split; [done|]. split; [done|]. intros ->. unfold live in *. rewrite Hl in Hl0. by simplify_eq.
    + intros (-> & Hl & Hne). split; [|done]. intros E. apply Hne. subst k. by eapply inv_one_live.
  - intros k'. destruct (decide (k' = k)) as [->|Hne].
    + rewrite decide_True by done. by rewrite lookup_delete_eq.
    + rewrite decide_False by (by intros [? _]). by rewrite lookup_delete_ne.
Qed.

Lemma unhook_all desired l s :
  hooks_inv s -> NoDup l.*1 -> (forall k hs, (k, hs) ∈ l -> running s !! k = Some hs) ->
  let s' := foldl (unhook desired) s l in
  hooks_inv s' /\ length (hooks s') = length (hooks s) /\
  forall k, running s' !! k = if decide (k ∈ l.*1 /\ desired !! k = None) then None else running s !! k.
Proof.
  revert s. induction l as [|[k hs] l IH]; intros s Hi Hd Hl; cbn [foldl fmap list_fmap fst].
  { split_and!; [done..|]. intros k. rewrite decide_False; [done|]. by intros [?%elem_of_nil _]. }
  cbn in Hd. apply NoDup_cons in Hd as [Hk Hd].
  destruct (unhook_spec desired s k hs Hi) as (Hi1 & Hlen1 & Hr1); [apply Hl; by left|].
  destruct (IH (unhook desired s (k, hs)) Hi1 Hd) as (Hi2 & Hlen2 & Hr2).
  { intros k' hs' Hin. rewrite Hr1, decide_False; [apply Hl; by right|]. intros [-> _]. apply Hk, list_elem_of_fmap. by exists (k, hs'). }
  split_and!; [done|congruence|]. intros k'. rewrite Hr2, Hr1. repeat case_decide; try done; set_solver.
Qed.

Lemma start_spec s k t :
  hooks_inv s -> k = t_Key t ->
  let s' := start_hook false s (k, t) in
  hooks_inv s' /\ (length (hooks s) <= length (hooks s'))%nat /\
  (forall k' hs, running s !! k' = Some hs -> running s' !! k' = Some hs) /\
  (forall k', k' <> k -> running s' !! k' = running s !! k') /\
  (running s !! k = None -> running s' !! k = Some (mkHookState t (length (hooks s)))).
Proof.
  intros Hi ->. unfold start_hook. cbn [fst snd]. destruct (running s !! t_Key t) as [hs|] eqn:E; [by split_and!|].
  cbn [running hooks]. rewrite length_app. split_and!; [|lia|..].
  - intros k' t' i. unfold live. cbn [running hooks]. split.
    + rewrite lookup_insert_Some. intros [[<- [= <- <-]]|[Hne Hk']].
      * split; [done|]. by rewrite lookup_app_r, Nat.sub_diag by done.
      * apply Hi in Hk' as [-> Hl]. split; [done|]. unfold live in Hl. by apply lookup_app_l_Some.
    + intros [-> Hl]. apply lookup_app_Some in Hl as [Hl|[Hge Hl]].
      * assert (running s !! t_Key t' = Some (mkHookState t' i)) as Hr by (by apply Hi). rewrite lookup_insert_ne; [done|].
        intros Ek. by rewrite <-Ek, E in Hr.
      * destruct (i - length (hooks s))%nat as [|n] eqn:Ei; [|done]. injection Hl as <-.
        rewrite lookup_insert_eq. do 2 f_equal. lia.
  - intros k' hs Hk'. rewrite lookup_insert_ne; [done|]. intros Ek. by rewrite <-Ek, E in Hk'.
  - intros k' Hne. by rewrite lookup_insert_ne.
  - intros _. by rewrite lookup_insert_eq.
Qed.

Lemma start_all l s :
  hooks_inv s -> NoDup l.*1 -> (forall k t, (k, t) ∈ l -> k = t_Key t) ->
  let s' := foldl (start_hook false) s l in
  hooks_inv s' /\ (length (hooks s) <= length (hooks s'))%nat /\
  (forall k hs, running s !! k = Some hs -> running s' !! k = Some hs) /\
  (forall k, k ∉ l.*1 -> running s' !! k = running s !! k) /\
  (forall k t, (k, t) ∈ l -> running s !! k = None ->
     exists i, running s' !! k = Some (mkHookState t i) /\ (length (hooks s) <= i)%nat).
Proof.
  revert s. induction l as [|[k t] l IH]; intros s Hi Hd Hl; cbn [foldl fmap list_fmap fst].
  { split_and!; try done. by intros k t ?%elem_of_nil. }
  cbn in Hd. apply NoDup_cons in Hd as [Hk Hd].
  destruct (start_spec s k t Hi) as (Hi1 & Hlen1 & Hr1 & Hn1 & Hs1); [apply Hl; by left|].
  destruct (IH (start_hook false s (k, t)) Hi1 Hd) as (Hi2 & Hlen2 & Hr2 & Hn2 & Hs2); [intros; apply Hl; by right|].
  split_and!; [done|lia|intros; by apply Hr2, Hr1|..].
  - intros k' Hk'. rewrite Hn2 by set_solver. apply Hn1. set_solver.
  - intros k' t' [[= -> ->]|Hin]%elem_of_cons Hnone; [exists (length (hooks s)); split; [by apply Hr2, Hs1|done]|].
    destruct (Hs2 k' t' Hin) as (i & Hri & Hge); [|exists i; split; [done|lia]].
    rewrite Hn1; [done|]. intros ->. apply Hk, list_elem_of_fmap. by exists (k, t').
Qed.

Lemma start_dry l s : foldl (start_hook true) s l = s.
Proof. revert s. induction l as [|[k t] l IH]; intros s; [done|]. cbn. unfold start_hook at 2. cbn. by destruct (running s !! k). Qed.

Lemma discovered_container `{YamlCodec Tls.Config} r cfg o : Forall container_target (discovered r cfg o).
Proof.
  unfold discovered, Discover. destruct (AutoEnabled cfg); [|constructor]. destruct (pr_ReadDir _ _) as [ents|e]; [|constructor].
  apply Forall_forall. intros t. rewrite merge_sort_Permutation, list_elem_of_fmap. intros ([k x] & -> & Hx%elem_of_range).
  apply scan_lookup in Hx as [_ (pre & n & post & _ & Ho & _)]. cbn. by eapply offers_container.
Qed.

(** A key says which container it is of, if that is one of the discovery. *)
Lemma elem_slash_hex c : Forall (fun b => lower_hex b = true) c -> slash ∉ c.
Proof. rewrite Forall_forall. intros Hc Hin. by apply Hc in Hin. Qed.

Lemma key_container c c' lib rest :
  slash ∉ c -> slash ∉ lib -> c ++ slash :: lib = c' ++ slash :: rest -> c = c'.
Proof.
  intros Hc Hlib E. apply app_eq_inv in E as [(k & -> & E)|(k & -> & E)]; destruct k as [|b k]; [by rewrite app_nil_r| |by rewrite app_nil_r|].
  - injection E as <- _. exfalso. apply Hc. set_solver.
  - injection E as <- ->. exfalso. apply Hlib. set_solver.
Qed.

Lemma manual_key c t : t ∈ ManualTargets c -> exists rest, t_Key t = t_Container t ++ slash :: rest.
Proof.
  unfold ManualTargets. rewrite list_elem_of_omap. intros (o & _ & Ho). unfold manual_target in Ho. case_bool_decide; [done|].
  case_bool_decide; case_bool_decide; injection Ho as <-; cbn [t_Key t_Container]; rewrite <-?app_assoc; by eexists.
Qed.

Lemma container_slash t : container_target t -> (slash ∉ t_Container t) /\ (slash ∉ t_Library t).
Proof.
  intros (_ & Hhex & Hlib & _). split; [by apply elem_slash_hex|].
  destruct Hlib as [-> | ->]; apply (bool_decide_unpack _); vm_compute; exact I.
Qed.

Lemma same_container c auto k t t' :
  Forall container_target auto -> planned c auto k = Some t' -> container_target t -> t_Key t = k -> t_Container t = t_Container t'.
Proof.
  intros Ha Hp Hc <-. destruct (container_slash t Hc) as [Hs1 Hs2]. destruct Hc as (_ & _ & _ & Hk & _).
  destruct (planned_Some _ _ _ _ Hp) as (Hin & Ek & _).
  assert (exists rest, t_Key t' = t_Container t' ++ slash :: rest) as [rest Hr].
  { destruct Hin as [Hm|Hd]; [by eapply manual_key|]. rewrite Forall_forall in Ha. destruct (Ha _ Hd) as (_ & _ & _ & -> & _). by eexists. }
  rewrite Hk, Hr in Ek. symmetry in Ek. by eapply key_container.
Qed.

Lemma IsExcluded_container c t t' : t_Container t = t_Container t' -> IsExcluded c t = IsExcluded c t'.
Proof. unfold IsExcluded. by intros ->. Qed.

(** ** Rounds *)

Section Rounds.
Context `{YamlCodec Tls.Config} (r : Reconciler).

Lemma reconcile_inv s o cfg :
  hooks_inv s -> LoadConfig (ConfigPath r) (sg_config o) = Ok cfg -> DryRun r = false ->
  let s' := reconcileOnce r s o in
  hooks_inv s' /\
  forall k, match planned cfg (discovered r cfg o) k with
            | None => running s' !! k = None
            | Some t =>
                match running s !! k with
                | Some hs => running s' !! k = Some hs
                | None => exists i, running s' !! k = Some (mkHookState t i) /\ (length (hooks s) <= i)%nat
                end
            end.
Proof.
  intros Hi Hcfg Hdry. unfold reconcileOnce. rewrite Hcfg, Hdry.
  set (l := @range (sg_range o) _ (running s)). set (d := desired_targets r cfg o).
  destruct (unhook_all d l s Hi) as (Hi1 & Hlen & Hr1); [by apply NoDup_range|by intros k hs ?%elem_of_range|].
  assert (forall k, running s !! k = None -> running (foldl (unhook d) s l) !! k = None) as Hnone
    by (intros k Hk; rewrite Hr1, Hk; by case_decide).
  set (s1 := foldl (unhook d) s l) in *.
  destruct (start_all (@range (sg_range o) _ d) s1 Hi1) as (Hi2 & _ & Hr2 & Hn2 & Hs2); [by apply NoDup_range| |].
  { intros k t Ht%elem_of_range. subst d. rewrite desired_planned in Ht. symmetry. eapply planned_Some, Ht. }
  split; [done|]. intros k. rewrite <-desired_planned. fold d. destruct (d !! k) as [t|] eqn:Ed.
  - destruct (running s !! k) as [hs|] eqn:Ek.
    + apply Hr2. rewrite Hr1, Ed, decide_False by (by intros [_ ?]). done.
    + rewrite <-Hlen. apply Hs2; [by apply elem_of_range|by apply Hnone].
  - rewrite Hn2.
    + rewrite Hr1. destruct (running s !! k) as [hs|] eqn:Ek; [|by case_decide].
      rewrite decide_True; [done|]. split; [|done]. apply list_elem_of_fmap. exists (k, hs). split; [done|]. by apply elem_of_range.
    + intros ([k' t] & E & Hin)%list_elem_of_fmap. cbn in E. subst k'. apply elem_of_range in Hin. by rewrite Ed in Hin.
Qed.

Lemma reconcile_dry s o : DryRun r = true -> s = no_hooks -> reconcileOnce r s o = no_hooks.
Proof.
  intros Hdry ->. unfold reconcileOnce. destruct (LoadConfig _ _) as [cfg|e]; [|done]. rewrite Hdry, start_dry.
  assert (@range (sg_range o) _ (running no_hooks) = []) as ->; [|done].
  apply Permutation_nil. symmetry. rewrite range_perm. unfold no_hooks; cbn [running]. by rewrite map_to_list_empty.
Qed.

Lemma no_hooks_inv : hooks_inv no_hooks.
Proof. intros k t i. unfold live, no_hooks. cbn. rewrite lookup_empty. split; [done|]. by intros [_ ?]. Qed.

Lemma rounds_inv rounds :
  hooks_inv (foldl (reconcileOnce r) no_hooks rounds) /\
  (DryRun r = true -> foldl (reconcileOnce r) no_hooks rounds = no_hooks).
Proof.
  induction rounds as [|o rounds [IH1 IH2]] using rev_ind; [split; [exact no_hooks_inv|done]|]. rewrite foldl_snoc.
  destruct (DryRun r) eqn:Hdry.
  - rewrite reconcile_dry by auto. split; [exact no_hooks_inv|done].
  - split; [|done]. destruct (LoadConfig (ConfigPath r) (sg_config o)) as [cfg|e] eqn:Ec.
    + by eapply reconcile_inv.
    + unfold reconcileOnce. by rewrite Ec.
Qed.

Lemma cancel_all_live order s i t : hooks_inv s -> ~ live (cancel_all order s) i t.
Proof.
  intros Hi. unfold cancel_all.
  assert (forall (l : list (list byte * hookState)) s, live (foldl (fun s e => cancel (hs_cancel e.2) s) s l) i t ->
    live s i t /\ forall k hs, (k, hs) ∈ l -> hs_cancel hs <> i) as Hl.
  { induction l as [|[k hs] l IH]; intros s1; cbn [foldl]; [intros ?; split; [done|by intros ? ? ?%elem_of_nil]|].
    intros (Hl & Hn)%IH. cbn [snd] in Hl. apply cancel_live in Hl as [Hl Hne]. split; [done|].
    intros k' hs' [[= -> ->]|Hin]%elem_of_cons; [by apply not_eq_sym|by eapply Hn]. }
  intros (Hlive & Hn)%Hl. apply (Hn (t_Key t) (mkHookState t i)); [|done]. apply elem_of_range. by apply Hi.
Qed.

(** C21: after any rounds of the reconciler, whatever its overrides and procfs were,
    no key is hooked twice; the next round changes nothing if it cannot read the
    overrides, and otherwise leaves exactly the planned keys hooked: a key that was
    hooked keeps its hook, a new one gets one for its planned target, others are
    cancelled, and no hook lives on in a container that is excluded now.  A dry
    run hooks nothing, and when [Run] returns no hook is left. *)
Theorem reconcile_follows_plan rounds o order :
  let s := foldl (reconcileOnce r) no_hooks rounds in
  let s' := reconcileOnce r s o in
  (forall i j t t', live s' i t -> live s' j t' -> t_Key t = t_Key t' -> i = j) /\
  match LoadConfig (ConfigPath r) (sg_config o) with
  | Err _ => s' = s
  | Ok cfg =>
      if DryRun r then hooks s' = []
      else
        (forall k, match planned cfg (discovered r cfg o) k with
                   | None => forall i t, live s' i t -> t_Key t <> k
                   | Some t => exists i t', live s' i t' /\ t_Key t' = k /\
                       (live s i t' \/ t' = t /\ (length (hooks s) <= i)%nat /\ forall j x, live s j x -> t_Key x <> k)
                   end) /\
        (forall i t, live s' i t -> container_target t -> IsExcluded cfg t = false)
  end /\
  forall mkdir, match Reconciler_Run r mkdir (rounds ++ [o]) (Some order) with
                | (s'', res) => res = Some mkdir /\ forall i t, ~ live s'' i t
                end.
Proof.
  intros s s'. destruct (rounds_inv rounds) as [Hi Hd]. fold s in Hi, Hd.
  destruct (rounds_inv (rounds ++ [o])) as [Hi' _]. rewrite foldl_snoc in Hi'. fold s s' in Hi'. split_and!.
  - intros i j t t' Hl Hl'. by eapply inv_one_live.
  - destruct (LoadConfig (ConfigPath r) (sg_config o)) as [cfg|e] eqn:Ec; [|subst s'; unfold reconcileOnce; by rewrite Ec].
    destruct (DryRun r) eqn:Hdry; [subst s'; by rewrite reconcile_dry by auto|].
    destruct (reconcile_inv s o cfg Hi Ec Hdry) as [_ Hr]. fold s' in Hr. split.
    + intros k. specialize (Hr k). destruct (planned cfg _ k) as [t|].
      * destruct (running s !! k) as [[t' i]|] eqn:Ek.
        -- apply Hi' in Hr as [-> Hl]. exists i, t'. split_and!; [done..|]. left. by apply Hi in Ek as [_ ?].
        -- destruct Hr as (i & Hr & Hge). apply Hi' in Hr as [-> Hl]. exists i, t. split_and!; [done..|]. right. split_and!; [done..|].
           intros j x Hx E. assert (running s !! t_Key x = Some (mkHookState x j)) as Hxr by (by apply Hi). by rewrite E, Ek in Hxr.
      * intros i t Hl E. assert (running s' !! t_Key t = Some (mkHookState t i)) as Ht by (by apply Hi'). by rewrite E, Hr in Ht.
    + intros i t Hl Hct. assert (running s' !! t_Key t = Some (mkHookState t i)) as Ht by (by apply Hi').
      specialize (Hr (t_Key t)). destruct (planned cfg _ (t_Key t)) as [t'|] eqn:Ep; [|by rewrite Ht in Hr].
      rewrite (IsExcluded_container cfg t t'); [by eapply planned_Some|].
      eapply same_container; [apply discovered_container|done..].
  - intros [[]|e]; unfold Reconciler_Run; [|split; [done|]; intros i t; unfold live; by cbn].
    rewrite foldl_snoc. fold s s'. split; [done|]. intros i t. by apply cancel_all_live.
Qed.
End Rounds.

(** ** A hook *)

Definition backoff (n : nat) : Z := second * 2 ^ Z.of_nat (Nat.min n 5).

Lemma backoff_next n : (if backoff n <? 30 * second then backoff n * 2 else backoff n) = backoff (S n).
Proof.
  unfold backoff, second. destruct (Nat.le_gt_cases 5 n) as [Hn|Hn].
  - rewrite !Nat.min_r by lia. reflexivity.
  - assert (n = 0 \/ n = 1 \/ n = 2 \/ n = 3 \/ n = 4)%nat as Hc by lia.
    destruct Hc as [->|[->|[->|[-> | ->]]]]; reflexivity.
Qed.

Definition undisturbed (a : attempt) : Prop := at_before a = false /\ at_after a = false /\ at_wait a = false.

(** The events of the attempts numbered [n], [n + 1], .... *)
Fixpoint retries (t : Target) (klf : list byte) (n m : nat) : list hook_event :=
  match m with O => [] | S m => HStart t klf :: HWait (backoff n) :: retries t klf (S n) m end.

Lemma hook_loop_undisturbed t klf pre n rest :
  Forall undisturbed pre ->
  hook_loop t klf (pre ++ rest) (backoff n) =
    (retries t klf n (length pre) ++ (hook_loop t klf rest (backoff (n + length pre))).1,
     (hook_loop t klf rest (backoff (n + length pre))).2).
Proof.
  revert n. induction pre as [|a pre IH]; intros n Hp.
  { cbn [app length retries]. rewrite Nat.add_0_r. by destruct (hook_loop t klf rest (backoff n)). }
  apply Forall_cons in Hp as [(H1 & H2 & H3) Hp]. cbn [app hook_loop retries length].
  rewrite H1, H2, H3, backoff_next, (IH (S n) Hp), <-Nat.add_succ_comm. reflexivity.
Qed.

(** C39: a hook is started again for as long as nobody cancels it, each time for its
    own target and key file, after a wait that doubles from one second and stays
    below 33; the first round in which its context is cancelled is its last. *)
Theorem runHook_retries r t pre rest :
  Forall undisturbed pre ->
  let klf := hook_file r t in
  (forall n, second <= backoff n < 33 * second) /\
  runHook r t pre = (retries t klf 0 (length pre), false) /\
  forall a, ~ undisturbed a -> exists es,
    runHook r t (pre ++ a :: rest) = (retries t klf 0 (length pre) ++ es, true) /\
    es `prefix_of` [HStart t klf; HWait (backoff (length pre))].
Proof.
  intros Hp klf. unfold runHook. fold klf. change second with (backoff 0) at 3 4. split_and!.
  - intros n. unfold backoff, second. assert (Nat.min n 5 <= 5)%nat as Hn by lia.
    assert (1 <= 2 ^ Z.of_nat (Nat.min n 5) <= 2 ^ 5) as Hb; [|lia].
    split; [change 1 with (2 ^ 0)|]; apply Z.pow_le_mono_r; lia.
  - rewrite <-(app_nil_r pre) at 1. rewrite hook_loop_undisturbed by done. cbn. by rewrite app_nil_r.
  - intros a Ha. rewrite hook_loop_undisturbed by done. cbn [hook_loop Nat.add]. unfold undisturbed in Ha.
    destruct (at_before a), (at_after a), (at_wait a); try (by destruct Ha); cbn [fst snd]; eexists; (split; [reflexivity|]);
      first [apply prefix_nil|by exists []|by exists [HWait (backoff (length pre))]].
Qed.

Lemma runHook_retries_witness :
  let r := mkReconciler NewDiscoverer [] (str "/keylogs") [] false in
  let t := mkTarget (str "mygo/gotls//app/srv") (str "mygo") 0 LibGoTLS (str "/app/srv") [] (str "override") in
  let klf := str "/keylogs/mygo_gotls__app_srv.log" in
  (forall n, second <= backoff n < 33 * second) /\
  runHook r t (replicate 7 (mkAttempt false false false)) = (retries t klf 0 7, false) /\
  forall a, ~ undisturbed a -> exists es,
    runHook r t (replicate 7 (mkAttempt false false false) ++ [a]) = (retries t klf 0 7 ++ es, true) /\
    es `prefix_of` [HStart t klf; HWait (backoff 7)].
Proof.
  intros r t klf. apply (runHook_retries r t (replicate 7 (mkAttempt false false false)) []).
  apply Forall_replicate. done.
Defined.

(** ** Executions *)

(** Overrides as a list of containers with OpenSSL, one byte each. *)
#[local] Instance letters_codec : YamlCodec Tls.Config :=
  {| yaml_Unmarshal b _ := (mkConfig (Some false) [] ((fun c => mkOverrideTarget [c] (str "OpenSSL ") (str "/x/libssl.so") []) <$> b), None) |}.

Definition example_reconciler (dry : bool) : Reconciler :=
  mkReconciler NewDiscoverer (str "/etc/ipcap/tls_targets.yml") (str "/keylogs") [] dry.
Definition example_sight (content : res (list byte)) : sight :=
  mkSight content (mkProcfs (fun _ => Err os_err) (fun _ => Err os_err)) {| range V m := map_to_list m; range_perm V m := reflexivity _ |}.

(** Both services are hooked; an edit of the file drops one of them; a file that
    cannot be read keeps the hooks. *)
Example reconcile_edit :
  (fun h => (t_Container (hk_target h), hk_cancelled h)) <$>
    hooks (foldl (reconcileOnce (example_reconciler false)) no_hooks
             [example_sight (Ok (str "ab")); example_sight (Ok (str "a")); example_sight (Err os_err)]) =
  [(str "b", true); (str "a", false)].
Proof. by vm_compute. Qed.

(** Two targets of different keys can share a key file. *)
Example sanitizeKey_collides : sanitizeKey (str "a:b/openssl") = sanitizeKey (str "a b/openssl").
Proof. reflexivity. Qed.

(** An edit that changes only the cgroup of a target does not reach its hook. *)
Definition cgroup_codec : YamlCodec Tls.Config :=
  {| yaml_Unmarshal b _ := (mkConfig (Some false) [] [mkOverrideTarget (str "svc") LibOpenSSL (str "/x/libssl.so") b], None) |}.

Example stale_hook :
  (fun h => (t_CGroupPath (hk_target h), hk_cancelled h)) <$>
    hooks (foldl (@reconcileOnce cgroup_codec (example_reconciler false)) no_hooks
             [example_sight (Ok (str "/old")); example_sight (Ok (str "/new"))]) = [(str "/old", false)].
Proof. by vm_compute. Qed.
