(* ===== verification/Merge.v ===== *)
(** * The merging of the key files (internal/tls/reconcile.go)

    [mergeLoop] relays the lines that the hooks append to their key files to one
    file, once each.  A hook may write while its file is read: a reader delivers
    what is there at the time of each [ReadAt]. *)

From S2P Require Import Prelude Bytes GoIO Os Conn Keylog Config GoPath Tls Reconcile.

(** [ReadAt] into the buffer: the call's number and its offset give the bytes and
    whether there was an error, [io.EOF] included. *)
Definition tail_reader : Type := nat -> Z -> list byte * bool.

Definition tail_buf : nat := Z.to_nat (64 * 2 ^ 10).

(** A file that is not written while it is read. *)
Definition still_reader (data : list byte) : tail_reader :=
  fun _ off => let chunk := take tail_buf (drop (Z.to_nat off) data) in (chunk, (length chunk <? tail_buf)%nat).

Record mergeState : Type := mkMergeState { ms_off : Z; ms_skipping : bool }.

(** The variables of [mergeTail]; [mg_out] is the relay file, which is only
    appended to: what was sent to it is what it holds. *)
Record merging : Type := mkMerging {
  mg_state : mergeState;
  mg_partial : list byte;
  mg_out : conn;
  mg_seen : gset (list byte)
}.

(** A complete line; [false]: the write failed. *)
Definition relay_line (line : list byte) (out : conn) (seen : gset (list byte)) : bool * conn * gset (list byte) :=
  if Valid line then
    let key := TrimSpace line in
    if bool_decide (key ∈ seen) then (true, out, seen)
    else let '(ok, out) := conn_Write (key ++ [x0a]) out in (ok, out, {[ key ]} ∪ seen)
  else (true, out, seen).

(** The loop over a chunk; every round takes a byte of it at least, so its length
    is fuel enough.  [false]: [mergeTail] returned. *)
Fixpoint merge_chunk (fuel : nat) (chunk : list byte) (v : merging) : bool * merging :=
  let st := mg_state v in
  match fuel, chunk with
  | O, _ | _, [] => (true, v)
  | S fuel, _ =>
      match IndexByte chunk x0a with
      | None =>
          let off := i64 (ms_off st + len chunk) in
          if ms_skipping st then (true, mkMerging (mkMergeState off true) (mg_partial v) (mg_out v) (mg_seen v))
          else
            let partial := mg_partial v ++ chunk in
            if MaxLineLen <? len partial then (true, mkMerging (mkMergeState off true) [] (mg_out v) (mg_seen v))
            else (true, mkMerging (mkMergeState off false) partial (mg_out v) (mg_seen v))
      | Some i =>
          let off := i64 (ms_off st + Z.of_nat (i + 1)) in
          if ms_skipping st then
            merge_chunk fuel (drop (S i) chunk) (mkMerging (mkMergeState off false) (mg_partial v) (mg_out v) (mg_seen v))
          else
            match relay_line (mg_partial v ++ take i chunk) (mg_out v) (mg_seen v) with
            | (false, out, seen) => (false, mkMerging (mkMergeState off false) (mg_partial v) out seen)
            | (true, out, seen) => merge_chunk fuel (drop (S i) chunk) (mkMerging (mkMergeState off false) [] out seen)
            end
      end
  end.

(** The outer loop from the read number [k] on.  [None]: out of fuel. *)
Fixpoint merge_reads (fuel k : nat) (f : tail_reader) (v : merging) : option merging :=
  match fuel with
  | O => None
  | S fuel =>
      let '(chunk, rerr) := f k (ms_off (mg_state v)) in
      match merge_chunk (length chunk) chunk v with
      | (false, v) => Some v
      | (true, v) =>
          if rerr || bool_decide (chunk = []) then
            let st := mg_state v in
            Some (mkMerging (mkMergeState (i64 (ms_off st - len (mg_partial v))) (ms_skipping st)) (mg_partial v) (mg_out v) (mg_seen v))
          else merge_reads fuel (S k) f v
      end
  end.

Definition mergeTail (fuel : nat) (f : tail_reader) (st : mergeState) (out : conn) (seen : gset (list byte)) :
    option (mergeState * conn * gset (list byte)) :=
  match merge_reads fuel 0 f (mkMerging st [] out seen) with
  | None => None
  | Some v => Some (mg_state v, mg_out v, mg_seen v)
  end.

(** The variables of [mergeLoop]. *)
Record merger : Type := mkMerger {
  mr_out : conn;
  mr_seen : gset (list byte);
  mr_states : gmap (list byte) mergeState
}.

(** A file of the directory: its path, and its reader if it could be opened. *)
Definition merge_file (fuel : nat) (m : merger) (file : list byte * res tail_reader) : option merger :=
  let st := default (mkMergeState 0 false) (mr_states m !! file.1) in
  let states := <[file.1 := st]> (mr_states m) in
  match file.2 with
  | Err _ => Some (mkMerger (mr_out m) (mr_seen m) states)
  | Ok f =>
      match mergeTail fuel f st (mr_out m) (mr_seen m) with
      | None => None
      | Some (st, out, seen) => Some (mkMerger out seen (<[file.1 := st]> states))
      end
  end.

(** [files] are those that [filepath.Glob] finds. *)
Fixpoint mergeOnce (fuel : nat) (m : merger) (files : list (list byte * res tail_reader)) : option merger :=
  match files with
  | [] => Some m
  | file :: files => m ← merge_file fuel m file; mergeOnce fuel m files
  end.

(** [relay] is what opening the file for reading gives. *)
Definition loadSeen (relay : res stream) : gset (list byte) :=
  match relay with Err _ => ∅ | Ok br => prime (S (length (st_data br))) br ∅ end.

(** [opened] is the file opened for appending, with what it holds; [ticks] are the
    rounds of the ticker.  [None] in the result: it returned. *)
Fixpoint merge_ticks (fuel : nat) (m : merger) (ticks : list (list (list byte * res tail_reader))) : option merger :=
  match ticks with
  | [] => Some m
  | files :: ticks => m ← mergeOnce fuel m files; merge_ticks fuel m ticks
  end.

Definition mergeLoop (fuel : nat) (r : Reconciler) (relay : res stream) (opened : res conn)
    (ticks : list (list (list byte * res tail_reader))) : option (option merger) :=
  if bool_decide (RelayFile r = []) then Some None
  else
    let seen := loadSeen relay in
    match opened with
    | Err _ => Some None
    | Ok out => Some <$> merge_ticks fuel (mkMerger out seen ∅) ticks
    end.
