(* ===== verification/MergeProps.v ===== *)
(** * The relay file

    Whatever the hooks append and however the ticks find it, the relay holds each
    valid key once, in the order in which its first line was completed. *)

From S2P Require Import Prelude Bytes GoIO Os Conn Keylog Net Config GoPath Tls Reconcile Merge.

(** ** Lines *)

(** [w] is a line of [D] that ends. *)
Definition complete_line (D w : list byte) : Prop :=
  exists ls rest, D = key_file ls ++ w ++ x0a :: rest /\ Forall (fun l => x0a ∉ l) ls /\ (x0a ∉ w).

Lemma key_file_snoc ls l : key_file (ls ++ [l]) = key_file ls ++ l ++ [x0a].
Proof. rewrite key_file_app. unfold key_file at 2. cbn. by rewrite app_nil_r. Qed.

Lemma key_file_cons l ls : key_file (l :: ls) = l ++ x0a :: key_file ls.
Proof. unfold key_file. cbn. by rewrite <-app_assoc. Qed.

Lemma line_cut (l l' r r' : list byte) :
  (x0a ∉ l) -> (x0a ∉ l') -> l ++ x0a :: r = l' ++ x0a :: r' -> l = l' /\ r = r'.
Proof.
  intros Hl Hl' E. pose proof (IndexByte_app l x0a r Hl) as H1. rewrite E, (IndexByte_app l' x0a r' Hl') in H1.
  injection H1 as Hlen. apply app_inj_1 in E as [-> [= ->]]; done.
Qed.

(** A complete line of a text without further lines is one of its lines. *)
Lemma complete_in ls q w :
  Forall (fun l => x0a ∉ l) ls -> (x0a ∉ q) -> complete_line (key_file ls ++ q) w -> w ∈ ls.
Proof.
  intros Hls Hq (ls' & rest & E & Hls' & Hw). revert ls' Hls' E.
  induction Hls as [|l ls Hl Hls IH]; intros ls' Hls' E.
  - exfalso. apply Hq. change (key_file [] ++ q) with q in E. rewrite E. set_solver.
  - rewrite key_file_cons, <-app_assoc in E. cbn [app] in E. destruct Hls' as [|l' ls' Hl' Hls'].
    + change (key_file [] ++ w ++ x0a :: rest) with (w ++ x0a :: rest) in E. apply line_cut in E as [-> _]; [by left|done..].
    + rewrite key_file_cons, <-app_assoc in E. cbn [app] in E. apply line_cut in E as [_ E]; [|done..]. right. by eapply IH.
Qed.

(** ** Keys *)

Lemma fresh_keys_snoc ks W w : fresh_keys ks (W ++ [w]) = fresh_keys ks W ++ fresh_keys (ks ++ fresh_keys ks W) [w].
Proof.
  revert ks. induction W as [|x W IH]; intros ks; [by rewrite app_nil_r|].
  rewrite <-app_comm_cons, fresh_keys_cons, (fresh_keys_cons ks x W), IH. by rewrite <-!app_assoc.
Qed.

Lemma elem_of_fresh_keys ks W k :
  k ∈ ks ++ fresh_keys ks W <-> k ∈ ks \/ exists w, w ∈ W /\ Valid w = true /\ TrimSpace w = k.
Proof.
  revert ks. induction W as [|w W IH]; intros ks; cbn [fresh_keys].
  { rewrite app_nil_r. split; [by left|]. intros [|(w & ?%elem_of_nil & _)]; done. }
  assert (forall P : list byte -> Prop, (exists x, x ∈ w :: W /\ P x) <-> P w \/ exists x, x ∈ W /\ P x) as Hex.
  { intros P. setoid_rewrite elem_of_cons. naive_solver. }
  rewrite Hex. case_decide as Hd.
  - rewrite cons_middle, app_assoc, IH, elem_of_app, list_elem_of_singleton. naive_solver.
  - rewrite IH. split; [naive_solver|]. intros [?|[[Hv <-]|?]]; [by left| |by right]. left.
    destruct (decide (TrimSpace w ∈ ks)); [done|]. by destruct Hd.
Qed.

(** ** The loop over a chunk *)

Section Merge.
Context (ks : list (list byte)).

(** The relay after the complete lines [W]. *)
Definition relayed (W : list (list byte)) (out : conn) (seen : gset (list byte)) : Prop :=
  sent out = key_file (ks ++ fresh_keys ks W) /\ conn_faults out = [] /\ seen = list_to_set (ks ++ fresh_keys ks W).

Lemma relay_line_spec W line out seen :
  relayed W out seen ->
  exists out' seen', relay_line line out seen = (true, out', seen') /\ relayed (W ++ [line]) out' seen'.
Proof.
  intros (Hs & Hf & ->). unfold relayed, relay_line. rewrite fresh_keys_snoc. cbn [fresh_keys].
  destruct (Valid line) eqn:Ev.
  2: { rewrite decide_False by (by intros [? _]). rewrite app_nil_r. do 2 eexists. split; [reflexivity|done]. }
  case_bool_decide as Hin; rewrite elem_of_list_to_set in Hin.
  - rewrite decide_False by (by intros [_ ?]). rewrite app_nil_r. do 2 eexists. split; [reflexivity|done].
  - rewrite decide_True by done. unfold conn_Write. rewrite Hf. do 2 eexists. split; [reflexivity|]. cbn [sent conn_faults].
    split_and!; [|done|].
    + by rewrite Hs, (app_assoc ks), key_file_snoc.
    + rewrite app_assoc, (list_to_set_app_L _ [TrimSpace line]). set_solver.
Qed.

Context (D : list byte) (HD : len D < 2 ^ 63).
Context (Hshort : forall w, complete_line D w -> Valid w = true -> len w <= MaxLineLen).

(** The file [D] is read up to [rest]: the lines [ls] and [q] of the next one. *)
Record reading (ls : list (list byte)) (q rest : list byte) (W : list (list byte)) (v : merging) : Prop := {
  rd_text : D = key_file ls ++ q ++ rest;
  rd_lines : Forall (fun l => x0a ∉ l) ls;
  rd_pending : x0a ∉ q;
  rd_off : ms_off (mg_state v) = len (key_file ls ++ q);
  rd_skip : if ms_skipping (mg_state v) then mg_partial v = [] /\ MaxLineLen < len q else mg_partial v = q;
  rd_relayed : relayed W (mg_out v) (mg_seen v);
  rd_covers : forall w, w ∈ ls -> Valid w = true -> w ∈ W
}.

Lemma advance ls q (chunk rest : list byte) :
  D = key_file ls ++ q ++ chunk ++ rest ->
  i64 (len (key_file ls ++ q) + len chunk) = len (key_file ls ++ q ++ chunk).
Proof.
  intros E. rewrite E in HD. rewrite !len_app in *. pose proof (len_nonneg (key_file ls)).
  pose proof (len_nonneg q). pose proof (len_nonneg chunk). pose proof (len_nonneg rest). rewrite i64_small; lia.
Qed.

(** More of the file is read; the new lines [W'] are complete. *)
Lemma merge_chunk_spec fuel chunk ls q rest W v :
  (length chunk <= fuel)%nat -> reading ls q (chunk ++ rest) W v ->
  exists ls' q' W' v', merge_chunk fuel chunk v = (true, v') /\ reading ls' q' rest (W ++ W') v' /\ Forall (complete_line D) W'.
Proof.
  revert chunk ls q W v. induction fuel as [|fuel IH]; intros chunk ls q W v Hf Hr.
  { destruct chunk; [|cbn in Hf; lia]. exists ls, q, [], v. by rewrite app_nil_r. }
  destruct chunk as [|b chunk0]; [exists ls, q, [], v; by rewrite app_nil_r|].
  set (chunk := b :: chunk0) in *. destruct Hr as [E Hls Hq Hoff Hsk Hrel Hcov].
  assert (merge_chunk (S fuel) chunk v = match IndexByte chunk x0a with
    | None => _ | Some i => _ end) as -> by reflexivity.
  clearbody chunk. clear b chunk0.
  destruct (IndexByte chunk x0a) as [i|] eqn:Ei.
  - apply IndexByte_split in Ei as (k & Ec & Hl & Hk). set (l := take i chunk) in *.
    assert (D = key_file ls ++ (q ++ l) ++ x0a :: k ++ rest) as E1 by (rewrite E, Ec, <-!app_assoc; done).
    assert (x0a ∉ q ++ l) as Hql by set_solver.
    assert (complete_line D (q ++ l)) as Hline by (by exists ls, (k ++ rest)).
    assert (D = key_file (ls ++ [q ++ l]) ++ [] ++ k ++ rest) as E2.
    { rewrite E1, key_file_snoc. by rewrite <-!app_assoc. }
    assert (i64 (ms_off (mg_state v) + Z.of_nat (i + 1)) = len (key_file (ls ++ [q ++ l]) ++ [])) as Hoff2.
    { assert (i < length chunk)%nat as Hlt.
      { pose proof (f_equal length Ec) as El. unfold l in El. rewrite length_app, length_take in El. cbn [length] in El. lia. }
      rewrite Hoff. replace (Z.of_nat (i + 1)) with (len (l ++ [x0a])) by (unfold len, l; rewrite length_app, length_take; cbn; lia).
      rewrite (advance ls q (l ++ [x0a]) (k ++ rest)) by (rewrite E1, <-!app_assoc; done).
      rewrite app_nil_r, key_file_snoc, <-!app_assoc. done. }
    assert (length k <= fuel)%nat as Hkf by (rewrite Hk, length_drop; lia).
    rewrite <-Hk. destruct (ms_skipping (mg_state v)) eqn:Esk.
    + destruct Hsk as [Hp Hlong].
      assert (Valid (q ++ l) <> true) as Hinv.
      { intros Hv. specialize (Hshort _ Hline Hv). rewrite len_app in Hshort. pose proof (len_nonneg l). lia. }
      destruct (IH k (ls ++ [q ++ l]) [] W (mkMerging (mkMergeState (i64 (ms_off (mg_state v) + Z.of_nat (i + 1))) false)
        (mg_partial v) (mg_out v) (mg_seen v))) as (ls' & q' & W' & v' & Hm & Hr' & HW); [done| |by exists ls', q', W', v'].
      split; [done|by apply Forall_app; split; [|constructor]|by intros ?%elem_of_nil|done|done|done|].
      intros w [Hw| ->%list_elem_of_singleton]%elem_of_app Hv; [by apply Hcov|done].
    + rewrite Hsk. destruct (relay_line_spec W (q ++ l) (mg_out v) (mg_seen v) Hrel) as (out' & seen' & -> & Hrel').
      destruct (IH k (ls ++ [q ++ l]) [] (W ++ [q ++ l])
        (mkMerging (mkMergeState (i64 (ms_off (mg_state v) + Z.of_nat (i + 1))) false) [] out' seen'))
        as (ls' & q' & W' & v' & Hm & Hr' & HW); [done| |].
      * split; [done|by apply Forall_app; split; [|constructor]|by intros ?%elem_of_nil|done|done|done|].
        intros w [Hw| ->%list_elem_of_singleton]%elem_of_app Hv; rewrite elem_of_app; [by left; apply Hcov|by right; left].
      * exists ls', q', ((q ++ l) :: W'), v'. split; [done|]. rewrite <-app_assoc in Hr'. by split; [|constructor].
  - assert (x0a ∉ chunk) as Hc.
    { intros Hin. apply list_elem_of_split in Hin as (c1 & c2 & Hc). clear -Ei Hc. revert chunk c2 Ei Hc.
      induction c1 as [|x c1 IHc]; intros c c2 Ei ->; cbn [app IndexByte] in Ei; [done|]. case_decide; [done|].
      destruct (IndexByte (c1 ++ x0a :: c2) x0a) eqn:E2; [done|]. by eapply IHc. }
    assert (x0a ∉ q ++ chunk) as Hqc by set_solver.
    assert (D = key_file ls ++ (q ++ chunk) ++ rest) as E1 by (by rewrite E, <-!app_assoc).
    assert (i64 (ms_off (mg_state v) + len chunk) = len (key_file ls ++ q ++ chunk)) as Hoff2
      by (rewrite Hoff; by apply (advance ls q chunk rest)).
    exists ls, (q ++ chunk), []. rewrite app_nil_r. cbv zeta. destruct (ms_skipping (mg_state v)) eqn:Esk.
    + eexists. split; [reflexivity|]. split; [|constructor]. destruct Hsk as [Hp Hlong].
      split; [done..| |done|done]. cbn. split; [done|]. rewrite len_app. pose proof (len_nonneg chunk). lia.
    + rewrite Hsk. destruct (Z.ltb_spec MaxLineLen (len (q ++ chunk))); (eexists; split; [reflexivity|]; split; [|constructor]); by split.
Qed.

(** ** The file *)

(** A reader delivers bytes of [D] at the offset; it may see all of it. *)
Definition reads_from (f : tail_reader) : Prop := forall k off, exists m, (f k off).1 = take m (drop (Z.to_nat off) D).
Definition reads_all (f : tail_reader) : Prop := forall k off, f k off = still_reader D k off.

(** Between two ticks, with the lines [ls] read. *)
Definition tailed (st : mergeState) (ls W : list (list byte)) : Prop :=
  exists q rest, D = key_file ls ++ q ++ rest /\ Forall (fun l => x0a ∉ l) ls /\ (x0a ∉ q) /\
    ms_off st = len (key_file ls ++ q) /\ (if ms_skipping st then MaxLineLen < len q else q = []) /\
    forall w, w ∈ ls -> Valid w = true -> w ∈ W.

Lemma tailed_more st ls W W' : tailed st ls W -> tailed st ls (W ++ W').
Proof. intros (q & rest & H1 & H2 & H3 & H4 & H5 & H6). exists q, rest. split_and!; [done..|]. intros w Hw Hv. apply elem_of_app. left. by apply H6. Qed.

Lemma merge_reads_spec fuel k f ls q rest W v :
  reads_from f -> (length rest < fuel)%nat -> reading ls q rest W v ->
  exists ls' W' v', merge_reads fuel k f v = Some v' /\ tailed (mg_state v') ls' (W ++ W') /\
    relayed (W ++ W') (mg_out v') (mg_seen v') /\ Forall (complete_line D) W' /\
    (reads_all f -> forall w, complete_line D w -> w ∈ ls').
Proof.
  intros Hfrom. revert k ls q rest W v. induction fuel as [|fuel IH]; intros k ls q rest W v Hf Hr; [lia|]. cbn [merge_reads].
  destruct (f k (ms_off (mg_state v))) as [chunk rerr] eqn:Ef.
  assert (drop (Z.to_nat (ms_off (mg_state v))) D = rest) as Hdrop.
  { rewrite (rd_off _ _ _ _ _ Hr). unfold len. rewrite Nat2Z.id. rewrite (rd_text _ _ _ _ _ Hr). by rewrite app_assoc, drop_app_length. }
  assert (exists rest', rest = chunk ++ rest' /\ (reads_all f -> rerr = true \/ chunk = [] -> rest' = [])) as (rest' & -> & Hall).
  { destruct (Hfrom k (ms_off (mg_state v))) as [m Hm]. rewrite Ef, Hdrop in Hm. cbn [fst] in Hm. exists (drop m rest).
    split; [by rewrite Hm, take_drop|]. intros Ha Hend. specialize (Ha k (ms_off (mg_state v))). rewrite Ef in Ha.
    unfold still_reader in Ha. rewrite Hdrop in Ha. injection Ha as Hc Hr'. 
    assert (chunk = rest) as Hcr.
    { rewrite Hc. apply take_ge. destruct Hend as [->|Hnil].
      - symmetry in Hr'. apply Nat.ltb_lt in Hr'. rewrite length_take in Hr'. lia.
      - rewrite Hnil in Hc. symmetry in Hc. apply (f_equal length) in Hc. rewrite length_take in Hc. cbn [length] in Hc.
        assert (0 < tail_buf)%nat by (unfold tail_buf; lia). lia. }
    rewrite Hcr in Hm. apply (f_equal length) in Hm. rewrite length_take in Hm. apply drop_ge. lia. }
  destruct (merge_chunk_spec (length chunk) chunk ls q rest' W v (le_n _) Hr) as (ls' & q' & W' & v' & -> & Hr' & HW).
  destruct (rerr || bool_decide (chunk = [])) eqn:Eend.
  - exists ls', W'. eexists. split; [reflexivity|]. cbn [mg_state mg_out mg_seen]. destruct Hr' as [E Hls Hq Hoff Hsk Hrel Hcov].
    split_and!; [|done..|].
    + unfold tailed. cbn [ms_off ms_skipping]. destruct (ms_skipping (mg_state v')).
      * destruct Hsk as [-> Hlong]. exists q', rest'. rewrite len_nil, Z.sub_0_r. split_and!; [done..| |done|done].
        rewrite Hoff. apply i64_small. rewrite E, !len_app in HD. rewrite len_app.
        pose proof (len_nonneg (key_file ls')). pose proof (len_nonneg q'). pose proof (len_nonneg rest'). lia.
      * exists [], (q' ++ rest'). rewrite Hsk, Hoff, app_nil_r. split_and!; [done..|by intros ?%elem_of_nil| |done|done].
        rewrite E, !len_app in HD. rewrite len_app. pose proof (len_nonneg (key_file ls')). pose proof (len_nonneg q').
        pose proof (len_nonneg rest'). rewrite i64_small; lia.
    + intros Ha w Hw. assert (rest' = []) as ->.
      { apply (Hall Ha). apply orb_true_iff in Eend as [|Hn%bool_decide_eq_true]; [by left|by right]. }
      rewrite app_nil_r in E. rewrite E in Hw. by eapply complete_in.
  - apply orb_false_iff in Eend as [_ Hn%bool_decide_eq_false].
    destruct (IH (S k) ls' q' rest' (W ++ W') v') as (ls2 & W2 & v2 & -> & Ht & Hrel & HW2 & Hc2); [|done|].
    + rewrite length_app in Hf. destruct chunk; [done|]. cbn in Hf. lia.
    + exists ls2, (W' ++ W2), v2. rewrite app_assoc. split_and!; [done..| |done]. by apply Forall_app.
Qed.

Lemma mergeTail_spec fuel f st ls W out seen :
  reads_from f -> (length D < fuel)%nat -> tailed st ls W -> relayed W out seen ->
  exists ls' W' st' out' seen', mergeTail fuel f st out seen = Some (st', out', seen') /\
    tailed st' ls' (W ++ W') /\ relayed (W ++ W') out' seen' /\ Forall (complete_line D) W' /\
    (reads_all f -> forall w, complete_line D w -> w ∈ ls').
Proof.
  intros Hfrom Hf (q & rest & E & Hls & Hq & Hoff & Hsk & Hcov) Hrel. unfold mergeTail.
  destruct (merge_reads_spec fuel 0 f ls q rest W (mkMerging st [] out seen)) as (ls' & W' & v' & -> & Ht & Hr & HW & Hc); [done| | |].
  - rewrite E, !length_app in Hf. lia.
  - split; [done..| |done|done]. cbn. by destruct (ms_skipping st).
  - by exists ls', W', (mg_state v'), (mg_out v'), (mg_seen v').
Qed.
End Merge.

(** ** The files of the directory *)

Lemma TrimSpace_elem c l : c ∈ TrimSpace l -> c ∈ l.
Proof.
  assert (forall fuel s, c ∈ trim_left_fuel fuel s -> c ∈ s) as Hl.
  { induction fuel as [|fuel IH]; intros s; cbn [trim_left_fuel]; [done|]. destruct (space_prefix s); [done|].
    intros Hin%IH. rewrite <-(take_drop (S n) s). apply elem_of_app. by right. }
  assert (forall fuel s, c ∈ trim_right_fuel fuel s -> c ∈ s) as Hr.
  { induction fuel as [|fuel IH]; intros s; cbn [trim_right_fuel]; [done|]. destruct (space_suffix s); [done|].
    intros Hin%IH. rewrite <-(take_drop (length s - S n) s). apply elem_of_app. by left. }
  unfold TrimSpace. intros Hin. by eapply Hl, Hr.
Qed.

Section Files.
Context (ks : list (list byte)).
Context (D : list byte -> list byte) (HD : forall fp, len (D fp) < 2 ^ 63).
Context (Hshort : forall fp w, complete_line (D fp) w -> Valid w = true -> len w <= MaxLineLen).
Context (fuel : nat) (Hfuel : forall fp, (length (D fp) < fuel)%nat).

Definition file_from (file : list byte * res tail_reader) : Prop :=
  forall f, file.2 = Ok f -> reads_from (D file.1) f.

Definition merger_inv (m : merger) (W : list (list byte)) : Prop :=
  relayed ks W (mr_out m) (mr_seen m) /\ Forall (fun w => exists fp, complete_line (D fp) w) W /\
  forall fp, exists ls, tailed (D fp) (default (mkMergeState 0 false) (mr_states m !! fp)) ls W.

(** The lines of [file] are among [W], if its reader sees it all. *)
Definition relays_all (W : list (list byte)) (file : list byte * res tail_reader) : Prop :=
  forall f, file.2 = Ok f -> reads_all (D file.1) f ->
  forall w, complete_line (D file.1) w -> Valid w = true -> w ∈ W.

Lemma relays_all_more W W' files : Forall (relays_all W) files -> Forall (relays_all (W ++ W')) files.
Proof. intros Hf. eapply Forall_impl; [exact Hf|]. intros file Hr f Hfile Ha w Hw Hv. apply elem_of_app. left. by eapply Hr. Qed.

Lemma merge_file_spec m W file :
  merger_inv m W -> file_from file ->
  exists m' W', merge_file fuel m file = Some m' /\ merger_inv m' (W ++ W') /\ relays_all (W ++ W') file.
Proof.
  intros (Hrel & HW & Hst) Hfrom. destruct file as [fp [f|e]]; unfold merge_file; cbn [fst snd].
  - destruct (Hst fp) as [ls Ht].
    destruct (mergeTail_spec ks (D fp) (HD fp) (Hshort fp) fuel f _ ls W _ _ (Hfrom f eq_refl) (Hfuel fp) Ht Hrel)
      as (ls' & W' & st' & out' & seen' & -> & Ht' & Hrel' & HW' & Hall).
    eexists _, W'. split; [reflexivity|]. split; [split; [exact Hrel'|split]|]; cbn [mr_out mr_seen mr_states].
    + apply Forall_app. split; [done|]. eapply Forall_impl; [exact HW'|]. intros w Hw. by exists fp.
    + intros fp'. destruct (decide (fp' = fp)) as [->|Hne]; [exists ls'; by rewrite lookup_insert_eq|].
      rewrite !lookup_insert_ne by done. destruct (Hst fp') as [ls2 Ht2]. exists ls2. by apply tailed_more.
    + intros f' [= <-] Ha w Hw Hv. cbn [fst] in *. destruct Ht' as (q & rest & _ & _ & _ & _ & _ & Hcov). apply Hcov; [by apply Hall|done].
  - eexists _, []. rewrite app_nil_r. split; [reflexivity|]. split; [|done].
    split; [exact Hrel|split; [exact HW|]]. cbn [mr_states]. intros fp'. destruct (decide (fp' = fp)) as [->|Hne]; [rewrite lookup_insert_eq; apply Hst|]. rewrite lookup_insert_ne by done. apply Hst.
Qed.

Lemma mergeOnce_spec files m W :
  merger_inv m W -> Forall file_from files ->
  exists m' W', mergeOnce fuel m files = Some m' /\ merger_inv m' (W ++ W') /\ Forall (relays_all (W ++ W')) files.
Proof.
  revert m W. induction files as [|file files IH]; intros m W Hm Hf; [exists m, []; by rewrite app_nil_r|].
  apply Forall_cons in Hf as [Hf Hfs]. cbn [mergeOnce]. destruct (merge_file_spec m W file Hm Hf) as (m1 & W1 & -> & Hm1 & Hr1).
  cbn [mbind option_bind]. destruct (IH m1 (W ++ W1) Hm1 Hfs) as (m2 & W2 & -> & Hm2 & Hr2). exists m2, (W1 ++ W2). rewrite app_assoc.
  split_and!; [done..|]. constructor; [|done]. by apply Forall_singleton, relays_all_more, Forall_singleton.
Qed.

Lemma merge_ticks_spec ticks m W :
  merger_inv m W -> Forall (Forall file_from) ticks ->
  exists m' W', merge_ticks fuel m ticks = Some m' /\ merger_inv m' (W ++ W') /\ Forall (Forall (relays_all (W ++ W'))) ticks.
Proof.
  revert m W. induction ticks as [|files ticks IH]; intros m W Hm Hf; [exists m, []; by rewrite app_nil_r|].
  apply Forall_cons in Hf as [Hf Hfs]. cbn [merge_ticks]. destruct (mergeOnce_spec files m W Hm Hf) as (m1 & W1 & -> & Hm1 & Hr1).
  cbn [mbind option_bind]. destruct (IH m1 (W ++ W1) Hm1 Hfs) as (m2 & W2 & -> & Hm2 & Hr2). exists m2, (W1 ++ W2). rewrite app_assoc.
  split_and!; [done..|]. constructor; [|done]. by apply relays_all_more.
Qed.

Lemma merger_start out seen :
  relayed ks [] out seen -> merger_inv (mkMerger out seen ∅) [].
Proof.
  intros Hr. split; [exact Hr|split; [constructor|]]. intros fp. exists []. cbn [mr_states]. rewrite lookup_empty. exists [], (D fp).
  split_and!; [done|constructor|by intros ?%elem_of_nil|done|done|]. by intros w ?%elem_of_nil.
Qed.
End Files.

(** The relay file, as it is found: absent, or with the keys [ks]. *)
Definition relay_holds (relay : res stream) (ks : list (list byte)) : Prop :=
  relay = Ok (Stream (key_file ks) io_EOF) \/ ks = [] /\ exists e, relay = Err e.

Lemma loadSeen_keys relay ks : Forall canonical ks -> relay_holds relay ks -> loadSeen relay = list_to_set ks.
Proof.
  intros Hks [->|[-> [e ->]]]; [|done]. unfold loadSeen. cbn [st_data]. rewrite prime_keys; [set_solver|done|lia].
Qed.

(** C20: the merging of the key files, over any ticks, with files that the hooks
    append to while they are read, files that vanish, and after any restart: the
    relay keeps its keys and gets, in the order of the lines [W] that were
    completed, each valid key once; it never holds a malformed or repeated key or
    one that no file has, and once a tick saw the whole of a file all its valid
    keys are in the relay.  The files' valid lines are assumed not to be padded
    beyond the limit, where the chunks they arrive in would matter. *)
Theorem merge_relays_once r ks D fuel relay ticks :
  RelayFile r <> [] -> relay_holds relay ks -> Forall canonical ks -> NoDup ks ->
  (forall fp, len (D fp) < 2 ^ 63 /\ (length (D fp) < fuel)%nat) ->
  (forall fp w, complete_line (D fp) w -> Valid w = true -> len w <= MaxLineLen) ->
  Forall (Forall (file_from D)) ticks ->
  exists m W, mergeLoop fuel r relay (Ok (mkConn (key_file ks) [])) ticks = Some (Some m) /\
    sent (mr_out m) = key_file (ks ++ fresh_keys ks W) /\
    Forall canonical (ks ++ fresh_keys ks W) /\ NoDup (ks ++ fresh_keys ks W) /\
    (forall w, w ∈ W -> exists fp, complete_line (D fp) w) /\
    forall tick fp f w, tick ∈ ticks -> (fp, Ok f) ∈ tick -> reads_all (D fp) f ->
      complete_line (D fp) w -> Valid w = true -> TrimSpace w ∈ ks ++ fresh_keys ks W.
Proof.
  intros Hr Hrelay Hks Hnd HD Hshort Hticks. unfold mergeLoop. rewrite bool_decide_false by done.
  rewrite (loadSeen_keys relay ks Hks Hrelay).
  destruct (merge_ticks_spec ks D (fun fp => proj1 (HD fp)) Hshort fuel (fun fp => proj2 (HD fp)) ticks
    (mkMerger (mkConn (key_file ks) []) (list_to_set ks) ∅) []) as (m & W & Hm & (Hrel & HW & _) & Hall).
  { apply merger_start. unfold relayed. cbn [fresh_keys sent conn_faults]. by rewrite !app_nil_r. }
  { done. }
  cbn [app] in *. rewrite Hm. exists m, W. rewrite Forall_forall in HW. split; [done|].
  assert (Forall single_line W) as Hsl.
  { apply Forall_forall. intros w Hw. destruct (HW w Hw) as (fp & ls & rest & _ & _ & Hn). intros Hin. by apply Hn, TrimSpace_elem. }
  destruct (fresh_keys_canonical ks W Hks Hnd Hsl) as [Hc Hd]. split_and!; [apply Hrel|done..|].
  intros tick fp f w Ht Hfile Ha Hw Hv. apply elem_of_fresh_keys. right. exists w. split_and!; [|done..].
  rewrite Forall_forall in Hall. specialize (Hall tick Ht). rewrite Forall_forall in Hall. by eapply (Hall _ Hfile f).
Qed.

(** ** Executions *)

Lemma still_reads_from data D : data `prefix_of` D -> reads_from D (still_reader data).
Proof.
  intros [z ->] k off. cbn [still_reader fst]. set (n := Z.to_nat off).
  exists (Nat.min tail_buf (length (drop n data))). rewrite drop_app, take_app_le by lia.
  destruct (Nat.le_ge_cases tail_buf (length (drop n data))); [by rewrite Nat.min_l|].
  rewrite Nat.min_r by done. rewrite take_ge by done. by rewrite take_ge.
Qed.

Definition merge_key (c : byte) : list byte :=
  str "CLIENT_RANDOM " ++ replicate 64 c ++ x20 :: replicate 96 c.

(** Two files with a key in common, one with garbage that is too long and a line
    that does not end. *)
Definition merge_lines (fp : list byte) : list (list byte) :=
  if bool_decide (fp = str "/keylogs/a.log") then [merge_key x61; str "# comment"; merge_key x62 ++ [x0d]]
  else if bool_decide (fp = str "/keylogs/b.log") then [replicate 400 x30; merge_key x61; merge_key x63]
  else [].
Definition merge_rest (fp : list byte) : list byte :=
  if bool_decide (fp = str "/keylogs/b.log") then str "CLIENT_RANDOM 00" else [].
Definition merge_data (fp : list byte) : list byte := key_file (merge_lines fp) ++ merge_rest fp.

(** At the first tick only a part is there, and [b.log] cannot be opened at the second. *)
Definition example_tick (n : nat) (b : bool) : list (list byte * res tail_reader) :=
  [(str "/keylogs/a.log", Ok (still_reader (take n (merge_data (str "/keylogs/a.log")))));
   (str "/keylogs/b.log", if b then Ok (still_reader (take n (merge_data (str "/keylogs/b.log")))) else Err os_err)].
Definition merge_example_ticks := [example_tick 300 true; example_tick 400 false; example_tick 1000 true].
Definition merge_example_reconciler : Reconciler :=
  mkReconciler NewDiscoverer [] (str "/keylogs") (str "/var/lib/ipcap/ssl_keys.log") false.

(** Every key once, in the order in which they were complete. *)
Example merge_example :
  match mergeLoop 2000 merge_example_reconciler (Ok (Stream (key_file [merge_key x30]) io_EOF))
          (Ok (mkConn (key_file [merge_key x30]) [])) merge_example_ticks with
  | Some (Some m) => sent (mr_out m) = key_file [merge_key x30; merge_key x61; merge_key x62; merge_key x63]
  | _ => False
  end.
Proof. vm_compute. reflexivity. Qed.

Lemma merge_relays_once_witness :
  exists m W, mergeLoop 2000 merge_example_reconciler (Ok (Stream (key_file [merge_key x30]) io_EOF))
      (Ok (mkConn (key_file [merge_key x30]) [])) merge_example_ticks = Some (Some m) /\
    sent (mr_out m) = key_file ([merge_key x30] ++ fresh_keys [merge_key x30] W) /\
    Forall canonical ([merge_key x30] ++ fresh_keys [merge_key x30] W) /\ NoDup ([merge_key x30] ++ fresh_keys [merge_key x30] W) /\
    (forall w, w ∈ W -> exists fp, complete_line (merge_data fp) w) /\
    forall tick fp f w, tick ∈ merge_example_ticks -> (fp, Ok f) ∈ tick -> reads_all (merge_data fp) f ->
      complete_line (merge_data fp) w -> Valid w = true -> TrimSpace w ∈ [merge_key x30] ++ fresh_keys [merge_key x30] W.
Proof.
  apply (merge_relays_once merge_example_reconciler [merge_key x30] merge_data 2000); [discriminate|by left| | | | |].
  - apply (bool_decide_unpack _). vm_compute. exact I.
  - apply (bool_decide_unpack _). vm_compute. exact I.
  - assert (forall fp, (length (merge_data fp) < 2000)%nat) as Hl.
    { intros fp. unfold merge_data, merge_lines, merge_rest. repeat case_bool_decide; apply (bool_decide_unpack _); vm_compute; exact I. }
    intros fp. specialize (Hl fp). unfold len. lia.
  - intros fp w Hw Hv. assert (w ∈ merge_lines fp) as Hin.
    { apply (complete_in (merge_lines fp) (merge_rest fp)); [..|exact Hw]; unfold merge_lines, merge_rest;
        repeat case_bool_decide; apply (bool_decide_unpack _); vm_compute; exact I. }
    assert (Forall (fun w => Valid w = true -> len w <= MaxLineLen) (merge_lines fp)) as Hall.
    { unfold merge_lines. repeat case_bool_decide; apply (bool_decide_unpack _); vm_compute; exact I. }
    rewrite Forall_forall in Hall. by apply Hall.
  - assert (forall n b, Forall (file_from merge_data) (example_tick n b)) as Ht.
    { intros n b. unfold example_tick. constructor; [|constructor; [|constructor]]; intros f; cbn [fst snd].
      - intros [= <-]. apply still_reads_from, prefix_take.
      - destruct b; [|done]. intros [= <-]. apply still_reads_from, prefix_take. }
    constructor; [apply Ht|constructor; [apply Ht|constructor; [apply Ht|constructor]]].
Defined.

(** A key behind more blanks than a line may have is relayed if it is read at once,
    and dropped if a tick sees its beginning alone. *)
Definition padded_key : list byte := replicate 300 x20 ++ merge_key x61 ++ [x0a].

Example padded_at_once :
  (fun r => sent r.1.2) <$> mergeTail 1000 (still_reader padded_key) (mkMergeState 0 false) (mkConn [] []) ∅ =
  Some (merge_key x61 ++ [x0a]).
Proof. vm_compute. reflexivity. Qed.

Example padded_in_parts :
  match mergeTail 1000 (still_reader (take 290 padded_key)) (mkMergeState 0 false) (mkConn [] []) ∅ with
  | Some (st, out, seen) => (fun r => sent r.1.2) <$> mergeTail 1000 (still_reader padded_key) st out seen
  | None => None
  end = Some [].
Proof. vm_compute. reflexivity. Qed.
