(* ===== verification/Cli.v ===== *)
(** * The command line (cmd/ipcap/main.go)

    The defaults of the flags, and what the commands do in front of the nodes they
    run.  Paths and addresses are left out where the nodes do not look at them. *)

From S2P Require Import Prelude Bytes GoIO Proto Os Json Net Conn Streamer Noise NoiseProps Keys Excluder Capture Mirror Serve Tls Reconcile Demux Config Session SessionProps.

(** ** Flags *)

Definition tls_flags : Reconciler :=
  mkReconciler NewDiscoverer (str "/etc/ipcap/tls_targets.yml") (str "/var/lib/ipcap/keylogs")
    (str "/var/lib/ipcap/ssl_keys.log") false.

Definition capture_flags : CaptureOptions := mkCaptureOptions 1 65536 [7878] [] (48 * 2 ^ 30) (64 * 2 ^ 20).

Definition no_key : Keypair := mkKeypair [] [].

(** No keylog file is named. *)
Definition listen_flags : ListenOptions := mkListenOptions 1 [] true NoKeylog no_key [].

Definition collector_flags : Options := mkOptions 1 [] [] 0 [] 65536 no_key.

(** The source, the snap length and the link type of [recover]. *)
Definition recover_flags : Z * Z * Z := (1, 65536, 1).

(** ** Commands *)

Section Commands.
Context `{CurveLib}.

(** [agentListenCmd]: the options it runs the listener with; [keyFile] is what
    reading the key file returns. *)
Definition listen_options (keyFile : res (list byte)) (peerB64s : list (list byte)) (opts : ListenOptions) : res ListenOptions :=
  key ← LoadPrivateKeyFile keyFile;
  peers ← ParsePublicKeys peerB64s;
  Ok (mkListenOptions (lo_SrcID opts) (lo_SrcName opts) (lo_Compress opts) (lo_KeylogFile opts) key peers).

Definition agentListenCmd (keyFile : res (list byte)) (peerB64s : list (list byte)) (opts : ListenOptions)
    (listened : res unit) (accepts : list (res rawconn * bool)) : list rawconn * option (res unit) :=
  match listen_options keyFile peerB64s opts with
  | Err e => ([], Some (Err e))
  | Ok opts => RunListen opts listened accepts
  end.

(** [collectorCmd]. *)
Definition collector_options (keyFile : res (list byte)) (opts : Options) : res Options :=
  key ← LoadPrivateKeyFile keyFile;
  Ok (mkOptions (op_SrcID opts) (op_SrcName opts) (op_MetricsAddr opts) (op_NoisePort opts) (op_SSLKeylogF opts)
        (op_Snaplen opts) key).
End Commands.

(** The flags agree on the port of the link, and the capture leaves it out. *)
Example drain_port_excluded `{LinkTypes} linkType :
  DefaultNoisePort ∈ ports (NewExcluder linkType (co_ExcludePorts capture_flags) (co_Mgmt capture_flags)).
Proof. apply (bool_decide_unpack _). vm_compute. exact I. Qed.

(** ** A deployment *)

Section Deployment.
Context `{CurveLaws} `{!NoiseLib} `{!NoiseLaws} `{!HandshakeLaws}.

(** Keygen makes genuine keypairs. *)
Lemma generated_genuine rd k : GenerateKeypair rd = Ok k -> genuine k.
Proof.
  intros Hg. destruct (Generate_sizes rd k Hg) as [Hs _]. unfold genuine, keypairFromPrivate.
  rewrite Hs, (Generate_public rd k Hg). by destruct k.
Qed.

(** C22: a deployment from keygen to the first batch.  Of two keypairs made by
    keygen, each node is given its own key file and, on the command line or in the
    configuration, the other's public key as keygen printed it, and both can draw
    ephemeral keys.  Then both
    commands accept their keys; the collector reaches the agent over a wire that
    does not fail, and the agent serves it from the commit point it asks for. *)
Theorem deployment_serves rda rdc outa outc filea filec printa printc opts lopts rd rd' hi hr resume :
  keygenCmd rda outa (Ok ()) = Ok (Some filea, printa) -> keygenCmd rdc outc (Ok ()) = Ok (Some filec, printc) ->
  is_uint 16 (op_SrcID opts) -> is_uint 64 resume -> enough rd -> enough rd' ->
  (forall ka kc, GenerateKeypair rda = Ok ka -> GenerateKeypair rdc = Ok kc ->
     NewHandshakeState (mkHandshakeConfig rd true kc (Public ka)) = Ok hi /\
     NewHandshakeState (mkHandshakeConfig rd' false ka []) = Ok hr) ->
  exists texta textc o pub,
    printa = str "public key: " ++ texta ++ [x0a] /\ printc = str "public key: " ++ textc ++ [x0a] /\
    collector_options (Ok filec) opts = Ok o /\ ParsePublicKey texta = Ok pub /\
    exists lo, listen_options (Ok filea) [textc] lopts = Ok lo /\
    (forall listened accepts, agentListenCmd (Ok filea) [textc] lopts listened accepts = RunListen lo listened accepts) /\
    exists m2, forall vb dial k' e' e,
      (forall ip port, dial ip port = Ok (mkRaw (Stream (framed m2 ++ k') e') (mkConn [] []))) ->
      let opened := open_session o vb pub resume rd dial in
      opened.2 = true /\
      match opened.1 with
      | Err er => exists s q, (Encrypt s q).1 = Err er
      | Ok cc =>
          let raw := mkRaw (Stream (sent (raw_out (c_raw cc))) e) (mkConn [] []) in
          exists so conn, accept_session rd' lo raw = Some (so, Stream [] e, conn) /\
            so_Resume so = resume /\ so_SrcID so = lo_SrcID lopts /\
            linked (c_send conn) (c_recv cc)
      end.
Proof.
  intros Ha Hc Hsrc Hres Hrd Hrd' Hh.
  destruct (keygen_read _ _ _ _ [] Ha (Forall_nil_2 _)) as (ka & texta & Hga & Hla & Hpa & Hta).
  destruct (keygen_read _ _ _ _ [] Hc (Forall_nil_2 _)) as (kc & textc & Hgc & Hlc & Hpc & Htc).
  change (text_lines [] ++ filea) with filea in Hla. change (text_lines [] ++ filec) with filec in Hlc.
  destruct (Hh ka kc Hga Hgc) as [Hi Hr]. destruct (Generate_sizes rda ka Hga) as [_ Hlen].
  destruct (Hta texta eq_refl) as [Hpub _]. destruct (Htc textc eq_refl) as [_ Hpeer].
  exists texta, textc. do 2 eexists. split; [exact Hpa|]. split; [exact Hpc|].
  split; [unfold collector_options; by rewrite Hlc|]. split; [exact Hpub|].
  eexists. split; [unfold listen_options; rewrite Hla, Hpeer; reflexivity|].
  split; [intros; unfold agentListenCmd, listen_options; by rewrite Hla, Hpeer|].
  set (o := mkOptions _ _ _ _ _ _ kc). set (lo := mkListenOptions _ _ _ _ ka _).
  destruct (session_opens rd rd' o lo hi hr resume (generated_genuine _ _ Hgc) (generated_genuine _ _ Hga) Hrd Hrd' Hi Hr Hlen Hsrc Hres) as [m2 Hm].
  exists m2. intros vb dial k' e' e Hdial. specialize (Hm vb dial k' e' e Hdial). destruct Hm as [Hre Hm]. split; [exact Hre|].
  change (Public (lo_Key lo)) with (Public ka) in Hm.
  destruct (open_session o vb (Public ka) resume rd dial).1 as [cc|er]; [|exact Hm].
  destruct Hm as [_ Hm]. destruct (Hm ltac:(left)) as (so & conn & Hs & Hso & Hid & _ & Hl).
  exists so, conn. by split_and!.
Qed.
End Deployment.

(** Two keypairs of the toy curve, over the ideal cipher for a session at 42. *)
#[local] Existing Instances reverse_curve reverse_laws.
#[local] Instance deployed_noise : NoiseLib := ideal_noise_of [Frame_AppendTo (resume_frame 1 42) []].
#[local] Instance deployed_laws : NoiseLaws := ideal_laws_of _.
#[local] Instance deployed_handshake : HandshakeLaws := ideal_handshake_of _.

Definition other_random : list byte := byte_of_Z <$> seqZ 100 32.
Definition made_key (random : list byte) : Keypair := match GenerateKeypair random with Ok k => k | Err _ => no_key end.
Definition made (random : list byte) : list byte * list byte :=
  match keygenCmd random (str "key") (Ok ()) with Ok (Some f, p) => (f, p) | _ => ([], []) end.

Lemma deployment_serves_witness :
  exists texta textc o pub,
    (made example_random).2 = str "public key: " ++ texta ++ [x0a] /\ (made other_random).2 = str "public key: " ++ textc ++ [x0a] /\
    collector_options (Ok (made other_random).1) collector_flags = Ok o /\ ParsePublicKey texta = Ok pub /\
    exists lo, listen_options (Ok (made example_random).1) [textc] listen_flags = Ok lo /\
    (forall listened accepts, agentListenCmd (Ok (made example_random).1) [textc] listen_flags listened accepts = RunListen lo listened accepts) /\
    exists m2, forall vb dial k' e' e,
      (forall ip port, dial ip port = Ok (mkRaw (Stream (framed m2 ++ k') e') (mkConn [] []))) ->
      let opened := open_session o vb pub 42 ideal_random dial in
      opened.2 = true /\
      match opened.1 with
      | Err er => exists s q, (Encrypt s q).1 = Err er
      | Ok cc =>
          let raw := mkRaw (Stream (sent (raw_out (c_raw cc))) e) (mkConn [] []) in
          exists so conn, accept_session ideal_random lo raw = Some (so, Stream [] e, conn) /\
            so_Resume so = 42 /\ so_SrcID so = 1 /\ linked (c_send conn) (c_recv cc)
      end.
Proof.
  apply (@deployment_serves reverse_curve reverse_laws deployed_noise deployed_laws deployed_handshake example_random other_random (str "key") (str "key") (made example_random).1 (made other_random).1
    (made example_random).2 (made other_random).2 collector_flags listen_flags ideal_random ideal_random
    (mkHandshakeConfig ideal_random true (made_key other_random) (Public (made_key example_random)), Public (made_key example_random))
    (mkHandshakeConfig ideal_random false (made_key example_random) [], []) 42); try (vm_compute; by split); try (vm_compute; reflexivity); try (vm_compute; discriminate).
  intros ka kc Ha Hc.
  assert (ka = made_key example_random) as -> by (unfold made_key; by rewrite Ha).
  assert (kc = made_key other_random) as -> by (unfold made_key; by rewrite Hc). vm_compute. by split.
Defined.
